(* ===== verification/_CoqProject ===== *)
-Q . S2P
Prelude.v
IrTypes.v
IrOpcode.v
IrContext.v
IrBuild.v
Optimize.v
IrSem.v
OptimizeProof.v
OptimizeTidy.v
Liveness.v
Tb.v
CodeBuffer.v
TbStore.v
TbStoreProof.v
IrHost.v
Decode.v
RvInsn.v
RvTrans.v
RvIsa.v
RvBits.v
RvEmit.v
RvTransProof.v
RvTransOk.v
RvBlock.v
RvTyped.v
RvTidy.v
RvDecode.v
RvDecodeProof.v
RvDecodeFields.v
RvCsr.v
RvVendor.v
RvPmp.v
RvMmu.v
RvTrap.v
RvMem.v
RvMemProof.v
RvGen.v
RvGenProof.v
Memory.v
AddressSpace.v
Plic.v
Aclint.v
AclintWorker.v
