(* ===== verification/Prelude.v ===== *)
(** * Machina: a verification development

    Machina is a full-system emulator.  Guest code (RISC-V or LoongArch64) is decoded
    and translated block by block into an intermediate representation, the IR; the IR is
    optimized, analysed for liveness, allocated to host registers and emitted as x86-64
    code into a buffer; a dispatch loop finds, chains, invalidates and runs the blocks.
    Generated code reads and writes guest memory through a software TLB it checks inline
    and calls helpers for everything else: translation misses, atomics, control
    registers, traps, devices.

    ** Files

    Conventions are in this file: a [w]-bit integer is a [Z] with explicit wrap-around
    ([wrap], [u64], [shl], [shr], [signed]), a panic is [None] ([x <-! c ;; k]), a Rust
    [Result] is [result] ([x <-? c ;; k]); the bit-extensionality tactic [zbits] and
    the shared lemmas on lists, bits and ranges follow.

    The code generator, [accel/src/]:
    - [IrTypes] ([ir/types.rs], [LifeData] of [ir/op.rs]), [IrOpcode] ([ir/opcode.rs]),
      [IrContext] ([ir/context.rs], [temp.rs], [op.rs], [label.rs]): the data of one
      block.  [context_reachable_ok]: every context the constructors can build has
      unique constants, in-range indices and disjoint spill slots.
    - [Optimize] ([optimize.rs]) with [IrSem], a reference semantics of the IR that takes
      helper calls and memory as parameters, and [OptimizeProof]: the pass never panics
      ([optimize_total]), constant folding computes the run-time value
      ([eval_binary_correct]), and the optimized block runs in lock step with the original
      ([optimize_correct]) on blocks where no stale copy is used; [Stale] shows blocks
      outside that condition which the pass breaks.
      [OptimizeTidy] gives a syntactic condition on emitted code under which no stale copy
      is ever used.
    - [Liveness] ([liveness.rs]): the flags are exactly those of the backward equations,
      and a value flagged dead cannot influence the rest of the block.
    - [CodeBuffer] ([code_buffer.rs], [patch_jump] of [x86_64/codegen.rs]): bytes at
      offsets; emitted words read back, a patched jump goes where it was patched to.
    - [Tb] ([ir/tb.rs]): blocks, exit-value encoding and jump cache.
    - [TbStore] ([exec/tb_store.rs] and the store side of [exec/exec_loop.rs]) and
      [TbStoreProof]: over every reachable state of the dispatch loop, lookups are exact,
      invalidated pages have no live block, live code jumps only to live code, and no
      operation runs out of fuel.

    The RISC-V front end, [decode/src/lib.rs], [guest/riscv/src/riscv/trans/] and the block
    builder of [system/src/cpus.rs]:
    - [IrBuild] ([ir/ir_builder.rs]): the methods that append ops, as a monad over the
      context; [IrHost] gives [IrSem] a concrete world (loads, stores and pure helpers)
      and the emission judgement the front end is proved with.
    - [Decode] ([decode/src/lib.rs]): the parser of decode files and the meaning of the
      decoder generated from one.  [RvDecode]: the three RISC-V files, parsed by the
      model, and the two decoders.  [RvDecodeProof]: the 32-bit decoder inverts the
      encodings of the manual ([decode_encode]).  [RvDecodeFields]: whatever the word, the
      fields are in range ([decode_fields_in_range]).
    - [RvInsn], [RvTrans] ([trans/mod.rs], [gen_*.rs], [helpers.rs], [riscv/mod.rs]): every
      integer, atomic, CSR, bit-manipulation and privileged instruction and the translator
      loop.  [RvIsa] is a reference semantics of the instructions, independent of the code;
      [RvBits], [RvEmit], [RvTransProof], [RvTransOk] prove each translation against it and
      [RvBlock] a whole block; [RvTyped] shows that translation never panics and yields
      well-typed code ([translate_block_typed]); [RvTidy] that the optimizer's side
      conditions hold of it.
    - [RvGen] ([gen_code], [resolve_fetch_region] of [cpus.rs], [ext.rs]) and [RvGenProof]:
      the composition of fetch, decoders, translator and optimizer is correct
      ([gen_code_correct]); [boundary_fetch_wrong] shows what the fetch at a page boundary
      gets wrong.

    The RISC-V hart, [guest/riscv/src/riscv/] and [system/src/cpus.rs]:
    - [RvCsr] ([csr.rs]), [RvVendor] ([cpu_model.rs], [vendor/thead.rs]): the register
      file; a write changes only what its privilege level owns, a locked protection entry
      never changes.
    - [RvPmp] ([pmp.rs]): the protection check is the lowest-covering-entry rule, and a
      locked region is permanent (a theorem composed with that of [RvCsr]).
    - [RvMmu] ([mmu.rs]): the page walk refines a declarative mapping relation, marks the
      leaf it used and nothing else, and stays in the 56-bit space; the TLB's invariant
      [tlb_ok] is kept by its operations.  Memory is the class [PhysMem] with the laws
      [PhysMemLaws] of plain memory.
    - [RvTrap] ([exception.rs], the interrupt gate of [cpus.rs]): returns undo traps, the
      interrupt taken is the first takeable one, and the dispatch gate opens when one is
      takeable and delegation is uniform.
    - [RvMem] (memory, atomic and CSR helpers of [cpus.rs], the inline TLB check of
      [x86_64/emitter.rs]) and [RvMemProof]: RAM with a device [Bus] implements [PhysMem];
      in every state reachable by the step relation [hart_step], an access that hits in
      the TLB uses the byte the current page tables give; atomics and store-conditional
      are correct.

    Memory and interrupt controllers, [memory/src/] and [hw/intc/src/]:
    - [Memory] ([region.rs], [flat_view.rs]): region trees with aliases and priorities, and
      their flattening; the binary search in the flat view finds the leaf of the highest
      priority ([flat_view_lookup]).
    - [AddressSpace] ([address_space.rs], [ram.rs]): sized accesses to RAM, ROM and the
      devices of the class [Devices]; an accepted access stays in its block and memory
      behaves as memory, through aliases too ([mapped_access]).  It is an instance of the
      [Bus] of [RvMem].
    - [Plic] ([plic.rs]): claims are the best claimable source, no source is claimed twice,
      and the output lines are exact after any sequence of events.
    - [Aclint] ([aclint.rs]): registers, lines and clock modes, with the readings of the
      host clock explicit; [lines_exact], and in [timer_faults] the ways a timer is lost or
      early.  [AclintWorker]: the timer thread and the hand-over to it, one step per atomic
      access; an armed deadline is always delivered ([deadline_delivered]), possibly for a
      value that was since replaced ([stale_raise]).

    ** State and atomicity

    Each struct is a [Record] (the register file a function from its fields), each method
    a function on it.  One operation runs at a time: the mutexes and atomics of the store
    and of the interrupt words are plain fields, and interleavings are the sequences of
    whole operations of the step relations.  The timer worker of [AclintWorker] is the
    exception: there each atomic access is a step.

    ** Fuel and bounds

    The walks over intrusive lists in [TbStore] take the number of blocks plus one as
    fuel; [store_events_complete] shows that this always suffices.  The page walk recurses on
    the level, at most four.  The translator loop takes the instruction limit of the block;
    [gen_code_correct] shows that it returns.  All other recursion is structural.

    ** Not modelled

    The x86-64 instruction encodings, the register allocator, the floating-point
    instructions and the bodies of the vendor instructions of the RISC-V front end (a
    decoded one is [Foreign], the theorems ask that the code has none), the LoongArch
    front end, softfloat, the devices other than the PLIC and the ACLINT, boards, monitor
    and debugger, and everything that is input or output (sockets, files, terminal, host
    timers, threads). Devices appear as the classes [Bus] and [Devices]. The generator of
    decoders is modelled by what the generated code does, not by its text. Statistics are
    kept where they are part of a struct; logging is dropped. *)

From Stdlib Require Import ZArith Lia Bool Btauto.
From stdpp Require Import base tactics numbers list gmap.

Open Scope Z_scope.

(** ** Results: the error paths of the Rust code as values *)

Inductive result (A E : Type) : Type :=
| Ok (a : A)
| Err (e : E).
Arguments Ok {A E} a.
Arguments Err {A E} e.

Declare Scope rust_scope.
Delimit Scope rust_scope with rust.

(** [x <-? c ;; k] is the [?] operator: continue on [Ok], return on [Err]. *)
Notation "x '<-?' c ';;' k" :=
  (match c with Ok x => k | Err e => Err e end)
  (at level 100, c at next level, right associativity) : rust_scope.

(** [x <-! c ;; k] propagates a panic: [None] models an abort of the program
    (an out-of-range index, a failed [assert!]). *)
Notation "x '<-!' c ';;' k" :=
  (match c with Some x => k | None => None end)
  (at level 100, c at next level, right associativity) : rust_scope.

Open Scope rust_scope.

Definition is_ok {A E} (r : result A E) : bool :=
  match r with Ok _ => true | Err _ => false end.

Global Instance result_eq_dec {A E} `{EqDecision A, EqDecision E} :
  EqDecision (result A E).
Proof. solve_decision. Defined.

Lemma Ok_inj {A E} (a b : A) : @Ok A E a = Ok b -> a = b.
Proof. congruence. Qed.

(** ** Machine integers

    A [w]-bit unsigned integer is a [Z] in [0, 2^w); the operations that can
    leave the range are wrapped explicitly. *)

Definition wrap (w x : Z) : Z := x mod 2 ^ w.
Notation u8 := (wrap 8).
Notation u16 := (wrap 16).
Notation u32 := (wrap 32).
Notation u64 := (wrap 64).

Definition in_range (w x : Z) : Prop := 0 <= x < 2 ^ w.
Notation is_u64 := (in_range 64).
Notation is_u32 := (in_range 32).

(** [!x] at width [w]. *)
Definition bnot (w x : Z) : Z := Z.ldiff (Z.ones w) x.

(** [x as iN]: the two's-complement reading of a [w]-bit value. *)
Definition signed (w x : Z) : Z := if x <? 2 ^ (w - 1) then x else x - 2 ^ w.

Definition u64_max : Z := 2 ^ 64 - 1.

Definition wrapping_add (w a b : Z) : Z := wrap w (a + b).
Definition wrapping_sub (w a b : Z) : Z := wrap w (a - b).
Definition wrapping_mul (w a b : Z) : Z := wrap w (a * b).

(** [a << n] and [a >> n] on [w]-bit values, [0 <= n < w]. *)
Definition shl (w a n : Z) : Z := wrap w (Z.shiftl a n).
Definition shr (a n : Z) : Z := Z.shiftr a n.

Definition rotate_left (w a n : Z) : Z :=
  Z.lor (shl w a n) (shr a (w - n)).
Definition rotate_right (w a n : Z) : Z :=
  Z.lor (shr a n) (shl w a (w - n)).

(** [x.trailing_zeros()] at width [w]. *)
Fixpoint ctz_pos (p : positive) : Z :=
  match p with
  | xO q => 1 + ctz_pos q
  | _ => 0
  end.

Definition trailing_zeros (w x : Z) : Z :=
  match x with
  | Zpos p => ctz_pos p
  | _ => w
  end.

(** [b as u64]. *)
Definition b2z (b : bool) : Z := if b then 1 else 0.

(** [(x & m) != 0]. *)
Definition has (x m : Z) : bool := negb (Z.land x m =? 0).

(** ** Bit-level reasoning

    Equalities between words are proved bit by bit: [zbits] reduces such an
    equality to a boolean goal on one symbolic bit index. *)

Lemma testbit_ones (n i : Z) :
  0 <= n -> Z.testbit (Z.ones n) i = (0 <=? i) && (i <? n).
Proof.
  intros Hn. destruct (Z.leb_spec 0 i), (Z.ltb_spec i n); simpl;
    rewrite ?Z.testbit_neg_r, ?Z.ones_spec_low, ?Z.ones_spec_high by lia; done.
Qed.

Lemma testbit_wrap (w x i : Z) :
  0 <= w -> Z.testbit (wrap w x) i = (i <? w) && Z.testbit x i.
Proof.
  intros Hw. unfold wrap. destruct (Z.ltb_spec i w); simpl;
    [by rewrite Z.mod_pow2_bits_low by lia
    |by rewrite Z.mod_pow2_bits_high by lia].
Qed.

Lemma testbit_bnot (w x i : Z) :
  0 <= w -> Z.testbit (bnot w x) i = (0 <=? i) && (i <? w) && negb (Z.testbit x i).
Proof.
  intros Hw. unfold bnot. by rewrite Z.ldiff_spec, testbit_ones by lia.
Qed.

Lemma testbit_pow2 (n i : Z) :
  0 <= n -> Z.testbit (2 ^ n) i = (i =? n).
Proof.
  intros Hn. destruct (Z.eqb_spec i n) as [->|Hne];
    [by apply Z.pow2_bits_true|by apply Z.pow2_bits_false; lia].
Qed.

Ltac zbits_rewrite :=
  repeat first
    [ rewrite Z.land_spec | rewrite Z.lor_spec | rewrite Z.lxor_spec
    | rewrite Z.ldiff_spec | rewrite Z.shiftr_spec by lia
    | rewrite Z.shiftl_spec by lia | rewrite testbit_ones by lia
    | rewrite testbit_wrap by lia | rewrite testbit_bnot by lia
    | rewrite testbit_pow2 by lia | rewrite Z.bits_0 ].

(** Decide the index comparisons that occur in the goal. *)
Ltac zbits_cases :=
  repeat match goal with
  | |- context [?a <? ?b] => destruct (Z.ltb_spec a b); simpl
  | |- context [?a <=? ?b] => destruct (Z.leb_spec a b); simpl
  | |- context [?a =? ?b] => destruct (Z.eqb_spec a b); simpl
  end.

Ltac zbits :=
  apply Z.bits_inj';
  let i := fresh "i" in let Hi := fresh "Hi" in
  intros i Hi; zbits_rewrite.

Lemma in_range_bits (w x : Z) :
  0 <= w -> in_range w x <-> 0 <= x /\ forall i, w <= i -> Z.testbit x i = false.
Proof.
  intros Hw. unfold in_range. split.
  - intros [H0 H1]. split; [done|]. intros i Hi.
    destruct (decide (x = 0)) as [->|]; [apply Z.bits_0|].
    apply Z.bits_above_log2; [done|].
    apply Z.lt_le_trans with w; [|done]. by apply Z.log2_lt_pow2; lia.
  - intros [H0 Hb]. split; [done|].
    assert (x = wrap w x) as ->.
    { zbits. destruct (Z.ltb_spec i w); simpl; [done|]. apply Hb; lia. }
    unfold wrap. apply Z.mod_pos_bound. by apply Z.pow_pos_nonneg; lia.
Qed.

Lemma wrap_range (w x : Z) : 0 <= w -> in_range w (wrap w x).
Proof. intros. apply Z.mod_pos_bound, Z.pow_pos_nonneg; lia. Qed.

Lemma wrap_small (w x : Z) : in_range w x -> wrap w x = x.
Proof. intros. by apply Z.mod_small. Qed.

Lemma land_range_l (w a b : Z) :
  0 <= w -> in_range w a -> in_range w (Z.land a b).
Proof.
  intros Hw [H0 Hb]%in_range_bits; [|done]. apply in_range_bits; [done|].
  split; [apply Z.land_nonneg; by left|].
  intros i Hi. by rewrite Z.land_spec, Hb.
Qed.

Lemma land_range_r (w a b : Z) :
  0 <= w -> in_range w b -> in_range w (Z.land a b).
Proof. intros. rewrite Z.land_comm. by apply land_range_l. Qed.

Lemma lor_range (w a b : Z) :
  0 <= w -> in_range w a -> in_range w b -> in_range w (Z.lor a b).
Proof.
  intros Hw [Ha Hab]%in_range_bits [Hb Hbb]%in_range_bits; try done.
  apply in_range_bits; [done|]. split; [by apply Z.lor_nonneg|].
  intros i Hi. by rewrite Z.lor_spec, Hab, Hbb.
Qed.

Lemma lxor_range (w a b : Z) :
  0 <= w -> in_range w a -> in_range w b -> in_range w (Z.lxor a b).
Proof.
  intros Hw [Ha Hab]%in_range_bits [Hb Hbb]%in_range_bits; try done.
  apply in_range_bits; [done|]. split; [by apply Z.lxor_nonneg|].
  intros i Hi. by rewrite Z.lxor_spec, Hab, Hbb.
Qed.

Lemma ldiff_range (w a b : Z) :
  0 <= w -> in_range w a -> in_range w (Z.ldiff a b).
Proof.
  intros Hw [H0 Hb]%in_range_bits; [|done]. apply in_range_bits; [done|].
  split; [apply Z.ldiff_nonneg; by left|].
  intros i Hi. by rewrite Z.ldiff_spec, Hb.
Qed.

Lemma ones_range (w : Z) : 0 <= w -> in_range w (Z.ones w).
Proof.
  intros. unfold in_range. rewrite Z.ones_equiv.
  pose proof (Z.pow_pos_nonneg 2 w). lia.
Qed.

Lemma bnot_range (w x : Z) : 0 <= w -> in_range w (bnot w x).
Proof. intros. by apply ldiff_range, ones_range. Qed.

Lemma shr_range (w a n : Z) :
  0 <= w -> 0 <= n -> in_range w a -> in_range w (shr a n).
Proof.
  intros Hw Hn [H0 Hb]%in_range_bits; [|done]. apply in_range_bits; [done|].
  unfold shr. split; [by apply Z.shiftr_nonneg|].
  intros i Hi. rewrite Z.shiftr_spec by lia. apply Hb. lia.
Qed.

Lemma shl_range (w a n : Z) : 0 <= w -> in_range w (shl w a n).
Proof. intros. by apply wrap_range. Qed.

Lemma in_range_le (v w x : Z) : v <= w -> in_range v x -> in_range w x.
Proof.
  unfold in_range. intros Hvw [H0 H1]. split; [done|].
  apply Z.lt_le_trans with (2 ^ v); [done|]. apply Z.pow_le_mono_r; lia.
Qed.

(** Masking with the all-ones word of a width is wrapping to it. *)
Lemma land_ones_wrap (w x : Z) : 0 <= w -> Z.land x (Z.ones w) = wrap w x.
Proof. intros. by apply Z.land_ones. Qed.

Lemma has_pow2 (x n : Z) : 0 <= n -> has x (2 ^ n) = Z.testbit x n.
Proof.
  intros Hn. unfold has.
  assert (Z.land x (2 ^ n) = if Z.testbit x n then 2 ^ n else 0) as ->.
  { zbits. destruct (Z.testbit x n) eqn:E; zbits_rewrite;
      zbits_cases; subst; rewrite ?E, ?andb_false_r; done. }
  destruct (Z.testbit x n); [|done].
  destruct (Z.eqb_spec (2 ^ n) 0); [|done].
  pose proof (Z.pow_pos_nonneg 2 n). lia.
Qed.

(** Words with disjoint bits are added by [|]. *)
Lemma lor_add_disjoint (x y : Z) : Z.land x y = 0 -> Z.lor x y = x + y.
Proof. intros H. rewrite Z.add_nocarry_lxor, Z.lxor_lor by done. done. Qed.

(** [(hi << n) | lo] of a [lo] that fits [n] bits. *)
Lemma lor_shiftl_add (hi lo n : Z) :
  0 <= n -> in_range n lo -> Z.lor (Z.shiftl hi n) lo = hi * 2 ^ n + lo.
Proof.
  intros Hn Hlo. rewrite <- Z.shiftl_mul_pow2 by done. apply lor_add_disjoint.
  apply in_range_bits in Hlo as [_ Hlo]; [|done]. apply Z.bits_inj'. intros k Hk.
  rewrite Z.land_spec, Z.shiftl_spec, Z.bits_0 by done.
  destruct (Z.lt_ge_cases k n); [by rewrite Z.testbit_neg_r by lia|].
  by rewrite Hlo, andb_false_r.
Qed.

Create HintDb rng.
#[export] Hint Resolve wrap_range land_range_l land_range_r lor_range lxor_range
  ldiff_range ones_range bnot_range shr_range shl_range : rng.
#[export] Hint Extern 1 (_ <= _) => lia : rng.
#[export] Hint Extern 1 (_ < _) => lia : rng.
#[export] Hint Extern 2 (in_range _ _) => (split; vm_compute; congruence) : rng.

(** ** Trailing zeros *)

Lemma ctz_pos_spec (p : positive) :
  0 <= ctz_pos p /\ Z.testbit (Zpos p) (ctz_pos p) = true /\
  forall i, 0 <= i < ctz_pos p -> Z.testbit (Zpos p) i = false.
Proof.
  induction p as [p IH|p IH|]; cbn [ctz_pos]; [split_and!; [done|done|lia]| |split_and!; [done|done|lia]].
  destruct IH as (H0 & H1 & H2).
  assert (Hs : forall i, 0 <= i -> Z.testbit (Zpos p~0) (1 + i) = Z.testbit (Zpos p) i).
  { intros i Hi. change (Zpos p~0) with (2 * Zpos p).
    replace (1 + i) with (Z.succ i) by lia. by rewrite Z.testbit_even_succ. }
  split_and!; [lia|by rewrite Hs|]. intros i Hi. destruct (decide (i = 0)) as [->|]; [done|].
  replace i with (1 + (i - 1)) by lia. rewrite Hs by lia. apply H2. lia.
Qed.

(** The lowest set bit of a non-zero word. *)
Lemma trailing_zeros_spec (w x : Z) :
  0 < x -> let n := trailing_zeros w x in
  0 <= n /\ Z.testbit x n = true /\ forall i, 0 <= i < n -> Z.testbit x i = false.
Proof. intros Hx. destruct x as [|p|p]; [lia| |lia]. apply ctz_pos_spec. Qed.

Lemma trailing_zeros_le (w x i : Z) :
  0 < x -> 0 <= i -> Z.testbit x i = true -> trailing_zeros w x <= i.
Proof.
  intros Hx Hi Hb. destruct (trailing_zeros_spec w x Hx) as (_ & _ & Hlow).
  destruct (Z.le_gt_cases (trailing_zeros w x) i); [done|]. rewrite Hlow in Hb; [done|lia].
Qed.

(** ** Signed readings *)

Lemma signed_range (w x : Z) :
  0 < w -> in_range w x -> - 2 ^ (w - 1) <= signed w x < 2 ^ (w - 1).
Proof.
  intros Hw [H0 H1]. unfold signed.
  assert (2 ^ w = 2 * 2 ^ (w - 1)) by
    (rewrite <- Z.pow_succ_r by lia; f_equal; lia).
  destruct (Z.ltb_spec x (2 ^ (w - 1))); lia.
Qed.

Lemma wrap_signed (w x : Z) : 0 <= w -> wrap w (signed w x) = wrap w x.
Proof.
  intros Hw. unfold signed, wrap. destruct (x <? _); [done|].
  replace (x - 2 ^ w) with (x + (-1) * 2 ^ w) by lia.
  by rewrite Z_mod_plus_full.
Qed.

(** The bits of a signed reading: the top bit repeats. *)
Lemma testbit_signed (w x i : Z) :
  0 < w -> in_range w x -> 0 <= i ->
  Z.testbit (signed w x) i = Z.testbit x (Z.min i (w - 1)).
Proof.
  intros Hw Hx Hi. destruct (Z.lt_ge_cases i w) as [Hlt|Hge].
  - rewrite Z.min_l by lia. rewrite <- (Z.mod_pow2_bits_low _ w i), <- (Z.mod_pow2_bits_low x w i) by lia.
    f_equal. apply wrap_signed. lia.
  - rewrite Z.min_r by lia. destruct Hx as [H0 H1]. rewrite (Z.testbit_eqb x) by lia.
    assert (E : 2 ^ w = 2 * 2 ^ (w - 1)) by (rewrite <- Z.pow_succ_r by lia; f_equal; lia).
    assert (Hp : 2 ^ w <= 2 ^ i) by (apply Z.pow_le_mono_r; lia).
    unfold signed. destruct (Z.ltb_spec x (2 ^ (w - 1))).
    + rewrite (Z.div_small x) by lia. rewrite Z.testbit_eqb, Z.div_small by lia. done.
    + assert (x / 2 ^ (w - 1) = 1) as -> by (symmetry; apply (Z.div_unique _ _ _ (x - 2 ^ (w - 1))); lia).
      rewrite Z.testbit_eqb by lia.
      assert ((x - 2 ^ w) / 2 ^ i = -1) as -> by
        (symmetry; apply (Z.div_unique _ _ _ (x - 2 ^ w + 2 ^ i)); lia).
      done.
Qed.

(** ** Lists as Rust vectors and arrays *)

(** [v[i]] with the bounds check: an index out of range is a panic. *)
Definition idx {A} (v : list A) (i : N) : option A := v !! N.to_nat i.

(** [v[i] = x], which panics out of range as well. *)
Definition set_idx {A} (v : list A) (i : N) (x : A) : option (list A) :=
  if decide (N.to_nat i < length v)%nat then Some (<[N.to_nat i := x]> v) else None.

(** [v.resize(n, d)] for [n >= v.len()]. *)
Definition resize_to {A} (v : list A) (n : nat) (d : A) : list A :=
  v ++ replicate (n - length v) d.

Lemma length_resize_to {A} (v : list A) n d :
  length (resize_to v n d) = Nat.max (length v) n.
Proof. unfold resize_to. rewrite length_app, length_replicate. lia. Qed.

Lemma lookup_resize_to_lt {A} (v : list A) n d i :
  (i < length v)%nat -> resize_to v n d !! i = v !! i.
Proof. intros. unfold resize_to. by rewrite lookup_app_l. Qed.

Lemma lookup_resize_to_ge {A} (v : list A) n d i x :
  (length v <= i)%nat -> resize_to v n d !! i = Some x -> x = d.
Proof.
  intros Hi. unfold resize_to. rewrite lookup_app_r by done.
  intros [-> _]%lookup_replicate. done.
Qed.

(** Wrapping twice, and the signed reading of a wrapped value. *)

Lemma wrap_wrap (v w x : Z) : 0 <= v <= w -> wrap v (wrap w x) = wrap v x.
Proof.
  intros. zbits. rewrite andb_assoc. f_equal. zbits_cases; lia.
Qed.

Lemma wrap_wrap_lt (v w x : Z) : 0 <= v <= w -> wrap w (wrap v x) = wrap v x.
Proof. intros. apply wrap_small, (in_range_le v); [lia|]. apply wrap_range; lia. Qed.

Lemma signed_wrap (w x : Z) :
  0 < w -> - 2 ^ (w - 1) <= x < 2 ^ (w - 1) -> signed w (wrap w x) = x.
Proof.
  intros Hw Hx. assert (Hp : 2 ^ w = 2 * 2 ^ (w - 1)) by
    (rewrite <- Z.pow_succ_r by lia; f_equal; lia).
  unfold signed, wrap. destruct (Z.lt_ge_cases x 0).
  - rewrite <- (Z_mod_plus_full x 1), Z.mod_small by lia.
    destruct (Z.ltb_spec (x + 1 * 2 ^ w) (2 ^ (w - 1))); lia.
  - rewrite Z.mod_small by lia. destruct (Z.ltb_spec x (2 ^ (w - 1))); lia.
Qed.

(** ** Vectors indexed by an integer

    [v[i]] and [v[i] = x] where the index is in range; out of range the code panics, and
    the components that use these keep the lengths as an invariant. *)

Definition vget {A} (d : A) (l : list A) (i : Z) : A := default d (l !! Z.to_nat i).
Definition vset {A} (l : list A) (i : Z) (x : A) : list A := <[Z.to_nat i := x]> l.

Lemma vget_vset {A} (d : A) l i j x :
  0 <= i < Z.of_nat (length l) -> 0 <= j -> vget d (vset l i x) j = if j =? i then x else vget d l j.
Proof.
  intros Hi Hj. unfold vget, vset. destruct (Z.eqb_spec j i) as [->|Hne].
  - rewrite list_lookup_insert_eq by lia. done.
  - rewrite list_lookup_insert_ne by lia. done.
Qed.

Lemma length_vset {A} (l : list A) i x : length (vset l i x) = length l.
Proof. apply length_insert. Qed.

(** ** Case analysis on the tests of the code *)

Ltac case_if :=
  match goal with
  | |- context [if ?b then _ else _] =>
      match type of b with
      | bool => destruct b eqn:?
      | sumbool _ _ => destruct b
      end
  end.

Ltac case_if_in H :=
  match type of H with
  | context [if ?b then _ else _] =>
      match type of b with
      | bool => destruct b eqn:?
      | sumbool _ _ => destruct b
      end
  end.
