(* ===== verification/IrTypes.v ===== *)
(** * IR value types, conditions, memory descriptors and register sets

    Models [accel/src/ir/types.rs] and [LifeData] of [accel/src/ir/op.rs]:
    the operand types, the comparison conditions with [invert] and [swap], the
    packed [MemOp], the 64-register bitmap [RegSet] and the packed liveness
    word of an op. *)

From Stdlib Require Import ZArith Lia Bool.
From stdpp Require Import base tactics numbers list.
From S2P Require Import Prelude.

(** ** [Type] *)
Module Ty.

Inductive Ty := I32 | I64 | I128 | V64 | V128 | V256.

Global Instance Ty_eq_dec : EqDecision Ty.
Proof. solve_decision. Defined.

Definition TYPE_COUNT : nat := 6.

(** [ty as usize]. *)
Definition as_usize (t : Ty) : nat :=
  match t with
  | I32 => 0 | I64 => 1 | I128 => 2 | V64 => 3 | V128 => 4 | V256 => 5
  end%nat.

Definition size_bits (t : Ty) : Z :=
  match t with
  | I32 => 32
  | I64 => 64
  | I128 => 128
  | V64 => 64
  | V128 => 128
  | V256 => 256
  end.

Definition size_bytes (t : Ty) : Z := size_bits t / 8.

Definition is_vector (t : Ty) : bool :=
  match t with V64 | V128 | V256 => true | _ => false end.

Definition is_integer (t : Ty) : bool :=
  match t with I32 | I64 | I128 => true | _ => false end.

Lemma as_usize_inj (a b : Ty) : as_usize a = as_usize b -> a = b.
Proof. by destruct a, b. Qed.

Lemma as_usize_lt (a : Ty) : (as_usize a < TYPE_COUNT)%nat.
Proof. unfold TYPE_COUNT. destruct a; simpl; lia. Qed.

End Ty.

(** ** [TempVal]: where a temp's value lives during register allocation *)
Module TempVal.
Inductive TempVal := Dead | Reg | Mem | Const.
Global Instance TempVal_eq_dec : EqDecision TempVal.
Proof. solve_decision. Defined.
End TempVal.

(** ** [Cond] *)
Module Cond.

Inductive Cond :=
| Never | Always
| Eq | Ne
| Lt | Ge | Le | Gt
| Ltu | Geu | Leu | Gtu
| TstEq | TstNe.

Global Instance Cond_eq_dec : EqDecision Cond.
Proof. solve_decision. Defined.

(** [cond as u32], the discriminants of the enum. *)
Definition as_u32 (c : Cond) : N :=
  match c with
  | Never => 0 | Always => 1
  | Eq => 8 | Ne => 9
  | Lt => 10 | Ge => 11 | Le => 12 | Gt => 13
  | Ltu => 14 | Geu => 15 | Leu => 16 | Gtu => 17
  | TstEq => 18 | TstNe => 19
  end%N.

Definition invert (c : Cond) : Cond :=
  match c with
  | Never => Always
  | Always => Never
  | Eq => Ne
  | Ne => Eq
  | Lt => Ge
  | Ge => Lt
  | Le => Gt
  | Gt => Le
  | Ltu => Geu
  | Geu => Ltu
  | Leu => Gtu
  | Gtu => Leu
  | TstEq => TstNe
  | TstNe => TstEq
  end.

Definition swap (c : Cond) : Cond :=
  match c with
  | Eq | Ne | Never | Always | TstEq | TstNe => c
  | Lt => Gt
  | Ge => Le
  | Le => Ge
  | Gt => Lt
  | Ltu => Gtu
  | Geu => Leu
  | Leu => Geu
  | Gtu => Ltu
  end.

Definition is_signed (c : Cond) : bool :=
  match c with Lt | Ge | Le | Gt => true | _ => false end.

Definition is_unsigned (c : Cond) : bool :=
  match c with Ltu | Geu | Leu | Gtu => true | _ => false end.

Definition is_tst (c : Cond) : bool :=
  match c with TstEq | TstNe => true | _ => false end.

(** The meaning of a condition on two [w]-bit operands: the reference the
    compile-time evaluation of the optimizer is compared with. *)
Definition holds (w : Z) (c : Cond) (a b : Z) : bool :=
  match c with
  | Never => false
  | Always => true
  | Eq => a =? b
  | Ne => negb (a =? b)
  | Lt => signed w a <? signed w b
  | Ge => signed w b <=? signed w a
  | Le => signed w a <=? signed w b
  | Gt => signed w b <? signed w a
  | Ltu => a <? b
  | Geu => b <=? a
  | Leu => a <=? b
  | Gtu => b <? a
  | TstEq => Z.land a b =? 0
  | TstNe => negb (Z.land a b =? 0)
  end.

Lemma invert_involutive (c : Cond) : invert (invert c) = c.
Proof. by destruct c. Qed.

Lemma holds_invert (w : Z) (c : Cond) (a b : Z) :
  holds w (invert c) a b = negb (holds w c a b).
Proof.
  destruct c; simpl; rewrite ?negb_involutive, ?Z.leb_antisym; try done;
    by rewrite negb_involutive.
Qed.

Lemma holds_swap (w : Z) (c : Cond) (a b : Z) :
  holds w (swap c) b a = holds w c a b.
Proof.
  destruct c; simpl; rewrite 1?(Z.eqb_sym b a), 1?(Z.land_comm b a); done.
Qed.

End Cond.

(** ** [MemOp]: packed size, signedness, byte order and alignment *)
Module MemOp.

Definition SIZE_8 : Z := 0.
Definition SIZE_16 : Z := 1.
Definition SIZE_32 : Z := 2.
Definition SIZE_64 : Z := 3.
Definition SIGN : Z := Z.shiftl 1 2.
Definition BSWAP : Z := Z.shiftl 1 3.

Definition ub : Z := SIZE_8.
Definition sb : Z := Z.lor SIZE_8 SIGN.
Definition uw : Z := SIZE_16.
Definition sw : Z := Z.lor SIZE_16 SIGN.
Definition ul : Z := SIZE_32.
Definition sl : Z := Z.lor SIZE_32 SIGN.
Definition uq : Z := SIZE_64.

Definition size (m : Z) : Z := Z.land m 3.
Definition is_signed (m : Z) : bool := has m SIGN.
Definition is_bswap (m : Z) : bool := has m BSWAP.
Definition size_bytes (m : Z) : Z := Z.shiftl 1 (size m).

Lemma size_bytes_cases (m : Z) :
  size_bytes m = 1 \/ size_bytes m = 2 \/ size_bytes m = 4 \/ size_bytes m = 8.
Proof.
  unfold size_bytes, size. change 3 with (Z.ones 2).
  rewrite land_ones_wrap by lia.
  pose proof (wrap_range 2 m ltac:(lia)) as [H0 H1].
  assert (wrap 2 m = 0 \/ wrap 2 m = 1 \/ wrap 2 m = 2 \/ wrap 2 m = 3)
    as [->|[->|[->| ->]]] by lia; auto.
Qed.

End MemOp.

(** ** [RegSet]: a bitmap of up to 64 host registers

    [set], [clear] and [contains] carry [assert!(reg < 64)]; a failed assert is
    [None]. *)
Module RegSet.

Definition EMPTY : Z := 0.

Definition set (s reg : Z) : option Z :=
  if reg <? 64 then Some (Z.lor s (shl 64 1 reg)) else None.

Definition clear (s reg : Z) : option Z :=
  if reg <? 64 then Some (Z.land s (bnot 64 (shl 64 1 reg))) else None.

Definition contains (s reg : Z) : option bool :=
  if reg <? 64 then Some (has s (shl 64 1 reg)) else None.

Definition is_empty (s : Z) : bool := s =? 0.

Definition union (s other : Z) : Z := Z.lor s other.
Definition intersect (s other : Z) : Z := Z.land s other.
Definition subtract (s other : Z) : Z := Z.land s (bnot 64 other).

Fixpoint count_ones (p : positive) : Z :=
  match p with
  | xH => 1
  | xO q => count_ones q
  | xI q => 1 + count_ones q
  end.

Definition count (s : Z) : Z :=
  match s with Zpos p => count_ones p | _ => 0 end.

Definition first (s : Z) : option Z :=
  if s =? 0 then None else Some (trailing_zeros 64 s).

(** Membership as a predicate: the abstract set the bitmap stands for. *)
Definition mem (s reg : Z) : bool := Z.testbit s reg.

Lemma shl_one (r : Z) : 0 <= r < 64 -> shl 64 1 r = 2 ^ r.
Proof.
  intros Hr. unfold shl. rewrite Z.shiftl_1_l. apply wrap_small. split.
  - by apply Z.pow_nonneg.
  - apply Z.pow_lt_mono_r; lia.
Qed.

Lemma contains_mem (s r : Z) : 0 <= r < 64 -> contains s r = Some (mem s r).
Proof.
  intros Hr. unfold contains. destruct (Z.ltb_spec r 64); [|lia].
  by rewrite shl_one, has_pow2 by lia.
Qed.

Lemma set_mem (s r q : Z) :
  0 <= r < 64 -> exists s', set s r = Some s' /\ mem s' q = mem s q || (q =? r).
Proof.
  intros Hr. unfold set, mem. destruct (Z.ltb_spec r 64); [|lia].
  eexists; split; [done|]. by rewrite Z.lor_spec, shl_one, testbit_pow2 by lia.
Qed.

Lemma clear_mem (s r q : Z) :
  0 <= r < 64 -> in_range 64 s ->
  exists s', clear s r = Some s' /\ mem s' q = mem s q && negb (q =? r).
Proof.
  intros Hr Hs. unfold clear, mem. destruct (Z.ltb_spec r 64); [|lia].
  eexists; split; [done|].
  rewrite Z.land_spec, testbit_bnot, shl_one, testbit_pow2 by lia.
  apply in_range_bits in Hs as [_ Hs]; [|lia].
  destruct (Z.leb_spec 0 q); simpl; [|by rewrite Z.testbit_neg_r by lia].
  destruct (Z.ltb_spec q 64); simpl; [done|]. by rewrite Hs by lia.
Qed.

(** [first] returns the lowest member. *)
Lemma first_spec (s r : Z) :
  in_range 64 s -> first s = Some r ->
  0 <= r < 64 /\ mem s r = true /\ forall q, 0 <= q < r -> mem s q = false.
Proof.
  intros Hs. unfold first, mem. destruct (Z.eqb_spec s 0); [done|].
  intros [= <-]. destruct s as [|p|p]; [lia| |unfold in_range in Hs; lia].
  simpl. destruct (ctz_pos_spec p) as (H0 & H1 & H2).
  split; [|done]. split; [done|].
  apply in_range_bits in Hs as [_ Hs]; [|lia].
  destruct (Z.lt_ge_cases (ctz_pos p) 64); [done|].
  rewrite Hs in H1 by lia. done.
Qed.

Lemma first_none (s : Z) : first s = None <-> s = EMPTY.
Proof. unfold first, EMPTY. destruct (Z.eqb_spec s 0); naive_solver. Qed.

End RegSet.

(** ** [LifeData]: two bits per argument, dead and sync *)
Module LifeData.

Definition dead_arg (n : Z) : Z := Z.shiftl 1 (n * 2).
Definition sync_arg (n : Z) : Z := Z.shiftl 1 (n * 2 + 1).

Definition is_dead (l n : Z) : bool := has l (dead_arg n).
Definition is_sync (l n : Z) : bool := has l (sync_arg n).
Definition set_dead (l n : Z) : Z := Z.lor l (dead_arg n).
Definition set_sync (l n : Z) : Z := Z.lor l (sync_arg n).

Lemma has_lor_shiftl (l n m : Z) :
  0 <= n -> 0 <= m ->
  has (Z.lor l (Z.shiftl 1 n)) (Z.shiftl 1 m) = has l (Z.shiftl 1 m) || (m =? n).
Proof.
  intros. rewrite !Z.shiftl_1_l, !has_pow2 by done.
  by rewrite Z.lor_spec, testbit_pow2.
Qed.

Lemma is_dead_set_dead (l n m : Z) :
  0 <= n -> 0 <= m -> is_dead (set_dead l n) m = is_dead l m || (m =? n).
Proof.
  intros. unfold is_dead, set_dead, dead_arg. rewrite has_lor_shiftl by lia.
  f_equal. destruct (Z.eqb_spec m n), (Z.eqb_spec (m * 2) (n * 2)); lia.
Qed.

Lemma is_dead_set_sync (l n m : Z) :
  0 <= n -> 0 <= m -> is_dead (set_sync l n) m = is_dead l m.
Proof.
  intros. unfold is_dead, set_sync, dead_arg, sync_arg. rewrite has_lor_shiftl by lia.
  destruct (Z.eqb_spec (m * 2) (n * 2 + 1)); [lia|]. by rewrite orb_false_r.
Qed.

Lemma is_sync_set_sync (l n m : Z) :
  0 <= n -> 0 <= m -> is_sync (set_sync l n) m = is_sync l m || (m =? n).
Proof.
  intros. unfold is_sync, set_sync, sync_arg. rewrite has_lor_shiftl by lia.
  f_equal. destruct (Z.eqb_spec m n), (Z.eqb_spec (m * 2 + 1) (n * 2 + 1)); lia.
Qed.

Lemma is_sync_set_dead (l n m : Z) :
  0 <= n -> 0 <= m -> is_sync (set_dead l n) m = is_sync l m.
Proof.
  intros. unfold is_sync, set_dead, sync_arg, dead_arg. rewrite has_lor_shiftl by lia.
  destruct (Z.eqb_spec (m * 2 + 1) (n * 2)); [lia|]. by rewrite orb_false_r.
Qed.

End LifeData.
