(* ===== verification/IrOpcode.v ===== *)
(** * IR opcodes and their static definition table

    Models [accel/src/ir/opcode.rs]: the opcode enumeration, the property flags
    and [OPCODE_DEFS], the table (indexed by the opcode's discriminant) of the
    argument counts and flags that every later pass reads. *)

From Stdlib Require Import ZArith Lia Bool String.
From stdpp Require Import base tactics numbers list.
From S2P Require Import Prelude IrTypes.

(** ** [OpFlags] *)
Module OpFlags.

Definition NONE : Z := 0.
Definition BB_EXIT : Z := 0x01.
Definition BB_END : Z := 0x02.
Definition CALL_CLOBBER : Z := 0x04.
Definition SIDE_EFFECTS : Z := 0x08.
Definition INT : Z := 0x10.
Definition NOT_PRESENT : Z := 0x20.
Definition VECTOR : Z := 0x40.
Definition COND_BRANCH : Z := 0x80.
Definition CARRY_OUT : Z := 0x100.
Definition CARRY_IN : Z := 0x200.

Definition contains (fl other : Z) : bool := Z.land fl other =? other.
Definition union (fl other : Z) : Z := Z.lor fl other.

End OpFlags.

Module Opcode.

Inductive Opcode :=
| Mov | SetCond | NegSetCond | MovCond | Add | Sub | Mul | Neg
| DivS | DivU | RemS | RemU | DivS2 | DivU2 | MulSH | MulUH
| MulS2 | MulU2 | AddCO | AddCI | AddCIO | AddC1O | SubBO | SubBI
| SubBIO | SubB1O | And | Or | Xor | Not | AndC | OrC
| Eqv | Nand | Nor | Shl | Shr | Sar | RotL | RotR
| Extract | SExtract | Deposit | Extract2 | Bswap16 | Bswap32 | Bswap64 | Clz
| Ctz | CtPop | BrCond2I32 | SetCond2I32 | ExtI32I64 | ExtUI32I64 | ExtrlI64I32 | ExtrhI64I32
| Ld8U | Ld8S | Ld16U | Ld16S | Ld32U | Ld32S | Ld | St8
| St16 | St32 | St | QemuLd | QemuSt | QemuLd2 | QemuSt2 | Br
| BrCond | SetLabel | GotoTb | ExitTb | GotoPtr | Mb | Call | PluginCb
| PluginMemCb | Nop | Discard | InsnStart | MovVec | DupVec | Dup2Vec | LdVec
| StVec | DupmVec | AddVec | SubVec | MulVec | NegVec | AbsVec | SsaddVec
| UsaddVec | SssubVec | UssubVec | SminVec | UminVec | SmaxVec | UmaxVec | AndVec
| OrVec | XorVec | AndcVec | OrcVec | NandVec | NorVec | EqvVec | NotVec
| ShliVec | ShriVec | SariVec | RotliVec | ShlsVec | ShrsVec | SarsVec | RotlsVec
| ShlvVec | ShrvVec | SarvVec | RotlvVec | RotrvVec | CmpVec | BitselVec | CmpselVec.

(** [opc as usize]. *)
Definition as_usize (o : Opcode) : nat :=
  match o with
  | Mov => 0 | SetCond => 1 | NegSetCond => 2 | MovCond => 3 | Add => 4 | Sub => 5
  | Mul => 6 | Neg => 7 | DivS => 8 | DivU => 9 | RemS => 10 | RemU => 11
  | DivS2 => 12 | DivU2 => 13 | MulSH => 14 | MulUH => 15 | MulS2 => 16 | MulU2 => 17
  | AddCO => 18 | AddCI => 19 | AddCIO => 20 | AddC1O => 21 | SubBO => 22 | SubBI => 23
  | SubBIO => 24 | SubB1O => 25 | And => 26 | Or => 27 | Xor => 28 | Not => 29
  | AndC => 30 | OrC => 31 | Eqv => 32 | Nand => 33 | Nor => 34 | Shl => 35
  | Shr => 36 | Sar => 37 | RotL => 38 | RotR => 39 | Extract => 40 | SExtract => 41
  | Deposit => 42 | Extract2 => 43 | Bswap16 => 44 | Bswap32 => 45 | Bswap64 => 46 | Clz => 47
  | Ctz => 48 | CtPop => 49 | BrCond2I32 => 50 | SetCond2I32 => 51 | ExtI32I64 => 52 | ExtUI32I64 => 53
  | ExtrlI64I32 => 54 | ExtrhI64I32 => 55 | Ld8U => 56 | Ld8S => 57 | Ld16U => 58 | Ld16S => 59
  | Ld32U => 60 | Ld32S => 61 | Ld => 62 | St8 => 63 | St16 => 64 | St32 => 65
  | St => 66 | QemuLd => 67 | QemuSt => 68 | QemuLd2 => 69 | QemuSt2 => 70 | Br => 71
  | BrCond => 72 | SetLabel => 73 | GotoTb => 74 | ExitTb => 75 | GotoPtr => 76 | Mb => 77
  | Call => 78 | PluginCb => 79 | PluginMemCb => 80 | Nop => 81 | Discard => 82 | InsnStart => 83
  | MovVec => 84 | DupVec => 85 | Dup2Vec => 86 | LdVec => 87 | StVec => 88 | DupmVec => 89
  | AddVec => 90 | SubVec => 91 | MulVec => 92 | NegVec => 93 | AbsVec => 94 | SsaddVec => 95
  | UsaddVec => 96 | SssubVec => 97 | UssubVec => 98 | SminVec => 99 | UminVec => 100 | SmaxVec => 101
  | UmaxVec => 102 | AndVec => 103 | OrVec => 104 | XorVec => 105 | AndcVec => 106 | OrcVec => 107
  | NandVec => 108 | NorVec => 109 | EqvVec => 110 | NotVec => 111 | ShliVec => 112 | ShriVec => 113
  | SariVec => 114 | RotliVec => 115 | ShlsVec => 116 | ShrsVec => 117 | SarsVec => 118 | RotlsVec => 119
  | ShlvVec => 120 | ShrvVec => 121 | SarvVec => 122 | RotlvVec => 123 | RotrvVec => 124 | CmpVec => 125
  | BitselVec => 126 | CmpselVec => 127
  end%nat.

(** The enumeration in declaration order, without the [Count] sentinel. *)
Definition all_opcodes : list Opcode := [
  Mov; SetCond; NegSetCond; MovCond; Add; Sub; Mul; Neg;
  DivS; DivU; RemS; RemU; DivS2; DivU2; MulSH; MulUH;
  MulS2; MulU2; AddCO; AddCI; AddCIO; AddC1O; SubBO; SubBI;
  SubBIO; SubB1O; And; Or; Xor; Not; AndC; OrC;
  Eqv; Nand; Nor; Shl; Shr; Sar; RotL; RotR;
  Extract; SExtract; Deposit; Extract2; Bswap16; Bswap32; Bswap64; Clz;
  Ctz; CtPop; BrCond2I32; SetCond2I32; ExtI32I64; ExtUI32I64; ExtrlI64I32; ExtrhI64I32;
  Ld8U; Ld8S; Ld16U; Ld16S; Ld32U; Ld32S; Ld; St8;
  St16; St32; St; QemuLd; QemuSt; QemuLd2; QemuSt2; Br;
  BrCond; SetLabel; GotoTb; ExitTb; GotoPtr; Mb; Call; PluginCb;
  PluginMemCb; Nop; Discard; InsnStart; MovVec; DupVec; Dup2Vec; LdVec;
  StVec; DupmVec; AddVec; SubVec; MulVec; NegVec; AbsVec; SsaddVec;
  UsaddVec; SssubVec; UssubVec; SminVec; UminVec; SmaxVec; UmaxVec; AndVec;
  OrVec; XorVec; AndcVec; OrcVec; NandVec; NorVec; EqvVec; NotVec;
  ShliVec; ShriVec; SariVec; RotliVec; ShlsVec; ShrsVec; SarsVec; RotlsVec;
  ShlvVec; ShrvVec; SarvVec; RotlvVec; RotrvVec; CmpVec; BitselVec; CmpselVec].

Lemma all_opcodes_lookup (o : Opcode) : all_opcodes !! as_usize o = Some o.
Proof. by destruct o. Qed.

Lemma opcode_as_usize_inj (a b : Opcode) : as_usize a = as_usize b -> a = b.
Proof.
  intros H. pose proof (all_opcodes_lookup a) as Ha.
  rewrite H, all_opcodes_lookup in Ha. congruence.
Qed.

Global Instance Opcode_eq_dec : EqDecision Opcode.
Proof.
  refine (fun a b => cast_if (decide (as_usize a = as_usize b)));
    [by apply opcode_as_usize_inj | congruence].
Defined.

Record OpDef := mk_OpDef {
  name : string;
  nb_oargs : nat;
  nb_iargs : nat;
  nb_cargs : nat;
  flags : Z
}.

Definition nb_args (d : OpDef) : nat := nb_oargs d + nb_iargs d + nb_cargs d.

Definition f (a b : Z) : Z := Z.lor a b.
Definition INT : Z := OpFlags.INT.
Definition NP : Z := OpFlags.NOT_PRESENT.
Definition SE : Z := OpFlags.SIDE_EFFECTS.
Definition CC : Z := OpFlags.CALL_CLOBBER.
Definition BE : Z := OpFlags.BB_END.
Definition BX : Z := OpFlags.BB_EXIT.
Definition CB : Z := OpFlags.COND_BRANCH.
Definition CO : Z := OpFlags.CARRY_OUT.
Definition CI : Z := OpFlags.CARRY_IN.
Definition VC : Z := OpFlags.VECTOR.
Definition N_ : Z := OpFlags.NONE.

(** The rows of [OPCODE_DEFS], in source order. *)

Definition defs_move_arith : list OpDef := [
  mk_OpDef "mov" 1 1 0 (f INT NP);
  mk_OpDef "setcond" 1 2 1 INT;
  mk_OpDef "negsetcond" 1 2 1 INT;
  mk_OpDef "movcond" 1 4 1 INT;
  mk_OpDef "add" 1 2 0 INT;
  mk_OpDef "sub" 1 2 0 INT;
  mk_OpDef "mul" 1 2 0 INT;
  mk_OpDef "neg" 1 1 0 INT;
  mk_OpDef "divs" 1 2 0 INT;
  mk_OpDef "divu" 1 2 0 INT;
  mk_OpDef "rems" 1 2 0 INT;
  mk_OpDef "remu" 1 2 0 INT;
  mk_OpDef "divs2" 2 3 0 INT;
  mk_OpDef "divu2" 2 3 0 INT;
  mk_OpDef "mulsh" 1 2 0 INT;
  mk_OpDef "muluh" 1 2 0 INT;
  mk_OpDef "muls2" 2 2 0 INT;
  mk_OpDef "mulu2" 2 2 0 INT]%string.

Definition defs_carry_logic : list OpDef := [
  mk_OpDef "addco" 1 2 0 (f INT CO);
  mk_OpDef "addci" 1 2 0 (f INT CI);
  mk_OpDef "addcio" 1 2 0 (Z.lor (Z.lor INT CI) CO);
  mk_OpDef "addc1o" 1 2 0 (f INT CO);
  mk_OpDef "subbo" 1 2 0 (f INT CO);
  mk_OpDef "subbi" 1 2 0 (f INT CI);
  mk_OpDef "subbio" 1 2 0 (Z.lor (Z.lor INT CI) CO);
  mk_OpDef "subb1o" 1 2 0 (f INT CO);
  mk_OpDef "and" 1 2 0 INT;
  mk_OpDef "or" 1 2 0 INT;
  mk_OpDef "xor" 1 2 0 INT;
  mk_OpDef "not" 1 1 0 INT;
  mk_OpDef "andc" 1 2 0 INT;
  mk_OpDef "orc" 1 2 0 INT;
  mk_OpDef "eqv" 1 2 0 INT;
  mk_OpDef "nand" 1 2 0 INT;
  mk_OpDef "nor" 1 2 0 INT]%string.

Definition defs_shift_field : list OpDef := [
  mk_OpDef "shl" 1 2 0 INT;
  mk_OpDef "shr" 1 2 0 INT;
  mk_OpDef "sar" 1 2 0 INT;
  mk_OpDef "rotl" 1 2 0 INT;
  mk_OpDef "rotr" 1 2 0 INT;
  mk_OpDef "extract" 1 1 2 INT;
  mk_OpDef "sextract" 1 1 2 INT;
  mk_OpDef "deposit" 1 2 2 INT;
  mk_OpDef "extract2" 1 2 1 INT;
  mk_OpDef "bswap16" 1 1 1 INT;
  mk_OpDef "bswap32" 1 1 1 INT;
  mk_OpDef "bswap64" 1 1 1 INT;
  mk_OpDef "clz" 1 2 0 INT;
  mk_OpDef "ctz" 1 2 0 INT;
  mk_OpDef "ctpop" 1 1 0 INT;
  mk_OpDef "brcond2_i32" 0 4 2 (Z.lor BE CB)]%string.

Definition defs_pair_ext_mem : list OpDef := [
  mk_OpDef "setcond2_i32" 1 4 1 N_;
  mk_OpDef "ext_i32_i64" 1 1 0 N_;
  mk_OpDef "extu_i32_i64" 1 1 0 N_;
  mk_OpDef "extrl_i64_i32" 1 1 0 N_;
  mk_OpDef "extrh_i64_i32" 1 1 0 N_;
  mk_OpDef "ld8u" 1 1 1 INT;
  mk_OpDef "ld8s" 1 1 1 INT;
  mk_OpDef "ld16u" 1 1 1 INT;
  mk_OpDef "ld16s" 1 1 1 INT;
  mk_OpDef "ld32u" 1 1 1 INT;
  mk_OpDef "ld32s" 1 1 1 INT;
  mk_OpDef "ld" 1 1 1 INT;
  mk_OpDef "st8" 0 2 1 INT;
  mk_OpDef "st16" 0 2 1 INT;
  mk_OpDef "st32" 0 2 1 INT;
  mk_OpDef "st" 0 2 1 INT;
  mk_OpDef "qemu_ld" 1 1 1 (Z.lor (Z.lor CC SE) INT)]%string.

Definition defs_guest_control : list OpDef := [
  mk_OpDef "qemu_st" 0 2 1 (Z.lor (Z.lor CC SE) INT);
  mk_OpDef "qemu_ld2" 2 1 1 (Z.lor (Z.lor CC SE) INT);
  mk_OpDef "qemu_st2" 0 3 1 (Z.lor (Z.lor CC SE) INT);
  mk_OpDef "br" 0 0 1 (f BE NP);
  mk_OpDef "brcond" 0 2 2 (Z.lor (Z.lor BE CB) INT);
  mk_OpDef "set_label" 0 0 1 (f BE NP);
  mk_OpDef "goto_tb" 0 0 1 (Z.lor (Z.lor BX BE) NP);
  mk_OpDef "exit_tb" 0 0 1 (Z.lor (Z.lor BX BE) NP);
  mk_OpDef "goto_ptr" 0 1 0 (f BX BE);
  mk_OpDef "mb" 0 0 1 NP;
  mk_OpDef "call" 1 6 2 (f CC NP);
  mk_OpDef "plugin_cb" 0 0 1 NP;
  mk_OpDef "plugin_mem_cb" 0 1 1 NP;
  mk_OpDef "nop" 0 0 0 NP;
  mk_OpDef "discard" 1 0 0 NP;
  mk_OpDef "insn_start" 0 0 2 NP]%string.

Definition defs_misc_vecmove : list OpDef := [
  mk_OpDef "mov_vec" 1 1 0 (f VC NP);
  mk_OpDef "dup_vec" 1 1 0 VC;
  mk_OpDef "dup2_vec" 1 2 0 VC;
  mk_OpDef "ld_vec" 1 1 1 VC;
  mk_OpDef "st_vec" 0 2 1 VC;
  mk_OpDef "dupm_vec" 1 1 1 VC;
  mk_OpDef "add_vec" 1 2 0 VC;
  mk_OpDef "sub_vec" 1 2 0 VC;
  mk_OpDef "mul_vec" 1 2 0 VC]%string.

Definition defs_vec_arith : list OpDef := [
  mk_OpDef "neg_vec" 1 1 0 VC;
  mk_OpDef "abs_vec" 1 1 0 VC;
  mk_OpDef "ssadd_vec" 1 2 0 VC;
  mk_OpDef "usadd_vec" 1 2 0 VC;
  mk_OpDef "sssub_vec" 1 2 0 VC;
  mk_OpDef "ussub_vec" 1 2 0 VC;
  mk_OpDef "smin_vec" 1 2 0 VC;
  mk_OpDef "umin_vec" 1 2 0 VC;
  mk_OpDef "smax_vec" 1 2 0 VC;
  mk_OpDef "umax_vec" 1 2 0 VC;
  mk_OpDef "and_vec" 1 2 0 VC;
  mk_OpDef "or_vec" 1 2 0 VC;
  mk_OpDef "xor_vec" 1 2 0 VC]%string.

Definition defs_vec_logic : list OpDef := [
  mk_OpDef "andc_vec" 1 2 0 VC;
  mk_OpDef "orc_vec" 1 2 0 VC;
  mk_OpDef "nand_vec" 1 2 0 VC;
  mk_OpDef "nor_vec" 1 2 0 VC;
  mk_OpDef "eqv_vec" 1 2 0 VC;
  mk_OpDef "not_vec" 1 1 0 VC;
  mk_OpDef "shli_vec" 1 1 1 VC;
  mk_OpDef "shri_vec" 1 1 1 VC;
  mk_OpDef "sari_vec" 1 1 1 VC]%string.

Definition defs_vec_shift_cmp : list OpDef := [
  mk_OpDef "rotli_vec" 1 1 1 VC;
  mk_OpDef "shls_vec" 1 2 0 VC;
  mk_OpDef "shrs_vec" 1 2 0 VC;
  mk_OpDef "sars_vec" 1 2 0 VC;
  mk_OpDef "rotls_vec" 1 2 0 VC;
  mk_OpDef "shlv_vec" 1 2 0 VC;
  mk_OpDef "shrv_vec" 1 2 0 VC;
  mk_OpDef "sarv_vec" 1 2 0 VC;
  mk_OpDef "rotlv_vec" 1 2 0 VC;
  mk_OpDef "rotrv_vec" 1 2 0 VC;
  mk_OpDef "cmp_vec" 1 2 1 VC;
  mk_OpDef "bitsel_vec" 1 3 0 VC;
  mk_OpDef "cmpsel_vec" 1 4 1 VC]%string.

Definition OPCODE_DEFS : list OpDef :=
  defs_move_arith ++ defs_carry_logic ++ defs_shift_field ++ defs_pair_ext_mem ++
  defs_guest_control ++ defs_misc_vecmove ++ defs_vec_arith ++ defs_vec_logic ++
  defs_vec_shift_cmp.

(** [OPCODE_DEFS[self as usize]]; the table covers every discriminant
    ([def_covers]), so the default of [nth] is never used. *)
Definition def (o : Opcode) : OpDef :=
  nth (as_usize o) OPCODE_DEFS (mk_OpDef "?" 0 0 0 0).

Definition fixed_type (o : Opcode) : option Ty.Ty :=
  match o with
  | ExtI32I64 | ExtUI32I64 => Some Ty.I64
  | ExtrlI64I32 | ExtrhI64I32 | BrCond2I32 | SetCond2I32 => Some Ty.I32
  | _ => None
  end.

Definition is_int_polymorphic (o : Opcode) : bool :=
  OpFlags.contains (flags (def o)) OpFlags.INT.

Definition is_vector (o : Opcode) : bool :=
  OpFlags.contains (flags (def o)) OpFlags.VECTOR.

Lemma def_covers (o : Opcode) : OPCODE_DEFS !! as_usize o = Some (def o).
Proof. by destruct o. Qed.

(** No row asks for more arguments than an [Op] can hold ([MAX_OP_ARGS]). *)
Lemma nb_args_le (o : Opcode) : (nb_args (def o) <= 10)%nat.
Proof. destruct o; vm_compute; lia. Qed.

End Opcode.
