(* ===== verification/IrContext.v ===== *)
(** * The translation context

    Models [accel/src/ir/temp.rs], [accel/src/ir/op.rs], [accel/src/ir/label.rs]
    and [accel/src/ir/context.rs]: temporaries, operations and labels of one
    translation block, constant deduplication and spill-slot allocation, with
    the invariant [ctx_wf] that every constructor of temps preserves. *)

From Stdlib Require Import ZArith Lia Bool String.
From stdpp Require Import base tactics numbers list gmap.
From S2P Require Import Prelude IrTypes IrOpcode.

(** Temp, op and label indices are [u32]s. *)
Notation TempIdx := N (only parsing).
Notation OpIdx := N (only parsing).

(** ** Temporaries *)
Module TempKind.
Inductive TempKind := Ebb | Tb | Global | Fixed | Const.
Global Instance TempKind_eq_dec : EqDecision TempKind.
Proof. solve_decision. Defined.
End TempKind.

Module Temp.

Record Temp := mk_Temp {
  idx : TempIdx;
  ty : Ty.Ty;
  base_type : Ty.Ty;
  kind : TempKind.TempKind;
  val_type : TempVal.TempVal;
  reg : option Z;
  mem_coherent : bool;
  mem_allocated : bool;
  val : Z;
  mem_base : option TempIdx;
  mem_offset : Z;
  name : option string
}.

Definition new_ebb (i : TempIdx) (t : Ty.Ty) : Temp := {|
  idx := i; ty := t; base_type := t; kind := TempKind.Ebb;
  val_type := TempVal.Dead; reg := None; mem_coherent := false;
  mem_allocated := false; val := 0; mem_base := None; mem_offset := 0;
  name := None
|}.

Definition new_tb (i : TempIdx) (t : Ty.Ty) : Temp :=
  let x := new_ebb i t in {|
  idx := idx x; ty := ty x; base_type := base_type x; kind := TempKind.Tb;
  val_type := val_type x; reg := reg x; mem_coherent := mem_coherent x;
  mem_allocated := mem_allocated x; val := val x; mem_base := mem_base x;
  mem_offset := mem_offset x; name := name x
|}.

Definition new_const (i : TempIdx) (t : Ty.Ty) (v : Z) : Temp := {|
  idx := i; ty := t; base_type := t; kind := TempKind.Const;
  val_type := TempVal.Const; reg := None; mem_coherent := false;
  mem_allocated := false; val := v; mem_base := None; mem_offset := 0;
  name := None
|}.

Definition new_global (i : TempIdx) (t : Ty.Ty) (base : TempIdx) (offset : Z)
    (nm : string) : Temp := {|
  idx := i; ty := t; base_type := t; kind := TempKind.Global;
  val_type := TempVal.Mem; reg := None; mem_coherent := true;
  mem_allocated := true; val := 0; mem_base := Some base;
  mem_offset := offset; name := Some nm
|}.

Definition new_fixed (i : TempIdx) (t : Ty.Ty) (r : Z) (nm : string) : Temp := {|
  idx := i; ty := t; base_type := t; kind := TempKind.Fixed;
  val_type := TempVal.Reg; reg := Some r; mem_coherent := false;
  mem_allocated := false; val := 0; mem_base := None; mem_offset := 0;
  name := Some nm
|}.

Definition is_const (t : Temp) : bool :=
  bool_decide (kind t = TempKind.Const).

Definition is_global (t : Temp) : bool :=
  bool_decide (kind t = TempKind.Global).

Definition is_fixed (t : Temp) : bool :=
  bool_decide (kind t = TempKind.Fixed).

Definition is_global_or_fixed (t : Temp) : bool :=
  match kind t with TempKind.Global | TempKind.Fixed => true | _ => false end.

(** The updates [Context::reset] makes to a surviving global. *)
Definition reset_alloc (t : Temp) : Temp :=
  match kind t with
  | TempKind.Fixed => {|
      idx := idx t; ty := ty t; base_type := base_type t; kind := kind t;
      val_type := val_type t; reg := reg t; mem_coherent := false;
      mem_allocated := mem_allocated t; val := val t; mem_base := mem_base t;
      mem_offset := mem_offset t; name := name t |}
  | TempKind.Global => {|
      idx := idx t; ty := ty t; base_type := base_type t; kind := kind t;
      val_type := TempVal.Mem; reg := None; mem_coherent := true;
      mem_allocated := mem_allocated t; val := val t; mem_base := mem_base t;
      mem_offset := mem_offset t; name := name t |}
  | _ => t
  end.

Definition set_slot (t : Temp) (offset : Z) : Temp := {|
  idx := idx t; ty := ty t; base_type := base_type t; kind := kind t;
  val_type := val_type t; reg := reg t; mem_coherent := mem_coherent t;
  mem_allocated := true; val := val t; mem_base := mem_base t;
  mem_offset := offset; name := name t
|}.

End Temp.

(** ** Operations *)
Module Op.

Definition MAX_OP_ARGS : nat := 10.

Record Op := mk_Op {
  idx : OpIdx;
  opc : Opcode.Opcode;
  op_type : Ty.Ty;
  param1 : Z;
  param2 : Z;
  life : Z;
  output_pref : Z * Z;
  args : list TempIdx;
  nargs : nat
}.

Definition new (i : OpIdx) (o : Opcode.Opcode) (t : Ty.Ty) : Op := {|
  idx := i; opc := o; op_type := t; param1 := 0; param2 := 0; life := 0;
  output_pref := (RegSet.EMPTY, RegSet.EMPTY);
  args := replicate MAX_OP_ARGS 0%N; nargs := 0
|}.

(** [args.len().min(MAX_OP_ARGS)] arguments are copied over the zeroed array. *)
Definition with_args (i : OpIdx) (o : Opcode.Opcode) (t : Ty.Ty)
    (l : list TempIdx) : Op :=
  let op := new i o t in
  let n := Nat.min (length l) MAX_OP_ARGS in {|
  idx := idx op; opc := opc op; op_type := op_type op; param1 := param1 op;
  param2 := param2 op; life := life op; output_pref := output_pref op;
  args := take n l ++ drop n (args op); nargs := n
|}.

Definition oargs (op : Op) : list TempIdx :=
  take (Opcode.nb_oargs (Opcode.def (opc op))) (args op).

Definition iargs (op : Op) : list TempIdx :=
  let d := Opcode.def (opc op) in
  take (Opcode.nb_iargs d) (drop (Opcode.nb_oargs d) (args op)).

Definition cargs (op : Op) : list TempIdx :=
  let d := Opcode.def (opc op) in
  take (Opcode.nb_cargs d)
    (drop (Opcode.nb_oargs d + Opcode.nb_iargs d) (args op)).

(** Field updates used by the passes. *)
Definition set_args (op : Op) (l : list TempIdx) : Op := {|
  idx := idx op; opc := opc op; op_type := op_type op; param1 := param1 op;
  param2 := param2 op; life := life op; output_pref := output_pref op;
  args := l; nargs := nargs op
|}.

Definition set_life (op : Op) (l : Z) : Op := {|
  idx := idx op; opc := opc op; op_type := op_type op; param1 := param1 op;
  param2 := param2 op; life := l; output_pref := output_pref op;
  args := args op; nargs := nargs op
|}.

(** [op.opc = o; op.args[..] = l; op.nargs = n]. *)
Definition rewrite_op (op : Op) (o : Opcode.Opcode) (l : list TempIdx) (n : nat)
    : Op := {|
  idx := idx op; opc := o; op_type := op_type op; param1 := param1 op;
  param2 := param2 op; life := life op; output_pref := output_pref op;
  args := l; nargs := n
|}.

Lemma length_with_args i o t l : length (args (with_args i o t l)) = MAX_OP_ARGS.
Proof.
  unfold with_args, args, new.
  rewrite length_app, length_take, length_drop, length_replicate. lia.
Qed.

End Op.

(** ** Labels *)
Module Label.

Inductive RelocKind := Rel32.

Record LabelUse := mk_LabelUse { offset : Z; kind : RelocKind }.

Record Label := mk_Label {
  id : N;
  present : bool;
  has_value : bool;
  value : Z;
  uses : list LabelUse
}.

Definition new (i : N) : Label := {|
  id := i; present := false; has_value := false; value := 0; uses := []
|}.

Definition add_use (l : Label) (off : Z) (k : RelocKind) : Label := {|
  id := id l; present := present l; has_value := has_value l; value := value l;
  uses := uses l ++ [mk_LabelUse off k]
|}.

Definition set_value (l : Label) (off : Z) : Label := {|
  id := id l; present := true; has_value := true; value := off; uses := uses l
|}.

Definition has_pending_uses (l : Label) : bool :=
  negb (bool_decide (length (uses l) = 0%nat)) && negb (has_value l).

End Label.

(** ** The context *)
Module Context.

Record Context := mk_Context {
  temps : list Temp.Temp;
  ops : list Op.Op;
  labels : list Label.Label;
  nb_globals : nat;
  frame_reg : option Z;
  frame_start : Z;
  frame_end : Z;
  frame_alloc_end : Z;
  reserved_regs : Z;
  const_table : list (gmap Z TempIdx);
  gen_insn_end_off : list Z;
  tb_idx : Z;
  contains_atomic : bool;
  instret_discarded : Z
}.

Definition new : Context := {|
  temps := []; ops := []; labels := []; nb_globals := 0; frame_reg := None;
  frame_start := 0; frame_end := 0; frame_alloc_end := 0;
  reserved_regs := RegSet.EMPTY; const_table := replicate Ty.TYPE_COUNT ∅;
  gen_insn_end_off := []; tb_idx := 0; contains_atomic := false;
  instret_discarded := 0
|}.

Definition set_temps (c : Context) (l : list Temp.Temp) : Context := {|
  temps := l; ops := ops c; labels := labels c; nb_globals := nb_globals c;
  frame_reg := frame_reg c; frame_start := frame_start c;
  frame_end := frame_end c; frame_alloc_end := frame_alloc_end c;
  reserved_regs := reserved_regs c; const_table := const_table c;
  gen_insn_end_off := gen_insn_end_off c; tb_idx := tb_idx c;
  contains_atomic := contains_atomic c; instret_discarded := instret_discarded c
|}.

Definition set_ops (c : Context) (l : list Op.Op) : Context := {|
  temps := temps c; ops := l; labels := labels c; nb_globals := nb_globals c;
  frame_reg := frame_reg c; frame_start := frame_start c;
  frame_end := frame_end c; frame_alloc_end := frame_alloc_end c;
  reserved_regs := reserved_regs c; const_table := const_table c;
  gen_insn_end_off := gen_insn_end_off c; tb_idx := tb_idx c;
  contains_atomic := contains_atomic c; instret_discarded := instret_discarded c
|}.

Definition set_labels (c : Context) (l : list Label.Label) : Context := {|
  temps := temps c; ops := ops c; labels := l; nb_globals := nb_globals c;
  frame_reg := frame_reg c; frame_start := frame_start c;
  frame_end := frame_end c; frame_alloc_end := frame_alloc_end c;
  reserved_regs := reserved_regs c; const_table := const_table c;
  gen_insn_end_off := gen_insn_end_off c; tb_idx := tb_idx c;
  contains_atomic := contains_atomic c; instret_discarded := instret_discarded c
|}.

Definition set_consts (c : Context) (l : list Temp.Temp) (t : list (gmap Z TempIdx))
    : Context := {|
  temps := l; ops := ops c; labels := labels c; nb_globals := nb_globals c;
  frame_reg := frame_reg c; frame_start := frame_start c;
  frame_end := frame_end c; frame_alloc_end := frame_alloc_end c;
  reserved_regs := reserved_regs c; const_table := t;
  gen_insn_end_off := gen_insn_end_off c; tb_idx := tb_idx c;
  contains_atomic := contains_atomic c; instret_discarded := instret_discarded c
|}.

Definition set_globals (c : Context) (l : list Temp.Temp) (n : nat) : Context := {|
  temps := l; ops := ops c; labels := labels c; nb_globals := n;
  frame_reg := frame_reg c; frame_start := frame_start c;
  frame_end := frame_end c; frame_alloc_end := frame_alloc_end c;
  reserved_regs := reserved_regs c; const_table := const_table c;
  gen_insn_end_off := gen_insn_end_off c; tb_idx := tb_idx c;
  contains_atomic := contains_atomic c; instret_discarded := instret_discarded c
|}.

Definition reset (c : Context) : Context := {|
  temps := Temp.reset_alloc <$> take (nb_globals c) (temps c);
  ops := []; labels := []; nb_globals := nb_globals c;
  frame_reg := frame_reg c; frame_start := frame_start c;
  frame_end := frame_end c; frame_alloc_end := frame_start c;
  reserved_regs := reserved_regs c; const_table := replicate Ty.TYPE_COUNT ∅;
  gen_insn_end_off := []; tb_idx := tb_idx c; contains_atomic := false;
  instret_discarded := 0
|}.

Definition nb_temps (c : Context) : nat := length (temps c).

Definition new_temp (c : Context) (ty : Ty.Ty) : TempIdx * Context :=
  let i := N.of_nat (length (temps c)) in
  (i, set_temps c (temps c ++ [Temp.new_ebb i ty])).

Definition new_temp_tb (c : Context) (ty : Ty.Ty) : TempIdx * Context :=
  let i := N.of_nat (length (temps c)) in
  (i, set_temps c (temps c ++ [Temp.new_tb i ty])).

Definition const_lookup (c : Context) (ty : Ty.Ty) (v : Z) : option TempIdx :=
  m ← const_table c !! Ty.as_usize ty; m !! v.

Definition new_const (c : Context) (ty : Ty.Ty) (v : Z) : TempIdx * Context :=
  match const_lookup c ty v with
  | Some existing => (existing, c)
  | None =>
      let i := N.of_nat (length (temps c)) in
      (i, set_consts c (temps c ++ [Temp.new_const i ty v])
            (alter (insert v i) (Ty.as_usize ty) (const_table c)))
  end.

(** The two registrations [assert_eq!] that no local temp exists yet. *)
Definition new_global (c : Context) (ty : Ty.Ty) (base : TempIdx) (offset : Z)
    (nm : string) : option (TempIdx * Context) :=
  if decide (length (temps c) = nb_globals c) then
    let i := N.of_nat (length (temps c)) in
    Some (i, set_globals c (temps c ++ [Temp.new_global i ty base offset nm])
               (S (nb_globals c)))
  else None.

Definition new_fixed (c : Context) (ty : Ty.Ty) (reg : Z) (nm : string)
    : option (TempIdx * Context) :=
  if decide (length (temps c) = nb_globals c) then
    let i := N.of_nat (length (temps c)) in
    Some (i, set_globals c (temps c ++ [Temp.new_fixed i ty reg nm])
               (S (nb_globals c)))
  else None.

Definition temp (c : Context) (i : TempIdx) : option Temp.Temp := idx (temps c) i.

Definition globals (c : Context) : list Temp.Temp := take (nb_globals c) (temps c).

Definition next_op_idx (c : Context) : OpIdx := N.of_nat (length (ops c)).

Definition emit_op (c : Context) (op : Op.Op) : OpIdx * Context :=
  (Op.idx op, set_ops c (ops c ++ [op])).

Definition op (c : Context) (i : OpIdx) : option Op.Op := idx (ops c) i.

(** [*ctx.op_mut(i) = o]. *)
Definition put_op (c : Context) (i : OpIdx) (o : Op.Op) : option Context :=
  l <-! set_idx (ops c) i o ;; Some (set_ops c l).

Definition num_ops (c : Context) : nat := length (ops c).

Definition new_label (c : Context) : N * Context :=
  let i := N.of_nat (length (labels c)) in
  (i, set_labels c (labels c ++ [Label.new i])).

Definition label (c : Context) (i : N) : option Label.Label := idx (labels c) i.

Definition set_frame (c : Context) (reg start size : Z) : Context := {|
  temps := temps c; ops := ops c; labels := labels c; nb_globals := nb_globals c;
  frame_reg := Some reg; frame_start := start; frame_end := start + size;
  frame_alloc_end := start;
  reserved_regs := reserved_regs c; const_table := const_table c;
  gen_insn_end_off := gen_insn_end_off c; tb_idx := tb_idx c;
  contains_atomic := contains_atomic c; instret_discarded := instret_discarded c
|}.

(** The slot allocator: reuse an allocated slot, else round the bump pointer
    up to the temp's natural size; the final [assert!] is the [None] branch. *)
Definition alloc_temp_frame (c : Context) (i : TempIdx) : option (Z * Context) :=
  t <-! temp c i ;;
  if Temp.mem_allocated t then Some (Temp.mem_offset t, c)
  else
    let size := Ty.size_bytes (Temp.ty t) in
    let offset := Z.land (frame_alloc_end c + size - 1) (Z.lnot (size - 1)) in
    let fin := offset + size in
    if fin <=? frame_end c then
      Some (offset, {|
        temps := <[N.to_nat i := Temp.set_slot t offset]> (temps c);
        ops := ops c; labels := labels c; nb_globals := nb_globals c;
        frame_reg := frame_reg c; frame_start := frame_start c;
        frame_end := frame_end c; frame_alloc_end := fin;
        reserved_regs := reserved_regs c; const_table := const_table c;
        gen_insn_end_off := gen_insn_end_off c; tb_idx := tb_idx c;
        contains_atomic := contains_atomic c;
        instret_discarded := instret_discarded c |})
    else None.

Definition from_raw_parts (ts : list Temp.Temp) (os : list Op.Op)
    (ls : list Label.Label) (nb : nat) : Context := {|
  temps := ts; ops := os; labels := ls; nb_globals := nb; frame_reg := None;
  frame_start := 0; frame_end := 0; frame_alloc_end := 0;
  reserved_regs := RegSet.EMPTY; const_table := replicate Ty.TYPE_COUNT ∅;
  gen_insn_end_off := []; tb_idx := 0; contains_atomic := false;
  instret_discarded := 0
|}.

(** ** Well-formedness

    Indices are positions; the globals are exactly the prefix of length
    [nb_globals]; the constant table and the constant temps describe each other,
    so a constant of one type and value exists at most once. *)
Record wf (c : Context) : Prop := mk_wf {
  wf_idx : forall i t, temps c !! i = Some t -> Temp.idx t = N.of_nat i;
  wf_nb : (nb_globals c <= length (temps c))%nat;
  wf_globals : forall i t, temps c !! i = Some t ->
    (i < nb_globals c)%nat <-> Temp.is_global_or_fixed t = true;
  wf_table_len : length (const_table c) = Ty.TYPE_COUNT;
  wf_table : forall ty v i, const_lookup c ty v = Some i ->
    exists t, temps c !! N.to_nat i = Some t /\ Temp.kind t = TempKind.Const /\
      Temp.ty t = ty /\ Temp.val t = v;
  wf_consts : forall i t, temps c !! i = Some t -> Temp.kind t = TempKind.Const ->
    const_lookup c (Temp.ty t) (Temp.val t) = Some (N.of_nat i)
}.

Lemma lookup_snoc_inv {A} (l : list A) (x : A) i y :
  (l ++ [x]) !! i = Some y -> l !! i = Some y \/ (i = length l /\ y = x).
Proof.
  intros [H|[Hi H]]%lookup_app_Some; [by left|].
  destruct (i - length l)%nat eqn:E; simpl in H; [|done].
  right. split; [lia|congruence].
Qed.

Lemma const_lookup_alter (c : Context) (l : list Temp.Temp) ty v i ty' v' :
  length (const_table c) = Ty.TYPE_COUNT ->
  const_lookup (set_consts c l (alter (insert v i) (Ty.as_usize ty) (const_table c))) ty' v'
  = if decide (ty = ty' /\ v = v') then Some i else const_lookup c ty' v'.
Proof.
  intros Hlen. unfold const_lookup. simpl.
  destruct (decide (ty = ty')) as [->|Hty].
  - rewrite list_lookup_alter_eq.
    destruct (const_table c !! Ty.as_usize ty') as [m|] eqn:Em.
    + simpl. destruct (decide (v = v')) as [->|Hv].
      * by rewrite lookup_insert_eq, decide_True.
      * rewrite lookup_insert_ne by done. rewrite decide_False by naive_solver. done.
    + apply lookup_ge_None in Em. pose proof (Ty.as_usize_lt ty'). lia.
  - rewrite list_lookup_alter_ne by (intros ?%Ty.as_usize_inj; done).
    by rewrite decide_False by naive_solver.
Qed.

(** Appending a local temp that is not a constant keeps [wf]. *)
Lemma wf_push_local (c : Context) (t : Temp.Temp) :
  wf c -> Temp.idx t = N.of_nat (length (temps c)) ->
  Temp.is_global_or_fixed t = false -> Temp.kind t <> TempKind.Const ->
  wf (set_temps c (temps c ++ [t])).
Proof.
  intros [Hi Hn Hg Hl Ht Hc] Hidx Hgf Hk. split; simpl.
  - intros i t' [H| [-> ->]]%lookup_snoc_inv; [by apply Hi|done].
  - rewrite length_app. lia.
  - intros i t' [H| [-> ->]]%lookup_snoc_inv; [by apply Hg|].
    rewrite Hgf. split; [lia|done].
  - done.
  - intros ty v i H. destruct (Ht ty v i H) as (t' & ? & ?).
    exists t'. split; [by apply lookup_app_l_Some|done].
  - intros i t' [H| [-> ->]]%lookup_snoc_inv; [by apply Hc|done].
Qed.

Lemma wf_push_const (c : Context) ty v :
  wf c -> const_lookup c ty v = None ->
  wf (set_consts c (temps c ++ [Temp.new_const (N.of_nat (length (temps c))) ty v])
        (alter (insert v (N.of_nat (length (temps c)))) (Ty.as_usize ty) (const_table c))).
Proof.
  intros [Hi Hn Hg Hl Ht Hc] Hnone. split; cbn [temps nb_globals const_table set_consts].
  - intros i t' [H| [-> ->]]%lookup_snoc_inv; [by apply Hi|done].
  - rewrite length_app. lia.
  - intros i t' [H| [-> ->]]%lookup_snoc_inv; [by apply Hg|].
    simpl. split; [lia|done].
  - by rewrite length_alter.
  - intros ty' v' i. rewrite const_lookup_alter by done. case_decide as E.
    + destruct E as [-> ->]. intros [= <-]. rewrite Nat2N.id.
      eexists. split; [by apply list_lookup_middle|done].
    + intros H. destruct (Ht ty' v' i H) as (t' & ? & ?).
      exists t'. split; [by apply lookup_app_l_Some|done].
  - intros i t' Hlk Hk. rewrite const_lookup_alter by done.
    apply lookup_snoc_inv in Hlk as [H| [-> ->]].
    + rewrite decide_False; [by apply Hc|].
      intros [-> ->]. rewrite (Hc i t' H Hk) in Hnone. done.
    + by rewrite decide_True.
Qed.

Lemma wf_push_global (c : Context) (t : Temp.Temp) :
  wf c -> length (temps c) = nb_globals c ->
  Temp.idx t = N.of_nat (length (temps c)) -> Temp.is_global_or_fixed t = true ->
  wf (set_globals c (temps c ++ [t]) (S (nb_globals c))).
Proof.
  intros [Hi Hn Hg Hl Ht Hc] Hlen Hidx Hgf. split; simpl.
  - intros i t' [H| [-> ->]]%lookup_snoc_inv; [by apply Hi|done].
  - rewrite length_app. simpl. lia.
  - intros i t' [H| [-> ->]]%lookup_snoc_inv.
    + pose proof (lookup_lt_Some _ _ _ H). rewrite <- (Hg i t' H). lia.
    + rewrite Hgf. split; [done|lia].
  - done.
  - intros ty v i H. destruct (Ht ty v i H) as (t' & ? & ?).
    exists t'. split; [by apply lookup_app_l_Some|done].
  - intros i t' [H| [-> ->]]%lookup_snoc_inv; [by apply Hc|].
    intros Hk. unfold Temp.is_global_or_fixed in Hgf. by rewrite Hk in Hgf.
Qed.

Lemma reset_alloc_kind (t : Temp.Temp) :
  Temp.kind (Temp.reset_alloc t) = Temp.kind t /\
  Temp.idx (Temp.reset_alloc t) = Temp.idx t /\
  Temp.mem_allocated (Temp.reset_alloc t) = Temp.mem_allocated t.
Proof. unfold Temp.reset_alloc. by destruct (Temp.kind t) eqn:E. Qed.

Lemma const_lookup_empty (c : Context) ty v :
  const_table c = replicate Ty.TYPE_COUNT ∅ -> const_lookup c ty v = None.
Proof.
  intros H. unfold const_lookup. rewrite H.
  rewrite lookup_replicate_2 by apply Ty.as_usize_lt. simpl. apply lookup_empty.
Qed.

Lemma wf_reset (c : Context) : wf c -> wf (reset c).
Proof.
  intros [Hi Hn Hg Hl Ht Hc]. split; simpl.
  - intros i t (t' & -> & Ht')%list_lookup_fmap_Some.
    apply lookup_take_Some in Ht' as [Ht' _].
    rewrite (proj1 (proj2 (reset_alloc_kind t'))). by apply Hi.
  - rewrite length_fmap, length_take. lia.
  - intros i t (t' & -> & Ht')%list_lookup_fmap_Some.
    apply lookup_take_Some in Ht' as [Ht' Hlt].
    unfold Temp.is_global_or_fixed. rewrite (proj1 (reset_alloc_kind t')).
    by apply Hg.
  - done.
  - intros ty v i H. by rewrite const_lookup_empty in H.
  - intros i t (t' & -> & Ht')%list_lookup_fmap_Some Hk.
    apply lookup_take_Some in Ht' as [Ht' Hlt].
    rewrite (proj1 (reset_alloc_kind t')) in Hk.
    apply (Hg i t' Ht') in Hlt. unfold Temp.is_global_or_fixed in Hlt.
    by rewrite Hk in Hlt.
Qed.

(** ** Spill slots

    A temp owns the stack bytes [[mem_offset, mem_offset + size)] when it has
    been given a slot by [alloc_temp_frame]; globals also carry
    [mem_allocated], but live in the CPU state. *)
Definition has_slot (t : Temp.Temp) : bool :=
  Temp.mem_allocated t && negb (Temp.is_global_or_fixed t).

Definition slot_end (t : Temp.Temp) : Z :=
  Temp.mem_offset t + Ty.size_bytes (Temp.ty t).

Record frame_ok (c : Context) : Prop := mk_frame_ok {
  frame_bounds : frame_start c <= frame_alloc_end c <= frame_end c;
  frame_inside : forall i t, temps c !! i = Some t -> has_slot t = true ->
    frame_start c <= Temp.mem_offset t /\ slot_end t <= frame_alloc_end c /\
    Temp.mem_offset t mod Ty.size_bytes (Temp.ty t) = 0;
  frame_disjoint : forall i j t u, temps c !! i = Some t -> temps c !! j = Some u ->
    i <> j -> has_slot t = true -> has_slot u = true ->
    slot_end t <= Temp.mem_offset u \/ slot_end u <= Temp.mem_offset t
}.

Lemma size_bytes_pow2 (t : Ty.Ty) :
  exists k, 0 <= k /\ Ty.size_bytes t = 2 ^ k.
Proof.
  destruct t; [exists 2|exists 3|exists 4|exists 3|exists 4|exists 5]; done.
Qed.

(** Masking with [!(2^k - 1)] rounds down to a multiple of [2^k]. *)
Lemma land_lnot_align (x k : Z) :
  0 <= k -> Z.land x (Z.lnot (2 ^ k - 1)) = x - x mod 2 ^ k.
Proof.
  intros Hk. rewrite Z.sub_1_r, <- Z.ones_equiv, <- Z.ldiff_land.
  rewrite Z.ldiff_ones_r, Z.shiftl_mul_pow2, Z.shiftr_div_pow2 by done.
  pose proof (Z.div_mod x (2 ^ k) ltac:(apply Z.pow_nonzero; lia)). lia.
Qed.

(** Rounding up stays within one size of the argument and is aligned. *)
Lemma align_up (x : Z) (t : Ty.Ty) :
  let size := Ty.size_bytes t in
  let r := Z.land (x + size - 1) (Z.lnot (size - 1)) in
  x <= r < x + size /\ r mod size = 0.
Proof.
  destruct (size_bytes_pow2 t) as (k & Hk & ->). simpl.
  rewrite land_lnot_align by done.
  pose proof (Z.pow_pos_nonneg 2 k ltac:(lia) Hk).
  pose proof (Z.mod_pos_bound (x + 2 ^ k - 1) (2 ^ k) ltac:(lia)).
  split; [lia|].
  rewrite Zminus_mod, Z.mod_mod, Z.sub_diag by lia. by apply Z.mod_0_l; lia.
Qed.

Lemma size_bytes_pos (t : Ty.Ty) : 0 < Ty.size_bytes t.
Proof. by destruct t. Qed.

(** A context whose new temps have no slot inherits the frame invariant. *)
Lemma frame_ok_mono (c c' : Context) :
  frame_ok c -> frame_start c' = frame_start c -> frame_end c' = frame_end c ->
  frame_alloc_end c' = frame_alloc_end c ->
  (forall i t, temps c' !! i = Some t -> has_slot t = true -> temps c !! i = Some t) ->
  frame_ok c'.
Proof.
  intros [Hb Hin Hd] Es Ee Ea Hsub. split.
  - by rewrite Es, Ee, Ea.
  - intros i t Ht Hs. rewrite Es, Ea. by apply (Hin i); auto.
  - intros i j t u Ht Hu Hij Hst Hsu. apply (Hd i j); auto.
Qed.

Lemma frame_ok_push (c c' : Context) (t : Temp.Temp) :
  frame_ok c -> temps c' = temps c ++ [t] -> has_slot t = false ->
  frame_start c' = frame_start c -> frame_end c' = frame_end c ->
  frame_alloc_end c' = frame_alloc_end c -> frame_ok c'.
Proof.
  intros Hok Et Ht Es Ee Ea. apply (frame_ok_mono c); auto.
  rewrite Et. intros i u [H| [-> ->]]%lookup_snoc_inv Hs; [done|congruence].
Qed.

(** Without local temps no slot is owned. *)
Lemma frame_ok_no_slots (c : Context) :
  frame_start c <= frame_alloc_end c <= frame_end c ->
  (forall i t, temps c !! i = Some t -> has_slot t = false) -> frame_ok c.
Proof.
  intros Hb Hn. split; [done| |].
  - intros i t Ht Hs. by rewrite (Hn i t Ht) in Hs.
  - intros i j t u Ht _ _ Hs. by rewrite (Hn i t Ht) in Hs.
Qed.

(** [alloc_temp_frame] on a local temp: the slot is aligned, inside the frame
    and disjoint from every slot given out before. *)
Lemma alloc_temp_frame_ok (c c' : Context) (i : TempIdx) (off : Z) t :
  frame_ok c -> temp c i = Some t -> Temp.is_global_or_fixed t = false ->
  alloc_temp_frame c i = Some (off, c') -> frame_ok c'.
Proof.
  intros [Hb Hin Hd] Ht Hloc. unfold alloc_temp_frame. rewrite Ht.
  destruct (Temp.mem_allocated t) eqn:Ea; [intros [= <- <-]; by split|].
  set (size := Ty.size_bytes (Temp.ty t)).
  set (o := Z.land _ _). case_if; [|done]. intros [= <- <-].
  destruct (align_up (frame_alloc_end c) (Temp.ty t)) as [Ho Hm]. fold size o in Ho, Hm.
  pose proof (size_bytes_pos (Temp.ty t)).
  assert (Hnew : forall j u, <[N.to_nat i:=Temp.set_slot t o]> (temps c) !! j = Some u ->
    has_slot u = true ->
    (j = N.to_nat i /\ u = Temp.set_slot t o) \/ (j <> N.to_nat i /\ temps c !! j = Some u)).
  { intros j u [(<- & <- & _)|[? ?]]%list_lookup_insert_Some _; auto. }
  split; simpl.
  - lia.
  - intros j u Hj Hs. destruct (Hnew j u Hj Hs) as [[-> ->]|[_ Hu]].
    + unfold slot_end. simpl. fold size. lia.
    + destruct (Hin j u Hu Hs) as (? & ? & ?). split_and!; try done; lia.
  - intros j k u v Hj Hk Hjk Hu Hv.
    destruct (Hnew j u Hj Hu) as [[-> ->]|[Hj1 Hj2]],
      (Hnew k v Hk Hv) as [[-> ->]|[Hk1 Hk2]]; [done| | |by apply (Hd j k)].
    + right. destruct (Hin k v Hk2 Hv) as (_ & ? & _). simpl. lia.
    + left. destruct (Hin j u Hj2 Hu) as (_ & ? & _). simpl. lia.
Qed.

(** ** Reachable contexts

    One translation: the backend configures the frame and the front end
    registers globals on a fresh or reset context, then temps, constants,
    labels and ops are created and slots handed out in any order. *)
Inductive step : Context -> Context -> Prop :=
| step_new_temp c ty : step c (new_temp c ty).2
| step_new_temp_tb c ty : step c (new_temp_tb c ty).2
| step_new_const c ty v : step c (new_const c ty v).2
| step_new_global c c' ty base off nm i :
    new_global c ty base off nm = Some (i, c') -> step c c'
| step_new_fixed c c' ty reg nm i :
    new_fixed c ty reg nm = Some (i, c') -> step c c'
| step_emit_op c o : step c (emit_op c o).2
| step_new_label c : step c (new_label c).2
| step_set_frame c reg start size :
    length (temps c) = nb_globals c -> 0 <= size -> step c (set_frame c reg start size)
| step_alloc c c' i t off :
    temp c i = Some t -> Temp.is_global_or_fixed t = false ->
    alloc_temp_frame c i = Some (off, c') -> step c c'
| step_reset c : step c (reset c).

(** The kind, type, value and index of temps survive slot allocation. *)
Lemma wf_set_slot (c c' : Context) i t off :
  wf c -> temps c !! i = Some t -> temps c' = <[i := Temp.set_slot t off]> (temps c) ->
  nb_globals c' = nb_globals c -> const_table c' = const_table c -> wf c'.
Proof.
  intros [Hi Hn Hg Hl Ht Hc] Hlk Et En Ec.
  assert (Hcl : forall ty v, const_lookup c' ty v = const_lookup c ty v)
    by (intros; unfold const_lookup; by rewrite Ec).
  assert (Hold : forall j u, temps c' !! j = Some u -> exists u0, temps c !! j = Some u0 /\
    Temp.idx u = Temp.idx u0 /\ Temp.kind u = Temp.kind u0 /\ Temp.ty u = Temp.ty u0 /\
    Temp.val u = Temp.val u0).
  { intros j u. rewrite Et. intros [(<- & <- & _)|[_ H]]%list_lookup_insert_Some;
      [by exists t|by exists u]. }
  split.
  - intros j u (u0 & H & -> & _)%Hold. by apply Hi.
  - rewrite Et, length_insert. lia.
  - intros j u (u0 & H & _ & Hk & _)%Hold. unfold Temp.is_global_or_fixed. rewrite Hk, En.
    by apply Hg.
  - by rewrite Ec.
  - intros ty v j Hj. rewrite Hcl in Hj. destruct (Ht ty v j Hj) as (u & Hu & ?).
    rewrite Et. destruct (decide (N.to_nat j = i)) as [<-|].
    + rewrite list_lookup_insert_eq by by eapply lookup_lt_Some.
      exists (Temp.set_slot t off). split; [done|].
      rewrite Hlk in Hu. injection Hu as <-. done.
    + rewrite list_lookup_insert_ne by done. eauto.
  - intros j u (u0 & H & _ & Hk & Hty & Hv)%Hold Hc'. rewrite Hcl, Hty, Hv.
    apply Hc; congruence.
Qed.

Lemma wf_ext (c c' : Context) :
  temps c' = temps c -> nb_globals c' = nb_globals c -> const_table c' = const_table c ->
  wf c -> wf c'.
Proof.
  intros Et En Ec [Hi Hn Hg Hl Ht Hc].
  assert (Hcl : forall ty v, const_lookup c' ty v = const_lookup c ty v)
    by (intros; unfold const_lookup; by rewrite Ec).
  split; rewrite ?Et, ?En, ?Ec; try done.
  - intros ty v i. rewrite Hcl. apply Ht.
  - intros i t. rewrite Hcl. apply Hc.
Qed.

Lemma step_wf (c c' : Context) : step c c' -> wf c -> wf c'.
Proof.
  destruct 1 as [c ty|c ty|c ty v|c c' ty b o nm i H|c c' ty r nm i H|c o|c|c r s z|
                 c c' i t off Ht Hl H|c]; intros Hwf.
  - by apply wf_push_local.
  - by apply wf_push_local.
  - unfold new_const. destruct (const_lookup c ty v) eqn:E; [done|].
    by apply wf_push_const.
  - unfold new_global in H. case_decide; [|done]. injection H as _ <-.
    by apply wf_push_global.
  - unfold new_fixed in H. case_decide; [|done]. injection H as _ <-.
    by apply wf_push_global.
  - by apply (wf_ext c).
  - by apply (wf_ext c).
  - by apply (wf_ext c).
  - unfold alloc_temp_frame in H. rewrite Ht in H.
    destruct (Temp.mem_allocated t); [by injection H as _ <-|].
    match type of H with context [if ?b then _ else _] => destruct b; [|done] end.
    injection H as _ <-. by eapply wf_set_slot.
  - by apply wf_reset.
Qed.

Lemma all_globals_no_slot (c : Context) :
  wf c -> length (temps c) = nb_globals c ->
  forall i t, temps c !! i = Some t -> has_slot t = false.
Proof.
  intros Hwf Hlen i t Ht. pose proof (lookup_lt_Some _ _ _ Ht).
  unfold has_slot. rewrite (proj1 (wf_globals c Hwf i t Ht)) by lia.
  apply andb_false_r.
Qed.

Lemma step_frame_ok (c c' : Context) : step c c' -> wf c -> frame_ok c -> frame_ok c'.
Proof.
  destruct 1 as [c ty|c ty|c ty v|c c' ty b o nm i H|c c' ty r nm i H|c o|c|c r s z|
                 c c' i t off Ht Hl H|c]; intros Hwf Hok.
  - by eapply frame_ok_push.
  - by eapply frame_ok_push.
  - unfold new_const. destruct (const_lookup c ty v) eqn:E; [done|].
    by eapply frame_ok_push.
  - unfold new_global in H. case_decide; [|done]. injection H as _ <-.
    by eapply frame_ok_push.
  - unfold new_fixed in H. case_decide; [|done]. injection H as _ <-.
    by eapply frame_ok_push.
  - by apply (frame_ok_mono c).
  - by apply (frame_ok_mono c).
  - apply frame_ok_no_slots; simpl; [lia|]. by apply all_globals_no_slot.
  - by eapply alloc_temp_frame_ok.
  - apply frame_ok_no_slots; [destruct Hok; simpl; lia|].
    apply all_globals_no_slot; [by apply wf_reset|]. simpl.
    rewrite length_fmap, length_take. pose proof (wf_nb c Hwf). lia.
Qed.

Definition reachable (c : Context) : Prop := rtc step new c.

Lemma wf_new : wf new.
Proof.
  split; simpl; try done; try lia.
  intros ty v i H. by rewrite const_lookup_empty in H.
Qed.

Lemma reachable_inv (c : Context) : reachable c -> wf c /\ frame_ok c.
Proof.
  unfold reachable. intros H. revert H. generalize wf_new.
  assert (Hf : frame_ok new) by (by apply frame_ok_no_slots).
  revert Hf. generalize new. intros c0 Hf Hw H. revert Hf Hw.
  induction H as [|c1 c2 c3 Hs _ IH]; [done|]. intros Hf Hw.
  apply IH; [by eapply step_frame_ok|by eapply step_wf].
Qed.

(** [new_const] returns a constant temp of the requested type and value, does
    not disturb existing temps, and is idempotent. *)
Lemma new_const_spec (c : Context) ty v i c' :
  wf c -> new_const c ty v = (i, c') ->
  wf c' /\
  (exists t, temps c' !! N.to_nat i = Some t /\ Temp.kind t = TempKind.Const /\
     Temp.ty t = ty /\ Temp.val t = v) /\
  temps c `prefix_of` temps c' /\
  (N.to_nat i <= length (temps c))%nat /\
  length (temps c') = Nat.max (length (temps c)) (N.to_nat i + 1) /\
  const_lookup c' ty v = Some i /\
  ops c' = ops c /\ nb_globals c' = nb_globals c.
Proof.
  intros Hwf. pose proof (step_wf c _ (step_new_const c ty v) Hwf) as Hwf'.
  revert Hwf'. unfold new_const. destruct (const_lookup c ty v) eqn:E; intros Hwf' [= <- <-].
  - destruct (wf_table c Hwf _ _ _ E) as (t & Ht & ?).
    pose proof (lookup_lt_Some _ _ _ Ht). split_and!; try done; [by exists t|lia|lia].
  - split_and!; try done.
    + eexists. rewrite Nat2N.id. simpl. split; [by apply list_lookup_middle|done].
    + by eexists.
    + lia.
    + simpl. rewrite length_app. simpl. lia.
    + rewrite const_lookup_alter by apply Hwf. by rewrite decide_True.
Qed.

End Context.

(** ** Properties of the context *)

(** C32: In every context the code can reach (fresh or reset, then any sequence of
    temp, constant, global, label and op creations and spill-slot allocations)
    the globals are exactly the first [nb_globals] temps, every temp's index is
    its position, a constant of a given type and value exists once and is the one
    the deduplication table returns, and the spill slots given out are naturally
    aligned, lie inside the frame and do not overlap. *)
Theorem context_reachable_ok (c : Context.Context) :
  Context.reachable c -> Context.wf c /\ Context.frame_ok c.
Proof. apply Context.reachable_inv. Qed.

Definition sample_context : Context.Context :=
  let c0 := Context.set_frame Context.new 4 128 1024 in
  let c1 := (Context.new_temp c0 Ty.I32).2 in
  let c2 := (Context.new_temp c1 Ty.I64).2 in
  default c2 (snd <$> Context.alloc_temp_frame c2 0%N).

Lemma context_reachable_ok_witness :
  Context.wf sample_context /\ Context.frame_ok sample_context.
Proof.
  apply context_reachable_ok. unfold sample_context.
  eapply rtc_l; [apply (Context.step_set_frame Context.new 4 128 1024); [done|lia]|].
  eapply rtc_l; [apply (Context.step_new_temp _ Ty.I32)|].
  eapply rtc_l; [apply (Context.step_new_temp _ Ty.I64)|].
  eapply rtc_l; [|apply rtc_refl].
  by eapply (Context.step_alloc _ _ 0%N).
Defined.

