(* ===== verification/IrBuild.v ===== *)
(** * The IR builder

    Models [accel/src/ir/ir_builder.rs]: the methods of [Context] by which the front
    ends create temporaries, constants and labels and emit ops.  A builder is a
    computation of the monad [Ir], a state-passing function that may also panic; the
    methods that only differ in the opcode they emit are one definition over an
    enumeration of their names, which is how the front ends pass them around
    ([BinOp]). *)

From Stdlib Require Import ZArith Lia Bool.
From stdpp Require Import base tactics numbers list gmap.
From S2P Require Import Prelude IrTypes IrOpcode IrContext.
Import Opcode.

(** ** The builder monad *)

Definition Ir (A : Type) : Type := Context.Context -> option (A * Context.Context).

Global Instance ir_ret : MRet Ir := fun A a c => Some (a, c).
Global Instance ir_bind : MBind Ir := fun A B f m c =>
  match m c with Some (a, c') => f a c' | None => None end.

(** A step that cannot panic. *)
Definition total {A} (f : Context.Context -> A * Context.Context) : Ir A := fun c => Some (f c).

(** A panic unless the option has a value. *)
Definition expect {A} (o : option A) : Ir A := fun c =>
  match o with Some a => Some (a, c) | None => None end.

Definition new_temp (ty : Ty.Ty) : Ir N := total (fun c => Context.new_temp c ty).
Definition new_const (ty : Ty.Ty) (v : Z) : Ir N := total (fun c => Context.new_const c ty v).
Definition new_label : Ir N := total Context.new_label.

(** [Op::with_args] at the next index, then [emit_op]. *)
Definition emit (opc : Opcode) (ty : Ty.Ty) (args : list N) : Ir unit := fun c =>
  let op := Op.with_args (Context.next_op_idx c) opc ty args in
  Some (tt, (Context.emit_op c op).2).

Definition carg (v : Z) : N := Z.to_N (u32 v).

(** ** One output, two inputs *)

Definition emit_binary (opc : Opcode) (ty : Ty.Ty) (dst a b : N) : Ir N :=
  emit opc ty [dst; a; b] ;; mret dst.

Definition emit_unary (opc : Opcode) (ty : Ty.Ty) (dst src : N) : Ir N :=
  emit opc ty [dst; src] ;; mret dst.

(** The methods of type [fn(&mut Context, Type, TempIdx, TempIdx, TempIdx) -> TempIdx]. *)
Inductive BinOp :=
| gen_add | gen_sub | gen_mul | gen_and | gen_or | gen_xor | gen_shl | gen_shr | gen_sar
| gen_rotl | gen_rotr | gen_andc | gen_orc | gen_eqv | gen_nand | gen_nor
| gen_divs | gen_divu | gen_rems | gen_remu
| gen_mulsh | gen_muluh | gen_addco | gen_addci | gen_addcio | gen_addc1o
| gen_subbo | gen_subbi | gen_subbio | gen_subb1o | gen_clz | gen_ctz.

Definition bin_opcode (o : BinOp) : Opcode :=
  match o with
  | gen_add => Add | gen_sub => Sub | gen_mul => Mul | gen_and => And | gen_or => Or
  | gen_xor => Xor | gen_shl => Shl | gen_shr => Shr | gen_sar => Sar
  | gen_rotl => RotL | gen_rotr => RotR | gen_andc => AndC | gen_orc => OrC
  | gen_eqv => Eqv | gen_nand => Nand | gen_nor => Nor
  | gen_divs => DivS | gen_divu => DivU | gen_rems => RemS | gen_remu => RemU
  | gen_mulsh => MulSH | gen_muluh => MulUH
  | gen_addco => AddCO | gen_addci => AddCI | gen_addcio => AddCIO | gen_addc1o => AddC1O
  | gen_subbo => SubBO | gen_subbi => SubBI | gen_subbio => SubBIO | gen_subb1o => SubB1O
  | gen_clz => Clz | gen_ctz => Ctz
  end.

(** Calling one of them. *)
Definition bin (o : BinOp) (ty : Ty.Ty) (d a b : N) : Ir N := emit_binary (bin_opcode o) ty d a b.

(** ** Unary methods *)

Inductive UnOp :=
| gen_neg | gen_not | gen_mov | gen_ctpop.

Definition un_opcode (o : UnOp) : Opcode :=
  match o with gen_neg => Neg | gen_not => Not | gen_mov => Mov | gen_ctpop => CtPop end.

Definition un (o : UnOp) (ty : Ty.Ty) (d s : N) : Ir N := emit_unary (un_opcode o) ty d s.

Definition gen_ext_i32_i64 (d s : N) : Ir N := emit_unary ExtI32I64 Ty.I64 d s.
Definition gen_ext_u32_i64 (d s : N) : Ir N := emit_unary ExtUI32I64 Ty.I64 d s.
Definition gen_extrl_i64_i32 (d s : N) : Ir N := emit_unary ExtrlI64I32 Ty.I32 d s.
Definition gen_extrh_i64_i32 (d s : N) : Ir N := emit_unary ExtrhI64I32 Ty.I32 d s.

(** ** Two outputs *)

Definition gen_divs2 (ty : Ty.Ty) (dl dh al ah b : N) : Ir unit := emit DivS2 ty [dl; dh; al; ah; b].
Definition gen_divu2 (ty : Ty.Ty) (dl dh al ah b : N) : Ir unit := emit DivU2 ty [dl; dh; al; ah; b].
Definition gen_muls2 (ty : Ty.Ty) (dl dh a b : N) : Ir unit := emit MulS2 ty [dl; dh; a; b].
Definition gen_mulu2 (ty : Ty.Ty) (dl dh a b : N) : Ir unit := emit MulU2 ty [dl; dh; a; b].

(** ** Ops with constant arguments *)

Definition gen_bswap64 (ty : Ty.Ty) (d src : N) (flags : Z) : Ir N :=
  emit Bswap64 ty [d; src; carg flags] ;; mret d.

Definition gen_extract (ty : Ty.Ty) (d src : N) (ofs len : Z) : Ir N :=
  emit Extract ty [d; src; carg ofs; carg len] ;; mret d.

Definition gen_sextract (ty : Ty.Ty) (d src : N) (ofs len : Z) : Ir N :=
  emit SExtract ty [d; src; carg ofs; carg len] ;; mret d.

Definition gen_deposit (ty : Ty.Ty) (d a b : N) (ofs len : Z) : Ir N :=
  emit Deposit ty [d; a; b; carg ofs; carg len] ;; mret d.

Definition gen_setcond (ty : Ty.Ty) (d a b : N) (cond : Cond.Cond) : Ir N :=
  emit SetCond ty [d; a; b; Cond.as_u32 cond] ;; mret d.

Definition gen_negsetcond (ty : Ty.Ty) (d a b : N) (cond : Cond.Cond) : Ir N :=
  emit NegSetCond ty [d; a; b; Cond.as_u32 cond] ;; mret d.

Definition gen_movcond (ty : Ty.Ty) (d c1 c2 v1 v2 : N) (cond : Cond.Cond) : Ir N :=
  emit MovCond ty [d; c1; c2; v1; v2; Cond.as_u32 cond] ;; mret d.

(** ** Host memory: the CPU state *)

Definition gen_ld (ty : Ty.Ty) (dst base : N) (offset : Z) : Ir N :=
  emit Ld ty [dst; base; carg offset] ;; mret dst.

Definition gen_st (ty : Ty.Ty) (src base : N) (offset : Z) : Ir unit :=
  emit St ty [src; base; carg offset].

(** ** Guest memory *)

Definition gen_qemu_ld (ty : Ty.Ty) (dst addr : N) (memop : Z) : Ir N :=
  emit QemuLd ty [dst; addr; carg memop] ;; mret dst.

Definition gen_qemu_st (ty : Ty.Ty) (val addr : N) (memop : Z) : Ir unit :=
  emit QemuSt ty [val; addr; carg memop].

(** ** Control flow *)

Definition gen_br (label_id : N) : Ir unit := emit Br Ty.I64 [label_id].

Definition gen_brcond (ty : Ty.Ty) (a b : N) (cond : Cond.Cond) (label_id : N) : Ir unit :=
  emit BrCond ty [a; b; Cond.as_u32 cond; label_id].

Definition gen_set_label (label_id : N) : Ir unit := emit SetLabel Ty.I64 [label_id].
Definition gen_goto_tb (tb_idx : Z) : Ir unit := emit GotoTb Ty.I64 [carg tb_idx].
Definition gen_exit_tb (val : Z) : Ir unit := emit ExitTb Ty.I64 [carg val].

Definition gen_insn_start (pc : Z) : Ir unit :=
  emit InsnStart Ty.I64 [carg pc; carg (shr pc 32)].

Definition gen_mb (bar_type : Z) : Ir unit := emit Mb Ty.I64 [carg bar_type].

(** [args.get(i).copied().unwrap_or(zero)] for the six argument slots. *)
Definition gen_call (dst : N) (helper : Z) (args : list N) : Ir N :=
  zero ← new_const Ty.I64 0;
  emit Call Ty.I64
    (dst :: ((fun i => nth i args zero) <$> seq 0 6) ++ [carg helper; carg (shr helper 32)]) ;;
  mret dst.

(** ** Direct field assignments by the front ends *)

Definition set_contains_atomic : Ir unit := fun c => Some (tt, {|
  Context.temps := Context.temps c; Context.ops := Context.ops c;
  Context.labels := Context.labels c; Context.nb_globals := Context.nb_globals c;
  Context.frame_reg := Context.frame_reg c; Context.frame_start := Context.frame_start c;
  Context.frame_end := Context.frame_end c; Context.frame_alloc_end := Context.frame_alloc_end c;
  Context.reserved_regs := Context.reserved_regs c; Context.const_table := Context.const_table c;
  Context.gen_insn_end_off := Context.gen_insn_end_off c; Context.tb_idx := Context.tb_idx c;
  Context.contains_atomic := true; Context.instret_discarded := Context.instret_discarded c |}).

Definition set_instret_discarded (n : Z) : Ir unit := fun c => Some (tt, {|
  Context.temps := Context.temps c; Context.ops := Context.ops c;
  Context.labels := Context.labels c; Context.nb_globals := Context.nb_globals c;
  Context.frame_reg := Context.frame_reg c; Context.frame_start := Context.frame_start c;
  Context.frame_end := Context.frame_end c; Context.frame_alloc_end := Context.frame_alloc_end c;
  Context.reserved_regs := Context.reserved_regs c; Context.const_table := Context.const_table c;
  Context.gen_insn_end_off := Context.gen_insn_end_off c; Context.tb_idx := Context.tb_idx c;
  Context.contains_atomic := Context.contains_atomic c; Context.instret_discarded := n |}).
