(* ===== verification/Optimize.v ===== *)
(** * The IR optimizer

    Models [accel/src/optimize.rs]: one forward pass over the ops of a context
    that propagates copies, folds constant operations and branches and applies
    algebraic identities, rewriting each op in place.  [None] is a panic (an
    index out of range); [optimize_total] of [OptimizeProof] shows that a
    well-formed context never reaches it. *)

From Stdlib Require Import ZArith Lia Bool.
From stdpp Require Import base tactics numbers list gmap.
From S2P Require Import Prelude IrTypes IrOpcode IrContext.
Import Opcode.

(** ** Per-temp information *)

Record TempInfo := mk_TempInfo {
  is_const : bool;
  val : Z;
  copy_of : option TempIdx
}.

Definition TempInfo_default : TempInfo := mk_TempInfo false 0 None.

Definition type_mask (ty : Ty.Ty) : Z :=
  match ty with
  | Ty.I32 => 0xFFFFFFFF
  | _ => u64_max
  end.

(** Both operands are truncated, then read as [i64] for the signed tests. *)
Definition eval_cond (a b : Z) (cond : Cond.Cond) (ty : Ty.Ty) : bool :=
  let mask := type_mask ty in
  let a := Z.land a mask in
  let b := Z.land b mask in
  match cond with
  | Cond.Always => true
  | Cond.Never => false
  | Cond.Eq => a =? b
  | Cond.Ne => negb (a =? b)
  | Cond.Lt => signed 64 a <? signed 64 b
  | Cond.Ge => signed 64 b <=? signed 64 a
  | Cond.Le => signed 64 a <=? signed 64 b
  | Cond.Gt => signed 64 b <? signed 64 a
  | Cond.Ltu => a <? b
  | Cond.Geu => b <=? a
  | Cond.Leu => a <=? b
  | Cond.Gtu => b <? a
  | Cond.TstEq => Z.land a b =? 0
  | Cond.TstNe => negb (Z.land a b =? 0)
  end.

Definition cond_from_carg (t : TempIdx) : Cond.Cond :=
  match t with
  | 0 => Cond.Never
  | 1 => Cond.Always
  | 8 => Cond.Eq
  | 9 => Cond.Ne
  | 10 => Cond.Lt
  | 11 => Cond.Ge
  | 12 => Cond.Le
  | 13 => Cond.Gt
  | 14 => Cond.Ltu
  | 15 => Cond.Geu
  | 16 => Cond.Leu
  | 17 => Cond.Gtu
  | 18 => Cond.TstEq
  | 19 => Cond.TstNe
  | _ => Cond.Never
  end%N.

(** ** Helpers on the info vector *)

(** [info[tidx]] with the default for an index out of range. *)
Definition ti (info : list TempInfo) (tidx : TempIdx) : TempInfo :=
  default TempInfo_default (info !! N.to_nat tidx).

Definition resolve_copy (info : list TempInfo) (tidx : TempIdx) : option TempIdx :=
  let i := N.to_nat tidx in
  if decide (i < length info)%nat then copy_of (ti info tidx) else None.

Definition clear_copy (x : TempInfo) : TempInfo :=
  mk_TempInfo (is_const x) (val x) None.

Definition reset_copies (info : list TempInfo) : list TempInfo :=
  clear_copy <$> info.

(** [for ti in info { if ti.copy_of == Some(dst) { ti.copy_of = None } }]. *)
Definition drop_copies_of (dst : TempIdx) (info : list TempInfo) : list TempInfo :=
  (fun x => if decide (copy_of x = Some dst) then clear_copy x else x) <$> info.

(** [info[i].is_const = false; info[i].copy_of = None]. *)
Definition forget (i : nat) (info : list TempInfo) : list TempInfo :=
  alter (fun x => mk_TempInfo false (val x) None) i info.

Definition ensure_info (info : list TempInfo) (i : nat) : list TempInfo :=
  if decide (length info <= i)%nat then resize_to info (i + 1) TempInfo_default
  else info.

Fixpoint invalidate_outputs_loop (outs : list TempIdx) (ctx : Context.Context)
    (info : list TempInfo) : option (list TempInfo) :=
  match outs with
  | [] => Some info
  | tidx :: rest =>
      let i := N.to_nat tidx in
      if decide (i < length info)%nat then
        t <-! Context.temp ctx tidx ;;
        if negb (Temp.is_const t) then
          invalidate_outputs_loop rest ctx (drop_copies_of tidx (forget i info))
        else invalidate_outputs_loop rest ctx info
      else invalidate_outputs_loop rest ctx info
  end.

Definition invalidate_outputs (info : list TempInfo) (d : OpDef)
    (args : list TempIdx) (ctx : Context.Context) : option (list TempInfo) :=
  invalidate_outputs_loop (take (nb_oargs d) args) ctx info.

Definition invalidate_one (info : list TempInfo) (dst : TempIdx) : list TempInfo :=
  let i := N.to_nat dst in
  drop_copies_of dst (forget i (ensure_info info i)).

Definition set_const (info : list TempInfo) (dst : TempIdx) (v : Z) : list TempInfo :=
  let i := N.to_nat dst in
  <[i := mk_TempInfo true v None]> (ensure_info info i).

Definition set_copy (info : list TempInfo) (dst src : TempIdx) : list TempInfo :=
  let i := N.to_nat dst in
  let info := ensure_info info i in
  let si := ti info src in
  if is_const si then <[i := mk_TempInfo true (val si) None]> info
  else alter (fun x => mk_TempInfo false (val x) (Some src)) i info.

(** ** Rewriting an op *)

(** [args[i]] of the fixed-size argument array. *)
Definition arg (args : list TempIdx) (i : nat) : TempIdx := nth i args 0%N.

Definition St : Type := Context.Context * list TempInfo.

(** [op.opc = o; op.args[0] = a0; op.args[1] = a1; op.nargs = 2]. *)
Definition rewrite2 (op : Op.Op) (o : Opcode) (a0 a1 : TempIdx) : Op.Op :=
  Op.rewrite_op op o (<[1%nat := a1]> (<[0%nat := a0]> (Op.args op))) 2.

Definition replace_with_const (ctx : Context.Context) (info : list TempInfo)
    (op_idx : OpIdx) (dst : TempIdx) (v : Z) (ty : Ty.Ty) : option St :=
  let masked := Z.land v (type_mask ty) in
  let '(c, ctx) := Context.new_const ctx ty masked in
  let info := ensure_info info (N.to_nat c) in
  let info := alter (fun x => mk_TempInfo true masked (copy_of x)) (N.to_nat c) info in
  op <-! Context.op ctx op_idx ;;
  ctx <-! Context.put_op ctx op_idx (rewrite2 op Mov dst c) ;;
  Some (ctx, set_const info dst masked).

Definition replace_with_mov (ctx : Context.Context) (info : list TempInfo)
    (op_idx : OpIdx) (dst src : TempIdx) : option St :=
  op <-! Context.op ctx op_idx ;;
  ctx <-! Context.put_op ctx op_idx (rewrite2 op Mov dst src) ;;
  Some (ctx, invalidate_one info dst).

(** ** Per-opcode folding *)

Definition fold_mov (ctx : Context.Context) (info : list TempInfo)
    (args : list TempIdx) (ty : Ty.Ty) : option St :=
  let dst := arg args 0 in
  let src := arg args 1 in
  let si := ti info src in
  if is_const si then
    Some (ctx, set_const info dst (Z.land (val si) (type_mask ty)))
  else Some (ctx, set_copy info dst src).

(** Dispatched on [Neg] and [Not] only; the other arm is [unreachable!()]. *)
Definition fold_unary (ctx : Context.Context) (info : list TempInfo)
    (op_idx : OpIdx) (opc : Opcode) (args : list TempIdx) (ty : Ty.Ty) : option St :=
  let dst := arg args 0 in
  let src := arg args 1 in
  let si := ti info src in
  if negb (is_const si) then Some (ctx, invalidate_one info dst)
  else
    let mask := type_mask ty in
    v <-! match opc with
          | Neg => Some (Z.land (wrapping_sub 64 0 (val si)) mask)
          | Not => Some (Z.land (bnot 64 (val si)) mask)
          | _ => None
          end ;;
    replace_with_const ctx info op_idx dst v ty.

Definition fold_ext (ctx : Context.Context) (info : list TempInfo)
    (op_idx : OpIdx) (opc : Opcode) (args : list TempIdx) : option St :=
  let dst := arg args 0 in
  let src := arg args 1 in
  let si := ti info src in
  if negb (is_const si) then Some (ctx, invalidate_one info dst)
  else
    v <-! match opc with
          | ExtI32I64 => Some (u64 (signed 32 (u32 (val si))))
          | ExtUI32I64 => Some (Z.land (val si) 0xFFFFFFFF)
          | ExtrlI64I32 => Some (Z.land (val si) 0xFFFFFFFF)
          | ExtrhI64I32 => Some (Z.land (shr (val si) 32) 0xFFFFFFFF)
          | _ => None
          end ;;
    let out_ty := match opc with
                  | ExtI32I64 | ExtUI32I64 => Ty.I64
                  | _ => Ty.I32
                  end in
    replace_with_const ctx info op_idx dst v out_ty.

(** Shifts of [u64] and [i64] take their amount modulo 64 ([wrapping_shl],
    [wrapping_shr], and [>>] in a release build). *)
Definition eval_binary (opc : Opcode) (a b : Z) (ty : Ty.Ty) : option Z :=
  let mask := type_mask ty in
  let bits := Ty.size_bits ty in
  let sh := u32 b mod bits in
  r <-! match opc with
        | Add => Some (wrapping_add 64 a b)
        | Sub => Some (wrapping_sub 64 a b)
        | Mul => Some (wrapping_mul 64 a b)
        | And => Some (Z.land a b)
        | Or => Some (Z.lor a b)
        | Xor => Some (Z.lxor a b)
        | AndC => Some (Z.land a (bnot 64 b))
        | Shl => Some (shl 64 a (sh mod 64))
        | Shr => Some (shr (Z.land a mask) (sh mod 64))
        | Sar =>
            if decide (ty = Ty.I32) then Some (u64 (Z.shiftr (signed 32 (u32 a)) sh))
            else Some (u64 (Z.shiftr (signed 64 a) (sh mod 64)))
        | RotL =>
            if decide (ty = Ty.I32) then Some (rotate_left 32 (u32 a) sh)
            else Some (rotate_left 64 a (sh mod 64))
        | RotR =>
            if decide (ty = Ty.I32) then Some (rotate_right 32 (u32 a) sh)
            else Some (rotate_right 64 a (sh mod 64))
        | _ => None
        end ;;
  Some (Z.land r mask).

(** What [try_simplify] decides for an op with one constant operand: the arms
    of its two [match]es, [b] constant first. *)
Inductive simplification :=
| ToMov (src : TempIdx)
| ToConst (v : Z)
| ToNeg (src : TempIdx).

Definition simplify_b (opc : Opcode) (a_idx : TempIdx) (b mask : Z)
    : option simplification :=
  match opc with
  | Add | Sub | Or | Xor | Shl | Shr | Sar | RotL | RotR =>
      if b =? 0 then Some (ToMov a_idx)
      else match opc with
           | Or => if b =? mask then Some (ToConst mask) else None
           | _ => None
           end
  | Mul =>
      if b =? 0 then Some (ToConst 0)
      else if b =? 1 then Some (ToMov a_idx) else None
  | And =>
      if b =? 0 then Some (ToConst 0)
      else if b =? mask then Some (ToMov a_idx) else None
  | AndC => if b =? mask then Some (ToConst 0) else None
  | _ => None
  end.

Definition simplify_a (opc : Opcode) (b_idx : TempIdx) (a mask : Z)
    : option simplification :=
  match opc with
  | Add => if a =? 0 then Some (ToMov b_idx) else None
  | Sub => if a =? 0 then Some (ToNeg b_idx) else None
  | Mul => if a =? 0 then Some (ToConst 0) else None
  | And => if a =? 0 then Some (ToConst 0) else None
  | Or => if a =? mask then Some (ToConst mask) else None
  | _ => None
  end.

Definition find_simplification (opc : Opcode) (a_idx b_idx : TempIdx)
    (ai bi : TempInfo) (ty : Ty.Ty) : option simplification :=
  let mask := type_mask ty in
  match (if is_const bi then simplify_b opc a_idx (Z.land (val bi) mask) mask else None) with
  | Some s => Some s
  | None =>
      if is_const ai then simplify_a opc b_idx (Z.land (val ai) mask) mask else None
  end.

Definition apply_simplification (ctx : Context.Context) (info : list TempInfo)
    (op_idx : OpIdx) (dst : TempIdx) (ty : Ty.Ty) (s : simplification) : option St :=
  match s with
  | ToMov src => replace_with_mov ctx info op_idx dst src
  | ToConst v => replace_with_const ctx info op_idx dst v ty
  | ToNeg src =>
      op <-! Context.op ctx op_idx ;;
      ctx <-! Context.put_op ctx op_idx (rewrite2 op Neg dst src) ;;
      Some (ctx, invalidate_one info dst)
  end.

(** [Some None] is the [false] result: nothing applied. *)
Definition try_simplify (ctx : Context.Context) (info : list TempInfo)
    (op_idx : OpIdx) (opc : Opcode) (dst a_idx b_idx : TempIdx) (ai bi : TempInfo)
    (ty : Ty.Ty) : option (option St) :=
  match find_simplification opc a_idx b_idx ai bi ty with
  | Some s => st <-! apply_simplification ctx info op_idx dst ty s ;; Some (Some st)
  | None => Some None
  end.

(** The both-constant case of [fold_binary]. *)
Definition fold_both (opc : Opcode) (ai bi : TempInfo) (ty : Ty.Ty) : option Z :=
  if is_const ai && is_const bi then
    let mask := type_mask ty in
    eval_binary opc (Z.land (val ai) mask) (Z.land (val bi) mask) ty
  else None.

Definition fold_binary (ctx : Context.Context) (info : list TempInfo)
    (op_idx : OpIdx) (opc : Opcode) (args : list TempIdx) (ty : Ty.Ty) : option St :=
  let dst := arg args 0 in
  let a_idx := arg args 1 in
  let b_idx := arg args 2 in
  let ai := ti info a_idx in
  let bi := ti info b_idx in
  match fold_both opc ai bi ty with
  | Some v => replace_with_const ctx info op_idx dst v ty
  | None =>
      done <-! try_simplify ctx info op_idx opc dst a_idx b_idx ai bi ty ;;
      match done with
      | Some st => Some st
      | None =>
          if decide (a_idx = b_idx) then
            match opc with
            | And | Or => replace_with_mov ctx info op_idx dst a_idx
            | Xor | Sub => replace_with_const ctx info op_idx dst 0 ty
            | _ => Some (ctx, invalidate_one info dst)
            end
          else Some (ctx, invalidate_one info dst)
      end
  end.

Definition fold_brcond (ctx : Context.Context) (info : list TempInfo)
    (op_idx : OpIdx) (args : list TempIdx) (ty : Ty.Ty) : option Context.Context :=
  let a_idx := arg args 0 in
  let b_idx := arg args 1 in
  let cond_carg := arg args 2 in
  let label_carg := arg args 3 in
  let ai := ti info a_idx in
  let bi := ti info b_idx in
  if negb (is_const ai) || negb (is_const bi) then Some ctx
  else
    let cond := cond_from_carg cond_carg in
    op <-! Context.op ctx op_idx ;;
    if eval_cond (val ai) (val bi) cond ty then
      Context.put_op ctx op_idx
        (Op.rewrite_op op Br (<[0%nat := label_carg]> (Op.args op)) 1)
    else
      Context.put_op ctx op_idx (Op.rewrite_op op Nop (Op.args op) 0).

(** ** The pass *)

Definition is_boundary (opc : Opcode) : bool :=
  match opc with
  | SetLabel | Br | ExitTb | GotoTb | GotoPtr | Call => true
  | _ => false
  end.

Definition is_skipped (opc : Opcode) (d : OpDef) : bool :=
  OpFlags.contains (flags d) OpFlags.SIDE_EFFECTS
  || OpFlags.contains (flags d) OpFlags.VECTOR
  || match opc with Nop | InsnStart | Discard => true | _ => false end.

(** The input slots of [args], each replaced by its copy source. *)
Definition propagate (info : list TempInfo) (d : OpDef) (args : list TempIdx)
    : list TempIdx :=
  imap (fun k t =>
    if decide (nb_oargs d <= k /\ k < nb_oargs d + nb_iargs d)%nat
    then default t (resolve_copy info t) else t) args.

Definition dispatch (ctx : Context.Context) (info : list TempInfo) (op_idx : OpIdx)
    (opc : Opcode) (op_type : Ty.Ty) (d : OpDef) (args : list TempIdx) : option St :=
  match opc with
  | Mov => fold_mov ctx info args op_type
  | Neg | Not => fold_unary ctx info op_idx opc args op_type
  | ExtI32I64 | ExtUI32I64 | ExtrlI64I32 | ExtrhI64I32 =>
      fold_ext ctx info op_idx opc args
  | Add | Sub | Mul | And | Or | Xor | AndC | Shl | Shr | Sar | RotL | RotR =>
      fold_binary ctx info op_idx opc args op_type
  | BrCond =>
      ctx <-! fold_brcond ctx info op_idx args op_type ;; Some (ctx, info)
  | _ =>
      info <-! invalidate_outputs info d args ctx ;; Some (ctx, info)
  end.

(** One iteration of the loop of [optimize]. *)
Definition optimize_op (st : St) (op_idx : OpIdx) : option St :=
  let '(ctx, info) := st in
  op <-! Context.op ctx op_idx ;;
  let opc := Op.opc op in
  let op_type := Op.op_type op in
  let args := Op.args op in
  let d := def opc in
  if is_boundary opc then
    info <-! invalidate_outputs info d args ctx ;;
    Some (ctx, reset_copies info)
  else if is_skipped opc d then
    info <-! invalidate_outputs info d args ctx ;;
    Some (ctx, info)
  else
    let args := propagate info d args in
    ctx <-! Context.put_op ctx op_idx (Op.set_args op args) ;;
    dispatch ctx info op_idx opc op_type d args.

Fixpoint optimize_loop (st : St) (oi n : nat) : option St :=
  match n with
  | O => Some st
  | S n' =>
      st <-! optimize_op st (N.of_nat oi) ;;
      optimize_loop st (S oi) n'
  end.

Definition seed_info (ctx : Context.Context) : list TempInfo :=
  (fun t => if Temp.is_const t then mk_TempInfo true (Temp.val t) None
            else TempInfo_default) <$> Context.temps ctx.

Definition optimize (ctx : Context.Context) : option Context.Context :=
  st <-! optimize_loop (ctx, seed_info ctx) 0 (Context.num_ops ctx) ;;
  Some st.1.
