(* ===== verification/IrSem.v ===== *)
(** * Reference semantics of the IR

    The meaning of the ops the translator emits, against which the passes over
    the IR are proved correct.  It follows the documented meaning of the opcodes
    ([accel/src/ir/opcode.rs]): integer ops compute modulo the width of their
    type, shift and rotate amounts count modulo the width, a constant temp always
    reads as its value, and a temp of type [I32] holds 32 bits.

    Helper calls, guest and host memory accesses and the ops no pass looks
    inside are parameters of the semantics: functions of the input values and of
    an abstract world (guest memory and the CPU state outside the globals).  A
    helper call may also read and change the globals, which live in the CPU
    state. *)

From Stdlib Require Import ZArith Lia Bool.
From stdpp Require Import base tactics numbers list gmap functions.
From S2P Require Import Prelude IrTypes IrOpcode IrContext.
Import Opcode.

(** Bits of the [u64] carrier a temp of the type uses. *)
Definition ty_bits (ty : Ty.Ty) : Z :=
  match ty with Ty.I32 => 32 | _ => 64 end.

Notation store := (N -> Z) (only parsing).

(** A temp reads as its value, a constant temp as its immediate. *)
Definition read (ts : list Temp.Temp) (σ : store) (t : N) : Z :=
  match ts !! N.to_nat t with
  | Some x => if Temp.is_const x then Temp.val x else σ t
  | None => σ t
  end.

Definition write (ts : list Temp.Temp) (σ : store) (t : N) (v : Z) : store :=
  match ts !! N.to_nat t with
  | Some x => <[t := wrap (ty_bits (Temp.ty x)) v]> σ
  | None => σ
  end.

Fixpoint write_all (ts : list Temp.Temp) (σ : store) (outs : list N) (vs : list Z)
    : option store :=
  match outs, vs with
  | [], [] => Some σ
  | t :: outs, v :: vs => write_all ts (write ts σ t v) outs vs
  | _, _ => None
  end.

(** Pure ops on operands already truncated to the op's width [w]. *)
Definition sem_unary (opc : Opcode) (w a : Z) : option Z :=
  match opc with
  | Mov => Some a
  | Neg => Some (wrap w (- a))
  | Not => Some (bnot w a)
  | _ => None
  end.

Definition sem_binary (opc : Opcode) (w a b : Z) : option Z :=
  let n := b mod w in
  match opc with
  | Add => Some (wrap w (a + b))
  | Sub => Some (wrap w (a - b))
  | Mul => Some (wrap w (a * b))
  | And => Some (Z.land a b)
  | Or => Some (Z.lor a b)
  | Xor => Some (Z.lxor a b)
  | AndC => Some (Z.ldiff a b)
  | Shl => Some (wrap w (a * 2 ^ n))
  | Shr => Some (a / 2 ^ n)
  | Sar => Some (wrap w (signed w a / 2 ^ n))
  | RotL => Some (wrap w (a * 2 ^ n) + a / 2 ^ (w - n))
  | RotR => Some (a / 2 ^ n + wrap w (a * 2 ^ (w - n)))
  | _ => None
  end.

Definition sem_ext32 (opc : Opcode) (a : Z) : option Z :=
  match opc with
  | ExtI32I64 => Some (wrap 64 (signed 32 (wrap 32 a)))
  | ExtUI32I64 => Some (wrap 32 a)
  | ExtrlI64I32 => Some (wrap 32 a)
  | ExtrhI64I32 => Some (wrap 32 (a / 2 ^ 32))
  | _ => None
  end.

Definition cond_of_carg (t : N) : option Cond.Cond :=
  match t with
  | 0 => Some Cond.Never | 1 => Some Cond.Always
  | 8 => Some Cond.Eq | 9 => Some Cond.Ne
  | 10 => Some Cond.Lt | 11 => Some Cond.Ge | 12 => Some Cond.Le | 13 => Some Cond.Gt
  | 14 => Some Cond.Ltu | 15 => Some Cond.Geu | 16 => Some Cond.Leu
  | 17 => Some Cond.Gtu | 18 => Some Cond.TstEq | 19 => Some Cond.TstNe
  | _ => None
  end%N.

Lemma cond_of_carg_as_u32 (c : Cond.Cond) : cond_of_carg (Cond.as_u32 c) = Some c.
Proof. by destruct c. Qed.

(** How an op hands over control. *)
Inductive next :=
| Fall
| Jump (label : N)
| Leave.

(** The first [SetLabel] of a label in the op list. *)
Fixpoint find_label (l : N) (ops : list Op.Op) (i : nat) : option nat :=
  match ops with
  | [] => None
  | o :: rest =>
      if decide (Op.opc o = SetLabel /\ nth 0 (Op.args o) 0%N = l) then Some i
      else find_label l rest (S i)
  end.

Section Semantics.
Context {W : Type}.

(** The parameters: ops without a meaning of their own here (memory accesses,
    division, [SetCond], ...) give their outputs and the new world, or leave the
    block (a guest fault); helper calls also rewrite the globals; a [GotoTb]
    slot is linked to another block or not. *)
Variable sem_ext : Opcode -> Ty.Ty -> list N -> list Z -> W -> option (option (list Z) * W).
Variable sem_call : list N -> list Z -> list Z -> W -> option (list Z * list Z * W).
Variable chained : N -> W -> bool.

Definition operand (ts : list Temp.Temp) (σ : store) (ty : Ty.Ty) (t : N) : Z :=
  wrap (ty_bits ty) (read ts σ t).

Definition result : Type := store * W * next.

Definition exec_pure (ts : list Temp.Temp) (op : Op.Op) (σ : store) : option Z :=
  let a := nth 1 (Op.args op) 0%N in
  let b := nth 2 (Op.args op) 0%N in
  let ty := Op.op_type op in
  match Op.opc op with
  | Mov | Neg | Not => sem_unary (Op.opc op) (ty_bits ty) (operand ts σ ty a)
  | ExtI32I64 | ExtUI32I64 | ExtrlI64I32 | ExtrhI64I32 =>
      sem_ext32 (Op.opc op) (read ts σ a)
  | _ => sem_binary (Op.opc op) (ty_bits ty) (operand ts σ ty a) (operand ts σ ty b)
  end.

Definition is_pure (opc : Opcode) : bool :=
  match opc with
  | Mov | Neg | Not | ExtI32I64 | ExtUI32I64 | ExtrlI64I32 | ExtrhI64I32
  | Add | Sub | Mul | And | Or | Xor | AndC | Shl | Shr | Sar | RotL | RotR => true
  | _ => false
  end.

Definition exec_op (ts : list Temp.Temp) (nb_globals : nat) (op : Op.Op) (σ : store)
    (w : W) : option result :=
  if is_pure (Op.opc op) then
    v ← exec_pure ts op σ; Some (write ts σ (nth 0 (Op.args op) 0%N) v, w, Fall)
  else
  match Op.opc op with
  | Nop | InsnStart | SetLabel => Some (σ, w, Fall)
  | Br => Some (σ, w, Jump (nth 0 (Op.args op) 0%N))
  | BrCond =>
      c ← cond_of_carg (nth 2 (Op.args op) 0%N);
      let ty := Op.op_type op in
      let a := operand ts σ ty (nth 0 (Op.args op) 0%N) in
      let b := operand ts σ ty (nth 1 (Op.args op) 0%N) in
      Some (σ, w, if Cond.holds (ty_bits ty) c a b
                  then Jump (nth 3 (Op.args op) 0%N) else Fall)
  | ExitTb | GotoPtr => Some (σ, w, Leave)
  | GotoTb => Some (σ, w, if chained (nth 0 (Op.args op) 0%N) w then Leave else Fall)
  | Call =>
      '(outs, gs, w') ← sem_call (Op.cargs op) (read ts σ <$> Op.iargs op)
                          ((fun i => read ts σ (N.of_nat i)) <$> seq 0 nb_globals) w;
      σ1 ← write_all ts σ (N.of_nat <$> seq 0 nb_globals) gs;
      σ2 ← write_all ts σ1 (Op.oargs op) outs;
      Some (σ2, w', Fall)
  | opc =>
      '(outs, w') ← sem_ext opc (Op.op_type op) (Op.cargs op)
                      (read ts σ <$> Op.iargs op) w;
      match outs with
      | Some vs => σ' ← write_all ts σ (Op.oargs op) vs; Some (σ', w', Fall)
      | None => Some (σ, w', Leave)
      end
  end.

(** A configuration: about to run op [pc], or left the block at op [pc]. *)
Inductive config :=
| Running (pc : nat) (σ : store) (w : W)
| Left (pc : nat) (σ : store) (w : W).

Definition step_config (ctx : Context.Context) (c : config) : option config :=
  match c with
  | Left _ _ _ => Some c
  | Running pc σ w =>
      op ← Context.ops ctx !! pc;
      '(σ', w', nx) ← exec_op (Context.temps ctx) (Context.nb_globals ctx) op σ w;
      match nx with
      | Fall => Some (Running (S pc) σ' w')
      | Leave => Some (Left pc σ' w')
      | Jump l => j ← find_label l (Context.ops ctx) 0; Some (Running j σ' w')
      end
  end.

(** [n] steps; [None] when an op has no meaning (an undefined operand, a jump to
    a label that is not placed, running past the end). *)
Fixpoint run (ctx : Context.Context) (n : nat) (c : config) : option config :=
  match n with
  | O => Some c
  | S n' => c' ← step_config ctx c; run ctx n' c'
  end.

End Semantics.

(** ** The store stays typed *)

Definition store_ok (ts : list Temp.Temp) (σ : store) : Prop :=
  forall i x, ts !! i = Some x ->
    in_range (ty_bits (Temp.ty x)) (read ts σ (N.of_nat i)).

Lemma ty_bits_cases (ty : Ty.Ty) : ty_bits ty = 32 \/ ty_bits ty = 64.
Proof. destruct ty; auto. Qed.

Lemma ty_bits_pos (ty : Ty.Ty) : 0 < ty_bits ty <= 64.
Proof. destruct (ty_bits_cases ty) as [-> | ->]; lia. Qed.

Lemma read_write_eq ts σ t v x :
  ts !! N.to_nat t = Some x -> Temp.is_const x = false ->
  read ts (write ts σ t v) t = wrap (ty_bits (Temp.ty x)) v.
Proof. intros Hx Hc. unfold read, write. rewrite Hx, Hc. apply fn_lookup_insert. Qed.

Lemma read_write_ne ts σ t u v : t <> u -> read ts (write ts σ t v) u = read ts σ u.
Proof.
  intros Hne. unfold read, write. destruct (ts !! N.to_nat t); [|done].
  by rewrite fn_lookup_insert_ne.
Qed.

Lemma read_const ts σ t x :
  ts !! N.to_nat t = Some x -> Temp.is_const x = true -> read ts σ t = Temp.val x.
Proof. intros Hx Hc. unfold read. by rewrite Hx, Hc. Qed.

Lemma store_ok_write ts σ t v : store_ok ts σ -> store_ok ts (write ts σ t v).
Proof.
  intros Hok i x Hi. destruct (decide (t = N.of_nat i)) as [->|Hne].
  - destruct (Temp.is_const x) eqn:Hc.
    + rewrite (read_const _ _ _ x) by (rewrite ?Nat2N.id; done).
      rewrite <- (read_const ts σ (N.of_nat i) x) by (rewrite ?Nat2N.id; done).
      by apply Hok.
    + rewrite (read_write_eq _ _ _ _ x) by (rewrite ?Nat2N.id; done).
      apply wrap_range. pose proof (ty_bits_pos (Temp.ty x)). lia.
  - rewrite read_write_ne by done. by apply Hok.
Qed.

Lemma store_ok_write_all ts σ outs vs σ' :
  store_ok ts σ -> write_all ts σ outs vs = Some σ' -> store_ok ts σ'.
Proof.
  revert σ vs. induction outs as [|t outs IH]; intros σ [|v vs] Hok H; simpl in H;
    simplify_eq; [done|]. eapply IH; [|done]. by apply store_ok_write.
Qed.

Lemma read_write_all_ne ts σ outs vs σ' u :
  write_all ts σ outs vs = Some σ' -> u ∉ outs -> read ts σ' u = read ts σ u.
Proof.
  revert σ vs. induction outs as [|t outs IH]; intros σ [|v vs] H Hu; simpl in H;
    simplify_eq; [done|]. apply not_elem_of_cons in Hu as [Hu1 Hu2].
  rewrite (IH _ _ H Hu2). by apply read_write_ne.
Qed.
