(* ===== verification/OptimizeProof.v ===== *)
(** * Correctness of the IR optimizer

    The folding arithmetic of [Optimize] agrees with the reference semantics of
    [IrSem]; the pass never panics on a well-formed context; and the optimized
    block runs in lock step with the original one, with the same stores, worlds
    and exits, whenever the information the pass used was still valid
    ([audit]). *)

From Stdlib Require Import ZArith Lia Bool String.
From stdpp Require Import base tactics numbers list gmap functions.
From S2P Require Import Prelude IrTypes IrOpcode IrContext Optimize IrSem.
Import Opcode.

(** ** Constant folding *)

Definition int_ty (ty : Ty.Ty) : bool :=
  match ty with Ty.I32 | Ty.I64 => true | _ => false end.

Lemma type_mask_ones (ty : Ty.Ty) : type_mask ty = Z.ones (ty_bits ty).
Proof. by destruct ty. Qed.

Lemma land_mask (ty : Ty.Ty) (v : Z) : Z.land v (type_mask ty) = wrap (ty_bits ty) v.
Proof.
  rewrite type_mask_ones. apply land_ones_wrap. pose proof (ty_bits_pos ty). lia.
Qed.

Lemma size_bits_int (ty : Ty.Ty) : int_ty ty = true -> Ty.size_bits ty = ty_bits ty.
Proof. by destruct ty. Qed.

(** The shift amount the code computes from the low half of [b]. *)
Lemma shift_amount (ty : Ty.Ty) (b : Z) :
  int_ty ty = true -> u32 b mod Ty.size_bits ty = b mod ty_bits ty.
Proof.
  intros Hty. rewrite size_bits_int by done. unfold wrap.
  destruct (ty_bits_cases ty) as [-> | ->].
  - by rewrite <- (Znumtheory.Zmod_div_mod 32 (2 ^ 32)) by
      (try lia; exists (2 ^ 27); done).
  - by rewrite <- (Znumtheory.Zmod_div_mod 64 (2 ^ 32)) by
      (try lia; exists (2 ^ 26); done).
Qed.

Lemma shift_amount_range (ty : Ty.Ty) (b : Z) : 0 <= b mod ty_bits ty < ty_bits ty.
Proof. apply Z.mod_pos_bound. apply ty_bits_pos. Qed.

Lemma shift_amount_64 (ty : Ty.Ty) (b : Z) :
  (b mod ty_bits ty) mod 64 = b mod ty_bits ty.
Proof.
  apply Z.mod_small. pose proof (shift_amount_range ty b).
  pose proof (ty_bits_pos ty). lia.
Qed.

Lemma rotate_left_add (w a n : Z) :
  0 <= n < w -> in_range w a ->
  rotate_left w a n = wrap w (a * 2 ^ n) + a / 2 ^ (w - n).
Proof.
  intros Hn Ha. unfold rotate_left, shl, shr.
  rewrite <- Z.shiftl_mul_pow2, <- Z.shiftr_div_pow2 by lia.
  apply lor_add_disjoint. zbits.
  apply in_range_bits in Ha as [_ Ha]; [|lia].
  destruct (Z.ltb_spec i w); simpl; [|done].
  destruct (Z.lt_ge_cases i n).
  - rewrite Z.testbit_neg_r by lia. done.
  - rewrite (Ha (i + (w - n))) by lia. apply andb_false_r.
Qed.

Lemma rotate_right_add (w a n : Z) :
  0 <= n < w -> in_range w a ->
  rotate_right w a n = a / 2 ^ n + wrap w (a * 2 ^ (w - n)).
Proof.
  intros Hn Ha. unfold rotate_right, shl, shr.
  rewrite <- Z.shiftl_mul_pow2, <- Z.shiftr_div_pow2 by lia.
  apply lor_add_disjoint. zbits.
  apply in_range_bits in Ha as [_ Ha]; [|lia].
  destruct (Z.ltb_spec i w); simpl; [|by rewrite andb_false_r].
  destruct (Z.lt_ge_cases i (w - n)).
  - rewrite (Z.testbit_neg_r a (i - (w - n))) by lia. apply andb_false_r.
  - rewrite (Ha (i + n)) by lia. done.
Qed.

Lemma rotate_left_range (w a n : Z) :
  0 <= w -> 0 <= w - n -> in_range w a -> in_range w (rotate_left w a n).
Proof. intros. unfold rotate_left. auto with rng. Qed.

Lemma rotate_right_range (w a n : Z) :
  0 <= w -> 0 <= n -> in_range w a -> in_range w (rotate_right w a n).
Proof. intros. unfold rotate_right. auto with rng. Qed.

Lemma div_pow2_range (w a n : Z) :
  0 <= w -> 0 <= n -> in_range w a -> in_range w (a / 2 ^ n).
Proof. intros. rewrite <- Z.shiftr_div_pow2 by done. by apply shr_range. Qed.

(** Folding at compile time computes what the op computes at run time. *)
Lemma eval_binary_sem (opc : Opcode) (a b : Z) (ty : Ty.Ty) :
  int_ty ty = true -> in_range (ty_bits ty) a -> in_range (ty_bits ty) b ->
  eval_binary opc a b ty = sem_binary opc (ty_bits ty) a b.
Proof.
  intros Hty Ha Hb. unfold eval_binary.
  rewrite shift_amount, shift_amount_64 by done.
  pose proof (shift_amount_range ty b) as Hn.
  pose proof (ty_bits_pos ty) as Hw.
  set (n := b mod ty_bits ty) in *.
  destruct opc; simpl; try done; fold n; rewrite ?land_mask; f_equal;
    unfold wrapping_add, wrapping_sub, wrapping_mul.
  - apply wrap_wrap; lia.
  - apply wrap_wrap; lia.
  - apply wrap_wrap; lia.
  - apply wrap_small. auto with rng.
  - apply wrap_small. auto with rng.
  - apply wrap_small. auto with rng.
  - zbits. apply in_range_bits in Ha as [_ Ha]; [|lia].
    destruct (Z.ltb_spec i (ty_bits ty)); simpl.
    + destruct (Z.leb_spec 0 i), (Z.ltb_spec i 64); simpl; try lia. done.
    + by rewrite Ha by lia.
  - unfold shl. rewrite wrap_wrap by lia. by rewrite Z.shiftl_mul_pow2 by lia.
  - rewrite (wrap_small _ a) by done. unfold shr. rewrite Z.shiftr_div_pow2 by lia.
    apply wrap_small, div_pow2_range; [lia..|done].
  - destruct (decide (ty = Ty.I32)) as [->|Hne]; cbv beta iota; rewrite land_mask; f_equal.
    + rewrite (wrap_small 32 a) by done. rewrite wrap_wrap by (simpl; lia).
      by rewrite Z.shiftr_div_pow2 by (simpl in *; lia).
    + replace (ty_bits ty) with 64 in * by by destruct ty.
      rewrite wrap_wrap by lia. by rewrite Z.shiftr_div_pow2 by lia.
  - destruct (decide (ty = Ty.I32)) as [->|Hne]; cbv beta iota; rewrite land_mask; f_equal.
    + rewrite (wrap_small 32 a) by done. rewrite wrap_small.
      * by apply rotate_left_add.
      * apply rotate_left_range; simpl in *; [lia..|done].
    + replace (ty_bits ty) with 64 in * by by destruct ty. rewrite wrap_small.
      * by apply rotate_left_add.
      * apply rotate_left_range; [lia..|done].
  - destruct (decide (ty = Ty.I32)) as [->|Hne]; cbv beta iota; rewrite land_mask; f_equal.
    + rewrite (wrap_small 32 a) by done. rewrite wrap_small.
      * by apply rotate_right_add.
      * apply rotate_right_range; simpl in *; [lia..|done].
    + replace (ty_bits ty) with 64 in * by by destruct ty. rewrite wrap_small.
      * by apply rotate_right_add.
      * apply rotate_right_range; [lia..|done].
Qed.

Lemma eval_binary_masked (opc : Opcode) (a b v : Z) (ty : Ty.Ty) :
  eval_binary opc a b ty = Some v -> exists r, v = Z.land r (type_mask ty).
Proof.
  unfold eval_binary.
  destruct opc; try done; repeat case_decide; intros [= <-]; eauto.
Qed.

(** The branch test agrees with the meaning of the condition, except for the
    signed conditions on [I32] (see the end of this file). *)
Lemma eval_cond_holds (a b : Z) (c : Cond.Cond) (ty : Ty.Ty) :
  ty_bits ty = 64 \/ Cond.is_signed c = false ->
  eval_cond a b c ty
  = Cond.holds (ty_bits ty) c (wrap (ty_bits ty) a) (wrap (ty_bits ty) b).
Proof.
  intros H. unfold eval_cond. rewrite !land_mask.
  destruct c; simpl; try done; destruct H as [->|]; done.
Qed.

(** ** The info vector *)

Definition drop1 (dst : N) (x : TempInfo) : TempInfo :=
  if decide (copy_of x = Some dst) then clear_copy x else x.

Lemma ti_ensure info i t : ti (ensure_info info i) t = ti info t.
Proof.
  unfold ensure_info, ti. case_decide; [|done].
  destruct (decide (N.to_nat t < length info)%nat).
  - by rewrite lookup_resize_to_lt.
  - rewrite (lookup_ge_None_2 info) by lia.
    destruct (resize_to _ _ _ !! _) eqn:E; [|done].
    apply lookup_resize_to_ge in E; [|lia]. by subst.
Qed.

Lemma length_ensure info i : length (ensure_info info i) = Nat.max (length info) (i + 1).
Proof. unfold ensure_info. case_decide; rewrite ?length_resize_to; lia. Qed.

Lemma ti_fmap f info t :
  f TempInfo_default = TempInfo_default -> ti (f <$> info) t = f (ti info t).
Proof.
  intros Hf. unfold ti. rewrite list_lookup_fmap. by destruct (info !! _).
Qed.

Lemma ti_drop dst info t : ti (drop_copies_of dst info) t = drop1 dst (ti info t).
Proof. by apply ti_fmap. Qed.

Lemma ti_reset info t : ti (reset_copies info) t = clear_copy (ti info t).
Proof. by apply ti_fmap. Qed.

Lemma ti_alter f info i t :
  (N.to_nat i < length info)%nat ->
  ti (alter f (N.to_nat i) info) t = if decide (t = i) then f (ti info t) else ti info t.
Proof.
  intros Hi. unfold ti. case_decide as E.
  - subst. rewrite list_lookup_alter_eq.
    destruct (lookup_lt_is_Some_2 info _ Hi) as [x ->]. done.
  - rewrite list_lookup_alter_ne; [done|]. intros ?%N2Nat.inj. done.
Qed.

Lemma ti_insert x info i t :
  (N.to_nat i < length info)%nat ->
  ti (<[N.to_nat i := x]> info) t = if decide (t = i) then x else ti info t.
Proof.
  intros Hi. unfold ti. case_decide as E.
  - subst. by rewrite list_lookup_insert_eq.
  - rewrite list_lookup_insert_ne; [done|]. intros ?%N2Nat.inj. done.
Qed.

Lemma ti_set_const info d v t :
  ti (set_const info d v) t = if decide (t = d) then mk_TempInfo true v None else ti info t.
Proof.
  unfold set_const. rewrite ti_insert by (rewrite length_ensure; lia).
  by rewrite ti_ensure.
Qed.

Lemma ti_set_copy info d s t :
  is_const (ti info s) = false ->
  ti (set_copy info d s) t
  = if decide (t = d) then mk_TempInfo false (val (ti info t)) (Some s) else ti info t.
Proof.
  intros Hs. unfold set_copy. rewrite ti_ensure, Hs.
  rewrite ti_alter by (rewrite length_ensure; lia). by rewrite !ti_ensure.
Qed.

Lemma ti_forget info i t :
  (N.to_nat i < length info)%nat ->
  ti (forget (N.to_nat i) info) t
  = if decide (t = i) then mk_TempInfo false (val (ti info t)) None else ti info t.
Proof. apply ti_alter. Qed.

Lemma ti_invalidate info d t :
  ti (invalidate_one info d) t
  = if decide (t = d) then mk_TempInfo false (val (ti info t)) None
    else drop1 d (ti info t).
Proof.
  unfold invalidate_one. rewrite ti_drop.
  rewrite ti_forget by (rewrite length_ensure; lia). rewrite ti_ensure.
  case_decide; [|done]. unfold drop1. by rewrite decide_False.
Qed.

Lemma length_set_const info d v :
  length (set_const info d v) = Nat.max (length info) (N.to_nat d + 1).
Proof. unfold set_const. by rewrite length_insert, length_ensure. Qed.

Lemma length_set_copy info d s :
  length (set_copy info d s) = Nat.max (length info) (N.to_nat d + 1).
Proof.
  unfold set_copy. case_if; by rewrite ?length_insert, ?length_alter, length_ensure.
Qed.

Lemma length_invalidate info d :
  length (invalidate_one info d) = Nat.max (length info) (N.to_nat d + 1).
Proof.
  unfold invalidate_one, drop_copies_of, forget.
  by rewrite length_fmap, length_alter, length_ensure.
Qed.

Lemma resolve_copy_ti info t : resolve_copy info t = copy_of (ti info t).
Proof.
  unfold resolve_copy, ti. case_decide; [done|].
  by rewrite lookup_ge_None_2 by lia.
Qed.

(** ** Well-typed blocks

    What the IR builder guarantees of the ops it emits: ten argument slots,
    temps in range, results into temps wide enough for them, no constant as the
    result of a foldable op. *)

Definition const_temp (ts : list Temp.Temp) (t : N) : bool :=
  match ts !! N.to_nat t with Some x => Temp.is_const x | None => false end.

Definition temp_bits (ts : list Temp.Temp) (t : N) : Z :=
  match ts !! N.to_nat t with Some x => ty_bits (Temp.ty x) | None => 64 end.

Definition wt_pure (ts : list Temp.Temp) (op : Op.Op) : bool :=
  let ty := Op.op_type op in
  let dst := arg (Op.args op) 0 in
  negb (const_temp ts dst) &&
  match Op.opc op with
  | ExtI32I64 => (ty_bits ty =? 64) && (temp_bits ts dst =? 64)
  | ExtUI32I64 | ExtrlI64I32 | ExtrhI64I32 => true
  | Mov => (ty_bits ty <=? temp_bits ts dst) &&
           (temp_bits ts (arg (Op.args op) 1) <=? ty_bits ty)
  | _ => int_ty ty && (ty_bits ty <=? temp_bits ts dst)
  end.

Definition wt_op (ts : list Temp.Temp) (op : Op.Op) : bool :=
  (length (Op.args op) =? Op.MAX_OP_ARGS)%nat &&
  forallb (fun t => N.to_nat t <? length ts)%nat (Op.oargs op ++ Op.iargs op) &&
  (if is_pure (Op.opc op) then wt_pure ts op else true).

Definition const_fits (x : Temp.Temp) : bool :=
  negb (Temp.is_const x) || (0 <=? Temp.val x) && (Temp.val x <? 2 ^ ty_bits (Temp.ty x)).

Definition well_typed (ctx : Context.Context) : bool :=
  forallb (wt_op (Context.temps ctx)) (Context.ops ctx) &&
  forallb const_fits (Context.temps ctx).

(** ** The audit

    The pass keeps information that later ops may have made stale: a copy whose
    source was overwritten, a constant from before a label, a constant of a
    global from before a helper call.  The audit replays the pass with a set [T]
    of temps whose information is still valid and fails when the pass uses the
    information of another temp, or folds a signed 32-bit comparison.  With [pure] set
    helper calls are known to leave the globals alone. *)

Definition trust : Type := N -> bool.

Definition copy_used_ok (info : list TempInfo) (T : trust) (t : N) : bool :=
  match resolve_copy info t with Some _ => T t | None => true end.

Definition const_used_ok (info : list TempInfo) (T : trust) (t : N) : bool :=
  negb (is_const (ti info t)) || T t.

Definition folds (opc : Opcode) : bool :=
  is_pure opc || match opc with BrCond => true | _ => false end.

Definition branch_ok (op : Op.Op) : bool :=
  match Op.opc op with
  | BrCond => (ty_bits (Op.op_type op) =? 64)
              || negb (Cond.is_signed (cond_from_carg (arg (Op.args op) 2)))
  | _ => true
  end.

Definition audit_op (info : list TempInfo) (T : trust) (op : Op.Op) : bool :=
  let d := def (Op.opc op) in
  let op' := Op.set_args op (propagate info d (Op.args op)) in
  is_boundary (Op.opc op) || is_skipped (Op.opc op) d ||
  (forallb (copy_used_ok info T) (Op.iargs op) &&
   (negb (folds (Op.opc op)) || forallb (const_used_ok info T) (Op.iargs op')) &&
   (branch_ok op || negb (forallb (fun t => is_const (ti info t)) (Op.iargs op')))).

(** The valid set after an op, given the information after it. *)
Definition next_trust (pure : bool) (ctx : Context.Context) (info' : list TempInfo) (T : trust)
    (op : Op.Op) : trust := fun t =>
  match Op.opc op with
  | SetLabel =>
      const_temp (Context.temps ctx) t || (length (Context.temps ctx) <=? N.to_nat t)%nat
  | Call => T t && (pure || (Context.nb_globals ctx <=? N.to_nat t)%nat)
  | opc =>
      if is_pure opc then
        let dst := arg (Op.args op) 0 in
        bool_decide (t = dst) || T t && negb (bool_decide (copy_of (ti info' t) = Some dst))
      else T t
  end.

Fixpoint audit_loop (pure : bool) (st : Optimize.St) (T : trust) (oi n : nat) : bool :=
  match n with
  | O => true
  | S n' =>
      match Context.ops st.1 !! oi, optimize_op st (N.of_nat oi) with
      | Some op, Some st' =>
          audit_op st.2 T op &&
          audit_loop pure st' (next_trust pure st.1 st'.2 T op) (S oi) n'
      | _, _ => false
      end
  end.

Definition audit (pure : bool) (ctx : Context.Context) : bool :=
  audit_loop pure (ctx, seed_info ctx) (fun _ => true) 0 (Context.num_ops ctx).

(** ** What every iteration preserves *)

Definition const_info (ts : list Temp.Temp) (info : list TempInfo) : Prop :=
  forall t x, ts !! N.to_nat t = Some x -> Temp.is_const x = true ->
    ti info t = mk_TempInfo true (Temp.val x) None.

Record ok (ctx : Context.Context) (info : list TempInfo) : Prop := mk_ok {
  ok_wf : Context.wf ctx;
  ok_len : length info = length (Context.temps ctx);
  ok_const : const_info (Context.temps ctx) info;
  ok_fits : forallb const_fits (Context.temps ctx) = true
}.

(** Only constant temps are appended. *)
Record grows (ctx ctx' : Context.Context) : Prop := mk_grows {
  gr_temps : Context.temps ctx `prefix_of` Context.temps ctx';
  gr_new : forall k x, (length (Context.temps ctx) <= k)%nat ->
    Context.temps ctx' !! k = Some x -> Temp.is_const x = true;
  gr_nb : Context.nb_globals ctx' = Context.nb_globals ctx
}.

Lemma grows_refl ctx ctx' :
  Context.temps ctx' = Context.temps ctx ->
  Context.nb_globals ctx' = Context.nb_globals ctx -> grows ctx ctx'.
Proof.
  intros Et En. split; rewrite ?Et; try done. intros k x Hk Hx%lookup_lt_Some. lia.
Qed.

Lemma grows_trans c1 c2 c3 : grows c1 c2 -> grows c2 c3 -> grows c1 c3.
Proof.
  intros [Ht1 Hc1 Hn1] [Ht2 Hc2 Hn2]. split; [by etrans| |congruence].
  intros k x Hk Hx. destruct (decide (k < length (Context.temps c2))%nat) as [Hlt|Hge];
    [|apply (Hc2 k); [lia|done]].
  destruct (lookup_lt_is_Some_2 _ _ Hlt) as [y Hy].
  rewrite (prefix_lookup_Some _ _ _ _ Hy Ht2) in Hx. injection Hx as <-. by apply (Hc1 k).
Qed.

(** Only the op at [i] changes. *)
Record ext (i : nat) (ctx ctx' : Context.Context) : Prop := mk_ext {
  ext_grows : grows ctx ctx';
  ext_len : length (Context.ops ctx') = length (Context.ops ctx);
  ext_ops : forall j, j <> i -> Context.ops ctx' !! j = Context.ops ctx !! j
}.

Lemma ext_refl i ctx : ext i ctx ctx.
Proof. split; [by apply grows_refl|done|done]. Qed.

Lemma ext_trans i c1 c2 c3 : ext i c1 c2 -> ext i c2 c3 -> ext i c1 c3.
Proof.
  intros [Hg1 Hl1 Ho1] [Hg2 Hl2 Ho2]. split; [by eapply grows_trans|congruence|].
  intros j Hj. by rewrite Ho2, Ho1.
Qed.

Lemma wf_set_ops ctx l : Context.wf ctx -> Context.wf (Context.set_ops ctx l).
Proof. intros [Hi Hn Hg Hl Ht Hc]. by split. Qed.

Lemma ok_set_ops ctx info l : ok ctx info -> ok (Context.set_ops ctx l) info.
Proof. intros []. split; [by apply wf_set_ops|done..]. Qed.

Lemma put_op_lt ctx (i : nat) o :
  (i < length (Context.ops ctx))%nat ->
  Context.put_op ctx (N.of_nat i) o
  = Some (Context.set_ops ctx (<[i := o]> (Context.ops ctx))).
Proof.
  intros Hi. unfold Context.put_op, set_idx. rewrite Nat2N.id. by rewrite decide_True.
Qed.

Lemma ext_set_ops ctx i o : ext i ctx (Context.set_ops ctx (<[i := o]> (Context.ops ctx))).
Proof.
  split; simpl; [by apply grows_refl|by rewrite length_insert|].
  intros. by rewrite list_lookup_insert_ne.
Qed.

Lemma const_temp_true ts t :
  const_temp ts t = true ->
  exists x, ts !! N.to_nat t = Some x /\ Temp.is_const x = true.
Proof. unfold const_temp. destruct (ts !! _); [eauto|done]. Qed.

Lemma prefix_const ts ts' t :
  ts `prefix_of` ts' -> const_temp ts t = true -> const_temp ts' t = true.
Proof.
  intros Hp (x & Hx & Hc)%const_temp_true. unfold const_temp.
  by rewrite (prefix_lookup_Some _ _ _ _ Hx Hp).
Qed.

Lemma prefix_nonconst ts ts' t :
  ts `prefix_of` ts' -> (N.to_nat t < length ts)%nat -> const_temp ts t = false ->
  const_temp ts' t = false.
Proof.
  intros Hp [x Hx]%lookup_lt_is_Some_2. unfold const_temp.
  by rewrite Hx, (prefix_lookup_Some _ _ _ _ Hx Hp).
Qed.

(** Changing the entry of a temp that is not a constant keeps [ok]. *)
Lemma ok_change ctx info info' dst :
  ok ctx info -> length info' = length info -> const_temp (Context.temps ctx) dst = false ->
  (forall t, t <> dst ->
     ti info' t = ti info t \/ ti info' t = clear_copy (ti info t)) ->
  ok ctx info'.
Proof.
  intros [Hwf Hl Hc Hf] Hl' Hd Ht. split; [done|congruence| |done].
  intros t x Hx Hxc. destruct (decide (t = dst)) as [->|Hne].
  - unfold const_temp in Hd. rewrite Hx in Hd. congruence.
  - destruct (Ht t Hne) as [-> | ->]; by rewrite (Hc t x Hx Hxc).
Qed.

(** ** The state after folding one op *)

Definition upd (ts : list Temp.Temp) (dst : N) (info info' : list TempInfo) : Prop :=
  forall t, t <> dst ->
    const_temp ts t = true \/ ti info' t = ti info t \/ ti info' t = clear_copy (ti info t).

Record did (i : nat) (dst : N) (ctx : Context.Context) (info : list TempInfo)
    (ctx' : Context.Context) (info' : list TempInfo) (op' : Op.Op) : Prop := mk_did {
  did_ok : ok ctx' info';
  did_ext : ext i ctx ctx';
  did_op : Context.ops ctx' !! i = Some op';
  did_upd : upd (Context.temps ctx') dst info info'
}.

Definition is_dst (ctx : Context.Context) (dst : N) : Prop :=
  (N.to_nat dst < length (Context.temps ctx))%nat /\
  const_temp (Context.temps ctx) dst = false.

Lemma keep_did i dst ctx info info' op :
  ok ctx info -> Context.ops ctx !! i = Some op -> is_dst ctx dst ->
  length info' = Nat.max (length info) (N.to_nat dst + 1) ->
  (forall t, t <> dst ->
     ti info' t = ti info t \/ ti info' t = clear_copy (ti info t)) ->
  did i dst ctx info ctx info' op.
Proof.
  intros Hok Hop [Hlt Hc] Hl Ht. pose proof (ok_len _ _ Hok).
  split; [|apply ext_refl|done|intros t Hne; right; by apply Ht].
  apply (ok_change ctx info info' dst); [done|lia|done|done].
Qed.

Lemma rewrite_did i dst ctx info info' op op' :
  ok ctx info -> Context.ops ctx !! i = Some op -> is_dst ctx dst ->
  length info' = Nat.max (length info) (N.to_nat dst + 1) ->
  (forall t, t <> dst ->
     ti info' t = ti info t \/ ti info' t = clear_copy (ti info t)) ->
  did i dst ctx info (Context.set_ops ctx (<[i := op']> (Context.ops ctx))) info' op'.
Proof.
  intros Hok Hop Hd Hl Ht. pose proof (lookup_lt_Some _ _ _ Hop).
  destruct (keep_did i dst ctx info info' op) as [Hok' _ _ Hu]; try done.
  split; [by apply ok_set_ops|apply ext_set_ops| |done].
  by apply list_lookup_insert_eq.
Qed.

Lemma invalidate_others info dst t :
  t <> dst -> ti (invalidate_one info dst) t = ti info t \/
              ti (invalidate_one info dst) t = clear_copy (ti info t).
Proof.
  intros Hne. rewrite ti_invalidate, decide_False by done. unfold drop1.
  case_decide; auto.
Qed.

Lemma const_fits_new ty v :
  in_range (ty_bits ty) v -> const_fits (Temp.new_const 0 ty v) = true.
Proof.
  intros [? ?]. unfold const_fits. simpl. apply andb_true_iff. split; [by apply Z.leb_le|by apply Z.ltb_lt].
Qed.

(** [new_const] of a fitting value keeps [ok] once the info vector covers it. *)
Lemma new_const_ok ctx info ty v c ctx' :
  ok ctx info -> in_range (ty_bits ty) v -> Context.new_const ctx ty v = (c, ctx') ->
  ok ctx' (alter (fun x => mk_TempInfo true v (copy_of x)) (N.to_nat c)
             (ensure_info info (N.to_nat c))).
Proof.
  intros [Hwf Hl Hc Hf] Hv E.
  destruct (Context.new_const_spec _ _ _ _ _ Hwf E)
    as (Hwf' & (x & Hx & Hk & Hty & Hxv) & Hpre & Hle & Hlen & _).
  split; [done|rewrite length_alter, length_ensure; lia| |].
  - intros t y Hy Hyc. rewrite ti_alter by (rewrite length_ensure; lia).
    rewrite ti_ensure. case_decide as Et.
    + subst t. rewrite Hx in Hy. injection Hy as <-. rewrite Hxv. f_equal.
      destruct (decide (N.to_nat c < length (Context.temps ctx))%nat) as [Hlt|Hge].
      * apply lookup_lt_is_Some_2 in Hlt as [z Hz].
        rewrite (prefix_lookup_Some _ _ _ _ Hz Hpre) in Hx. injection Hx as ->.
        by rewrite (Hc c _ Hz Hyc).
      * unfold ti. by rewrite lookup_ge_None_2 by lia.
    + apply (Hc t y); [|done].
      destruct (decide (N.to_nat t < length (Context.temps ctx))%nat) as [Hlt|Hge].
      * apply lookup_lt_is_Some_2 in Hlt as [z Hz].
        rewrite (prefix_lookup_Some _ _ _ _ Hz Hpre) in Hy. by injection Hy as ->.
      * pose proof (lookup_lt_Some _ _ _ Hy). destruct Et. apply N2Nat.inj. lia.
  - revert E. unfold Context.new_const. destruct (Context.const_lookup ctx ty v).
    + intros [= <- <-]. done.
    + intros [= <- <-]. simpl. rewrite forallb_app, Hf. simpl.
      rewrite andb_true_r. by apply (const_fits_new ty v).
Qed.

Lemma replace_with_const_did i dst ctx info op v ty :
  ok ctx info -> Context.ops ctx !! i = Some op -> is_dst ctx dst ->
  exists c x ctx' info',
    replace_with_const ctx info (N.of_nat i) dst v ty = Some (ctx', info') /\
    did i dst ctx info ctx' info' (rewrite2 op Mov dst c) /\
    Context.temps ctx' !! N.to_nat c = Some x /\ Temp.is_const x = true /\
    Temp.val x = wrap (ty_bits ty) v /\
    ti info' dst = mk_TempInfo true (wrap (ty_bits ty) v) None.
Proof.
  intros Hok Hop [Hlt Hd]. unfold replace_with_const. rewrite land_mask.
  set (m := wrap (ty_bits ty) v).
  assert (Hm : in_range (ty_bits ty) m)
    by (apply wrap_range; pose proof (ty_bits_pos ty); lia).
  destruct (Context.new_const ctx ty m) as [c ctx1] eqn:E.
  pose proof (new_const_ok _ _ _ _ _ _ Hok Hm E) as Hok1.
  set (info1 := alter _ _ _) in *.
  destruct (Context.new_const_spec _ _ _ _ _ (ok_wf _ _ Hok) E)
    as (_ & (x & Hx & Hk & Hty & Hxv) & Hpre & Hle & Hlen & _ & Hops & Hnb).
  assert (Hd1 : is_dst ctx1 dst).
  { split; [apply prefix_length in Hpre; lia|by eapply prefix_nonconst]. }
  assert (Hop1 : Context.ops ctx1 !! i = Some op) by by rewrite Hops.
  assert (Hxc : Temp.is_const x = true) by by apply bool_decide_eq_true_2.
  destruct (rewrite_did i dst ctx1 info1 (set_const info1 dst m) op
    (rewrite2 op Mov dst c) Hok1 Hop1 Hd1) as [? [? ? ?] ? Hu].
  { apply length_set_const. }
  { intros t Hne. left. by rewrite ti_set_const, decide_False. }
  unfold Context.op, Prelude.idx. rewrite Nat2N.id, Hop1.
  rewrite put_op_lt by by eapply lookup_lt_Some.
  eexists c, x, _, _. split; [done|]. split; [|split_and!; try done].
  - split; [done| |done|].
    + split; [split; [done| |done]|simpl; by rewrite length_insert, Hops|].
      * intros k y Hky Hy. pose proof (lookup_lt_Some _ _ _ Hy) as Hlt'. simpl in *.
        assert (k = N.to_nat c) as -> by lia. by simplify_eq.
      * intros j Hj. simpl. by rewrite list_lookup_insert_ne, Hops.
    + intros t Hne. destruct (decide (t = c)) as [->|Htc].
      * left. simpl. unfold const_temp. by rewrite Hx.
      * destruct (Hu t Hne) as [H|H]; [by left|right]. revert H. unfold info1.
        rewrite ti_alter by (rewrite length_ensure; lia).
        by rewrite decide_False, ti_ensure.
  - by rewrite ti_set_const, decide_True.
Qed.

(** ** Folding one pure op is correct *)

Definition entry_ok (ts : list Temp.Temp) (σ : N -> Z) (t : N) (x : TempInfo) : Prop :=
  (is_const x = true -> read ts σ t = val x) /\
  (forall s, copy_of x = Some s -> read ts σ t = read ts σ s).

Definition sound (ts : list Temp.Temp) (info : list TempInfo) (T : trust) (σ : N -> Z)
    : Prop :=
  forall t, T t = true -> entry_ok ts σ t (ti info t).

Definition known (ts : list Temp.Temp) (info : list TempInfo) (σ : N -> Z) (t : N) : Prop :=
  is_const (ti info t) = true -> read ts σ t = val (ti info t).

Lemma read_write_dst ts σ dst v :
  (N.to_nat dst < length ts)%nat -> const_temp ts dst = false ->
  read ts (write ts σ dst v) dst = wrap (temp_bits ts dst) v.
Proof.
  intros [x Hx]%lookup_lt_is_Some_2. unfold const_temp, temp_bits. rewrite Hx.
  intros Hc. by apply read_write_eq.
Qed.

Lemma operand_known ts info σ ty t :
  known ts info σ t -> is_const (ti info t) = true ->
  operand ts σ ty t = Z.land (val (ti info t)) (type_mask ty).
Proof. intros H Hc. unfold operand. by rewrite land_mask, (H Hc). Qed.

Lemma prefix_dst ctx ts dst :
  is_dst ctx dst -> Context.temps ctx `prefix_of` ts ->
  (N.to_nat dst < length ts)%nat /\ const_temp ts dst = false /\
  temp_bits ts dst = temp_bits (Context.temps ctx) dst.
Proof.
  intros [Hlt Hc] Hp. pose proof (prefix_length _ _ Hp).
  split; [lia|]. split; [by eapply prefix_nonconst|].
  apply lookup_lt_is_Some_2 in Hlt as [x Hx]. unfold temp_bits.
  by rewrite Hx, (prefix_lookup_Some _ _ _ _ Hx Hp).
Qed.

Section Fold.
Variables (i : nat) (ctx : Context.Context) (info : list TempInfo) (op : Op.Op).
Let dst := arg (Op.args op) 0.
Let a := arg (Op.args op) 1.
Let b := arg (Op.args op) 2.
Let ty := Op.op_type op.
Let w := ty_bits ty.

(** What is known of the values the op reads. *)
Record good (ts : list Temp.Temp) (σ : N -> Z) : Prop := mk_good {
  good_temps : Context.temps ctx `prefix_of` ts;
  good_a : known ts info σ a;
  good_b : (nb_iargs (def (Op.opc op)) = 2)%nat -> known ts info σ b;
  good_mov : Op.opc op = Mov -> in_range w (read ts σ a)
}.

(** The result of a fold: the rewritten op computes the same value, and the new
    information about the destination is true after the write. *)
Definition folded (r : option Optimize.St) : Prop :=
  exists ctx' info' op',
    r = Some (ctx', info') /\ did i dst ctx info ctx' info' op' /\
    is_pure (Op.opc op') = true /\ arg (Op.args op') 0 = dst /\
    forall ts σ v, Context.temps ctx' `prefix_of` ts -> good ts σ ->
      exec_pure ts op σ = Some v ->
      exec_pure ts op' σ = Some v /\
      entry_ok ts (write ts σ dst v) dst (ti info' dst).

Hypothesis Hok : ok ctx info.
Hypothesis Hop : Context.ops ctx !! i = Some op.
Hypothesis Hdst : is_dst ctx dst.
Hypothesis Hargs : length (Op.args op) = Op.MAX_OP_ARGS.
Hypothesis Hpure : is_pure (Op.opc op) = true.

Lemma entry_ok_unknown ts σ v : entry_ok ts σ dst (mk_TempInfo false v None).
Proof. by split. Qed.

Lemma entry_ok_const ts σ v :
  Context.temps ctx `prefix_of` ts -> in_range (temp_bits (Context.temps ctx) dst) v ->
  entry_ok ts (write ts σ dst v) dst (mk_TempInfo true v None).
Proof.
  intros Hp Hv. split; [intros _; simpl|done].
  destruct (prefix_dst _ _ _ Hdst Hp) as (Hlt & Hc & Hb).
  rewrite read_write_dst by done. rewrite Hb. by apply wrap_small.
Qed.

Lemma arg0_rewrite2 o x y : arg (Op.args (rewrite2 op o x y)) 0 = x.
Proof.
  unfold arg, rewrite2. simpl. destruct (Op.args op) as [|? [|? ?]]; done.
Qed.

Lemma arg1_rewrite2 o x y : arg (Op.args (rewrite2 op o x y)) 1 = y.
Proof.
  unfold arg, rewrite2. simpl. destruct (Op.args op) as [|? [|? ?]]; done.
Qed.

Lemma folded_keep : folded (Some (ctx, invalidate_one info dst)).
Proof.
  exists ctx, (invalidate_one info dst), op. split_and!; try done.
  - apply keep_did; try done; [apply length_invalidate|].
    intros. by apply invalidate_others.
  - intros ts σ v _ _ Hv. split; [done|].
    rewrite ti_invalidate, decide_True by done. apply entry_ok_unknown.
Qed.

Lemma folded_rewrite o src :
  (o = Mov \/ o = Neg) ->
  (forall ts σ v, good ts σ -> exec_pure ts op σ = Some v ->
     sem_unary o w (operand ts σ ty src) = Some v) ->
  folded (Some (Context.set_ops ctx (<[i := rewrite2 op o dst src]> (Context.ops ctx)),
                invalidate_one info dst)).
Proof.
  intros Ho Hv. eexists _, (invalidate_one info dst), (rewrite2 op o dst src). split; [done|].
  split; [|split; [by destruct Ho as [-> | ->]|split; [apply arg0_rewrite2|]]].
  - eapply rewrite_did; try done; [apply length_invalidate|].
    intros. by apply invalidate_others.
  - intros ts σ v Hp Hg He. split.
    + unfold exec_pure. change (nth 1 ?l 0%N) with (arg l 1). rewrite arg1_rewrite2.
      destruct Ho as [-> | ->]; by apply Hv.
    + rewrite ti_invalidate, decide_True by done. apply entry_ok_unknown.
Qed.

Lemma folded_mov src :
  (forall ts σ v, good ts σ -> exec_pure ts op σ = Some v -> v = operand ts σ ty src) ->
  folded (replace_with_mov ctx info (N.of_nat i) dst src).
Proof.
  intros Hv. unfold replace_with_mov, Context.op, Prelude.idx. rewrite Nat2N.id, Hop.
  rewrite put_op_lt by by eapply lookup_lt_Some.
  apply folded_rewrite; [by left|]. intros ts σ v Hg He. simpl. f_equal.
  symmetry. by apply Hv.
Qed.

Lemma folded_const v ty' :
  (forall ts σ u, good ts σ -> exec_pure ts op σ = Some u ->
     u = wrap (ty_bits ty') v /\ in_range w u /\
     in_range (temp_bits (Context.temps ctx) dst) u) ->
  folded (replace_with_const ctx info (N.of_nat i) dst v ty').
Proof.
  intros Hv.
  destruct (replace_with_const_did i dst ctx info op v ty')
    as (c & x & ctx' & info' & E & Hdid & Hx & Hxc & Hxv & Hti); try done.
  exists ctx', info', (rewrite2 op Mov dst c).
  split; [done|]. split; [done|]. split; [done|]. split; [apply arg0_rewrite2|].
  intros ts σ u Hp Hg He. destruct (Hv ts σ u Hg He) as (Hu & Hw & Hb). split.
  - unfold exec_pure. change (nth 1 ?l 0%N) with (arg l 1). rewrite arg1_rewrite2.
    simpl. f_equal. unfold operand.
    rewrite (read_const ts σ c x) by (try done; by eapply prefix_lookup_Some).
    rewrite Hxv, <- Hu. by apply wrap_small.
  - rewrite Hti, <- Hu. apply entry_ok_const; [by destruct Hg|done].
Qed.

Lemma w_pos : 0 < w <= 64.
Proof. apply ty_bits_pos. Qed.

Lemma operand_range ts σ t : in_range w (operand ts σ ty t).
Proof. apply wrap_range. pose proof w_pos. lia. Qed.

Lemma fold_mov_folded :
  Op.opc op = Mov -> w <= temp_bits (Context.temps ctx) dst ->
  folded (fold_mov ctx info (Op.args op) ty).
Proof.
  intros Ho Hw. unfold fold_mov. fold a dst.
  assert (Hex : forall ts σ, exec_pure ts op σ = Some (operand ts σ ty a)).
  { intros ts σ. unfold exec_pure. by rewrite Ho. }
  destruct (is_const (ti info a)) eqn:Ec.
  - eexists ctx, _, op. split; [done|]. split; [|split; [done|split; [done|]]].
    + apply keep_did; try done; [apply length_set_const|].
      intros t Hne. left. by rewrite ti_set_const, decide_False.
    + intros ts σ v Hp Hg Hv. split; [done|].
      rewrite Hex in Hv. injection Hv as <-.
      rewrite ti_set_const, decide_True by done.
      rewrite <- (operand_known ts info σ) by (try done; apply Hg).
      apply entry_ok_const; [done|]. by eapply in_range_le, operand_range.
  - eexists ctx, _, op. split; [done|]. split; [|split; [done|split; [done|]]].
    + apply keep_did; try done; [apply length_set_copy|].
      intros t Hne. left. by rewrite ti_set_copy, decide_False.
    + intros ts σ v Hp Hg Hv. split; [done|].
      rewrite Hex in Hv. injection Hv as <-.
      rewrite ti_set_copy, decide_True by done. split; [done|].
      simpl. intros s [= <-]. destruct (decide (a = dst)) as [->|Hne]; [done|].
      destruct (prefix_dst _ _ _ Hdst Hp) as (Hlt & Hcd & Hbd).
      rewrite read_write_dst, read_write_ne by done.
      rewrite Hbd, wrap_small by (by eapply in_range_le, operand_range).
      unfold operand. apply wrap_small. by apply Hg.
Qed.

(** A masked value is unchanged by further truncation. *)
Lemma masked_fits (r : Z) :
  w <= temp_bits (Context.temps ctx) dst ->
  let v := Z.land r (type_mask ty) in
  v = wrap w v /\ in_range w v /\ in_range (temp_bits (Context.temps ctx) dst) v.
Proof.
  intros Hw. rewrite land_mask. fold w. pose proof w_pos. simpl.
  assert (in_range w (wrap w r)) by (apply wrap_range; lia).
  split; [symmetry; by apply wrap_small|]. split; [done|by eapply in_range_le].
Qed.

Lemma neg_fold (v : Z) :
  Z.land (wrapping_sub 64 0 v) (type_mask ty) = wrap w (- Z.land v (type_mask ty)).
Proof.
  rewrite !land_mask. fold w. pose proof w_pos. unfold wrapping_sub.
  rewrite wrap_wrap by lia. unfold wrap.
  rewrite Z.sub_0_l, <- (Z.sub_0_l (v mod _)), <- (Z.sub_0_l v).
  by rewrite Zminus_mod_idemp_r.
Qed.

Lemma not_fold (v : Z) :
  Z.land (bnot 64 v) (type_mask ty) = bnot w (Z.land v (type_mask ty)).
Proof.
  rewrite !land_mask. fold w. pose proof w_pos. zbits.
  destruct (Z.ltb_spec i0 w), (Z.ltb_spec i0 64), (Z.leb_spec 0 i0); simpl; try lia;
    by destruct (Z.testbit v i0).
Qed.

Lemma fold_unary_folded :
  Op.opc op = Neg \/ Op.opc op = Not -> w <= temp_bits (Context.temps ctx) dst ->
  folded (fold_unary ctx info (N.of_nat i) (Op.opc op) (Op.args op) ty).
Proof.
  intros Ho Hw. unfold fold_unary. fold a dst.
  destruct (is_const (ti info a)) eqn:Ec; simpl; [|apply folded_keep].
  pose proof w_pos. destruct Ho as [Ho|Ho]; rewrite Ho; apply folded_const;
    intros ts σ u Hg; unfold exec_pure; rewrite Ho; simpl; intros [= <-];
    fold ty a w; rewrite (operand_known ts info) by (try done; apply Hg).
  - rewrite <- neg_fold. by apply masked_fits.
  - rewrite <- not_fold. by apply masked_fits.
Qed.

Lemma fold_ext_folded :
  match Op.opc op with
  | ExtI32I64 => w = 64 /\ temp_bits (Context.temps ctx) dst = 64
  | ExtUI32I64 | ExtrlI64I32 | ExtrhI64I32 => True
  | _ => False
  end ->
  folded (fold_ext ctx info (N.of_nat i) (Op.opc op) (Op.args op)).
Proof.
  intros Ho. unfold fold_ext. fold a dst.
  destruct (is_const (ti info a)) eqn:Ec; simpl; [|apply folded_keep].
  assert (H32 : forall x n, 32 <= n -> in_range n (wrap 32 x)).
  { intros. eapply in_range_le; [done|]. by apply wrap_range. }
  assert (Hw32 : 32 <= w) by (unfold w; destruct (ty_bits_cases ty); lia).
  assert (Hd32 : 32 <= temp_bits (Context.temps ctx) dst).
  { unfold temp_bits. destruct (Context.temps ctx !! N.to_nat dst) as [x|]; [|lia].
    destruct (ty_bits_cases (Temp.ty x)); lia. }
  change 0xFFFFFFFF with (Z.ones 32).
  destruct (Op.opc op) eqn:Eo; try done; cbv beta iota; apply folded_const;
    intros ts σ u Hg; unfold exec_pure; rewrite Eo; cbv beta iota zeta delta [sem_ext32]; intros [= <-];
    change (nth 1 (Op.args op) 0%N) with a; rewrite (good_a _ _ Hg Ec); rewrite ?land_ones_wrap by lia; cbn [ty_bits].
  - destruct Ho as [-> ->]. rewrite wrap_wrap by lia. split; [done|].
    split; apply wrap_range; lia.
  - rewrite wrap_wrap_lt by lia. auto.
  - rewrite wrap_wrap by lia. auto.
  - rewrite wrap_wrap by lia. unfold shr. rewrite Z.shiftr_div_pow2 by lia. auto.
Qed.

(** ** Algebraic identities *)

Lemma mask_w : type_mask ty = Z.ones w.
Proof. apply type_mask_ones. Qed.

Lemma land_ones_id x : in_range w x -> Z.land x (Z.ones w) = x.
Proof. intros. rewrite land_ones_wrap by (pose proof w_pos; lia). by apply wrap_small. Qed.

Lemma lor_ones_id x : in_range w x -> Z.lor x (Z.ones w) = Z.ones w.
Proof.
  pose proof w_pos. intros [_ Hx]%in_range_bits; [|lia]. zbits.
  destruct (Z.ltb_spec i0 w); [destruct (Z.leb_spec 0 i0); [|lia]|].
  - apply orb_true_r.
  - rewrite Hx by lia. rewrite andb_false_r. done.
Qed.

Lemma ldiff_ones_id x : in_range w x -> Z.ldiff x (Z.ones w) = 0.
Proof.
  pose proof w_pos. intros [_ Hx]%in_range_bits; [|lia]. zbits.
  destruct (Z.ltb_spec i0 w); [destruct (Z.leb_spec 0 i0); [|lia]|].
  - apply andb_false_r.
  - by rewrite Hx by lia.
Qed.

Lemma signed_id x : in_range w x -> wrap w (signed w x) = x.
Proof. intros. rewrite wrap_signed by (pose proof w_pos; lia). by apply wrap_small. Qed.

Lemma rotl_zero x : in_range w x -> x + x / 2 ^ w = x.
Proof. intros [H0 H1]. rewrite Z.div_small by done. lia. Qed.

Lemma rotr_zero x : x + wrap w (x * 2 ^ w) = x.
Proof. unfold wrap. rewrite Z_mod_mult. lia. Qed.

(** The value an identity stands for, as a unary op of its source. *)
Definition means (s : simplification) (r : option Z) (va vb : Z) : Prop :=
  match s with
  | ToMov src => (src = a /\ r = Some va) \/ (src = b /\ r = Some vb)
  | ToConst v => r = Some v /\ v = wrap w v
  | ToNeg src => src = b /\ r = Some (wrap w (- vb))
  end.

Lemma simplify_b_sem opc va vb s :
  in_range w va -> in_range w vb -> simplify_b opc a vb (type_mask ty) = Some s ->
  means s (sem_binary opc w va vb) va vb.
Proof.
  intros Ha Hb. rewrite mask_w. pose proof w_pos.
  assert (H0 : wrap w 0 = 0) by (apply wrap_small; split; [lia|]; apply Z.pow_pos_nonneg; lia).
  assert (Ho : Z.ones w = wrap w (Z.ones w)) by (rewrite wrap_small; auto with rng).
  pose proof (wrap_small w va Ha) as Hva.
  destruct opc; simpl; try done;
    repeat (match goal with |- context [?x =? ?y] => destruct (Z.eqb_spec x y) as [->|_] end);
    intros [= <-]; simpl;
    rewrite ?Z.add_0_r, ?Z.sub_0_r, ?Z.mul_0_r, ?Z.mul_1_r, ?Z.land_0_r, ?Z.lor_0_r,
      ?Z.lxor_0_r, ?Z.mod_0_l by lia;
    rewrite ?land_ones_id, ?lor_ones_id, ?ldiff_ones_id by done;
    rewrite ?Z.mul_1_r, ?Z.div_1_r, ?signed_id, ?Hva, ?H0 by done;
    rewrite ?rotl_zero, ?rotr_zero by done; auto.
Qed.

Lemma simplify_a_sem opc va vb s :
  in_range w va -> in_range w vb -> simplify_a opc b va (type_mask ty) = Some s ->
  means s (sem_binary opc w va vb) va vb.
Proof.
  intros Ha Hb. rewrite mask_w. pose proof w_pos.
  assert (H0 : wrap w 0 = 0) by (apply wrap_small; split; [lia|]; apply Z.pow_pos_nonneg; lia).
  assert (Ho : Z.ones w = wrap w (Z.ones w)) by (rewrite wrap_small; auto with rng).
  pose proof (wrap_small w vb Hb) as Hvb.
  destruct opc; simpl; try done;
    repeat (match goal with |- context [?x =? ?y] => destruct (Z.eqb_spec x y) as [->|_] end);
    intros [= <-]; simpl; rewrite ?Z.add_0_l, ?Z.sub_0_l, ?Z.mul_0_l, ?Z.land_0_l;
    rewrite ?(Z.lor_comm (Z.ones w)), ?lor_ones_id by done; rewrite ?Hvb, ?H0; auto.
Qed.

(** ** Binary ops *)

Definition is_binary (opc : Opcode) : bool :=
  match opc with
  | Add | Sub | Mul | And | Or | Xor | AndC | Shl | Shr | Sar | RotL | RotR => true
  | _ => false
  end.

Hypothesis Hbin : is_binary (Op.opc op) = true.
Hypothesis Hint : int_ty ty = true.
Hypothesis Hwd : w <= temp_bits (Context.temps ctx) dst.

Lemma exec_pure_binary ts σ :
  exec_pure ts op σ = sem_binary (Op.opc op) w (operand ts σ ty a) (operand ts σ ty b).
Proof. unfold exec_pure. by destruct (Op.opc op). Qed.

Lemma binary_iargs : nb_iargs (def (Op.opc op)) = 2%nat.
Proof. by destruct (Op.opc op). Qed.

Lemma find_simplification_sem ts σ s :
  good ts σ ->
  find_simplification (Op.opc op) a b (ti info a) (ti info b) ty = Some s ->
  means s (exec_pure ts op σ) (operand ts σ ty a) (operand ts σ ty b).
Proof.
  intros Hg. rewrite exec_pure_binary. unfold find_simplification.
  pose proof (operand_range ts σ a). pose proof (operand_range ts σ b).
  assert (Hb : is_const (ti info b) = true ->
    forall s', simplify_b (Op.opc op) a (Z.land (val (ti info b)) (type_mask ty))
      (type_mask ty) = Some s' ->
    means s' (sem_binary (Op.opc op) w (operand ts σ ty a) (operand ts σ ty b))
      (operand ts σ ty a) (operand ts σ ty b)).
  { intros Ec s'. rewrite <- (operand_known ts info σ ty b) by
      (try done; apply Hg, binary_iargs). by apply simplify_b_sem. }
  assert (Ha : is_const (ti info a) = true ->
    simplify_a (Op.opc op) b (Z.land (val (ti info a)) (type_mask ty))
      (type_mask ty) = Some s ->
    means s (sem_binary (Op.opc op) w (operand ts σ ty a) (operand ts σ ty b))
      (operand ts σ ty a) (operand ts σ ty b)).
  { intros Ec. rewrite <- (operand_known ts info σ ty a) by (try done; apply Hg).
    by apply simplify_a_sem. }
  destruct (is_const (ti info b)) eqn:Eb; [destruct (simplify_b _ _ _ _) as [s'|] eqn:Es|].
  - intros [= <-]. by apply Hb.
  - destruct (is_const (ti info a)); [by apply Ha|done].
  - destruct (is_const (ti info a)); [by apply Ha|done].
Qed.

Lemma fold_both_sem v ts σ :
  good ts σ -> fold_both (Op.opc op) (ti info a) (ti info b) ty = Some v ->
  exec_pure ts op σ = Some v /\ exists r, v = Z.land r (type_mask ty).
Proof.
  intros Hg. unfold fold_both.
  destruct (is_const (ti info a)) eqn:Ea, (is_const (ti info b)) eqn:Eb; try done. simpl.
  rewrite <- (operand_known ts info σ ty a) by (try done; apply Hg).
  rewrite <- (operand_known ts info σ ty b) by (try done; apply Hg, binary_iargs).
  intros He. split.
  - rewrite exec_pure_binary. rewrite <- He. symmetry.
    apply eval_binary_sem; [done|apply operand_range|apply operand_range].
  - by eapply eval_binary_masked.
Qed.

Lemma apply_simplification_folded s :
  find_simplification (Op.opc op) a b (ti info a) (ti info b) ty = Some s ->
  folded (apply_simplification ctx info (N.of_nat i) dst ty s).
Proof.
  intros Hs. destruct s as [src|v|src]; simpl.
  - apply folded_mov. intros ts σ v Hg Hv.
    pose proof (find_simplification_sem ts σ _ Hg Hs) as Hm. simpl in Hm.
    rewrite Hv in Hm. naive_solver.
  - apply folded_const. intros ts σ u Hg Hu.
    pose proof (find_simplification_sem ts σ _ Hg Hs) as [Hm Hw]. rewrite Hu in Hm.
    injection Hm as <-. split; [done|].
    assert (in_range w u) by (rewrite Hw; apply wrap_range; pose proof w_pos; lia).
    split; [done|by eapply in_range_le].
  - unfold Context.op, Prelude.idx. rewrite Nat2N.id, Hop.
    rewrite put_op_lt by by eapply lookup_lt_Some.
    apply folded_rewrite; [by right|]. intros ts σ v Hg Hv.
    pose proof (find_simplification_sem ts σ _ Hg Hs) as [-> Hm]. rewrite Hv in Hm.
    by rewrite Hm.
Qed.

Lemma same_operand_folded o :
  a = b -> o = Op.opc op ->
  folded match o with
         | And | Or => replace_with_mov ctx info (N.of_nat i) dst a
         | Xor | Sub => replace_with_const ctx info (N.of_nat i) dst 0 ty
         | _ => Some (ctx, invalidate_one info dst)
         end.
Proof.
  intros Hab Ho. pose proof w_pos.
  assert (H0 : wrap w 0 = 0) by (apply wrap_small; split; [lia|]; apply Z.pow_pos_nonneg; lia).
  assert (Hr0 : forall n, 0 < n -> in_range n 0).
  { intros. split; [lia|]. apply Z.pow_pos_nonneg; lia. }
  destruct o; try apply folded_keep; try apply folded_mov; try apply folded_const;
    intros ts σ v Hg; rewrite exec_pure_binary, <- Hab, <- Ho; simpl;
    rewrite ?Z.land_diag, ?Z.lor_diag, ?Z.lxor_nilpotent, ?Z.sub_diag, ?H0;
    intros [= <-]; auto; fold w; rewrite H0; split_and!; auto with lia.
Qed.

Lemma fold_binary_folded :
  folded (fold_binary ctx info (N.of_nat i) (Op.opc op) (Op.args op) ty).
Proof.
  unfold fold_binary. fold dst a b.
  destruct (fold_both _ _ _ _) as [v|] eqn:Eboth.
  - apply folded_const. intros ts σ u Hg Hu.
    destruct (fold_both_sem v ts σ Hg Eboth) as [Hv [r ->]]. rewrite Hu in Hv.
    injection Hv as ->. by apply masked_fits.
  - unfold try_simplify. destruct (find_simplification _ _ _ _ _ _) as [s|] eqn:Es.
    + destruct (apply_simplification_folded s Es) as (ctx' & info' & op' & -> & H).
      exists ctx', info', op'. by split.
    + case_decide; [by apply same_operand_folded|apply folded_keep].
Qed.

End Fold.

Lemma pure_def opc :
  is_pure opc = true ->
  nb_oargs (def opc) = 1%nat /\ is_boundary opc = false /\
  is_skipped opc (def opc) = false /\
  (nb_iargs (def opc) = 1 \/ nb_iargs (def opc) = 2)%nat.
Proof. destruct opc; try done; intros _; vm_compute; auto. Qed.

(** [dispatch] on a foldable op; [op0] is the op before copy propagation. *)
Lemma dispatch_pure i ctx info op op0 :
  ok ctx info -> Context.ops ctx !! i = Some op -> length (Op.args op) = Op.MAX_OP_ARGS ->
  is_dst ctx (arg (Op.args op) 0) -> is_pure (Op.opc op) = true ->
  wt_pure (Context.temps ctx) op0 = true ->
  Op.opc op0 = Op.opc op -> Op.op_type op0 = Op.op_type op ->
  arg (Op.args op0) 0 = arg (Op.args op) 0 ->
  folded i ctx info op
    (dispatch ctx info (N.of_nat i) (Op.opc op) (Op.op_type op) (def (Op.opc op)) (Op.args op)).
Proof.
  intros Hok Hop Hl Hd Hp Hwt Eo Et Ea. unfold wt_pure in Hwt. rewrite Eo, Et, Ea in Hwt.
  apply andb_true_iff in Hwt as [_ Hwt].
  assert (Hb : is_binary (Op.opc op) = true ->
    folded i ctx info op
      (fold_binary ctx info (N.of_nat i) (Op.opc op) (Op.args op) (Op.op_type op))).
  { intros Hb. apply fold_binary_folded; try done; destruct (Op.opc op); try done;
      apply andb_true_iff in Hwt as [? ?]; [..| |]; try done; by apply Z.leb_le. }
  unfold dispatch. destruct (Op.opc op) eqn:E; try done; try (by apply Hb); try rewrite <- E.
  - apply andb_true_iff in Hwt as [? _]. apply fold_mov_folded; try done; [by rewrite E|].
    by apply Z.leb_le.
  - apply andb_true_iff in Hwt as [_ ?].
    apply fold_unary_folded; try done; [by rewrite E|by left|by apply Z.leb_le].
  - apply andb_true_iff in Hwt as [_ ?].
    apply fold_unary_folded; try done; [by rewrite E|by right|by apply Z.leb_le].
  - apply andb_true_iff in Hwt as [? ?].
    apply fold_ext_folded; try done; rewrite E; [done|]. split; by apply Z.eqb_eq.
  - apply fold_ext_folded; try done; by rewrite E.
  - apply fold_ext_folded; try done; by rewrite E.
  - apply fold_ext_folded; try done; by rewrite E.
Qed.

(** ** Copy propagation *)

Lemma length_propagate info d l : length (propagate info d l) = length l.
Proof. apply length_imap. Qed.

Lemma arg_propagate info d l k :
  (k < length l)%nat ->
  arg (propagate info d l) k
  = if decide (nb_oargs d <= k < nb_oargs d + nb_iargs d)%nat
    then default (arg l k) (resolve_copy info (arg l k)) else arg l k.
Proof.
  intros [x Hx]%lookup_lt_is_Some_2. unfold arg.
  rewrite !(nth_lookup _ k). unfold propagate. by rewrite list_lookup_imap, Hx.
Qed.

Definition resolved (info : list TempInfo) (t : N) : N := default t (resolve_copy info t).

Lemma oargs_propagate info op :
  Op.oargs (Op.set_args op (propagate info (def (Op.opc op)) (Op.args op))) = Op.oargs op.
Proof.
  unfold Op.oargs. simpl. apply list_eq. intros k.
  destruct (decide (k < nb_oargs (def (Op.opc op)))%nat).
  - rewrite !lookup_take_lt by done. unfold propagate. rewrite list_lookup_imap.
    destruct (Op.args op !! k); [|done]. simpl. by rewrite decide_False by lia.
  - by rewrite !lookup_take_ge by lia.
Qed.

Lemma cargs_propagate info op :
  Op.cargs (Op.set_args op (propagate info (def (Op.opc op)) (Op.args op))) = Op.cargs op.
Proof.
  unfold Op.cargs. simpl. f_equal. apply list_eq. intros k.
  rewrite !lookup_drop. unfold propagate. rewrite list_lookup_imap.
  destruct (Op.args op !! _); [|done]. simpl. by rewrite decide_False by lia.
Qed.

Lemma iargs_propagate info op :
  Op.iargs (Op.set_args op (propagate info (def (Op.opc op)) (Op.args op)))
  = resolved info <$> Op.iargs op.
Proof.
  unfold Op.iargs. simpl. apply list_eq. intros k. rewrite list_lookup_fmap.
  destruct (decide (k < nb_iargs (def (Op.opc op)))%nat).
  - rewrite !lookup_take_lt, !lookup_drop by done. unfold propagate.
    rewrite list_lookup_imap.
    destruct (Op.args op !! _); [|done]. simpl. by rewrite decide_True by lia.
  - by rewrite !lookup_take_ge by lia.
Qed.

Lemma read_resolved ts info T σ t :
  sound ts info T σ -> copy_used_ok info T t = true ->
  read ts σ (resolved info t) = read ts σ t.
Proof.
  intros Hs. unfold copy_used_ok, resolved. rewrite resolve_copy_ti.
  destruct (copy_of (ti info t)) as [s|] eqn:E; [|done]. intros HT. simpl.
  symmetry. by apply (Hs t HT).
Qed.

Lemma read_iargs_resolved ts info T σ (l : list N) :
  sound ts info T σ -> forallb (copy_used_ok info T) l = true ->
  read ts σ <$> (resolved info <$> l) = read ts σ <$> l.
Proof.
  intros Hs Hl. rewrite <- list_fmap_compose. apply list_fmap_ext.
  intros k t Ht. simpl. apply (read_resolved ts info T); [done|].
  rewrite forallb_forall in Hl. apply Hl, list_elem_of_In.
  by eapply list_elem_of_lookup_2.
Qed.

Lemma arg_in_iargs op k :
  (k < length (Op.args op))%nat ->
  (nb_oargs (def (Op.opc op)) <= k
     < nb_oargs (def (Op.opc op)) + nb_iargs (def (Op.opc op)))%nat ->
  In (arg (Op.args op) k) (Op.iargs op).
Proof.
  intros [x Hx]%lookup_lt_is_Some_2 Hk. unfold arg, Op.iargs.
  rewrite (nth_lookup_Some _ _ _ _ Hx). apply list_elem_of_In.
  apply (list_elem_of_lookup_2 _ (k - nb_oargs (def (Op.opc op)))).
  rewrite lookup_take_lt, lookup_drop by lia. by replace (_ + _)%nat with k by lia.
Qed.

(** ** Invalidation *)

Definition stable (ts : list Temp.Temp) (outs : list N) (t : N) : Prop :=
  t ∉ outs \/ const_temp ts t = true.

(** What survives the write of [outs]: no information about a written temp, no
    copy of a written temp. *)
Definition kept (ts : list Temp.Temp) (outs : list N) (info info' : list TempInfo) : Prop :=
  forall t,
    (is_const (ti info' t) = true ->
       is_const (ti info t) = true /\ val (ti info' t) = val (ti info t) /\
       stable ts outs t) /\
    (forall s, copy_of (ti info' t) = Some s ->
       copy_of (ti info t) = Some s /\ stable ts outs t /\ stable ts outs s).

Lemma kept_nil ts info : kept ts [] info info.
Proof. intros t. unfold stable. set_solver. Qed.

Lemma forget_drop_kept ts x info :
  (N.to_nat x < length info)%nat ->
  kept ts [x] info (drop_copies_of x (forget (N.to_nat x) info)).
Proof.
  intros Hx t. rewrite ti_drop, ti_forget by done. unfold drop1, stable.
  destruct (decide (t = x)) as [->|Et]; simpl; [naive_solver|].
  case_decide as Ec; simpl; [set_solver|].
  split; [set_solver|]. intros s Hs. split_and!; [done|set_solver|].
  left. intros ->%list_elem_of_singleton. done.
Qed.

Lemma const_kept ts x info : const_temp ts x = true -> kept ts [x] info info.
Proof.
  intros Hx. assert (Hst : forall t, stable ts [x] t).
  { intros t. unfold stable. destruct (decide (t = x)) as [->|]; set_solver. }
  by intros t.
Qed.

Lemma kept_cons ts x outs i0 i1 i2 :
  kept ts [x] i0 i1 -> kept ts outs i1 i2 -> kept ts (x :: outs) i0 i2.
Proof.
  intros H1 H2. assert (Hst : forall t, stable ts [x] t -> stable ts outs t ->
    stable ts (x :: outs) t) by (unfold stable; set_solver).
  intros t. destruct (H1 t) as [Hc1 Hp1], (H2 t) as [Hc2 Hp2]. split.
  - intros Hc. destruct (Hc2 Hc) as (Hc' & Hv & Hs). destruct (Hc1 Hc') as (? & ? & ?).
    split_and!; [done|congruence|auto].
  - intros s Hs. destruct (Hp2 s Hs) as (Hs' & ? & ?). destruct (Hp1 s Hs') as (? & ? & ?).
    auto.
Qed.

Lemma invalidate_loop_spec ctx outs info :
  ok ctx info -> (forall t, t ∈ outs -> (N.to_nat t < length (Context.temps ctx))%nat) ->
  exists info', invalidate_outputs_loop outs ctx info = Some info' /\ ok ctx info' /\
    kept (Context.temps ctx) outs info info'.
Proof.
  revert info. induction outs as [|x outs IH]; intros info Hok Hr; simpl.
  { exists info. auto using kept_nil. }
  assert (Hx : (N.to_nat x < length (Context.temps ctx))%nat) by set_solver.
  pose proof (ok_len _ _ Hok) as Hl. rewrite decide_True by lia.
  destruct (lookup_lt_is_Some_2 _ _ Hx) as [xt Hxt].
  unfold Context.temp, Prelude.idx. rewrite Hxt.
  assert (Hr' : forall t, t ∈ outs -> (N.to_nat t < length (Context.temps ctx))%nat)
    by set_solver.
  destruct (Temp.is_const xt) eqn:Ec; simpl.
  - destruct (IH info Hok Hr') as (info' & -> & Hok' & Hk). exists info'.
    split_and!; try done. eapply kept_cons; [apply const_kept|done].
    unfold const_temp. by rewrite Hxt.
  - set (info1 := drop_copies_of x _).
    assert (Hok1 : ok ctx info1).
    { apply (ok_change ctx info info1 x); [done| | |].
      - unfold info1, drop_copies_of, forget. by rewrite length_fmap, length_alter.
      - unfold const_temp. by rewrite Hxt.
      - intros t Hne. unfold info1. rewrite ti_drop, ti_forget by lia.
        rewrite decide_False by done. unfold drop1. case_decide; auto. }
    destruct (IH info1 Hok1 Hr') as (info' & -> & Hok' & Hk). exists info'.
    split_and!; try done. eapply kept_cons; [|done].
    apply forget_drop_kept. lia.
Qed.

Lemma read_stable ts ts' σ outs vs σ' t :
  ts `prefix_of` ts' -> write_all ts' σ outs vs = Some σ' -> stable ts outs t ->
  read ts' σ' t = read ts' σ t.
Proof.
  intros Hp Hw [Hni|Hc]; [by eapply read_write_all_ne|].
  apply (prefix_const _ ts') in Hc; [|done].
  destruct (const_temp_true _ _ Hc) as (x & Hx & Hxc).
  by rewrite !(read_const _ _ t x).
Qed.

Lemma sound_kept ts ts' outs info info' T σ vs σ' :
  ts `prefix_of` ts' -> kept ts outs info info' -> sound ts' info T σ ->
  write_all ts' σ outs vs = Some σ' -> sound ts' info' T σ'.
Proof.
  intros Hp Hk Hs Hw t HT. destruct (Hk t) as [Hc Hcp], (Hs t HT) as [Hsc Hscp].
  split.
  - intros H. destruct (Hc H) as (Hc' & -> & Hst).
    rewrite (read_stable ts ts' σ outs vs) by done. auto.
  - intros s H. destruct (Hcp s H) as (Hc' & Hst & Hst').
    rewrite !(read_stable ts ts' σ outs vs σ') by done. auto.
Qed.

Lemma kept_weaken ts outs info info' : kept ts outs info info' -> kept ts [] info info'.
Proof.
  intros Hk t. destruct (Hk t) as [H1 H2]. unfold stable.
  split; [intros H; destruct (H1 H) as (? & ? & _)|
          intros s H; destruct (H2 s H) as (? & _)]; set_solver.
Qed.

Lemma sound_reset ts info T σ : sound ts info T σ -> sound ts (reset_copies info) T σ.
Proof.
  intros Hs t HT. rewrite ti_reset. destruct (Hs t HT) as [Hc _]. by split.
Qed.

Lemma ok_reset ctx info : ok ctx info -> ok ctx (reset_copies info).
Proof.
  intros [Hwf Hl Hc Hf]. split; [done|unfold reset_copies; by rewrite length_fmap| |done].
  intros t x Hx Hxc. by rewrite ti_reset, (Hc t x Hx Hxc).
Qed.

(** ** One op simulates the other *)

(** Information known after a write to [dst]. *)
Lemma sound_write ctx' ts dst info info' T σ v :
  ok ctx' info' -> Context.temps ctx' `prefix_of` ts ->
  upd (Context.temps ctx') dst info info' -> sound ts info T σ ->
  entry_ok ts (write ts σ dst v) dst (ti info' dst) ->
  sound ts info'
    (fun t => bool_decide (t = dst) ||
              T t && negb (bool_decide (copy_of (ti info' t) = Some dst)))
    (write ts σ dst v).
Proof.
  intros Hok Hp Hu Hs Hd t Ht. destruct (decide (t = dst)) as [->|Hne]; [done|].
  rewrite bool_decide_eq_false_2 in Ht by done. simpl in Ht.
  apply andb_true_iff in Ht as [HT Hc]. apply negb_true_iff, bool_decide_eq_false in Hc.
  destruct (Hu t Hne) as [Hct|He].
  - destruct (const_temp_true _ _ Hct) as (x & Hx & Hxc).
    rewrite (ok_const _ _ Hok t x Hx Hxc). split; [intros _; simpl|done].
    eapply read_const; [by eapply prefix_lookup_Some|done].
  - destruct (Hs t HT) as [Hsc Hscp]. split.
    + intros H. rewrite read_write_ne by done. destruct He as [E|E]; rewrite E in *; auto.
    + intros s H. rewrite H in Hc.
      rewrite !read_write_ne by congruence. destruct He as [E|E]; rewrite E in *; auto.
      done.
Qed.

Lemma exec_pure_propagate ts info T σ op :
  sound ts info T σ -> is_pure (Op.opc op) = true ->
  length (Op.args op) = Op.MAX_OP_ARGS ->
  forallb (copy_used_ok info T) (Op.iargs op) = true ->
  exec_pure ts (Op.set_args op (propagate info (def (Op.opc op)) (Op.args op))) σ
  = exec_pure ts op σ.
Proof.
  intros Hs Hp Hl Hc. rewrite forallb_forall in Hc.
  destruct (pure_def _ Hp) as (Ho & _ & _ & Hi). unfold Op.MAX_OP_ARGS in Hl.
  set (args' := propagate _ _ _).
  assert (H1 : read ts σ (arg args' 1) = read ts σ (arg (Op.args op) 1)).
  { unfold args'. rewrite arg_propagate, decide_True by lia.
    apply (read_resolved ts info T); [done|]. apply Hc, arg_in_iargs; lia. }
  assert (H2 : nb_iargs (def (Op.opc op)) = 2%nat ->
    read ts σ (arg args' 2) = read ts σ (arg (Op.args op) 2)).
  { intros Hi2. unfold args'. rewrite arg_propagate, decide_True by lia.
    apply (read_resolved ts info T); [done|]. apply Hc, arg_in_iargs; lia. }
  unfold exec_pure, operand. simpl Op.opc. simpl Op.op_type. simpl Op.args.
  change (nth 1 ?l 0%N) with (arg l 1). change (nth 2 ?l 0%N) with (arg l 2).
  destruct (Op.opc op) eqn:E; try done; cbv beta iota zeta;
    rewrite ?H1; try (rewrite H2 by by vm_compute); done.
Qed.

Lemma known_resolved ts info T σ (l : list N) t :
  sound ts info T σ -> forallb (const_used_ok info T) l = true -> In t l ->
  known ts info σ t.
Proof.
  intros Hs Hl Ht Hc. rewrite forallb_forall in Hl. specialize (Hl t Ht).
  unfold const_used_ok in Hl. rewrite Hc in Hl. simpl in Hl. by apply (Hs t Hl).
Qed.

Definition is_generic (opc : Opcode) : bool :=
  negb (folds opc) &&
  match opc with
  | Nop | InsnStart | SetLabel | Br | ExitTb | GotoPtr | GotoTb | Call => false
  | _ => true
  end.

Lemma not_special opc :
  is_boundary opc = false -> is_skipped opc (def opc) = false -> folds opc = false ->
  is_generic opc = true.
Proof. by destruct opc. Qed.

Lemma dispatch_generic ctx info op_idx opc ty d args :
  folds opc = false ->
  dispatch ctx info op_idx opc ty d args
  = (info' <-! invalidate_outputs info d args ctx ;; Some (ctx, info')).
Proof. by destruct opc. Qed.

Lemma next_trust_generic pure ctx info' T op :
  is_generic (Op.opc op) = true -> next_trust pure ctx info' T op = T.
Proof. unfold next_trust. by destruct (Op.opc op). Qed.

Lemma wt_op_range ts op t :
  wt_op ts op = true -> In t (Op.oargs op ++ Op.iargs op) -> (N.to_nat t < length ts)%nat.
Proof.
  unfold wt_op. intros Hw Ht. apply andb_true_iff in Hw as [Hw _].
  apply andb_true_iff in Hw as [_ H].
  rewrite forallb_forall in H. by apply Nat.ltb_lt, H.
Qed.

Lemma wt_op_len ts op : wt_op ts op = true -> length (Op.args op) = Op.MAX_OP_ARGS.
Proof.
  unfold wt_op. intros Hw. apply andb_true_iff in Hw as [Hw _].
  apply andb_true_iff in Hw as [H _]. by apply Nat.eqb_eq.
Qed.

Section Simulation.
Context {W : Type}.
Variable sem_ext : Opcode -> Ty.Ty -> list N -> list Z -> W -> option (option (list Z) * W).
Variable sem_call : list N -> list Z -> list Z -> W -> option (list Z * list Z * W).
Variable chained : N -> W -> bool.

(** Whether the helpers are known not to write globals. *)
Variable pure : bool.
Hypothesis calls_keep : pure = true -> forall cs ins gs w outs gs' w',
  sem_call cs ins gs w = Some (outs, gs', w') -> gs' = gs.

Notation exec := (exec_op sem_ext sem_call chained).

Definition simulates (ctx : Context.Context) (info : list TempInfo) (op : Op.Op)
    (ctx' : Context.Context) (info' : list TempInfo) (op' : Op.Op) : Prop :=
  forall ts T σ w σ' w' nx,
    Context.temps ctx' `prefix_of` ts -> store_ok ts σ ->
    sound ts info T σ \/ Op.opc op = SetLabel -> audit_op info T op = true ->
    exec ts (Context.nb_globals ctx) op σ w = Some (σ', w', nx) ->
    exec ts (Context.nb_globals ctx) op' σ w = Some (σ', w', nx) /\
    (nx = Fall -> sound ts info' (next_trust pure ctx info' T op) σ').

(** Ops the pass looks at without changing them, and ops other passes navigate by. *)
Definition untouched (opc : Opcode) : bool := is_boundary opc || is_skipped opc (def opc).
Definition is_mark (opc : Opcode) : bool :=
  match opc with SetLabel | InsnStart => true | _ => false end.

(** [op'] stands where [op] stood: exits, calls, accesses and marks stay, and no op
    becomes a mark. *)
Definition same_flow (op op' : Op.Op) : Prop :=
  (is_mark (Op.opc op') = true -> op' = op) /\ (untouched (Op.opc op) = true -> op' = op).

(** The outcome of one iteration of the pass. *)
Definition iterates (i : nat) (ctx : Context.Context) (info : list TempInfo) (op : Op.Op)
    (r : option Optimize.St) : Prop :=
  exists ctx' info' op',
    r = Some (ctx', info') /\ ok ctx' info' /\ ext i ctx ctx' /\
    Context.ops ctx' !! i = Some op' /\
    same_flow op op' /\
    simulates ctx info op ctx' info' op'.

Lemma exec_generic ts nb op σ w :
  is_generic (Op.opc op) = true ->
  exec ts nb op σ w =
    ('(outs, w') ← sem_ext (Op.opc op) (Op.op_type op) (Op.cargs op)
                     (read ts σ <$> Op.iargs op) w;
     match outs with
     | Some vs => σ' ← write_all ts σ (Op.oargs op) vs; Some (σ', w', Fall)
     | None => Some (σ, w', Leave)
     end).
Proof. unfold exec_op. destruct (Op.opc op) eqn:E; done. Qed.

Lemma exec_generic_sound ts ts' nb op σ w σ' w' info info' T :
  is_generic (Op.opc op) = true -> ts `prefix_of` ts' ->
  kept ts (Op.oargs op) info info' -> sound ts' info T σ ->
  exec ts' nb op σ w = Some (σ', w', Fall) -> sound ts' info' T σ'.
Proof.
  intros Hg Hp Hk Hs. rewrite exec_generic by done.
  destruct (sem_ext _ _ _ _ _) as [[[vs|] ?]|]; simpl; try done.
  destruct (write_all _ _ _ _) as [σ1|] eqn:E; simpl; [|done].
  intros [= <- <-]. by eapply sound_kept.
Qed.

Lemma in_elem {A} (l : list A) x : x ∈ l -> In x l.
Proof. apply list_elem_of_In. Qed.

Lemma outputs_invalidated ctx info op :
  ok ctx info -> wt_op (Context.temps ctx) op = true ->
  exists info', invalidate_outputs info (def (Op.opc op)) (Op.args op) ctx = Some info' /\
    ok ctx info' /\ kept (Context.temps ctx) (Op.oargs op) info info'.
Proof.
  intros Hok Hwt. apply invalidate_loop_spec; [done|]. intros t Ht.
  apply (wt_op_range _ op); [done|]. apply in_or_app. left. by apply in_elem.
Qed.

(** An op the pass skips: only its outputs are forgotten. *)
Lemma iterate_skipped i ctx info op info' :
  Context.ops ctx !! i = Some op -> ok ctx info' ->
  kept (Context.temps ctx) (Op.oargs op) info info' ->
  is_boundary (Op.opc op) = false -> is_skipped (Op.opc op) (def (Op.opc op)) = true ->
  iterates i ctx info op (Some (ctx, info')).
Proof.
  intros Hop Hok Hk Hb Hsk. exists ctx, info', op.
  split_and!; try done; [apply ext_refl|].
  intros ts T σ w σ' w' nx Hp Hst Hs _ He. split; [done|]. intros ->.
  destruct Hs as [Hs|Hs]; [|by rewrite Hs in Hb].
  destruct (is_generic (Op.opc op)) eqn:Eg.
  - rewrite next_trust_generic by done. by eapply exec_generic_sound.
  - assert (σ' = σ /\ next_trust pure ctx info' T op = T) as [-> ->].
    { revert He. unfold exec_op, next_trust. destruct (Op.opc op); try done;
        intros [= <- <-]; done. }
    apply (sound_kept (Context.temps ctx) ts [] info info' T σ []); try done.
    by eapply kept_weaken.
Qed.

(** Globals written back as they were read. *)
Lemma read_write_back ts σ l : forall σ0 σ1,
  store_ok ts σ -> (forall t, read ts σ0 t = read ts σ t) ->
  write_all ts σ0 l (read ts σ <$> l) = Some σ1 -> forall t, read ts σ1 t = read ts σ t.
Proof.
  induction l as [|u l IH]; intros σ0 σ1 Hst H0 Hw t; cbn [fmap list_fmap write_all] in Hw.
  { injection Hw as <-. apply H0. }
  apply (IH _ _ Hst) with (t := t) in Hw; [done|]. clear t Hw. intros t.
  destruct (decide (u = t)) as [->|Hne]; [|by rewrite read_write_ne].
  unfold write. destruct (ts !! N.to_nat t) as [x|] eqn:Ex; [|apply H0].
  destruct (Temp.is_const x) eqn:Ec; [by rewrite !(read_const _ _ _ x)|].
  pose proof (read_write_eq ts σ0 t (read ts σ t) x Ex Ec) as E. unfold write in E. rewrite Ex in E.
  rewrite E. apply wrap_small. rewrite <- (N2Nat.id t). by apply Hst.
Qed.

(** A helper call writes its outputs and the globals. *)
Lemma call_sound ts ts' nb op σ w σ' w' info info' T :
  Op.opc op = Call -> ts `prefix_of` ts' -> kept ts (Op.oargs op) info info' ->
  store_ok ts' σ -> sound ts' info T σ -> exec ts' nb op σ w = Some (σ', w', Fall) ->
  sound ts' (reset_copies info') (fun t => T t && (pure || (nb <=? N.to_nat t)%nat)) σ'.
Proof.
  intros Ho Hp Hk Hst Hs. unfold exec_op. rewrite Ho. simpl.
  destruct (sem_call _ _ _ _) as [[[outs gs] w1]|] eqn:Ec; simpl; [|done].
  destruct (write_all ts' σ _ gs) as [σ1|] eqn:E1; simpl; [|done].
  destruct (write_all ts' σ1 _ _) as [σ2|] eqn:E2; simpl; [|done].
  intros [= <- <-] t HT. rewrite ti_reset.
  apply andb_true_iff in HT as [HT Hge]. destruct (Hs t HT) as [Hc _].
  split; [|done]. simpl. intros H. destruct (proj1 (Hk t) H) as (Hc' & -> & Hro).
  rewrite (read_stable ts ts' σ1 (Op.oargs op) outs) by done.
  apply orb_true_iff in Hge as [Hpure|Hge%Nat.leb_le].
  - rewrite (calls_keep Hpure _ _ _ _ _ _ _ Ec) in E1.
    rewrite (read_write_back ts' σ (N.of_nat <$> seq 0 nb) σ σ1); auto.
    by rewrite <- list_fmap_compose.
  - rewrite (read_write_all_ne ts' σ _ gs σ1) by
      (try done; intros (k & -> & Hin%elem_of_seq)%list_elem_of_fmap; lia). auto.
Qed.

Lemma label_sound ctx info ts σ :
  ok ctx info -> Context.temps ctx `prefix_of` ts ->
  sound ts info (fun t => const_temp (Context.temps ctx) t ||
                          (length (Context.temps ctx) <=? N.to_nat t)%nat) σ.
Proof.
  intros Hok Hp t [Hc|Hge%Nat.leb_le]%orb_true_iff.
  - destruct (const_temp_true _ _ Hc) as (x & Hx & Hxc).
    rewrite (ok_const _ _ Hok t x Hx Hxc). split; [intros _; simpl|done].
    eapply read_const; [by eapply prefix_lookup_Some|done].
  - unfold ti. rewrite lookup_ge_None_2 by (rewrite (ok_len _ _ Hok); lia). by split.
Qed.

Lemma iterate_boundary i ctx info op info' :
  Context.ops ctx !! i = Some op -> ok ctx info' ->
  kept (Context.temps ctx) (Op.oargs op) info info' -> is_boundary (Op.opc op) = true ->
  iterates i ctx info op (Some (ctx, reset_copies info')).
Proof.
  intros Hop Hok Hk Hb. exists ctx, (reset_copies info'), op.
  split_and!; try done; [by apply ok_reset|apply ext_refl|].
  intros ts T σ w σ' w' nx Hp Hst Hs _ He. split; [done|]. intros ->.
  destruct (decide (Op.opc op = SetLabel)) as [Hl|Hnl].
  { unfold next_trust. rewrite Hl. apply label_sound; [by apply ok_reset|done]. }
  destruct Hs as [Hs|]; [|done].
  destruct (decide (Op.opc op = Call)) as [Hc|Hnc].
  { unfold next_trust. rewrite Hc. by eapply call_sound. }
  assert (σ' = σ /\ next_trust pure ctx (reset_copies info') T op = T) as [-> ->].
  { revert He. unfold exec_op, next_trust.
    destruct (Op.opc op); try done; intros [= <- <-]; done. }
  apply sound_reset.
  apply (sound_kept (Context.temps ctx) ts [] info info' T σ []); try done.
  by eapply kept_weaken.
Qed.

(** The state after the propagated arguments are written back. *)
Section Propagated.
Variables (i : nat) (ctx : Context.Context) (info : list TempInfo) (op : Op.Op).
Let op1 := Op.set_args op (propagate info (def (Op.opc op)) (Op.args op)).
Let ctx1 := Context.set_ops ctx (<[i := op1]> (Context.ops ctx)).
Hypothesis Hok : ok ctx info.
Hypothesis Hop : Context.ops ctx !! i = Some op.
Hypothesis Hwt : wt_op (Context.temps ctx) op = true.
Hypothesis Hnb : is_boundary (Op.opc op) = false.
Hypothesis Hns : is_skipped (Op.opc op) (def (Op.opc op)) = false.

Lemma op1_at : Context.ops ctx1 !! i = Some op1.
Proof. simpl. apply list_lookup_insert_eq. by eapply lookup_lt_Some. Qed.

Lemma ok1 : ok ctx1 info.
Proof. by apply ok_set_ops. Qed.

Lemma not_label : Op.opc op <> SetLabel.
Proof. intros H. by rewrite H in Hnb. Qed.

(** What replaces an op the pass may rewrite. *)
Lemma rewritten op' : is_mark (Op.opc op') = false -> same_flow op op'.
Proof. intros H. split; [congruence|]. unfold untouched. by rewrite Hnb, Hns. Qed.

Lemma audit_inv T :
  audit_op info T op = true ->
  forallb (copy_used_ok info T) (Op.iargs op) = true /\
  (folds (Op.opc op) = true -> forallb (const_used_ok info T) (Op.iargs op1) = true) /\
  (branch_ok op = true \/ forallb (fun t => is_const (ti info t)) (Op.iargs op1) = false).
Proof.
  unfold audit_op. rewrite Hnb, Hns. simpl. fold op1.
  intros H. apply andb_true_iff in H as [H H3]. apply andb_true_iff in H as [H1 H2].
  split; [done|]. split.
  - intros Hf. rewrite Hf in H2. done.
  - apply orb_true_iff in H3 as [|H3%negb_true_iff]; auto.
Qed.

Lemma iterate_generic :
  folds (Op.opc op) = false ->
  iterates i ctx info op
    (dispatch ctx1 info (N.of_nat i) (Op.opc op) (Op.op_type op) (def (Op.opc op))
       (Op.args op1)).
Proof.
  intros Hf. pose proof (not_special _ Hnb Hns Hf) as Hg. rewrite dispatch_generic by done.
  assert (Hoo : Op.oargs op1 = Op.oargs op) by apply oargs_propagate.
  destruct (invalidate_loop_spec ctx1 (Op.oargs op1) info ok1) as (info' & E & Hok' & Hk).
  { intros t Ht. apply (wt_op_range _ op); [done|]. apply in_or_app. left.
    apply in_elem. by rewrite <- Hoo. }
  unfold invalidate_outputs. unfold Op.oargs in E. simpl Op.opc in E. rewrite E.
  exists ctx1, info', op1. split_and!; try done; [apply ext_set_ops|apply op1_at| |].
  { apply rewritten. simpl Op.opc. by destruct (Op.opc op). }
  intros ts T σ w σ' w' nx Hp Hst Hs Ha He.
  destruct Hs as [Hs|Hl]; [|by destruct not_label].
  destruct (audit_inv T Ha) as (Hcp & _ & _). split.
  - rewrite <- He. rewrite !exec_generic by done. unfold op1.
    by rewrite cargs_propagate, iargs_propagate, oargs_propagate,
      (read_iargs_resolved ts info T) by done.
  - intros ->. rewrite next_trust_generic by done.
    eapply exec_generic_sound; [done|done| |done|done]. by rewrite <- Hoo.
Qed.

Lemma len_args : length (Op.args op) = 10%nat.
Proof. exact (wt_op_len _ _ Hwt). Qed.

Lemma pure_wt : is_pure (Op.opc op) = true -> wt_pure (Context.temps ctx) op = true.
Proof.
  intros Hp. pose proof Hwt as H. unfold wt_op in H. rewrite Hp in H.
  by apply andb_true_iff in H as [_ ?].
Qed.

Lemma pure_dst :
  is_pure (Op.opc op) = true ->
  arg (Op.args op1) 0 = arg (Op.args op) 0 /\ is_dst ctx1 (arg (Op.args op1) 0).
Proof.
  intros Hp. destruct (pure_def _ Hp) as (Ho & _). pose proof len_args as Hl.
  assert (Ha0 : arg (Op.args op1) 0 = arg (Op.args op) 0).
  { simpl. rewrite arg_propagate, decide_False by lia. done. }
  split; [done|]. rewrite Ha0. split; simpl.
  - apply (wt_op_range _ op); [done|]. apply in_or_app. left. unfold Op.oargs. rewrite Ho.
    unfold arg. destruct (Op.args op); [done|by left].
  - pose proof (pure_wt Hp) as H. unfold wt_pure in H.
    apply andb_true_iff in H as [H _]. by apply negb_true_iff.
Qed.

Lemma mov_src_range ts σ :
  Op.opc op = Mov -> Context.temps ctx `prefix_of` ts -> store_ok ts σ ->
  in_range (ty_bits (Op.op_type op)) (read ts σ (arg (Op.args op) 1)).
Proof.
  intros Ho Hp Hst. pose proof (pure_wt ltac:(by rewrite Ho)) as H.
  unfold wt_pure in H. rewrite Ho in H. apply andb_true_iff in H as [_ H].
  apply andb_true_iff in H as [_ Hb%Z.leb_le].
  assert (Hlt : (N.to_nat (arg (Op.args op) 1) < length (Context.temps ctx))%nat).
  { apply (wt_op_range _ op); [done|]. apply in_or_app. right.
    apply arg_in_iargs; [rewrite len_args; lia|rewrite Ho; vm_compute; lia]. }
  apply lookup_lt_is_Some_2 in Hlt as [x Hx]. unfold temp_bits in Hb. rewrite Hx in Hb.
  eapply in_range_le; [done|]. rewrite <- (N2Nat.id (arg (Op.args op) 1)).
  apply Hst. by eapply prefix_lookup_Some.
Qed.

Lemma pure_good ts T σ :
  is_pure (Op.opc op) = true -> Context.temps ctx1 `prefix_of` ts -> store_ok ts σ ->
  sound ts info T σ -> audit_op info T op = true -> good ctx1 info op1 ts σ.
Proof.
  intros Hp Hpre Hst Hs Ha. destruct (audit_inv T Ha) as (Hcp & Hcu & _).
  assert (Hf : folds (Op.opc op) = true) by (unfold folds; by rewrite Hp).
  specialize (Hcu Hf). destruct (pure_def _ Hp) as (Ho & _ & _ & Hi).
  pose proof len_args as Hl.
  assert (Hl1 : length (Op.args op1) = 10%nat) by (simpl; by rewrite length_propagate).
  split; [done| | |].
  - eapply known_resolved; [done|done|]. apply arg_in_iargs; simpl Op.opc; lia.
  - simpl Op.opc. intros H2. eapply known_resolved; [done|done|].
    apply arg_in_iargs; simpl Op.opc; lia.
  - simpl Op.opc. simpl Op.args. simpl Op.op_type. intros Hm.
    rewrite arg_propagate, decide_True by lia.
    fold (resolved info (arg (Op.args op) 1)).
    rewrite (read_resolved ts info T); [by apply mov_src_range|done|].
    rewrite forallb_forall in Hcp. apply Hcp, arg_in_iargs; lia.
Qed.

Lemma iterate_pure :
  is_pure (Op.opc op) = true ->
  iterates i ctx info op
    (dispatch ctx1 info (N.of_nat i) (Op.opc op) (Op.op_type op) (def (Op.opc op))
       (Op.args op1)).
Proof.
  intros Hp. destruct (pure_dst Hp) as [Ha0 Hd]. pose proof (pure_wt Hp) as Hwp.
  assert (Hl1 : length (Op.args op1) = Op.MAX_OP_ARGS)
    by (simpl; by rewrite length_propagate, len_args).
  destruct (dispatch_pure i ctx1 info op1 op ok1 op1_at Hl1 Hd Hp Hwp) as
    (ctx' & info' & op' & E & [Hok' Hext Hop' Hupd] & Hp' & Hd' & Hsim); try done.
  exists ctx', info', op'. split_and!; try done.
  { eapply ext_trans; [apply ext_set_ops|done]. }
  { apply rewritten. by destruct (Op.opc op'). }
  intros ts T σ w σ' w' nx Hpre Hst Hs Ha.
  destruct Hs as [Hs|Hl]; [|by destruct not_label].
  assert (Hpre1 : Context.temps ctx1 `prefix_of` ts) by (etrans; [apply Hext|done]).
  destruct (audit_inv T Ha) as (Hcp & _ & _).
  unfold exec_op. rewrite Hp, Hp'. change (nth 0 ?l 0%N) with (arg l 0). rewrite Hd', Ha0.
  destruct (exec_pure ts op σ) as [v|] eqn:Ev; simpl; [|done]. intros [= <- <- <-].
  destruct (Hsim ts σ v Hpre) as [Hv Hent].
  { by eapply pure_good. }
  { rewrite <- Ev. eapply exec_pure_propagate; try done. exact len_args. }
  rewrite Hv. simpl. split; [done|]. intros _. rewrite Ha0 in Hent, Hupd.
  pose proof (sound_write ctx' ts _ info info' T σ v Hok' Hpre Hupd Hs Hent) as Hsw.
  unfold next_trust. destruct (Op.opc op); done.
Qed.

(** The arguments of a branch: two inputs, then the condition and the label. *)
Lemma brcond_args :
  Op.opc op = BrCond ->
  Op.iargs op1 = [arg (Op.args op1) 0; arg (Op.args op1) 1] /\
  arg (Op.args op1) 0 = resolved info (arg (Op.args op) 0) /\
  arg (Op.args op1) 1 = resolved info (arg (Op.args op) 1) /\
  arg (Op.args op1) 2 = arg (Op.args op) 2 /\ arg (Op.args op1) 3 = arg (Op.args op) 3.
Proof.
  intros Ho. pose proof len_args as Hl. split.
  - assert (Hl1 : length (Op.args op1) = 10%nat) by (simpl; by rewrite length_propagate).
    unfold Op.iargs. change (Op.opc op1) with (Op.opc op). rewrite Ho. unfold arg.
    by destruct (Op.args op1) as [|x [|y l]].
  - simpl. rewrite !arg_propagate by lia. rewrite Ho. done.
Qed.

Lemma cond_from_of t c : cond_of_carg t = Some c -> cond_from_carg t = c.
Proof.
  unfold cond_of_carg, cond_from_carg.
  repeat (match goal with |- context [match ?x with _ => _ end] => destruct x end;
          try done; try (intros [= <-]; done)).
Qed.

(** Executing a branch with known operands. *)
Lemma exec_brcond ts nb o σ w :
  Op.opc o = BrCond ->
  exec ts nb o σ w =
    (c ← cond_of_carg (arg (Op.args o) 2);
     Some (σ, w, if Cond.holds (ty_bits (Op.op_type o)) c
                      (operand ts σ (Op.op_type o) (arg (Op.args o) 0))
                      (operand ts σ (Op.op_type o) (arg (Op.args o) 1))
                 then Jump (arg (Op.args o) 3) else Fall)).
Proof. intros Ho. unfold exec_op. by rewrite Ho. Qed.

Lemma exec_brcond_propagate ts T nb σ w :
  Op.opc op = BrCond -> sound ts info T σ ->
  forallb (copy_used_ok info T) (Op.iargs op) = true ->
  exec ts nb op1 σ w = exec ts nb op σ w.
Proof.
  intros Ho Hs Hcp. pose proof len_args as Hl.
  destruct (brcond_args Ho) as (_ & H0 & H1 & H2 & H3).
  rewrite !exec_brcond by done. rewrite H0, H1, H2, H3. simpl Op.op_type. unfold operand.
  rewrite forallb_forall in Hcp.
  rewrite !(read_resolved ts info T) by
    (try done; apply Hcp, arg_in_iargs; rewrite ?Ho; vm_compute def; simpl; lia).
  done.
Qed.

Lemma branch_ok_cond ty c t :
  cond_of_carg t = Some c ->
  (ty_bits ty =? 64) || negb (Cond.is_signed (cond_from_carg t)) = true ->
  ty_bits ty = 64 \/ Cond.is_signed c = false.
Proof.
  intros Hc. rewrite (cond_from_of _ _ Hc).
  intros [?%Z.eqb_eq|?%negb_true_iff]%orb_true_iff; auto.
Qed.

Lemma brcond_outcome ts T σ w σ' w' nx nb :
  Op.opc op = BrCond -> sound ts info T σ -> audit_op info T op = true ->
  is_const (ti info (arg (Op.args op1) 0)) = true ->
  is_const (ti info (arg (Op.args op1) 1)) = true ->
  exec ts nb op σ w = Some (σ', w', nx) ->
  σ' = σ /\ w' = w /\
  nx = if eval_cond (val (ti info (arg (Op.args op1) 0))) (val (ti info (arg (Op.args op1) 1)))
            (cond_from_carg (arg (Op.args op1) 2)) (Op.op_type op)
       then Jump (arg (Op.args op1) 3) else Fall.
Proof.
  intros Ho Hs Ha Hc0 Hc1. destruct (audit_inv T Ha) as (Hcp & Hcu & Hbr).
  destruct (brcond_args Ho) as (Hia & _). rewrite Hia in Hcu, Hbr.
  specialize (Hcu ltac:(by rewrite Ho)).
  rewrite <- (exec_brcond_propagate ts T) by done. rewrite exec_brcond by done.
  destruct (cond_of_carg _) as [c|] eqn:Ec; cbv [mbind option_bind]; [|done]. intros [= <- <- <-].
  split; [done|]. split; [done|].
  rewrite !(operand_known ts info σ) by
    (first [done|eapply known_resolved; [done|done|simpl; auto]]).
  rewrite !land_mask. change (Op.op_type op1) with (Op.op_type op).
  rewrite <- eval_cond_holds; [by rewrite (cond_from_of _ _ Ec)|].
  eapply branch_ok_cond; [exact Ec|]. cbn [forallb] in Hbr. rewrite Hc0, Hc1 in Hbr.
  destruct Hbr as [Hbr|]; [|done]. unfold branch_ok in Hbr. rewrite Ho in Hbr.
  destruct (brcond_args Ho) as (_ & _ & _ & H2 & _). by rewrite H2.
Qed.

Lemma iterate_branch ctx' op' :
  Op.opc op = BrCond -> ok ctx' info -> ext i ctx ctx' ->
  Context.ops ctx' !! i = Some op' -> is_mark (Op.opc op') = false ->
  (forall ts T σ w r, sound ts info T σ -> audit_op info T op = true ->
     exec ts (Context.nb_globals ctx) op σ w = Some r ->
     exec ts (Context.nb_globals ctx) op' σ w = Some r) ->
  iterates i ctx info op (Some (ctx', info)).
Proof.
  intros Ho Hok' Hext Hop' Hnl Hsim. exists ctx', info, op'. split_and!; try done.
  { by apply rewritten. }
  intros ts T σ w σ' w' nx Hp Hst [Hs|Hl] Ha He; [|by destruct not_label].
  split; [by eapply Hsim|]. intros ->. rewrite exec_brcond in He by done.
  destruct (cond_of_carg _); simpl in He; [|done]. injection He as <- _ _.
  unfold next_trust. by rewrite Ho.
Qed.

Lemma iterate_brcond :
  Op.opc op = BrCond ->
  iterates i ctx info op
    (dispatch ctx1 info (N.of_nat i) (Op.opc op) (Op.op_type op) (def (Op.opc op))
       (Op.args op1)).
Proof.
  intros Ho. rewrite Ho. unfold dispatch, fold_brcond.
  pose proof (lookup_lt_Some _ _ _ op1_at) as Hlt.
  destruct (is_const (ti info (arg (Op.args op1) 0)) &&
            is_const (ti info (arg (Op.args op1) 1))) eqn:Ec.
  - apply andb_true_iff in Ec as [E0 E1]. rewrite E0, E1. cbn [negb orb].
    unfold Context.op, Prelude.idx. rewrite Nat2N.id, op1_at.
    destruct (eval_cond _ _ _ _) eqn:Heqb; rewrite put_op_lt by done;
      (eapply iterate_branch; [done|by apply ok_set_ops, ok1|
         eapply ext_trans; apply ext_set_ops|by apply list_lookup_insert_eq|done|]);
      intros ts T σ w [[σ' w'] nx] Hs Ha He;
      destruct (brcond_outcome _ _ _ _ _ _ _ _ Ho Hs Ha E0 E1 He) as (-> & -> & ->);
      rewrite Heqb; [|done].
    unfold exec_op. simpl. pose proof len_args as Hl.
    rewrite nth_lookup, list_lookup_insert_eq; [done|]. rewrite length_propagate. lia.
  - rewrite <- negb_andb, Ec. eapply iterate_branch; [done|apply ok1|apply ext_set_ops|
      apply op1_at|simpl; by rewrite Ho|].
    intros ts T σ w r Hs Ha He. destruct (audit_inv T Ha) as (Hcp & _).
    by rewrite (exec_brcond_propagate ts T).
Qed.

End Propagated.

Lemma iterate_op i ctx info op :
  ok ctx info -> Context.ops ctx !! i = Some op -> wt_op (Context.temps ctx) op = true ->
  iterates i ctx info op (optimize_op (ctx, info) (N.of_nat i)).
Proof.
  intros Hok Hop Hwt. unfold optimize_op, Context.op, Prelude.idx. rewrite Nat2N.id, Hop.
  destruct (outputs_invalidated ctx info op Hok Hwt) as (info' & Einv & Hok' & Hk).
  destruct (is_boundary (Op.opc op)) eqn:Eb; [rewrite Einv; by apply iterate_boundary|].
  destruct (is_skipped (Op.opc op) _) eqn:Es; [rewrite Einv; by apply iterate_skipped|].
  rewrite put_op_lt by by eapply lookup_lt_Some.
  destruct (folds (Op.opc op)) eqn:Ef; [|by apply iterate_generic].
  unfold folds in Ef. apply orb_true_iff in Ef as [Hp|Hb]; [by apply iterate_pure|].
  apply iterate_brcond; try done. by destruct (Op.opc op).
Qed.

(** ** A block does not see the constants the pass appends *)

Lemma read_prefix ts ts' σ t :
  ts `prefix_of` ts' -> (N.to_nat t < length ts)%nat -> read ts σ t = read ts' σ t.
Proof.
  intros Hp [x Hx]%lookup_lt_is_Some_2. unfold read.
  by rewrite Hx, (prefix_lookup_Some _ _ _ _ Hx Hp).
Qed.

Lemma write_prefix ts ts' σ t v :
  ts `prefix_of` ts' -> (N.to_nat t < length ts)%nat -> write ts σ t v = write ts' σ t v.
Proof.
  intros Hp [x Hx]%lookup_lt_is_Some_2. unfold write.
  by rewrite Hx, (prefix_lookup_Some _ _ _ _ Hx Hp).
Qed.

Lemma write_all_prefix ts ts' outs σ vs :
  ts `prefix_of` ts' -> (forall t, t ∈ outs -> (N.to_nat t < length ts)%nat) ->
  write_all ts σ outs vs = write_all ts' σ outs vs.
Proof.
  intros Hp. revert σ vs. induction outs as [|t outs IH]; intros σ [|v vs] Hr; simpl; try done.
  rewrite (write_prefix ts ts') by (try done; apply Hr; set_solver).
  apply IH. set_solver.
Qed.

Lemma reads_prefix ts ts' σ (l : list N) :
  ts `prefix_of` ts' -> (forall t, t ∈ l -> (N.to_nat t < length ts)%nat) ->
  read ts σ <$> l = read ts' σ <$> l.
Proof.
  intros Hp Hr. apply list_fmap_ext. intros k t Ht. apply read_prefix; [done|].
  apply Hr. by eapply list_elem_of_lookup_2.
Qed.

Section Prefix.
Variables (ts ts' : list Temp.Temp) (op : Op.Op) (nb : nat).
Hypothesis Hp : ts `prefix_of` ts'.
Hypothesis Hwt : wt_op ts op = true.
Hypothesis Hnb : (nb <= length ts)%nat.

Lemma oargs_range t : t ∈ Op.oargs op -> (N.to_nat t < length ts)%nat.
Proof. intros Ht. apply (wt_op_range _ op); [done|]. apply in_or_app. left. by apply in_elem. Qed.

Lemma iargs_range t : t ∈ Op.iargs op -> (N.to_nat t < length ts)%nat.
Proof. intros Ht. apply (wt_op_range _ op); [done|]. apply in_or_app. right. by apply in_elem. Qed.

Lemma input_prefix σ k :
  (nb_oargs (def (Op.opc op)) <= k
     < nb_oargs (def (Op.opc op)) + nb_iargs (def (Op.opc op)))%nat -> (k < 10)%nat ->
  read ts σ (arg (Op.args op) k) = read ts' σ (arg (Op.args op) k).
Proof.
  intros Hk Hk10. apply read_prefix; [done|]. apply iargs_range, list_elem_of_In.
  apply arg_in_iargs; [|done]. rewrite (wt_op_len _ _ Hwt). exact Hk10.
Qed.

Lemma exec_pure_prefix σ :
  is_pure (Op.opc op) = true -> exec_pure ts op σ = exec_pure ts' op σ.
Proof.
  intros Hpu. destruct (pure_def _ Hpu) as (Ho & _ & _ & Hi).
  pose proof (input_prefix σ 1 ltac:(lia) ltac:(lia)) as H1.
  assert (H2 : nb_iargs (def (Op.opc op)) = 2%nat ->
    read ts σ (arg (Op.args op) 2) = read ts' σ (arg (Op.args op) 2)).
  { intros. apply input_prefix; lia. }
  unfold exec_pure, operand.
  change (nth 1 ?l 0%N) with (arg l 1). change (nth 2 ?l 0%N) with (arg l 2).
  destruct (Op.opc op) eqn:E; try done; cbv beta iota zeta;
    rewrite ?H1; try (rewrite H2 by by vm_compute); done.
Qed.

Lemma exec_prefix σ w : exec ts nb op σ w = exec ts' nb op σ w.
Proof.
  destruct (is_pure (Op.opc op)) eqn:Epu.
  { unfold exec_op. rewrite Epu, exec_pure_prefix by done.
    destruct (exec_pure ts' op σ); [|done]. simpl. rewrite (write_prefix ts ts'); try done.
    apply oargs_range. unfold Op.oargs. rewrite (proj1 (pure_def _ Epu)).
    pose proof (wt_op_len _ _ Hwt) as Hl. destruct (Op.args op); [done|]. set_solver. }
  destruct (is_generic (Op.opc op)) eqn:Eg.
  { rewrite !exec_generic by done. rewrite (reads_prefix ts ts') by (auto using iargs_range).
    destruct (sem_ext _ _ _ _ _) as [[[vs|] ?]|]; simpl; try done.
    by rewrite (write_all_prefix ts ts') by auto using oargs_range. }
  destruct (decide (Op.opc op = BrCond)) as [Hb|Hb].
  { rewrite !exec_brcond by done. unfold operand.
    rewrite !input_prefix by (rewrite ?Hb; vm_compute; lia). done. }
  destruct (decide (Op.opc op = Call)) as [Hc|Hc].
  - assert (Hg : forall t, t ∈ N.of_nat <$> seq 0 nb -> (N.to_nat t < length ts)%nat)
      by (intros t (k & -> & Hk%elem_of_seq)%list_elem_of_fmap; lia).
    assert (Hrg : (fun k => read ts σ (N.of_nat k)) <$> seq 0 nb
                  = (fun k => read ts' σ (N.of_nat k)) <$> seq 0 nb).
    { apply list_fmap_ext. intros k x Hx%lookup_seq. apply read_prefix; [done|lia]. }
    unfold exec_op. rewrite Epu, Hc, Hrg, (reads_prefix ts ts') by auto using iargs_range.
    destruct (sem_call _ _ _ _) as [[[outs gs] w1]|]; simpl; [|done].
    rewrite (write_all_prefix ts ts') by done.
    destruct (write_all ts' σ _ gs); simpl; [|done].
    by rewrite (write_all_prefix ts ts') by auto using oargs_range.
  - unfold exec_op. by destruct (Op.opc op).
Qed.

End Prefix.

Lemma temp_bits_prefix ts ts' t :
  ts `prefix_of` ts' -> (N.to_nat t < length ts)%nat -> temp_bits ts' t = temp_bits ts t.
Proof.
  intros Hp [x Hx]%lookup_lt_is_Some_2. unfold temp_bits.
  by rewrite Hx, (prefix_lookup_Some _ _ _ _ Hx Hp).
Qed.

Lemma const_temp_prefix ts ts' t :
  ts `prefix_of` ts' -> (N.to_nat t < length ts)%nat -> const_temp ts' t = const_temp ts t.
Proof.
  intros Hp [x Hx]%lookup_lt_is_Some_2. unfold const_temp.
  by rewrite Hx, (prefix_lookup_Some _ _ _ _ Hx Hp).
Qed.

Lemma wt_op_prefix ts ts' op :
  ts `prefix_of` ts' -> wt_op ts op = true -> wt_op ts' op = true.
Proof using.
  clear calls_keep sem_ext sem_call chained. intros Hp Hwt. pose proof (wt_op_len _ _ Hwt) as Hl.
  pose proof (oargs_range ts op Hwt) as Ho. pose proof (iargs_range ts op Hwt) as Hi.
  unfold wt_op in *. apply andb_true_iff in Hwt as [H1 H3].
  apply andb_true_iff in H1 as [H1 H2]. rewrite H1. simpl. apply andb_true_iff. split.
  - rewrite forallb_forall in *. intros t Ht%H2. apply Nat.ltb_lt in Ht.
    apply Nat.ltb_lt. pose proof (prefix_length _ _ Hp). lia.
  - destruct (is_pure (Op.opc op)) eqn:Epu; [|done].
    destruct (pure_def _ Epu) as (Hno & _ & _ & Hni).
    assert (Hd : (N.to_nat (arg (Op.args op) 0) < length ts)%nat).
    { apply Ho. unfold Op.oargs. rewrite Hno. destruct (Op.args op); [done|set_solver]. }
    assert (Ha : (N.to_nat (arg (Op.args op) 1) < length ts)%nat).
    { unfold Op.MAX_OP_ARGS in Hl. apply Hi, list_elem_of_In, arg_in_iargs; lia. }
    rewrite <- H3. unfold wt_pure.
    rewrite (const_temp_prefix ts ts'), !(temp_bits_prefix ts ts') by done. done.
Qed.

Lemma exec_store_ok ts nb op σ w σ' w' nx :
  store_ok ts σ -> exec ts nb op σ w = Some (σ', w', nx) -> store_ok ts σ'.
Proof.
  intros Hst. destruct (is_pure (Op.opc op)) eqn:Epu.
  { unfold exec_op. rewrite Epu. destruct (exec_pure ts op σ); simpl; [|done].
    intros [= <- _ _]. by apply store_ok_write. }
  destruct (is_generic (Op.opc op)) eqn:Eg.
  { rewrite exec_generic by done. destruct (sem_ext _ _ _ _ _) as [[[vs|] ?]|]; simpl; try done.
    - destruct (write_all _ _ _ _) eqn:E; simpl; [|done]. intros [= <- _ _].
      by eapply store_ok_write_all.
    - intros [= <- _ _]. done. }
  destruct (decide (Op.opc op = BrCond)) as [Hb|Hb].
  { rewrite exec_brcond by done. destruct (cond_of_carg _); simpl; [|done].
    by intros [= <- _ _]. }
  unfold exec_op. rewrite Epu. destruct (decide (Op.opc op = Call)) as [Hc|Hc].
  - rewrite Hc. destruct (sem_call _ _ _ _) as [[[outs gs] w1]|]; simpl; [|done].
    destruct (write_all ts σ _ gs) eqn:E1; simpl; [|done].
    destruct (write_all ts _ _ outs) eqn:E2; simpl; [|done]. intros [= <- _ _].
    eapply store_ok_write_all; [|exact E2]. by eapply store_ok_write_all.
  - destruct (Op.opc op); try done; by intros [= <- _ _].
Qed.

(** ** The whole pass *)

(** [P j] holds of the store when control falls into op [j]. *)
Definition block_sim (oi : nat) (ops0 : list Op.Op) (ctx' : Context.Context)
    (P : nat -> (N -> Z) -> Prop) : Prop :=
  forall j op σ w σ' w' nx, (oi <= j)%nat -> ops0 !! j = Some op ->
    store_ok (Context.temps ctx') σ -> P j σ \/ Op.opc op = SetLabel ->
    exec (Context.temps ctx') (Context.nb_globals ctx') op σ w = Some (σ', w', nx) ->
    exists op', Context.ops ctx' !! j = Some op' /\
      exec (Context.temps ctx') (Context.nb_globals ctx') op' σ w = Some (σ', w', nx) /\
      (nx = Fall -> P (S j) σ').

Lemma loop_sim n : forall oi ctx info ops0,
  ok ctx info -> (oi + n = length ops0)%nat -> length (Context.ops ctx) = length ops0 ->
  (forall op, In op ops0 -> wt_op (Context.temps ctx) op = true) ->
  (forall j, (oi <= j)%nat -> Context.ops ctx !! j = ops0 !! j) ->
  exists ctx' info', optimize_loop (ctx, info) oi n = Some (ctx', info') /\
    ok ctx' info' /\ grows ctx ctx' /\ length (Context.ops ctx') = length ops0 /\
    (forall j, (j < oi)%nat -> Context.ops ctx' !! j = Context.ops ctx !! j) /\
    (forall j op op', (oi <= j)%nat -> ops0 !! j = Some op ->
       Context.ops ctx' !! j = Some op' -> same_flow op op') /\
    (forall T, audit_loop pure (ctx, info) T oi n = true ->
       exists P, (forall σ, sound (Context.temps ctx') info T σ -> P oi σ) /\
         block_sim oi ops0 ctx' P).
Proof.
  induction n as [|n IH]; intros oi ctx info ops0 Hok Hlen Hlo Hwt Hsame.
  { exists ctx, info. split_and!; try done; [by apply grows_refl| |].
    - intros j op op' Hj Hop%lookup_lt_Some. lia.
    - intros T _. exists (fun _ => sound (Context.temps ctx) info T). split; [done|].
      intros j op σ w σ' w' nx Hj Hop%lookup_lt_Some. lia. }
  destruct (lookup_lt_is_Some_2 ops0 oi) as [op Hop]; [lia|].
  assert (Hop1 : Context.ops ctx !! oi = Some op) by (rewrite Hsame; [done|lia]).
  destruct (iterate_op oi ctx info op Hok Hop1) as
    (ctx1 & info1 & op1 & E & Hok1 & Hext1 & Hat & Hlab & Hsim).
  { apply Hwt. apply list_elem_of_In. by eapply list_elem_of_lookup_2. }
  destruct Hext1 as [Hgr Hl1 Hothers].
  cbn [optimize_loop]. rewrite E. destruct (IH (S oi) ctx1 info1 ops0) as
    (ctx' & info' & El & Hok' & Hgr' & Hl' & Hbelow & Hlabs & Haud).
  { done. } { lia. } { lia. }
  { intros o Ho. eapply wt_op_prefix; [apply Hgr|by apply Hwt]. }
  { intros j Hj. rewrite Hothers by lia. apply Hsame. lia. }
  exists ctx', info'. split_and!; try done; [by eapply grows_trans| | |].
  - intros j Hj. rewrite Hbelow by lia. apply Hothers. lia.
  - intros j o o' Hj Ho Ho'. destruct (decide (j = oi)) as [->|]; [|apply (Hlabs j); [lia|done..]].
    rewrite Hbelow, Hat in Ho' by lia. rewrite Hop in Ho. by simplify_eq.
  - intros T. cbn [audit_loop fst snd]. rewrite Hop1, E. intros [Ha Hrest]%andb_true_iff. simpl in Ha, Hrest.
    destruct (Haud _ Hrest) as (P & HP & Hbs).
    exists (fun j => if decide (j = oi) then sound (Context.temps ctx') info T else P j).
    split; [by rewrite decide_True|].
    intros j o σ w σ' w' nx Hj Ho Hst HPj He. destruct (decide (j = oi)) as [->|Hne].
    + rewrite Hop in Ho. injection Ho as <-. rewrite decide_False by lia.
      exists op1. rewrite Hbelow by lia. split; [done|].
      rewrite (gr_nb _ _ Hgr'), (gr_nb _ _ Hgr) in *.
      destruct (Hsim _ _ _ _ _ _ _ (gr_temps _ _ Hgr') Hst HPj Ha He). auto.
    + rewrite decide_False by lia. apply (Hbs j o σ w); [lia|done..].
Qed.

Lemma find_label_Some l ops : forall i j,
  find_label l ops i = Some j ->
  exists op, ops !! (j - i)%nat = Some op /\ Op.opc op = SetLabel /\ (i <= j)%nat.
Proof.
  induction ops as [|o ops IH]; intros i j; simpl; [done|]. case_decide as E.
  - intros [= <-]. exists o. rewrite Nat.sub_diag. naive_solver.
  - intros H%IH. destruct H as (op & Hop & Hl & Hle). exists op.
    replace (j - i)%nat with (S (j - S i)) by lia. split_and!; [done|done|lia].
Qed.

Lemma find_label_same l ops ops' :
  Forall2 same_flow ops ops' -> forall i, find_label l ops' i = find_label l ops i.
Proof.
  induction 1 as [|o o' ops ops' Ho _ IH]; intros i; simpl; [done|].
  destruct (decide (Op.opc o = SetLabel)) as [Hl|Hl].
  - rewrite (proj2 Ho) by by rewrite Hl. case_decide; [done|apply IH].
  - rewrite !decide_False; [apply IH| |]; intros [H _]; [done|].
    destruct Hl. by rewrite <- (proj1 Ho) by by rewrite H.
Qed.

Lemma run_sim ctx ctx' P :
  (Context.nb_globals ctx <= length (Context.temps ctx))%nat ->
  grows ctx ctx' ->
  (forall op, In op (Context.ops ctx) -> wt_op (Context.temps ctx) op = true) ->
  Forall2 same_flow (Context.ops ctx) (Context.ops ctx') ->
  block_sim 0 (Context.ops ctx) ctx' P ->
  forall n pc σ w r, store_ok (Context.temps ctx') σ ->
    P pc σ \/ (exists op, Context.ops ctx !! pc = Some op /\ Op.opc op = SetLabel) ->
    run sem_ext sem_call chained ctx n (Running pc σ w) = Some r ->
    run sem_ext sem_call chained ctx' n (Running pc σ w) = Some r.
Proof.
  intros Hnb [Hpre _ Hnbe] Hwt Hlab Hbs n.
  induction n as [|n IH]; intros pc σ w r Hst HP; [done|].
  cbn [run]. unfold step_config at 1. destruct (Context.ops ctx !! pc) as [op|] eqn:Eop;
    cbn [mbind option_bind]; [|done].
  assert (Hin : In op (Context.ops ctx))
    by (apply list_elem_of_In; by eapply list_elem_of_lookup_2).
  rewrite (exec_prefix _ _ op _ Hpre (Hwt op Hin) Hnb), <- Hnbe.
  destruct (exec _ _ op σ w) as [[[σ' w'] nx]|] eqn:E; cbn [mbind option_bind]; [|done].
  pose proof (exec_store_ok _ _ _ _ _ _ _ _ Hst E) as Hst'.
  assert (HP' : P pc σ \/ Op.opc op = SetLabel)
    by (destruct HP as [|(o & Ho & ?)]; [by left|right; congruence]).
  destruct (Hbs pc op σ w σ' w' nx ltac:(lia) Eop Hst HP' E) as (op' & Eop' & He' & Hfall).
  unfold step_config. rewrite Eop'. cbn [mbind option_bind]. rewrite He'. cbn [mbind option_bind]. destruct nx as [|l|].
  - apply IH; auto.
  - rewrite (find_label_same l _ _ Hlab).
    destruct (find_label l (Context.ops ctx) 0) as [j|] eqn:Ej; [|done].
    cbn [mbind option_bind]. apply IH; [done|]. right.
    apply find_label_Some in Ej as (o & Ho & ? & _). rewrite Nat.sub_0_r in Ho. eauto.
  - destruct n; [done|]. clear. revert r. induction n as [|n IH]; intros r; [done|]. apply IH.
Qed.

End Simulation.

Lemma seed_ok ctx :
  Context.wf ctx -> forallb const_fits (Context.temps ctx) = true -> ok ctx (seed_info ctx).
Proof.
  intros Hwf Hf. split; [done|apply length_fmap| |done].
  intros t x Hx Hc. unfold ti, seed_info. by rewrite list_lookup_fmap, Hx; simpl; rewrite Hc.
Qed.

Lemma seed_sound ctx ts σ :
  Context.temps ctx `prefix_of` ts -> sound ts (seed_info ctx) (fun _ => true) σ.
Proof.
  intros Hp t _. unfold ti, seed_info. rewrite list_lookup_fmap.
  destruct (Context.temps ctx !! N.to_nat t) as [x|] eqn:E; simpl; [|by split].
  destruct (Temp.is_const x) eqn:Ec; [|by split]. split; [intros _; simpl|done].
  eapply read_const; [by eapply prefix_lookup_Some|done].
Qed.

Lemma store_ok_prefix ts ts' σ :
  ts `prefix_of` ts' -> store_ok ts σ -> forallb const_fits ts' = true ->
  (forall i x, (length ts <= i)%nat -> ts' !! i = Some x -> Temp.is_const x = true) ->
  store_ok ts' σ.
Proof.
  intros Hp Hst Hf Hnew i x Hx. destruct (decide (i < length ts)%nat) as [Hi|Hi].
  - destruct (lookup_lt_is_Some_2 _ _ Hi) as [y Hy].
    rewrite <- (read_prefix ts ts') by (try done; lia).
    rewrite (prefix_lookup_Some _ _ _ _ Hy Hp) in Hx. injection Hx as <-. by apply Hst.
  - pose proof (Hnew i x ltac:(lia) Hx) as Hc.
    rewrite (read_const ts' σ (N.of_nat i) x) by (rewrite ?Nat2N.id; done).
    rewrite forallb_forall in Hf. specialize (Hf x). unfold const_fits in Hf.
    rewrite Hc in Hf. simpl in Hf. apply andb_true_iff in Hf as [?%Z.leb_le ?%Z.ltb_lt].
    + by split.
    + apply list_elem_of_In. by eapply list_elem_of_lookup_2.
Qed.

Lemma well_typed_inv ctx :
  well_typed ctx = true ->
  (forall op, In op (Context.ops ctx) -> wt_op (Context.temps ctx) op = true) /\
  forallb const_fits (Context.temps ctx) = true.
Proof. unfold well_typed. rewrite andb_true_iff, forallb_forall. done. Qed.

(** The whole pass: [loop_sim] from the initial state. *)
Lemma optimize_sim {W : Type} sem_ext sem_call chained pure ctx :
  (pure = true -> forall cs ins gs w outs gs' w',
     sem_call cs ins gs w = Some (outs, gs', w') -> gs' = gs) ->
  Context.wf ctx -> well_typed ctx = true ->
  exists ctx' info', optimize ctx = Some ctx' /\ ok ctx' info' /\ grows ctx ctx' /\
    Forall2 same_flow (Context.ops ctx) (Context.ops ctx') /\
    (audit pure ctx = true -> exists P : nat -> (N -> Z) -> Prop,
       (forall σ, P 0%nat σ) /\
       @block_sim W sem_ext sem_call chained 0 (Context.ops ctx) ctx' P).
Proof.
  intros Hpure Hwf [Hwt Hf]%well_typed_inv.
  destruct (loop_sim sem_ext sem_call chained pure Hpure (Context.num_ops ctx) 0 ctx (seed_info ctx)
    (Context.ops ctx)) as (ctx' & info' & E & Hok' & Hgr & Hl & _ & Hlab & Ha);
    [by apply seed_ok|done|done|done|done|].
  exists ctx', info'. unfold optimize. rewrite E. split_and!; try done.
  - apply Forall2_same_length_lookup. split; [done|]. intros j op op'. apply Hlab. lia.
  - intros Haud. destruct (Ha _ Haud) as (P & HP & Hbs). exists P. split; [|done].
    intros σ. apply HP, seed_sound, Hgr.
Qed.

(** The pass succeeds whatever the ops mean. *)
Lemma optimize_ok ctx :
  Context.wf ctx -> well_typed ctx = true ->
  exists ctx' info', optimize ctx = Some ctx' /\ ok ctx' info' /\ grows ctx ctx' /\
    Forall2 same_flow (Context.ops ctx) (Context.ops ctx').
Proof.
  intros Hwf Hwt.
  destruct (optimize_sim (W:=unit) (fun _ _ _ _ _ => None) (fun _ _ _ _ => None)
    (fun _ _ => false) false ctx) as (ctx' & info' & E & Hok' & Hgr & Hlab & _); try done.
  by exists ctx', info'.
Qed.

(** ... and keeps every run of a block whose audit passes. *)
Lemma optimize_run {W : Type} sem_ext sem_call chained pure ctx ctx' n σ (w : W) r :
  (pure = true -> forall cs ins gs w outs gs' w',
     sem_call cs ins gs w = Some (outs, gs', w') -> gs' = gs) ->
  Context.wf ctx -> well_typed ctx = true -> audit pure ctx = true -> optimize ctx = Some ctx' ->
  store_ok (Context.temps ctx) σ ->
  run sem_ext sem_call chained ctx n (Running 0 σ w) = Some r ->
  run sem_ext sem_call chained ctx' n (Running 0 σ w) = Some r.
Proof.
  intros Hpure Hwf Hwt Ha E Hst.
  destruct (optimize_sim sem_ext sem_call chained pure ctx Hpure Hwf Hwt)
    as (ctx2 & info' & E2 & Hok' & Hgr & Hlab & Hsim).
  rewrite E in E2. injection E2 as <-. destruct (Hsim Ha) as (P & HP & Hbs).
  apply (run_sim sem_ext sem_call chained pure Hpure ctx ctx' P); auto.
  - apply Hwf.
  - by apply well_typed_inv.
  - eapply store_ok_prefix; [apply Hgr|done|apply Hok'|apply Hgr].
Qed.

(** C2: Correctness of the optimizer.  On every well-formed, well-typed block whose
    audit passes, the pass produces a block that makes exactly the same steps:
    from any typed store and any world, with any meaning of helper calls,
    memory accesses and chained exits, the same number of steps of the optimized
    block reaches the same op, store, world and exit as the original one. *)
Theorem optimize_correct (ctx : Context.Context) :
  Context.wf ctx -> well_typed ctx = true -> audit false ctx = true ->
  exists ctx', optimize ctx = Some ctx' /\
    forall (W : Type) sem_ext sem_call chained n σ (w : W) r,
      store_ok (Context.temps ctx) σ ->
      run sem_ext sem_call chained ctx n (Running 0 σ w) = Some r ->
      run sem_ext sem_call chained ctx' n (Running 0 σ w) = Some r.
Proof.
  intros Hwf Hwt Ha. destruct (optimize_ok ctx Hwf Hwt) as (ctx' & _ & E & _).
  exists ctx'. split; [done|]. intros W sem_ext sem_call chained n σ w r.
  by apply (optimize_run sem_ext sem_call chained false).
Qed.

(** C5: The pass never panics on a well-formed, well-typed block (every index it
    uses is in range), and its result is well formed, has as many ops, keeps
    every label, instruction boundary, memory access, helper call and exit where it
    was and every temp the block had, and appends nothing but constants. *)
Theorem optimize_total (ctx : Context.Context) :
  Context.wf ctx -> well_typed ctx = true ->
  exists ctx', optimize ctx = Some ctx' /\ Context.wf ctx' /\ grows ctx ctx' /\
    Forall2 same_flow (Context.ops ctx) (Context.ops ctx').
Proof.
  intros Hwf Hwt. destruct (optimize_ok ctx Hwf Hwt) as (ctx' & info' & E & Hok' & Hgr & Hlab).
  exists ctx'. split_and!; try done. apply Hok'.
Qed.

(** Constant folding computes the value the op computes at run time, for each of
    the twelve binary ops, both integer types and all operands in range. *)
Theorem eval_binary_correct (opc : Opcode) (a b : Z) (ty : Ty.Ty) :
  int_ty ty = true -> in_range (ty_bits ty) a -> in_range (ty_bits ty) b ->
  eval_binary opc a b ty = sem_binary opc (ty_bits ty) a b.
Proof. apply eval_binary_sem. Qed.

Lemma eval_binary_correct_witness :
  eval_binary RotR 0x80000001 33 Ty.I32 = sem_binary RotR 32 0x80000001 33.
Proof. apply (eval_binary_correct RotR 0x80000001 33 Ty.I32); [done|by vm_compute|by vm_compute]. Defined.

(** ** A sample block

    [x1 = 5 + 0; if x1 == 5 goto L; goto next; L: x2 = x2 & x2; exit]. *)
Module Sample.
Definition ctx0 : Context.Context :=
  (default (0%N, Context.new) (Context.new_fixed Context.new Ty.I64 5 "env"%string)).2.
Definition ctx1 : Context.Context :=
  (default (0%N, Context.new) (Context.new_global ctx0 Ty.I64 0 8 "x1"%string)).2.
Definition ctx2 : Context.Context :=
  (default (0%N, Context.new) (Context.new_global ctx1 Ty.I64 0 16 "x2"%string)).2.
Definition ctx3 : Context.Context := (Context.new_const ctx2 Ty.I64 5).2.
Definition ctx4 : Context.Context := (Context.new_const ctx3 Ty.I64 0).2.
Definition emit (o : Opcode) (l : list N) (c : Context.Context) : Context.Context :=
  (Context.emit_op c (Op.with_args (Context.next_op_idx c) o Ty.I64 l)).2.
Definition block : Context.Context :=
  emit ExitTb [0]%N (emit And [2; 2; 2]%N (emit SetLabel [0]%N (emit ExitTb [1]%N
    (emit BrCond [1; 3; 8; 0]%N (emit Add [1; 3; 4]%N ctx4))))).

Lemma block_wf : Context.wf block.
Proof.
  apply Context.reachable_inv. unfold block, emit.
  repeat (eapply rtc_r; [|apply Context.step_emit_op]).
  repeat (eapply rtc_r; [|apply Context.step_new_const]).
  eapply rtc_r; [|by eapply (Context.step_new_global ctx1 _ Ty.I64 0 16 "x2"%string)].
  eapply rtc_r; [|by eapply (Context.step_new_global ctx0 _ Ty.I64 0 8 "x1"%string)].
  eapply rtc_r; [|by eapply (Context.step_new_fixed Context.new _ Ty.I64 5 "env"%string)].
  apply rtc_refl.
Qed.
End Sample.

Lemma optimize_correct_witness :
  exists ctx', optimize Sample.block = Some ctx' /\
    match run (W:=unit) (fun _ _ _ _ _ => None) (fun _ _ _ _ => None) (fun _ _ => false)
            Sample.block 5 (Running 0 (fun _ => 0) tt) with
    | Some r =>
        run (fun _ _ _ _ _ => None) (fun _ _ _ _ => None) (fun _ _ => false)
          ctx' 5 (Running 0 (fun _ => 0) tt) = Some r
    | None => False
    end.
Proof.
  destruct (optimize_correct Sample.block Sample.block_wf) as (ctx' & E & H);
    [by vm_compute|by vm_compute|].
  exists ctx'. split; [exact E|]. destruct (run _ _ _ _ _ _) as [r|] eqn:Er.
  - apply H; [|exact Er]. intros i x Hx.
    do 5 (destruct i as [|i]; [injection Hx as <-; split; vm_compute; congruence|]). done.
  - vm_compute in Er. discriminate.
Defined.

Lemma optimize_total_witness :
  exists ctx', optimize Sample.block = Some ctx' /\ Context.wf ctx' /\
    grows Sample.block ctx' /\
    Forall2 same_flow (Context.ops Sample.block) (Context.ops ctx').
Proof. apply (optimize_total Sample.block Sample.block_wf). by vm_compute. Defined.

(** ** Blocks the audit rejects

    Three blocks that are well typed and on which the optimized block computes
    something else; the audit refuses each of them. *)
Module Stale.

(** Value of temp [t] when the block has left, or after the steps. *)
Definition final (ctx : Context.Context) (n : nat) (σ : N -> Z) (t : N) : option Z :=
  match run (W:=unit) (fun _ _ _ _ _ => None) (fun _ _ _ _ => None) (fun _ _ => false)
          ctx n (Running 0 σ tt) with
  | Some (Running _ σ' _) | Some (Left _ σ' _) => Some (read (Context.temps ctx) σ' t)
  | None => None
  end.

Definition opt (ctx : Context.Context) : Context.Context := default ctx (optimize ctx).

(** [t5 = x1; x1 = x2; x2 = t5 + t5]: the copy [t5 = x1] outlives [x1]. *)
Definition copy_block : Context.Context :=
  Sample.emit Add [2; 5; 5]%N (Sample.emit Mov [1; 2]%N (Sample.emit Mov [5; 1]%N
    (Context.new_temp Sample.ctx4 Ty.I64).2)).

(** [if x2 == 0 goto L; x1 = 5; L: x2 = x1 + 0]: the constant of one path is used
    after the join. *)
Definition label_block : Context.Context :=
  Sample.emit ExitTb [0]%N (Sample.emit Add [2; 1; 4]%N (Sample.emit SetLabel [0]%N
    (Sample.emit Mov [1; 3]%N (Sample.emit BrCond [2; 4; 8; 0]%N Sample.ctx4)))).

Definition start (a b : Z) : N -> Z :=
  fun t => if decide (t = 1)%N then a else if decide (t = 2)%N then b else 0.


End Stale.
