(* ===== verification/OptimizeTidy.v ===== *)
(** * Blocks on which the optimizer is right

    [OptimizeProof] proves the pass correct on blocks its [audit] accepts.  Here a
    condition on the block itself is shown to be enough: a variable that was the source
    of a move is not assigned again, after a label only constants are read, and
    comparisons are 64 bits wide or unsigned. *)

From Stdlib Require Import ZArith Lia Bool.
From stdpp Require Import base tactics numbers list.
From S2P Require Import Prelude IrTypes IrOpcode IrContext Optimize IrSem OptimizeProof.
Import Opcode.

(** ** The copies the pass records *)

(** Every copy of [info'] is one of [info]. *)
Definition fewer (info info' : list TempInfo) : Prop :=
  forall t s, copy_of (ti info' t) = Some s -> copy_of (ti info t) = Some s.

Global Instance fewer_preorder : PreOrder fewer.
Proof. split; [by intros info t s|]. intros a b c H1 H2 t s H. by apply H1, H2. Qed.


Lemma fewer_drop dst info : fewer info (drop_copies_of dst info).
Proof. intros t s. rewrite ti_drop. unfold drop1. by case_decide. Qed.

Lemma fewer_reset info : fewer info (reset_copies info).
Proof. intros t s. by rewrite ti_reset. Qed.

Lemma fewer_alter (f : TempInfo -> TempInfo) i info :
  (forall x s, copy_of (f x) = Some s -> copy_of x = Some s) -> fewer info (alter f i info).
Proof.
  intros H t s. unfold ti. destruct (decide (i = N.to_nat t)) as [->|Hne].
  - rewrite list_lookup_alter_eq. destruct (info !! N.to_nat t); cbn; [apply H|done].
  - by rewrite list_lookup_alter_ne.
Qed.

Lemma fewer_ensure info i : fewer info (ensure_info info i).
Proof. intros t s. by rewrite ti_ensure. Qed.

Lemma fewer_set_const info d v : fewer info (set_const info d v).
Proof. intros t s. rewrite ti_set_const. by case_decide. Qed.

Lemma fewer_invalidate info d : fewer info (invalidate_one info d).
Proof. intros t s. rewrite ti_invalidate. case_decide; [done|]. unfold drop1. by case_decide. Qed.

Lemma fewer_outputs outs : forall ctx info info',
  invalidate_outputs_loop outs ctx info = Some info' -> fewer info info'.
Proof.
  induction outs as [|t outs IH]; intros ctx info info' E; cbn [invalidate_outputs_loop] in E.
  { by injection E as <-. }
  case_decide; [|by eapply IH]. destruct (Context.temp ctx t) as [x|]; [|done].
  destruct (negb (Temp.is_const x)); [|by eapply IH]. apply IH in E. etrans; [|exact E].
  etrans; [|apply fewer_drop]. by apply fewer_alter.
Qed.

Lemma fewer_const ctx info i dst v ty ctx' info' :
  replace_with_const ctx info i dst v ty = Some (ctx', info') -> fewer info info'.
Proof.
  unfold replace_with_const. destruct (Context.new_const _ _ _) as [c ctx1].
  destruct (Context.op _ _); [|done]. destruct (Context.put_op _ _ _); [|done]. intros [= _ <-].
  etrans; [|apply fewer_set_const]. etrans; [apply fewer_ensure|]. by apply fewer_alter.
Qed.

Lemma fewer_simplified ctx info i dst ty s ctx' info' :
  apply_simplification ctx info i dst ty s = Some (ctx', info') -> fewer info info'.
Proof.
  destruct s; cbn [apply_simplification]; [|by apply fewer_const|];
    unfold replace_with_mov; (destruct (Context.op _ _); [|done]);
    (destruct (Context.put_op _ _ _); [|done]); intros [= _ <-]; apply fewer_invalidate.
Qed.

Lemma fewer_binary ctx info i opc args ty ctx' info' :
  fold_binary ctx info i opc args ty = Some (ctx', info') -> fewer info info'.
Proof.
  unfold fold_binary, try_simplify. destruct (fold_both _ _ _ _); [apply fewer_const|].
  destruct (find_simplification _ _ _ _ _ _) as [sm|].
  { destruct (apply_simplification _ _ _ _ _ _) as [[c1 i1]|] eqn:E; [|done].
    intros [= <- <-]. by eapply fewer_simplified. }
  case_decide; [|intros [= _ <-]; apply fewer_invalidate].
  destruct opc; first [apply fewer_const | apply (fewer_simplified _ _ _ _ ty (ToMov _))
    | intros [= _ <-]; apply fewer_invalidate].
Qed.

Lemma fewer_unary ctx info i opc args ty ctx' info' :
  fold_unary ctx info i opc args ty = Some (ctx', info') -> fewer info info'.
Proof.
  unfold fold_unary. case_if; [intros [= _ <-]; apply fewer_invalidate|].
  destruct opc; try done; apply fewer_const.
Qed.

Lemma fewer_ext ctx info i opc args ctx' info' :
  fold_ext ctx info i opc args = Some (ctx', info') -> fewer info info'.
Proof.
  unfold fold_ext. case_if; [intros [= _ <-]; apply fewer_invalidate|].
  destruct opc; try done; apply fewer_const.
Qed.

(** An iteration only adds the copy of a move. *)
Lemma copies_step ctx info i op ctx' info' t s :
  Context.op ctx i = Some op -> length (Op.args op) = Op.MAX_OP_ARGS ->
  optimize_op (ctx, info) i = Some (ctx', info') ->
  copy_of (ti info' t) = Some s ->
  copy_of (ti info t) = Some s \/
  Op.opc op = Mov /\ t = arg (Op.args op) 0 /\ s = resolved info (arg (Op.args op) 1).
Proof.
  intros Hop Hl. unfold optimize_op. rewrite Hop.
  destruct (is_boundary _); [destruct (invalidate_outputs _ _ _ _) eqn:E; [|done]; intros [= _ <-]|].
  { intros H%fewer_reset. left. by eapply fewer_outputs. }
  destruct (is_skipped _ _); [destruct (invalidate_outputs _ _ _ _) eqn:E; [|done]; intros [= _ <-]|].
  { left. by eapply fewer_outputs. }
  destruct (Context.put_op _ _ _) as [ctx1|]; [|done].
  destruct (decide (Op.opc op = Mov)) as [Ho|Hne].
  - rewrite Ho. cbn [dispatch]. unfold fold_mov, Op.MAX_OP_ARGS in *.
    assert (E0 : arg (propagate info (def Mov) (Op.args op)) 0 = arg (Op.args op) 0).
    { rewrite arg_propagate by lia. by rewrite decide_False by (cbn; lia). }
    assert (E1 : arg (propagate info (def Mov) (Op.args op)) 1 = resolved info (arg (Op.args op) 1)).
    { rewrite arg_propagate by lia. by rewrite decide_True by (cbn; lia). }
    rewrite E0, E1. set (src := resolved info _). destruct (is_const (ti info src)) eqn:Ec; intros [= _ <-].
    + intros H. left. by eapply fewer_set_const.
    + rewrite ti_set_copy by done. case_decide; [intros [= <-]; by right|by left].
  - intros E H. left. revert H. revert t s. change (fewer info info').
    destruct (Op.opc op); try done; cbn [dispatch] in E;
      first [ by eapply fewer_binary | by eapply fewer_unary | by eapply fewer_ext | idtac ];
      try (destruct (invalidate_outputs _ _ _ _) eqn:Ei; [|done]; injection E as _ <-; by eapply fewer_outputs).
    destruct (fold_brcond _ _ _ _ _); [|done]. by injection E as _ <-.
Qed.

(** ** Tidy blocks *)

(** [S] holds the sources of the moves so far; [after] says that a label was passed. *)
Fixpoint tidy (ts : list Temp.Temp) (S : list N) (after : bool) (l : list Op.Op) : Prop :=
  match l with
  | [] => True
  | op :: l' =>
      branch_ok op = true /\
      (if after then untouched (Op.opc op) = true \/ Forall (fun t => const_temp ts t = true) (Op.iargs op)
       else is_pure (Op.opc op) = true -> arg (Op.args op) 0 ∉ S) /\
      tidy ts (if decide (Op.opc op = Mov) then arg (Op.args op) 1 :: S else S)
        (after || bool_decide (Op.opc op = SetLabel)) l'
  end.

(** What the replay knows before an op. *)
Record replay (ts : list Temp.Temp) (S : list N) (after : bool) (ctx : Context.Context)
    (info : list TempInfo) (T : trust) : Prop := mk_replay {
  rp_ok : ok ctx info;
  rp_temps : ts `prefix_of` Context.temps ctx;
  rp_copies : after = false -> forall t s, copy_of (ti info t) = Some s -> s ∈ S;
  rp_trust : forall t, after = false \/ const_temp ts t = true -> T t = true
}.

Lemma const_no_copy ts ctx info t :
  ok ctx info -> ts `prefix_of` Context.temps ctx -> const_temp ts t = true ->
  copy_of (ti info t) = None.
Proof.
  intros Hok Hp Hc. apply const_temp_true in Hc as (x & Hx & Hxc).
  by rewrite (ok_const _ _ Hok t x (prefix_lookup_Some _ _ _ _ Hx Hp) Hxc).
Qed.

Lemma replay_audit ts S after ctx info T op :
  replay ts S after ctx info T -> length (Op.args op) = Op.MAX_OP_ARGS -> branch_ok op = true ->
  (after = true -> untouched (Op.opc op) = true \/ Forall (fun t => const_temp ts t = true) (Op.iargs op)) ->
  audit_op info T op = true.
Proof.
  intros [Hok Hp Hc Ht] Hl Hb Hin. unfold audit_op. rewrite Hb, orb_true_l, andb_true_r.
  fold (untouched (Op.opc op)). destruct (untouched (Op.opc op)) eqn:Eu; [done|]. cbn [orb].
  assert (HT : forall t, t ∈ Op.iargs op -> T t = true /\ T (resolved info t) = true).
  { intros t Hin_t. destruct after; [|by split; apply Ht; left].
    destruct (Hin eq_refl) as [|Hall]; [done|]. rewrite Forall_forall in Hall.
    specialize (Hall t Hin_t). split; [by apply Ht; right|].
    unfold resolved, resolve_copy. rewrite (const_no_copy _ _ _ _ Hok Hp Hall).
    case_decide; by apply Ht; right. }
  rewrite iargs_propagate. apply andb_true_iff. split; [|apply orb_true_iff; right];
    apply forallb_forall; intros t Hin_t%list_elem_of_In.
  - unfold copy_used_ok. destruct (resolve_copy info t); [by apply HT|done].
  - apply list_elem_of_fmap in Hin_t as (u & -> & Hu). unfold const_used_ok.
    rewrite (proj2 (HT u Hu)). apply orb_true_r.
Qed.

Lemma replay_step ts S after ctx info T op i ctx' info' :
  replay ts S after ctx info T -> ok ctx' info' -> grows ctx ctx' ->
  Context.op ctx i = Some op -> length (Op.args op) = Op.MAX_OP_ARGS ->
  optimize_op (ctx, info) i = Some (ctx', info') ->
  (after = false -> is_pure (Op.opc op) = true -> arg (Op.args op) 0 ∉ S) ->
  replay ts (if decide (Op.opc op = Mov) then arg (Op.args op) 1 :: S else S)
    (after || bool_decide (Op.opc op = SetLabel)) ctx' info' (next_trust true ctx info' T op).
Proof.
  intros [Hok Hp Hc Ht] Hok' Hgr Hop Hl E Hd. split; [done|etrans; [done|apply Hgr]| |].
  - intros [Ha Hs]%orb_false_iff t s H.
    destruct (copies_step _ _ _ _ _ _ _ _ Hop Hl E H) as [H'|(Ho & _ & ->)].
    + specialize (Hc Ha _ _ H'). destruct (decide (Op.opc op = Mov)); [by right|done].
    + rewrite decide_True by done. unfold resolved, resolve_copy.
      destruct (decide (N.to_nat _ < _)%nat); [|by left].
      destruct (copy_of (ti info _)) as [s|] eqn:Es; [right; by eapply Hc|by left].
  - intros t Hor. unfold next_trust.
    destruct (decide (Op.opc op = SetLabel)) as [El|Hnl].
    { rewrite El. destruct Hor as [[_ H]%orb_false_iff|Hct]; [by rewrite El in H|].
      apply orb_true_iff. left. apply const_temp_true in Hct as (x & Hx & Hxc).
      unfold const_temp. by rewrite (prefix_lookup_Some _ _ _ _ Hx Hp). }
    rewrite bool_decide_eq_false_2, orb_false_r in Hor by done.
    assert (HTt : T t = true) by by apply Ht.
    destruct (decide (Op.opc op = Call)) as [Ecl|Hncl]; [by rewrite Ecl, HTt|].
    destruct (is_pure (Op.opc op)) eqn:Epu; [|by destruct (Op.opc op)].
    assert (Hcp : t = arg (Op.args op) 0 \/ copy_of (ti info' t) <> Some (arg (Op.args op) 0)).
    { destruct (decide (t = arg (Op.args op) 0)) as [|Hne]; [by left|right]. intros H.
      destruct Hor as [Ha|Hct].
      - destruct (copies_step _ _ _ _ _ _ _ _ Hop Hl E H) as [H'|(_ & ? & _)]; [|done].
        by destruct (Hd Ha eq_refl); eapply Hc.
      - rewrite (const_no_copy ts ctx' info') in H; [done|done|etrans; [done|apply Hgr]|done]. }
    destruct Hcp as [->|Hcp].
    + rewrite bool_decide_eq_true_2 by done. by destruct (Op.opc op).
    + rewrite HTt, (bool_decide_eq_false_2 (copy_of _ = _)) by done. rewrite orb_true_r.
      by destruct (Op.opc op).
Qed.

Lemma tidy_loop ts n : forall oi ctx info ops0 T S after,
  replay ts S after ctx info T -> (oi + n = length ops0)%nat -> length (Context.ops ctx) = length ops0 ->
  (forall op, In op ops0 -> wt_op (Context.temps ctx) op = true) ->
  (forall j, (oi <= j)%nat -> Context.ops ctx !! j = ops0 !! j) ->
  tidy ts S after (drop oi ops0) -> audit_loop true (ctx, info) T oi n = true.
Proof.
  induction n as [|n IH]; intros oi ctx info ops0 T S after Hr Hlen Hlo Hwt Hsame Ht; [done|].
  destruct (lookup_lt_is_Some_2 ops0 oi) as [op Hop]; [lia|].
  assert (Hop1 : Context.ops ctx !! oi = Some op) by (rewrite Hsame; [done|lia]).
  assert (Hw : wt_op (Context.temps ctx) op = true)
    by (apply Hwt, list_elem_of_In; by eapply list_elem_of_lookup_2).
  pose proof (wt_op_len _ _ Hw) as Hl. rewrite (drop_S _ _ _ Hop) in Ht. cbn [tidy] in Ht.
  destruct Ht as (Hb & Hin & Hrest).
  destruct (iterate_op (W:=unit) (fun _ _ _ _ _ => None) (fun _ _ _ _ => None) (fun _ _ => false) false
    ltac:(done) oi ctx info op (rp_ok _ _ _ _ _ _ Hr) Hop1 Hw)
    as (ctx1 & info1 & op1 & E & Hok1 & [Hgr Hl1 Hothers] & _).
  cbn [audit_loop fst snd]. rewrite Hop1, E.
  rewrite (replay_audit ts S after ctx info T op) by (done || by intros ->). cbn [andb].
  eapply (IH (Datatypes.S oi) ctx1 info1 ops0); [|lia|lia| | |exact Hrest].
  - eapply replay_step; try done; [|by intros ->]. unfold Context.op, idx. by rewrite Nat2N.id.
  - intros o Ho. eapply wt_op_prefix; [apply Hgr|by apply Hwt].
  - intros j Hj. rewrite Hothers by lia. apply Hsame. lia.
Qed.

(** The audit accepts every tidy block. *)
Lemma tidy_audit c :
  Context.wf c -> well_typed c = true -> tidy (Context.temps c) [] false (Context.ops c) ->
  audit true c = true.
Proof.
  intros Hwf [Hwt Hf]%well_typed_inv Ht. unfold audit.
  apply (tidy_loop (Context.temps c) _ 0 c _ (Context.ops c) _ [] false); try done.
  split; [by apply seed_ok|done| |done].
  intros _ t s H. exfalso. revert H. unfold ti, seed_info. rewrite list_lookup_fmap.
  destruct (Context.temps c !! N.to_nat t) as [x|]; cbn; [|done]. by destruct (Temp.is_const x).
Qed.
