(* ===== verification/Liveness.v ===== *)
(** * Liveness analysis

    Models [accel/src/liveness.rs]: one backward pass that records in each op's
    [LifeData] which arguments die at it and which globals must be written back.
    The pass is proved to compute the liveness equations exactly, and the
    equations to mean what the register allocator relies on: overwriting a local
    temp that is marked dead does not change what the rest of the extended basic
    block computes. *)

From Stdlib Require Import ZArith Lia Bool.
From stdpp Require Import base tactics numbers list gmap functions.
From S2P Require Import Prelude IrTypes IrOpcode IrContext Optimize IrSem OptimizeProof.
Import Opcode.

(** ** The pass *)

(** [for s in temp_state.iter_mut().take(nb_globals) { *s = true }]. *)
Definition mark_globals (nb_globals : nat) (st : list bool) : list bool :=
  imap (fun i b => if decide (i < nb_globals)%nat then true else b) st.

(** One iteration of the output loop. *)
Definition output_arg (args : list TempIdx) (nb_temps : nat) (acc : list bool * Z)
    (i : nat) : list bool * Z :=
  let '(st, life) := acc in
  let tidx := N.to_nat (arg args i) in
  if decide (tidx < nb_temps)%nat then
    (<[tidx := false]> st,
     if negb (nth tidx st false) then LifeData.set_dead life (Z.of_nat i) else life)
  else (st, life).

(** One iteration of the input loop, at argument position [arg_pos]. *)
Definition input_arg (ts : list Temp.Temp) (args : list TempIdx) (nb_temps : nat)
    (acc : list bool * Z) (arg_pos : nat) : list bool * Z :=
  let '(st, life) := acc in
  let tidx := N.to_nat (arg args arg_pos) in
  if decide (nb_temps <= tidx)%nat then (st, life)
  else
    let life :=
      if negb (nth tidx st false) then
        let life := LifeData.set_dead life (Z.of_nat arg_pos) in
        match ts !! tidx with
        | Some t => if decide (Temp.kind t = TempKind.Global)
                    then LifeData.set_sync life (Z.of_nat arg_pos) else life
        | None => life
        end
      else life in
    (<[tidx := true]> st, life).

Definition op_life (ts : list Temp.Temp) (op : Op.Op) (nb_temps : nat) (st : list bool)
    : list bool * Z :=
  let d := def (Op.opc op) in
  let acc := foldl (output_arg (Op.args op) nb_temps) (st, 0) (seq 0 (nb_oargs d)) in
  foldl (input_arg ts (Op.args op) nb_temps) acc (seq (nb_oargs d) (nb_iargs d)).

Definition no_life (opc : Opcode) : bool :=
  match opc with Nop | InsnStart => true | _ => false end.

Definition is_bb_end (op : Op.Op) : bool :=
  OpFlags.contains (flags (def (Op.opc op))) OpFlags.BB_END.

(** The body of the reverse loop at op [oi]; the result is stored at [op.idx]. *)
Definition analyse_op (ctx : Context.Context) (st : list bool) (oi : nat)
    : option (Context.Context * list bool) :=
  op <-! Context.ops ctx !! oi ;;
  let st := if is_bb_end op then mark_globals (Context.nb_globals ctx) st else st in
  if no_life (Op.opc op) then Some (ctx, st)
  else
    let '(st, life) := op_life (Context.temps ctx) op (length (Context.temps ctx)) st in
    op_mut <-! Context.op ctx (Op.idx op) ;;
    ctx <-! Context.put_op ctx (Op.idx op) (Op.set_life op_mut life) ;;
    Some (ctx, st).

(** [for oi in (0..n).rev()]. *)
Fixpoint liveness_loop (ctx : Context.Context) (st : list bool) (n : nat)
    : option (Context.Context * list bool) :=
  match n with
  | O => Some (ctx, st)
  | S oi =>
      r <-! analyse_op ctx st oi ;;
      liveness_loop r.1 r.2 oi
  end.

Definition liveness_analysis (ctx : Context.Context) : option Context.Context :=
  let st := mark_globals (Context.nb_globals ctx)
              (replicate (length (Context.temps ctx)) false) in
  r <-! liveness_loop ctx st (Context.num_ops ctx) ;;
  Some r.1.

(** ** The liveness equations *)

Definition used (op : Op.Op) (t : N) : bool := bool_decide (t ∈ Op.iargs op).
Definition defd (op : Op.Op) (t : N) : bool := bool_decide (t ∈ Op.oargs op).
Definition global (nbg : nat) (t : N) : bool := (N.to_nat t <? nbg)%nat.

(** Live when op is done, given what is live after it. *)
Definition live_out (nbg : nat) (op : Op.Op) (L : N -> bool) (t : N) : bool :=
  L t || is_bb_end op && global nbg t.

Definition live_in (nbg : nat) (op : Op.Op) (L : N -> bool) (t : N) : bool :=
  used op t || negb (defd op t) && live_out nbg op L t.

(** Live before a sequence of ops; all globals are live at the end. *)
Fixpoint live_at (nbg : nat) (ops : list Op.Op) : N -> bool :=
  match ops with
  | [] => global nbg
  | op :: rest => live_in nbg op (live_at nbg rest)
  end.

(** What [LifeData] says of argument [p] of an op, [L] being live after it. *)
Definition dead_spec (nbg : nat) (op : Op.Op) (L : N -> bool) (p : nat) : bool :=
  let d := def (Op.opc op) in
  let t := arg (Op.args op) p in
  if decide (p < nb_oargs d)%nat then
    bool_decide (t ∈ take p (Op.args op)) || negb (live_out nbg op L t)
  else
    negb (bool_decide (t ∈ take (p - nb_oargs d) (drop (nb_oargs d) (Op.args op)))) &&
    (defd op t || negb (live_out nbg op L t)).

(** [st] represents the live set [L]. *)
Definition repr (st : list bool) (L : N -> bool) : Prop :=
  forall t, (N.to_nat t < length st)%nat -> nth (N.to_nat t) st false = L t.

Lemma nth_imap {A} (f : nat -> A -> A) l i d :
  (i < length l)%nat -> nth i (imap f l) d = f i (nth i l d).
Proof.
  intros [x Hx]%lookup_lt_is_Some_2.
  rewrite !nth_lookup, list_lookup_imap, Hx. done.
Qed.

Lemma nth_insert_eq {A} (l : list A) i x d : (i < length l)%nat -> nth i (<[i := x]> l) d = x.
Proof. intros. by rewrite nth_lookup, list_lookup_insert_eq. Qed.

Lemma nth_insert_ne {A} (l : list A) i j x d : i <> j -> nth j (<[i := x]> l) d = nth j l d.
Proof. intros. by rewrite !nth_lookup, list_lookup_insert_ne. Qed.

Lemma repr_mark nbg st L :
  repr st L -> repr (mark_globals nbg st) (fun t => L t || global nbg t).
Proof.
  intros H t. unfold mark_globals. rewrite length_imap. intros Ht.
  rewrite nth_imap, (H t) by done. unfold global.
  destruct (Nat.ltb_spec (N.to_nat t) nbg).
  - by rewrite decide_True, orb_true_r.
  - rewrite decide_False by lia. by rewrite orb_false_r.
Qed.

Lemma repr_insert st L u b :
  (N.to_nat u < length st)%nat -> repr st L ->
  repr (<[N.to_nat u := b]> st) (fun t => if decide (t = u) then b else L t).
Proof.
  intros Hu H t. rewrite length_insert. intros Ht. case_decide as E.
  - subst. by rewrite nth_insert_eq.
  - rewrite nth_insert_ne; [by apply H|]. intros ?%N2Nat.inj. congruence.
Qed.

Lemma repr_ext st L L' : (forall t, L t = L' t) -> repr st L -> repr st L'.
Proof. intros E H t Ht. by rewrite <- E, H. Qed.

(** ** The loops over the arguments *)

Definition is_global_temp (ts : list Temp.Temp) (t : N) : bool :=
  match ts !! N.to_nat t with
  | Some x => bool_decide (Temp.kind x = TempKind.Global)
  | None => false
  end.

Lemma take_S_arg (l : list N) k :
  (k < length l)%nat -> take (S k) l = take k l ++ [arg l k].
Proof.
  intros [x Hx]%lookup_lt_is_Some_2. unfold arg.
  by rewrite (take_S_r _ _ _ Hx), (nth_lookup_Some _ _ _ _ Hx).
Qed.

Section Outputs.
Variables (ts : list Temp.Temp) (args : list N) (st0 : list bool) (L : N -> bool).
Variables (no ni : nat).
Hypothesis Hlen : (no + ni <= length args)%nat.
Hypothesis Hrange : forall i, (i < no + ni)%nat -> (N.to_nat (arg args i) < length ts)%nat.
Hypothesis Hst0 : length st0 = length ts.
Hypothesis Hrepr : repr st0 L.

Definition after_outs (k : nat) (t : N) : bool := negb (bool_decide (t ∈ take k args)) && L t.

Lemma outputs_spec k :
  (k <= no)%nat ->
  exists st life,
    foldl (output_arg args (length ts)) (st0, 0) (seq 0 k) = (st, life) /\
    length st = length ts /\ repr st (after_outs k) /\
    (forall p, LifeData.is_sync life (Z.of_nat p) = false) /\
    (forall p, LifeData.is_dead life (Z.of_nat p)
       = bool_decide (p < k)%nat &&
         (bool_decide (arg args p ∈ take p args) || negb (L (arg args p)))).
Proof.
  induction k as [|k IH]; intros Hk.
  { exists st0, 0. split_and!; done. }
  destruct IH as (st & life & E & Hl & Hr & Hs & Hd); [lia|].
  rewrite seq_S, foldl_app, E. cbn [foldl Nat.add]. unfold output_arg.
  pose proof (Hrange k ltac:(lia)) as Hrk. rewrite decide_True by done.
  rewrite (Hr (arg args k)) by lia.
  eexists _, _. split; [done|]. split; [by rewrite length_insert|]. split; [|split].
  - eapply repr_ext; [|apply repr_insert; [lia|exact Hr]]. intros t. unfold after_outs.
    rewrite take_S_arg by lia. case_decide as Et.
    + rewrite (bool_decide_eq_true_2 (t ∈ _)) by set_solver. done.
    + by rewrite (bool_decide_ext (t ∈ take k args ++ _) (t ∈ take k args)) by set_solver.
  - intros p. case_if; [|done]. by rewrite LifeData.is_sync_set_dead by lia.
  - intros p. unfold after_outs in *.
    destruct (decide (p = k)) as [->|Hne].
    + rewrite (bool_decide_eq_true_2 (k < S k)%nat) by lia.
      specialize (Hd k). rewrite (bool_decide_eq_false_2 (k < k)%nat) in Hd by lia.
      case_if; rewrite ?LifeData.is_dead_set_dead, ?Z.eqb_refl by lia; rewrite Hd; simpl;
        destruct (bool_decide (arg args k ∈ take k args)), (L (arg args k)); done.
    + rewrite (bool_decide_ext (p < S k)%nat (p < k)%nat) by lia. rewrite <- Hd.
      case_if; [|done]. rewrite LifeData.is_dead_set_dead by lia.
      destruct (Z.eqb_spec (Z.of_nat p) (Z.of_nat k)); [lia|]. by rewrite orb_false_r.
Qed.

End Outputs.

(** The input loop, from the state the output loop leaves. *)
Section Inputs.
Variables (ts : list Temp.Temp) (args : list N) (no ni : nat).
Variables (st1 : list bool) (life1 : Z) (L1 : N -> bool).
Hypothesis Hlen : (no + ni <= length args)%nat.
Hypothesis Hrange : forall i, (i < no + ni)%nat -> (N.to_nat (arg args i) < length ts)%nat.
Hypothesis Hst1 : length st1 = length ts.
Hypothesis Hrepr1 : repr st1 L1.
Hypothesis Hsync1 : forall p, LifeData.is_sync life1 (Z.of_nat p) = false.

Definition before_ins (j : nat) (t : N) : bool :=
  bool_decide (t ∈ take j (drop no args)) || L1 t.

Definition dead_in (p : nat) : bool :=
  negb (bool_decide (arg args p ∈ take (p - no) (drop no args))) && negb (L1 (arg args p)).

Lemma arg_drop j : arg (drop no args) j = arg args (no + j).
Proof. unfold arg. by rewrite !nth_lookup, lookup_drop. Qed.

(** What one iteration of the input loop does to the flags. *)
Lemma input_life st life j p :
  repr st (before_ins j) -> length st = length ts -> (j < ni)%nat ->
  let r := input_arg ts args (length ts) (st, life) (no + j) in
  LifeData.is_dead r.2 (Z.of_nat p)
    = LifeData.is_dead life (Z.of_nat p) || bool_decide (p = no + j)%nat && dead_in (no + j) /\
  LifeData.is_sync r.2 (Z.of_nat p)
    = LifeData.is_sync life (Z.of_nat p) ||
      bool_decide (p = no + j)%nat && dead_in (no + j) && is_global_temp ts (arg args (no + j)).
Proof.
  intros Hr Hl Hj. pose proof (Hrange (no + j)%nat ltac:(lia)) as Hrk.
  unfold input_arg. rewrite decide_False by lia. rewrite (Hr _) by lia. cbn [snd].
  unfold dead_in, before_ins, is_global_temp. replace (no + j - no)%nat with j by lia.
  assert (Heq : (Z.of_nat p =? Z.of_nat (no + j)) = bool_decide (p = no + j)%nat).
  { destruct (Z.eqb_spec (Z.of_nat p) (Z.of_nat (no + j))); symmetry;
      [apply bool_decide_eq_true_2|apply bool_decide_eq_false_2]; lia. }
  rewrite <- negb_orb. destruct (_ || L1 _); simpl.
  { by rewrite !andb_false_r, !orb_false_r. }
  rewrite andb_true_r.
  destruct (lookup_lt_is_Some_2 ts _ Hrk) as [x ->].
  destruct (decide (Temp.kind x = TempKind.Global)) as [Hg|Hg];
    rewrite ?LifeData.is_dead_set_sync, ?LifeData.is_sync_set_sync,
      ?LifeData.is_dead_set_dead, ?LifeData.is_sync_set_dead, ?Heq by lia.
  - rewrite (bool_decide_eq_true_2 (Temp.kind x = _)) by done. by rewrite andb_true_r.
  - rewrite (bool_decide_eq_false_2 (Temp.kind x = _)) by done.
    by rewrite andb_false_r, orb_false_r.
Qed.

Lemma inputs_spec j :
  (j <= ni)%nat ->
  exists st life,
    foldl (input_arg ts args (length ts)) (st1, life1) (seq no j) = (st, life) /\
    length st = length ts /\ repr st (before_ins j) /\
    (forall p, LifeData.is_dead life (Z.of_nat p)
       = LifeData.is_dead life1 (Z.of_nat p) ||
         bool_decide (no <= p < no + j)%nat && dead_in p) /\
    (forall p, LifeData.is_sync life (Z.of_nat p)
       = bool_decide (no <= p < no + j)%nat && dead_in p && is_global_temp ts (arg args p)).
Proof.
  induction j as [|j IH]; intros Hj.
  { exists st1, life1. split_and!; try done.
    - intros p. rewrite bool_decide_eq_false_2 by lia. by rewrite orb_false_r.
    - intros p. by rewrite bool_decide_eq_false_2 by lia. }
  destruct IH as (st & life & E & Hl & Hr & Hd & Hs); [lia|].
  rewrite seq_S, foldl_app, E. cbn [foldl].
  pose proof (Hrange (no + j)%nat ltac:(lia)) as Hrk.
  pose proof (fun p => input_life st life j p Hr Hl ltac:(lia)) as Hlife. cbv zeta in Hlife.
  destruct (input_arg ts args (length ts) (st, life) (no + j)) as [st' life'] eqn:E'.
  cbn [snd] in Hlife. exists st', life'. split; [done|].
  assert (Est : st' = <[N.to_nat (arg args (no + j)) := true]> st).
  { revert E'. unfold input_arg. rewrite decide_False by lia. by intros [= <- _]. }
  split; [subst; by rewrite length_insert|]. split; [|split].
  - rewrite Est. eapply repr_ext; [|apply repr_insert; [lia|exact Hr]]. intros t.
    unfold before_ins. rewrite take_S_arg by (rewrite length_drop; lia). rewrite arg_drop.
    case_decide as Et.
    + by rewrite (bool_decide_eq_true_2 (t ∈ _)) by set_solver.
    + by rewrite (bool_decide_ext (t ∈ _ ++ _) (t ∈ take j (drop no args))) by set_solver.
  - intros p. destruct (Hlife p) as [-> _]. rewrite Hd, <- orb_assoc. f_equal.
    destruct (decide (p = no + j)%nat) as [->|Hne].
    + rewrite (bool_decide_eq_false_2 (no <= no + j < no + j)%nat) by lia.
      by rewrite !bool_decide_eq_true_2 by lia.
    + rewrite (bool_decide_eq_false_2 (p = _)), orb_false_r by done. f_equal.
      apply bool_decide_ext. lia.
  - intros p. destruct (Hlife p) as [_ ->]. rewrite Hs.
    destruct (decide (p = no + j)%nat) as [->|Hne].
    + rewrite (bool_decide_eq_false_2 (no <= no + j < no + j)%nat) by lia.
      by rewrite !bool_decide_eq_true_2 by lia.
    + rewrite (bool_decide_eq_false_2 (p = _)), orb_false_r by done. do 2 f_equal.
      apply bool_decide_ext. lia.
Qed.

End Inputs.

(** ** The pass computes the equations *)

(** The flags of an op, [L] being live after it. *)
Definition life_ok (ts : list Temp.Temp) (nbg : nat) (op : Op.Op) (L : N -> bool)
    (life : Z) : Prop :=
  forall p, (p < nb_oargs (def (Op.opc op)) + nb_iargs (def (Op.opc op)))%nat ->
    LifeData.is_dead life (Z.of_nat p) = dead_spec nbg op L p /\
    LifeData.is_sync life (Z.of_nat p)
      = bool_decide (nb_oargs (def (Op.opc op)) <= p)%nat && dead_spec nbg op L p &&
        is_global_temp ts (arg (Op.args op) p).

Lemma arg_range ts op i :
  wt_op ts op = true ->
  (i < nb_oargs (def (Op.opc op)) + nb_iargs (def (Op.opc op)))%nat ->
  (i < length (Op.args op))%nat /\ (N.to_nat (arg (Op.args op) i) < length ts)%nat.
Proof.
  intros Hwt Hi. pose proof (wt_op_len _ _ Hwt) as Hl. unfold Op.MAX_OP_ARGS in Hl.
  pose proof (nb_args_le (Op.opc op)) as Hna. unfold nb_args in Hna.
  assert (Hlt : (i < length (Op.args op))%nat) by lia. split; [done|].
  apply (wt_op_range ts op); [done|]. apply in_or_app.
  destruct (decide (i < nb_oargs (def (Op.opc op)))%nat) as [Ho|Ho].
  - left. apply lookup_lt_is_Some_2 in Hlt as [x Hx]. unfold arg, Op.oargs.
    rewrite (nth_lookup_Some _ _ _ _ Hx). apply list_elem_of_In.
    apply (list_elem_of_lookup_2 _ i). by rewrite lookup_take_lt.
  - right. apply arg_in_iargs; lia.
Qed.

Lemma op_life_spec ts nbg op L st0 :
  wt_op ts op = true -> length st0 = length ts -> repr st0 (live_out nbg op L) ->
  exists st life, op_life ts op (length ts) st0 = (st, life) /\ length st = length ts /\
    repr st (live_in nbg op L) /\ life_ok ts nbg op L life.
Proof.
  intros Hwt Hl0 Hr0. unfold op_life.
  set (no := nb_oargs (def (Op.opc op))). set (ni := nb_iargs (def (Op.opc op))).
  assert (Hr : forall i, (i < no + ni)%nat -> (N.to_nat (arg (Op.args op) i) < length ts)%nat).
  { intros i Hi. by apply (arg_range ts op). }
  assert (Hle : (no + ni <= length (Op.args op))%nat).
  { pose proof (wt_op_len _ _ Hwt) as Hl. unfold Op.MAX_OP_ARGS in Hl.
    pose proof (nb_args_le (Op.opc op)) as Hna. unfold nb_args in Hna. lia. }
  destruct (outputs_spec ts (Op.args op) st0 (live_out nbg op L) no ni Hle Hr Hl0 Hr0 no)
    as (st1 & life1 & -> & Hl1 & Hr1 & Hs1 & Hd1); try done.
  destruct (inputs_spec ts (Op.args op) no ni st1 life1
    (after_outs (Op.args op) (live_out nbg op L) no) Hle Hr Hl1 Hr1 Hs1 ni)
    as (st & life & -> & Hl & Hr2 & Hd & Hs); try done.
  exists st, life. split_and!; try done. intros p Hp. fold no ni in Hp.
  rewrite Hd, Hs, Hd1. unfold dead_spec, dead_in, after_outs, defd, Op.oargs. fold no.
  rewrite negb_andb, negb_involutive.
  destruct (decide (p < no)%nat) as [Hpo|Hpo].
  - rewrite (bool_decide_eq_true_2 (p < no)%nat) by done.
    rewrite (bool_decide_eq_false_2 (no <= p < no + ni)%nat) by lia.
    rewrite (bool_decide_eq_false_2 (no <= p)%nat) by lia. by rewrite orb_false_r.
  - rewrite (bool_decide_eq_false_2 (p < no)%nat) by done.
    rewrite (bool_decide_eq_true_2 (no <= p < no + ni)%nat) by lia.
    by rewrite (bool_decide_eq_true_2 (no <= p)%nat) by lia.
Qed.

(** What the pass leaves at an op. *)
Definition annotated (ts : list Temp.Temp) (nbg : nat) (L : N -> bool) (op op' : Op.Op)
    : Prop :=
  if no_life (Op.opc op) then op' = op
  else exists life, op' = Op.set_life op life /\ life_ok ts nbg op L life.

Definition indexed (ops : list Op.Op) : Prop :=
  forall i op, ops !! i = Some op -> Op.idx op = N.of_nat i.

Lemma live_in_no_args nbg op L t :
  no_life (Op.opc op) = true -> live_in nbg op L t = live_out nbg op L t.
Proof.
  intros H. unfold live_in, used, defd, Op.iargs, Op.oargs. by destruct (Op.opc op).
Qed.

Lemma analyse_op_spec ctx st oi op L :
  Context.ops ctx !! oi = Some op -> Op.idx op = N.of_nat oi ->
  wt_op (Context.temps ctx) op = true -> length st = length (Context.temps ctx) ->
  repr st L ->
  exists op' st',
    analyse_op ctx st oi
      = Some (Context.set_ops ctx (<[oi := op']> (Context.ops ctx)), st') /\
    length st' = length (Context.temps ctx) /\
    repr st' (live_in (Context.nb_globals ctx) op L) /\
    annotated (Context.temps ctx) (Context.nb_globals ctx) L op op'.
Proof.
  intros Hop Hidx Hwt Hl Hr. unfold analyse_op. rewrite Hop.
  set (nbg := Context.nb_globals ctx). set (st1 := if is_bb_end op then _ else _).
  assert (Hr1 : repr st1 (live_out nbg op L)).
  { unfold st1, live_out. destruct (is_bb_end op).
    - by apply repr_mark.
    - eapply repr_ext; [|done]. intros t. by rewrite orb_false_r. }
  assert (Hl1 : length st1 = length (Context.temps ctx)).
  { unfold st1, mark_globals. destruct (is_bb_end op); by rewrite ?length_imap. }
  unfold annotated. destruct (no_life (Op.opc op)) eqn:En.
  - exists op, st1. rewrite list_insert_id by done. split; [by destruct ctx|].
    split_and!; try done. eapply repr_ext; [|exact Hr1]. intros t. symmetry.
    by apply live_in_no_args.
  - destruct (op_life_spec _ nbg op L st1 Hwt Hl1 Hr1) as (st' & life & -> & Hl' & Hr' & Hok).
    rewrite Hidx. unfold Context.op, Prelude.idx. rewrite Nat2N.id, Hop.
    rewrite put_op_lt by by eapply lookup_lt_Some.
    exists (Op.set_life op life), st'. split_and!; eauto.
Qed.

Lemma liveness_loop_spec ops0 ts nbg n : forall ctx st,
  (n <= length ops0)%nat -> indexed ops0 ->
  (forall op, In op ops0 -> wt_op ts op = true) ->
  Context.temps ctx = ts -> Context.nb_globals ctx = nbg ->
  length (Context.ops ctx) = length ops0 ->
  (forall j, (j < n)%nat -> Context.ops ctx !! j = ops0 !! j) ->
  length st = length ts -> repr st (live_at nbg (drop n ops0)) ->
  exists ctx' st', liveness_loop ctx st n = Some (ctx', st') /\
    Context.temps ctx' = ts /\ Context.nb_globals ctx' = nbg /\
    length (Context.ops ctx') = length ops0 /\
    (forall j, (n <= j)%nat -> Context.ops ctx' !! j = Context.ops ctx !! j) /\
    (forall j op, (j < n)%nat -> ops0 !! j = Some op ->
       exists op', Context.ops ctx' !! j = Some op' /\
         annotated ts nbg (live_at nbg (drop (S j) ops0)) op op').
Proof.
  induction n as [|n IH]; intros ctx st Hn Hix Hwt Ht Hg Hlo Hsame Hl Hr.
  { exists ctx, st. split_and!; try done. intros. lia. }
  destruct (lookup_lt_is_Some_2 ops0 n) as [op Hop]; [lia|].
  assert (Hop1 : Context.ops ctx !! n = Some op) by (rewrite Hsame; [done|lia]).
  destruct (analyse_op_spec ctx st n op (live_at nbg (drop (S n) ops0)) Hop1)
    as (op1 & st1 & E & Hl1 & Hr1 & Ha); try done; try congruence.
  { by apply Hix. }
  { rewrite Ht. apply Hwt, list_elem_of_In. by eapply list_elem_of_lookup_2. }
  cbn [liveness_loop]. rewrite E. cbn [fst snd].
  destruct (IH (Context.set_ops ctx (<[n := op1]> (Context.ops ctx))) st1)
    as (ctx' & st' & El & Ht' & Hg' & Hlo' & Habove & Hbelow); try done; simpl;
    try congruence; try lia.
  { by rewrite length_insert. }
  { intros j Hj. rewrite list_lookup_insert_ne by lia. apply Hsame. lia. }
  { rewrite (drop_S _ _ _ Hop). cbn [live_at]. by rewrite Hg in Hr1. }
  exists ctx', st'. split_and!; try done.
  - intros j Hj. rewrite Habove by lia. simpl. by rewrite list_lookup_insert_ne by lia.
  - intros j o Hj Ho. destruct (decide (j = n)) as [->|]; [|apply Hbelow; [lia|done]].
    rewrite Hop in Ho. injection Ho as <-. exists op1. rewrite Habove by lia. simpl.
    rewrite list_lookup_insert_eq by (by eapply lookup_lt_Some).
    split; [done|]. by rewrite Ht, Hg in Ha.
Qed.

Lemma liveness_spec ctx :
  indexed (Context.ops ctx) ->
  (forall op, In op (Context.ops ctx) -> wt_op (Context.temps ctx) op = true) ->
  exists ctx', liveness_analysis ctx = Some ctx' /\
    Context.temps ctx' = Context.temps ctx /\
    Context.nb_globals ctx' = Context.nb_globals ctx /\
    length (Context.ops ctx') = length (Context.ops ctx) /\
    forall k op, Context.ops ctx !! k = Some op ->
      exists op', Context.ops ctx' !! k = Some op' /\
        annotated (Context.temps ctx) (Context.nb_globals ctx)
          (live_at (Context.nb_globals ctx) (drop (S k) (Context.ops ctx))) op op'.
Proof.
  intros Hix Hwt. unfold liveness_analysis, Context.num_ops.
  destruct (liveness_loop_spec (Context.ops ctx) (Context.temps ctx) (Context.nb_globals ctx)
    (length (Context.ops ctx)) ctx (mark_globals (Context.nb_globals ctx)
              (replicate (length (Context.temps ctx)) false)))
    as (ctx' & st' & -> & Ht & Hg & Hl & _ & Ha); try done.
  { unfold mark_globals. by rewrite length_imap, length_replicate. }
  { rewrite drop_all. cbn [live_at].
    eapply repr_ext; [|apply (repr_mark _ _ (fun _ => false))]; [done|].
    intros t Ht. rewrite nth_lookup. by destruct (_ !! _) eqn:E; [apply lookup_replicate in E as [-> _]|]. }
  exists ctx'. split_and!; try done. intros k op Hk. apply Ha; [|done].
  by eapply lookup_lt_Some.
Qed.

(** ** Dead temps do not matter

    Straight-line execution of a sequence of ops: the rest of an extended basic
    block, up to its end, the first jump or the first exit. *)
Section Irrelevance.
Context {W : Type}.
Variable sem_ext : Opcode -> Ty.Ty -> list N -> list Z -> W -> option (option (list Z) * W).
Variable sem_call : list N -> list Z -> list Z -> W -> option (list Z * list Z * W).
Variable chained : N -> W -> bool.
Variables (ts : list Temp.Temp) (nbg : nat).
Hypothesis Hnbg : (nbg <= length ts)%nat.

Notation exec := (exec_op sem_ext sem_call chained ts nbg).

Fixpoint exec_seq (ops : list Op.Op) (σ : N -> Z) (w : W) : option ((N -> Z) * W * next) :=
  match ops with
  | [] => Some (σ, w, Fall)
  | op :: rest =>
      r ← exec op σ w;
      match r with
      | (σ', w', Fall) => exec_seq rest σ' w'
      | _ => Some r
      end
  end.

(** The stores agree on the temps of [L] and on the globals. *)
Definition agree (L : N -> bool) (σ1 σ2 : N -> Z) : Prop :=
  forall t, (N.to_nat t < length ts)%nat -> L t = true \/ global nbg t = true ->
    read ts σ1 t = read ts σ2 t.

Lemma read_write_agree σ1 σ2 t v u :
  (N.to_nat t < length ts)%nat -> (u <> t -> read ts σ1 u = read ts σ2 u) ->
  read ts (write ts σ1 t v) u = read ts (write ts σ2 t v) u.
Proof.
  intros [x Hx]%lookup_lt_is_Some_2 H. destruct (decide (u = t)) as [->|Hne].
  - destruct (Temp.is_const x) eqn:Ec.
    + by rewrite !(read_const _ _ t x).
    + by rewrite !(read_write_eq _ _ t v x).
  - rewrite !read_write_ne by done. auto.
Qed.

Lemma write_all_agree (P : N -> Prop) outs : forall σ1 σ2 vs σ1',
  (forall t, t ∈ outs -> (N.to_nat t < length ts)%nat) ->
  (forall t, P t -> t ∉ outs -> read ts σ1 t = read ts σ2 t) ->
  write_all ts σ1 outs vs = Some σ1' ->
  exists σ2', write_all ts σ2 outs vs = Some σ2' /\
    forall t, P t -> read ts σ1' t = read ts σ2' t.
Proof.
  induction outs as [|o outs IH]; intros σ1 σ2 [|v vs] σ1' Hr HP; simpl; try done.
  - intros [= <-]. exists σ2. split; [done|]. intros t Ht. apply HP; [done|set_solver].
  - intros E. apply (IH (write ts σ1 o v)); [set_solver| |done].
    intros t Ht Hni. apply read_write_agree; [apply Hr; set_solver|].
    intros Hne. apply HP; [done|set_solver].
Qed.

Section OneOp.
Variables (op : Op.Op) (L : N -> bool) (σ1 σ2 : N -> Z).
Hypothesis Hwt : wt_op ts op = true.
Hypothesis Hag : agree (live_in nbg op L) σ1 σ2.

Lemma agree_input t : t ∈ Op.iargs op -> read ts σ1 t = read ts σ2 t.
Proof.
  intros Ht. apply Hag; [by apply (iargs_range ts op)|]. left.
  unfold live_in, used. by rewrite bool_decide_eq_true_2.
Qed.

Lemma agree_rest t :
  (N.to_nat t < length ts)%nat -> L t = true \/ global nbg t = true -> t ∉ Op.oargs op ->
  read ts σ1 t = read ts σ2 t.
Proof.
  intros Hlt [HL|Hg] Hni; apply Hag; auto. left. unfold live_in, live_out, defd.
  rewrite HL, bool_decide_eq_false_2 by done. apply orb_true_r.
Qed.

Lemma agree_inputs : read ts σ1 <$> Op.iargs op = read ts σ2 <$> Op.iargs op.
Proof.
  apply list_fmap_ext. intros k t Ht. apply agree_input. by eapply list_elem_of_lookup_2.
Qed.

Lemma agree_arg k :
  (nb_oargs (def (Op.opc op)) <= k
     < nb_oargs (def (Op.opc op)) + nb_iargs (def (Op.opc op)))%nat ->
  read ts σ1 (arg (Op.args op) k) = read ts σ2 (arg (Op.args op) k).
Proof.
  intros Hk. apply agree_input, list_elem_of_In, arg_in_iargs; [|done].
  apply (arg_range ts op); [done|lia].
Qed.

Lemma exec_pure_agree :
  is_pure (Op.opc op) = true -> exec_pure ts op σ1 = exec_pure ts op σ2.
Proof.
  intros Hpu. destruct (pure_def _ Hpu) as (Ho & _ & _ & Hi).
  pose proof (agree_arg 1 ltac:(lia)) as H1.
  assert (H2 : nb_iargs (def (Op.opc op)) = 2%nat ->
    read ts σ1 (arg (Op.args op) 2) = read ts σ2 (arg (Op.args op) 2)).
  { intros. apply agree_arg; lia. }
  unfold exec_pure, operand.
  change (nth 1 ?l 0%N) with (arg l 1). change (nth 2 ?l 0%N) with (arg l 2).
  destruct (Op.opc op) eqn:E; try done; cbv beta iota zeta;
    rewrite ?H1; try (rewrite H2 by by vm_compute); done.
Qed.

Lemma outs_agree vs σ1' :
  write_all ts σ1 (Op.oargs op) vs = Some σ1' ->
  exists σ2', write_all ts σ2 (Op.oargs op) vs = Some σ2' /\ agree L σ1' σ2'.
Proof.
  intros E. destruct (write_all_agree
    (fun t => (N.to_nat t < length ts)%nat /\ (L t = true \/ global nbg t = true))
    (Op.oargs op) σ1 σ2 vs σ1') as (σ2' & E2 & H2); [..|done|].
  - intros t Ht. by apply (oargs_range ts op).
  - intros t [Hlt HL] Hni. by apply agree_rest.
  - exists σ2'. split; [done|]. intros t Hlt HL. by apply H2.
Qed.

End OneOp.

(** The globals a call rewrites, then its output. *)
Lemma call_agree op L σ1 σ2 gs outs σ1a σ1b :
  wt_op ts op = true -> agree (live_in nbg op L) σ1 σ2 ->
  write_all ts σ1 (N.of_nat <$> seq 0 nbg) gs = Some σ1a ->
  write_all ts σ1a (Op.oargs op) outs = Some σ1b ->
  exists σ2a σ2b, write_all ts σ2 (N.of_nat <$> seq 0 nbg) gs = Some σ2a /\
    write_all ts σ2a (Op.oargs op) outs = Some σ2b /\ agree L σ1b σ2b.
Proof.
  intros Hwt Hag E1 E2.
  destruct (write_all_agree (fun t => (N.to_nat t < length ts)%nat /\
      (live_in nbg op L t = true \/ global nbg t = true)) (N.of_nat <$> seq 0 nbg)
      σ1 σ2 gs σ1a) as (σ2a & E1' & H1); [..|done|].
  - intros t (k & -> & Hk%elem_of_seq)%list_elem_of_fmap. lia.
  - intros t [Hlt HL] _. by apply Hag.
  - destruct (outs_agree op L σ1a σ2a Hwt) with (vs := outs) (σ1' := σ1b)
      as (σ2b & E2' & H2); [|done|by exists σ2a, σ2b].
    intros t Hlt HL. by apply H1.
Qed.

(** Past an exit only the globals count. *)
Definition after (nx : next) (L : N -> bool) : N -> bool :=
  match nx with Fall => L | _ => fun _ => false end.

Lemma agree_keep op L nx σ1 σ2 :
  Op.oargs op = [] \/ nx <> Fall ->
  agree (live_in nbg op L) σ1 σ2 -> agree (after nx L) σ1 σ2.
Proof.
  intros Ho Hag t Hlt HL. destruct (global nbg t) eqn:Eg; [apply Hag; auto|].
  destruct HL as [HL|]; [|done]. destruct nx; try done. destruct Ho as [Ho|]; [|done].
  apply (agree_rest op L); auto. rewrite Ho. set_solver.
Qed.

Lemma exec_agree op L σ1 σ2 w σ1' w' nx :
  wt_op ts op = true -> agree (live_in nbg op L) σ1 σ2 ->
  exec op σ1 w = Some (σ1', w', nx) ->
  exists σ2', exec op σ2 w = Some (σ2', w', nx) /\ agree (after nx L) σ1' σ2'.
Proof.
  intros Hwt Hag. destruct (is_pure (Op.opc op)) eqn:Epu.
  { unfold exec_op. rewrite Epu, (exec_pure_agree op L σ1 σ2) by done.
    destruct (exec_pure ts op σ2) as [v|]; simpl; [|done]. intros [= <- <- <-].
    assert (Ho : Op.oargs op = [arg (Op.args op) 0]).
    { pose proof (wt_op_len _ _ Hwt) as Hl. unfold Op.oargs.
      rewrite (proj1 (pure_def _ Epu)). by destruct (Op.args op). }
    destruct (outs_agree op L σ1 σ2 Hwt Hag [v] (write ts σ1 (arg (Op.args op) 0) v))
      as (σ2' & E & H); [by rewrite Ho|]. rewrite Ho in E. injection E as <-. eauto. }
  destruct (is_generic (Op.opc op)) eqn:Eg.
  { rewrite !exec_generic by done. rewrite (agree_inputs op L σ1 σ2) by done.
    destruct (sem_ext _ _ _ _ _) as [[[vs|] ?]|]; simpl; [|..|done].
    - destruct (write_all ts σ1 _ _) eqn:E; simpl; [|done]. intros [= <- <- <-].
      destruct (outs_agree op L σ1 σ2 Hwt Hag _ _ E) as (σ2' & -> & H). eauto.
    - intros [= <- <- <-]. exists σ2. split; [done|]. by eapply agree_keep; [right|]. }
  destruct (decide (Op.opc op = BrCond)) as [Hb|Hb].
  { rewrite !exec_brcond by done. unfold operand.
    rewrite !(agree_arg op L σ1 σ2) by (try done; rewrite Hb; vm_compute; lia).
    destruct (cond_of_carg _); simpl; [|done]. intros [= <- <- <-]. exists σ2.
    split; [done|]. eapply agree_keep; [left; unfold Op.oargs; by rewrite Hb|done]. }
  destruct (decide (Op.opc op = Call)) as [Hc|Hc].
  - assert (Hgs : (fun k => read ts σ1 (N.of_nat k)) <$> seq 0 nbg
                  = (fun k => read ts σ2 (N.of_nat k)) <$> seq 0 nbg).
    { apply list_fmap_ext. intros k x [-> Hk]%lookup_seq. apply Hag; [lia|].
      right. apply Nat.ltb_lt. lia. }
    unfold exec_op. rewrite Epu, Hc, Hgs, (agree_inputs op L σ1 σ2) by done.
    destruct (sem_call _ _ _ _) as [[[outs gs] w1]|]; simpl; [|done].
    destruct (write_all ts σ1 _ gs) as [σa|] eqn:E1; simpl; [|done].
    destruct (write_all ts σa _ outs) as [σb|] eqn:E2; simpl; [|done]. intros [= <- <- <-].
    destruct (call_agree op L σ1 σ2 gs outs σa σb Hwt Hag E1 E2)
      as (σ2a & σ2b & -> & E2' & H). simpl. rewrite E2'. simpl. eauto.
  - assert (Ho : Op.oargs op = []) by (unfold Op.oargs; by destruct (Op.opc op)).
    unfold exec_op. rewrite Epu. destruct (Op.opc op); try done; intros [= <- <- <-];
      exists σ2; (split; [done|]); eapply agree_keep; eauto.
Qed.

(** Stores that agree on what is live lead to the same end of the block: the
    same exit or jump, the same world, the same globals. *)
Lemma exec_seq_agree ops : forall σ1 σ2 w σ1' w' nx,
  (forall op, In op ops -> wt_op ts op = true) ->
  agree (live_at nbg ops) σ1 σ2 -> exec_seq ops σ1 w = Some (σ1', w', nx) ->
  exists σ2', exec_seq ops σ2 w = Some (σ2', w', nx) /\
    forall t, global nbg t = true -> read ts σ1' t = read ts σ2' t.
Proof.
  assert (Hgl : forall L σ1 σ2, agree L σ1 σ2 ->
    forall t, global nbg t = true -> read ts σ1 t = read ts σ2 t).
  { intros L σ1 σ2 H t Ht. apply H; [|by right]. apply Nat.ltb_lt in Ht. lia. }
  induction ops as [|op ops IH]; intros σ1 σ2 w σ1' w' nx Hwt Hag; simpl.
  { intros [= <- <- <-]. eauto. }
  destruct (exec op σ1 w) as [[[σa wa] na]|] eqn:E; simpl; [|done].
  destruct (exec_agree op (live_at nbg ops) σ1 σ2 w σa wa na) as (σb & -> & Hb);
    [by apply Hwt; left|done|done|]. simpl.
  destruct na.
  - apply IH; [|done]. intros o Ho. apply Hwt. by right.
  - intros [= <- <- <-]. eauto.
  - intros [= <- <- <-]. eauto.
Qed.

End Irrelevance.

(** ** Properties *)

(** C6: The pass terminates without a panic and leaves in every op exactly the flags
    of the liveness equations: an output is dead when its temp is not live after
    the op (all globals being live at the end of the block and at every
    basic-block end), an input is dead when its temp is overwritten by the op or
    not live after it and this is its first occurrence, and a dead input is
    synced when its temp is a global. *)
Theorem liveness_analysis_exact (ctx : Context.Context) :
  indexed (Context.ops ctx) ->
  (forall op, In op (Context.ops ctx) -> wt_op (Context.temps ctx) op = true) ->
  exists ctx', liveness_analysis ctx = Some ctx' /\
    Context.temps ctx' = Context.temps ctx /\
    forall k op, Context.ops ctx !! k = Some op ->
      exists op', Context.ops ctx' !! k = Some op' /\
        annotated (Context.temps ctx) (Context.nb_globals ctx)
          (live_at (Context.nb_globals ctx) (drop (S k) (Context.ops ctx))) op op'.
Proof.
  intros Hix Hwt. destruct (liveness_spec ctx Hix Hwt) as (ctx' & E & Ht & _ & _ & H).
  eauto.
Qed.

Lemma dead_spec_not_live nbg op L p :
  NoDup (Op.oargs op) ->
  (p < nb_oargs (def (Op.opc op)))%nat \/ arg (Op.args op) p ∉ Op.oargs op ->
  (p < length (Op.args op))%nat ->
  dead_spec nbg op L p = true -> L (arg (Op.args op) p) = false.
Proof.
  intros Hnd Hp Hlt. unfold dead_spec.
  assert (Hout : negb (live_out nbg op L (arg (Op.args op) p)) = true ->
    L (arg (Op.args op) p) = false).
  { unfold live_out. by destruct (L _). }
  destruct (decide (p < nb_oargs (def (Op.opc op)))%nat) as [Ho|Ho].
  - intros [Hd%bool_decide_eq_true|]%orb_true_iff; [exfalso|auto].
    destruct (lookup_lt_is_Some_2 _ _ Hlt) as [x Hx].
    assert (Ha : arg (Op.args op) p = x) by (unfold arg; by apply nth_lookup_Some).
    rewrite Ha in Hd. apply list_elem_of_lookup in Hd as [q Hq].
    apply lookup_take_Some in Hq as [Hq Hqp].
    assert (q = p); [|lia].
    eapply NoDup_lookup; [exact Hnd|unfold Op.oargs..]; rewrite lookup_take_lt by lia; eauto.
  - destruct Hp as [|Hni]; [lia|]. unfold defd. rewrite (bool_decide_eq_false_2 (_ ∈ Op.oargs op)) by done.
    intros [_ ?]%andb_true_iff. auto.
Qed.

Lemma length_op_args ts op :
  wt_op ts op = true ->
  length (Op.oargs op) = nb_oargs (def (Op.opc op)) /\
  length (Op.iargs op) = nb_iargs (def (Op.opc op)) /\
  (nb_oargs (def (Op.opc op)) + nb_iargs (def (Op.opc op)) <= length (Op.args op))%nat.
Proof.
  intros Hwt. pose proof (wt_op_len _ _ Hwt) as Hl. unfold Op.MAX_OP_ARGS in Hl.
  pose proof (nb_args_le (Op.opc op)) as Hna. unfold nb_args in Hna.
  unfold Op.oargs, Op.iargs. rewrite !length_take, length_drop. lia.
Qed.


(** [t5 = x1 + x1; x2 = t5; exit]: [t5] dies at the copy. *)
Definition dead_block : Context.Context :=
  Sample.emit ExitTb [0]%N (Sample.emit Mov [2; 5]%N (Sample.emit Add [5; 1; 1]%N
    (Context.new_temp Sample.ctx4 Ty.I64).2)).

Lemma dead_block_indexed : indexed (Context.ops dead_block).
Proof. intros i op H. do 3 (destruct i as [|i]; [by injection H as <-|]). done. Qed.

Lemma dead_block_wt op :
  In op (Context.ops dead_block) -> wt_op (Context.temps dead_block) op = true.
Proof.
  assert (H : forallb (wt_op (Context.temps dead_block)) (Context.ops dead_block) = true)
    by by vm_compute.
  rewrite forallb_forall in H. apply H.
Qed.

Lemma liveness_analysis_exact_witness :
  exists ctx', liveness_analysis dead_block = Some ctx' /\
    Context.temps ctx' = Context.temps dead_block /\
    forall k op, Context.ops dead_block !! k = Some op ->
      exists op', Context.ops ctx' !! k = Some op' /\
        annotated (Context.temps dead_block) (Context.nb_globals dead_block)
          (live_at (Context.nb_globals dead_block) (drop (S k) (Context.ops dead_block)))
          op op'.
Proof.
  apply (liveness_analysis_exact dead_block); [exact dead_block_indexed|exact dead_block_wt].
Defined.

