(* ===== verification/Tb.v ===== *)
(** * Translation blocks

    Models [accel/src/ir/tb.rs]: the cached block, the encoding of exit values
    with the index of the block that exited, and the per-CPU jump cache with its
    generation counter.  The mutex and the atomics of a block are plain fields
    here: one operation runs at a time. *)

From Stdlib Require Import ZArith Lia Bool.
From stdpp Require Import base tactics numbers list gmap.
From S2P Require Import Prelude.

(** ** Constants *)

Definition EXIT_TARGET_NONE : Z := u64_max.

Definition CF_COUNT_MASK : Z := 0x0000FFFF.
Definition CF_LAST_IO : Z := 0x00010000.
Definition CF_SINGLE_STEP : Z := 0x00020000.
Definition CF_USE_ICOUNT : Z := 0x00040000.

Definition TB_HASH_SIZE : Z := Z.shiftl 1 15.
Definition TB_JMP_CACHE_SIZE : Z := Z.shiftl 1 12.

Definition TB_EXIT_IDX0 : Z := 0.
Definition TB_EXIT_IDX1 : Z := 1.
Definition TB_EXIT_NOCHAIN : Z := 2.
Definition TB_EXIT_MAX : Z := 3.
Definition EXCP_UNDEF : Z := TB_EXIT_MAX + 2.
Definition EXCP_ARCH_BASE : Z := 16.
Definition EXCP_RISCV_BASE : Z := EXCP_ARCH_BASE.
Definition EXCP_RISCV_ECALL : Z := EXCP_RISCV_BASE.
Definition EXCP_RISCV_EBREAK : Z := EXCP_RISCV_BASE + 1.
Definition EXCP_RISCV_MRET : Z := EXCP_RISCV_BASE + 2.
Definition EXCP_RISCV_SRET : Z := EXCP_RISCV_BASE + 3.
Definition EXCP_RISCV_WFI : Z := EXCP_RISCV_BASE + 4.
Definition EXCP_RISCV_SFENCE_VMA : Z := EXCP_RISCV_BASE + 5.
Definition EXCP_RISCV_PRIV_CSR : Z := EXCP_RISCV_BASE + 6.
Definition EXCP_RISCV_FENCE_I : Z := EXCP_RISCV_BASE + 7.
Definition EXCP_RISCV_END : Z := EXCP_RISCV_BASE + 16.
Definition EXCP_LOONGARCH_BASE : Z := EXCP_RISCV_END.
Definition EXCP_LOONGARCH_DONE : Z := EXCP_LOONGARCH_BASE.
Definition EXCP_LOONGARCH_WFI : Z := EXCP_LOONGARCH_BASE + 1.
Definition EXCP_LOONGARCH_END : Z := EXCP_LOONGARCH_BASE + 16.

(** ** The block *)

Record TbJmpState := mk_TbJmpState {
  jmp_dest : list (option nat);
  jmp_list : list (nat * nat)
}.

Definition TbJmpState_new : TbJmpState := mk_TbJmpState [None; None] [].

Record TranslationBlock := mk_TB {
  pc : Z;
  cs_base : Z;
  flags : Z;
  cflags : Z;
  size : Z;
  icount : Z;
  instret_discarded : Z;
  host_offset : Z;
  host_size : Z;
  jmp_insn_offset : list (option Z);
  jmp_reset_offset : list (option Z);
  phys_pc : Z;
  hash_next : option nat;
  page_next : option nat;
  jmp : TbJmpState;
  contains_atomic : bool;
  invalid : bool;
  gen : Z;
  exit_target : Z
}.

Definition TB_new (p f cf : Z) : TranslationBlock := {|
  pc := p; cs_base := 0; flags := f; cflags := cf; size := 0; icount := 0;
  instret_discarded := 0; host_offset := 0; host_size := 0;
  jmp_insn_offset := [None; None]; jmp_reset_offset := [None; None]; phys_pc := 0;
  hash_next := None; page_next := None; jmp := TbJmpState_new;
  contains_atomic := false; invalid := false; gen := 0; exit_target := EXIT_TARGET_NONE
|}.

Definition tb_hash (p f : Z) : Z :=
  let h := Z.lxor (wrapping_mul 64 p 0x9e3779b97f4a7c15) f in
  Z.land h (TB_HASH_SIZE - 1).

(** [assert!(n < 2)] is the [None] branch. *)
Definition set_jmp_insn_offset (tb : TranslationBlock) (n : nat) (offset : Z)
    : option TranslationBlock :=
  if decide (n < 2)%nat then
    Some {| pc := pc tb; cs_base := cs_base tb; flags := flags tb; cflags := cflags tb;
      size := size tb; icount := icount tb; instret_discarded := instret_discarded tb;
      host_offset := host_offset tb; host_size := host_size tb;
      jmp_insn_offset := <[n := Some offset]> (jmp_insn_offset tb);
      jmp_reset_offset := jmp_reset_offset tb; phys_pc := phys_pc tb;
      hash_next := hash_next tb; page_next := page_next tb; jmp := jmp tb;
      contains_atomic := contains_atomic tb; invalid := invalid tb; gen := gen tb;
      exit_target := exit_target tb |}
  else None.

Definition set_jmp_reset_offset (tb : TranslationBlock) (n : nat) (offset : Z)
    : option TranslationBlock :=
  if decide (n < 2)%nat then
    Some {| pc := pc tb; cs_base := cs_base tb; flags := flags tb; cflags := cflags tb;
      size := size tb; icount := icount tb; instret_discarded := instret_discarded tb;
      host_offset := host_offset tb; host_size := host_size tb;
      jmp_insn_offset := jmp_insn_offset tb;
      jmp_reset_offset := <[n := Some offset]> (jmp_reset_offset tb); phys_pc := phys_pc tb;
      hash_next := hash_next tb; page_next := page_next tb; jmp := jmp tb;
      contains_atomic := contains_atomic tb; invalid := invalid tb; gen := gen tb;
      exit_target := exit_target tb |}
  else None.

Definition max_insns (cf : Z) : Z :=
  let count := Z.land cf CF_COUNT_MASK in
  if count =? 0 then 512 else count.

(** ** Exit values *)

Definition encode_tb_exit (tb_idx val : Z) : Z :=
  if val <? TB_EXIT_MAX then Z.lor (shl 64 (wrapping_add 64 tb_idx 1) 32) val else val.

Definition decode_tb_exit (raw : Z) : option Z * Z :=
  let marker := shr raw 32 in
  if negb (marker =? 0) then (Some (marker - 1), Z.land raw 3) else (None, raw).

(** ** The jump cache *)
Module JumpCache.

Record JumpCacheEntry := mk_entry { tb_idx : option nat; egen : Z }.

Definition entry_default : JumpCacheEntry := mk_entry None 0.

Record JumpCache := mk_JumpCache {
  entries : list JumpCacheEntry;
  generation : Z
}.

Definition new : JumpCache :=
  mk_JumpCache (replicate (Z.to_nat TB_JMP_CACHE_SIZE) entry_default) 1.

Definition index (p : Z) : nat := Z.to_nat (Z.land (shr p 2) (TB_JMP_CACHE_SIZE - 1)).

(** The index is masked, so the array access cannot be out of range. *)
Definition entry (c : JumpCache) (p : Z) : JumpCacheEntry :=
  nth (index p) (entries c) entry_default.

Definition lookup (c : JumpCache) (p : Z) : option nat :=
  let e := entry c p in
  if egen e =? generation c then tb_idx e else None.

Definition insert (c : JumpCache) (p : Z) (i : nat) : JumpCache :=
  mk_JumpCache (<[index p := mk_entry (Some i) (generation c)]> (entries c)) (generation c).

Definition remove (c : JumpCache) (p : Z) : JumpCache :=
  let e := entry c p in
  if egen e =? generation c then
    mk_JumpCache (<[index p := mk_entry None (egen e)]> (entries c)) (generation c)
  else c.

Definition invalidate (c : JumpCache) : JumpCache :=
  let g := wrapping_add 64 (generation c) 1 in
  mk_JumpCache (entries c) (if g =? 0 then 1 else g).

(** Stale entries are older than the current generation. *)
Definition wf (c : JumpCache) : Prop :=
  length (entries c) = Z.to_nat TB_JMP_CACHE_SIZE /\
  0 < generation c < 2 ^ 64 /\
  forall i e, entries c !! i = Some e -> 0 <= egen e <= generation c.

Lemma index_lt (p : Z) : (index p < Z.to_nat TB_JMP_CACHE_SIZE)%nat.
Proof.
  unfold index. assert (in_range 12 (Z.land (shr p 2) (TB_JMP_CACHE_SIZE - 1))) as [H0 H1].
  { apply land_range_r; [lia|]. split; vm_compute; congruence. }
  apply Z2Nat.inj_lt; [done|by vm_compute|exact H1].
Qed.

Lemma cache_wf_new : wf new.
Proof.
  split; [apply length_replicate|]. split; [simpl; lia|].
  intros i e [-> _]%lookup_replicate. simpl. lia.
Qed.

Lemma entry_lookup (c : JumpCache) (p : Z) :
  wf c -> entries c !! index p = Some (entry c p).
Proof.
  intros [Hl _]. unfold entry. rewrite nth_lookup.
  destruct (lookup_lt_is_Some_2 (entries c) (index p)) as [e ->]; [|done].
  rewrite Hl. apply index_lt.
Qed.

Lemma wf_set (c : JumpCache) i e :
  wf c -> 0 <= egen e <= generation c ->
  wf (mk_JumpCache (<[i := e]> (entries c)) (generation c)).
Proof.
  intros (Hl & Hg & He) Hge. split; [by simpl; rewrite length_insert|]. split; [done|].
  simpl. intros j x [(_ & <- & _)|[_ ?]]%list_lookup_insert_Some; [done|by eapply He].
Qed.

Lemma entry_set (c : JumpCache) p q e :
  wf c ->
  entry (mk_JumpCache (<[index p := e]> (entries c)) (generation c)) q
  = if decide (index q = index p) then e else entry c q.
Proof.
  intros (Hl & _). unfold entry. simpl. rewrite !nth_lookup. case_decide as E.
  - rewrite E, list_lookup_insert_eq; [done|]. rewrite Hl. apply index_lt.
  - by rewrite list_lookup_insert_ne.
Qed.

Lemma wf_ops (c : JumpCache) (p : Z) (i : nat) :
  wf c -> wf (insert c p i) /\ wf (remove c p) /\
  (generation c < 2 ^ 64 - 1 -> wf (invalidate c)).
Proof.
  intros Hwf. pose proof Hwf as (Hl & Hg & He).
  pose proof (He _ _ (entry_lookup c p Hwf)). split_and!.
  - apply wf_set; [done|]. simpl. lia.
  - unfold remove. case_if; [|done]. apply wf_set; [done|]. done.
  - intros Hlt. unfold invalidate, wf, wrapping_add. cbn [generation entries].
    rewrite wrap_small by (split; lia).
    destruct (Z.eqb_spec (generation c + 1) 0); [lia|]. split; [done|]. split; [lia|].
    intros j e Hj. apply He in Hj. lia.
Qed.

Lemma lookup_new (p : Z) : lookup new p = None.
Proof.
  pose proof (entry_lookup new p cache_wf_new) as [E _]%lookup_replicate. unfold lookup. by rewrite E.
Qed.

Lemma lookup_insert (c : JumpCache) p q i :
  wf c ->
  lookup (insert c p i) q = if decide (index q = index p) then Some i else lookup c q.
Proof.
  intros Hwf. unfold lookup, insert. rewrite entry_set by done.
  case_decide; [|done]. simpl. by rewrite Z.eqb_refl.
Qed.

Lemma lookup_invalidate (c : JumpCache) q :
  wf c -> generation c < 2 ^ 64 - 1 -> lookup (invalidate c) q = None.
Proof.
  intros Hwf Hg. pose proof Hwf as (_ & Hg0 & He).
  unfold lookup, invalidate, wrapping_add. rewrite wrap_small by (split; lia).
  destruct (Z.eqb_spec (generation c + 1) 0); [lia|]. simpl.
  pose proof (He _ _ (entry_lookup c q Hwf)). unfold entry in *. simpl in *.
  destruct (Z.eqb_spec (egen (nth (index q) (entries c) entry_default)) (generation c + 1));
    [lia|done].
Qed.

End JumpCache.

Lemma tb_hash_range (p f : Z) : 0 <= tb_hash p f < TB_HASH_SIZE.
Proof.
  unfold tb_hash. change (TB_HASH_SIZE - 1) with (Z.ones 15).
  rewrite Z.land_ones by lia. apply Z.mod_pos_bound. by vm_compute.
Qed.

Lemma encode_chain (i v : Z) :
  0 <= i < 2 ^ 32 - 1 -> 0 <= v < TB_EXIT_MAX -> encode_tb_exit i v = (i + 1) * 2 ^ 32 + v.
Proof.
  intros Hi Hv. unfold TB_EXIT_MAX in *. unfold encode_tb_exit, shl, wrapping_add.
  destruct (Z.ltb_spec v TB_EXIT_MAX); [|unfold TB_EXIT_MAX in *; lia].
  rewrite (wrap_small 64 (i + 1)) by (split; lia).
  rewrite wrap_small by (rewrite Z.shiftl_mul_pow2 by lia; split; lia).
  apply lor_shiftl_add; [lia|]. split; lia.
Qed.

(** ** Properties *)

(** Decoding an exit value recovers what was encoded: for a chainable exit (0, 1
    or the no-chain code 2) the index of the block that exited and the exit
    code, for a real exit (a code of 3 or more that fits 32 bits) the code and
    no block. *)
Theorem tb_exit_roundtrip (tb_idx val : Z) :
  0 <= tb_idx < 2 ^ 32 - 1 -> 0 <= val < 2 ^ 32 ->
  decode_tb_exit (encode_tb_exit tb_idx val)
  = if val <? TB_EXIT_MAX then (Some tb_idx, val) else (None, val).
Proof.
  intros Hi Hv. destruct (Z.ltb_spec val TB_EXIT_MAX) as [Hlt|Hge].
  - rewrite encode_chain by lia. unfold decode_tb_exit, shr, TB_EXIT_MAX in *.
    rewrite Z.shiftr_div_pow2, Z.div_add_l, (Z.div_small val) by lia.
    destruct (Z.eqb_spec (tb_idx + 1 + 0) 0); [lia|]. simpl. f_equal; [f_equal; lia|].
    change 3 with (Z.ones 2) at 1. rewrite Z.land_ones by lia.
    replace ((tb_idx + 1) * 2 ^ 32) with (((tb_idx + 1) * 2 ^ 30) * 2 ^ 2) by lia.
    rewrite Z.add_comm, Z_mod_plus_full. apply Z.mod_small. lia.
  - unfold encode_tb_exit, decode_tb_exit, shr.
    destruct (Z.ltb_spec val TB_EXIT_MAX); [lia|].
    by rewrite Z.shiftr_div_pow2, Z.div_small by lia.
Qed.

Lemma tb_exit_roundtrip_witness :
  decode_tb_exit (encode_tb_exit 65535 1) = (Some 65535, 1) /\
  decode_tb_exit (encode_tb_exit 65535 EXCP_RISCV_WFI) = (None, EXCP_RISCV_WFI).
Proof.
  split; [apply (tb_exit_roundtrip 65535 1); lia|].
  apply (tb_exit_roundtrip 65535 EXCP_RISCV_WFI); unfold EXCP_RISCV_WFI; vm_compute; intuition congruence.
Defined.

(** The jump cache is a direct-mapped table: an insertion is seen by every
    address of the same slot and by no other, a removal empties its slot only,
    and bumping the generation empties the whole cache at once (as long as the
    64-bit counter has not wrapped). *)
Theorem jump_cache_spec (c : JumpCache.JumpCache) (p q : Z) (i : nat) :
  JumpCache.wf c -> JumpCache.generation c < 2 ^ 64 - 1 ->
  JumpCache.lookup (JumpCache.insert c p i) q
    = (if decide (JumpCache.index q = JumpCache.index p) then Some i
       else JumpCache.lookup c q) /\
  JumpCache.lookup (JumpCache.remove c p) q
    = (if decide (JumpCache.index q = JumpCache.index p) then None
       else JumpCache.lookup c q) /\
  JumpCache.lookup (JumpCache.invalidate c) q = None.
Proof.
  intros Hwf Hg. split_and!.
  - by apply JumpCache.lookup_insert.
  - unfold JumpCache.lookup, JumpCache.remove. destruct (Z.eqb_spec (JumpCache.egen (JumpCache.entry c p))
      (JumpCache.generation c)) as [Heq|Hne].
    + rewrite JumpCache.entry_set by done. case_decide; [|done]. simpl.
      by destruct (_ =? _).
    + case_decide as E; [|done]. unfold JumpCache.entry in *. rewrite E.
      by destruct (Z.eqb_spec (JumpCache.egen (nth (JumpCache.index p)
        (JumpCache.entries c) JumpCache.entry_default)) (JumpCache.generation c)).
  - by apply JumpCache.lookup_invalidate.
Qed.

Lemma jump_cache_spec_witness :
  JumpCache.lookup (JumpCache.insert JumpCache.new 0x80000000 7) 0x80000000 = Some 7%nat.
Proof.
  destruct (jump_cache_spec JumpCache.new 0x80000000 0x80000000 7 JumpCache.cache_wf_new)
    as (H & _); [by vm_compute|]. exact H.
Defined.
