(* ===== verification/CodeBuffer.v ===== *)
(** * The JIT code buffer

    Models [accel/src/code_buffer.rs] (the buffer, its emit, patch and read
    methods) and [patch_jump] of [accel/src/x86_64/codegen.rs], which retargets a
    five-byte relative jump.  The buffer is a map from offsets to bytes; [None] is
    a panic, including the debug assertions of the emit methods, whose failure
    would write outside the mapping.

    The class [HostCodeGen] is the part of the trait the block store uses;
    [HostCodeGenLaws] states what it relies on, and the x86-64 backend is an
    instance. *)

From Stdlib Require Import ZArith Lia Bool.
From stdpp Require Import base tactics numbers list gmap.
From S2P Require Import Prelude.

(** ** Little-endian words in memory *)

Definition byte_at (m : gmap Z Z) (o : Z) : Z := default 0 (m !! o).

Fixpoint write_le (m : gmap Z Z) (o : Z) (n : nat) (v : Z) : gmap Z Z :=
  match n with
  | O => m
  | S n' => write_le (<[o := wrap 8 v]> m) (o + 1) n' (Z.shiftr v 8)
  end.

Fixpoint read_le (m : gmap Z Z) (o : Z) (n : nat) : Z :=
  match n with
  | O => 0
  | S n' => Z.lor (byte_at m o) (Z.shiftl (read_le m (o + 1) n') 8)
  end.

Lemma byte_write_le m o n v i :
  byte_at (write_le m o n v) i
  = if decide (o <= i < o + Z.of_nat n) then wrap 8 (Z.shiftr v (8 * (i - o)))
    else byte_at m i.
Proof.
  revert m o v. induction n as [|n IH]; intros m o v; simpl.
  { by rewrite decide_False by lia. }
  rewrite IH. unfold byte_at. destruct (decide (i = o)) as [->|Hne].
  - rewrite decide_False, decide_True by lia. rewrite lookup_insert_eq. simpl.
    by rewrite Z.sub_diag, Z.mul_0_r, Z.shiftr_0_r.
  - rewrite lookup_insert_ne by done. case_decide.
    + rewrite decide_True by lia. rewrite Z.shiftr_shiftr by lia. do 2 f_equal. lia.
    + by rewrite decide_False by lia.
Qed.

Lemma read_le_ext m m' o n :
  (forall i, o <= i < o + Z.of_nat n -> byte_at m i = byte_at m' i) ->
  read_le m o n = read_le m' o n.
Proof.
  revert o. induction n as [|n IH]; intros o H; simpl; [done|].
  rewrite (H o) by lia. rewrite (IH (o + 1)); [done|]. intros i Hi. apply H. lia.
Qed.

(** A word is read back as it was written. *)
Lemma read_write_le m o n v : read_le (write_le m o n v) o n = wrap (8 * Z.of_nat n) v.
Proof.
  assert (Hgen : forall n m' o v, (forall i, o <= i < o + Z.of_nat n ->
      byte_at m' i = wrap 8 (Z.shiftr v (8 * (i - o)))) ->
      read_le m' o n = wrap (8 * Z.of_nat n) v).
  { clear. induction n as [|n IH]; intros m' o v H.
    { simpl. unfold wrap. by rewrite Z.mod_1_r. }
    cbn [read_le]. rewrite (H o) by lia. rewrite Z.sub_diag, Z.mul_0_r, Z.shiftr_0_r.
    rewrite (IH m' (o + 1) (Z.shiftr v 8)).
    2: { intros i Hi. rewrite H by lia. rewrite Z.shiftr_shiftr by lia. do 2 f_equal. lia. }
    zbits. destruct (Z.ltb_spec i 8).
    - rewrite (Z.testbit_neg_r _ (i - 8)) by lia.
      destruct (Z.ltb_spec i (8 * Z.of_nat (S n))); [|lia].
      by rewrite andb_false_r, orb_false_r.
    - destruct (Z.ltb_spec (i - 8) (8 * Z.of_nat n)), (Z.ltb_spec i (8 * Z.of_nat (S n)));
        try lia; simpl; try done.
      rewrite Z.shiftr_spec by lia. f_equal. lia. }
  apply Hgen. intros i Hi. by rewrite byte_write_le, decide_True.
Qed.

(** ** The buffer *)

Definition DEFAULT_CODE_BUF_SIZE : Z := 16 * 1024 * 1024.
Definition HIGHWATER_MARGIN : Z := 1024.

Record CodeBuffer := mk_CodeBuffer {
  mem : gmap Z Z;
  size : Z;
  offset : Z;
  jmp_trans : bool
}.

Inductive BufError := InvalidInput | AllocFailed.

(** [page] is the page size of the host, [alloc] whether the mapping succeeds. *)
Definition new (page : Z) (alloc : Z -> bool) (sz : Z) : result CodeBuffer BufError :=
  let sz := Z.land (sz + page - 1) (bnot 64 (page - 1)) in
  if sz =? 0 then Err InvalidInput
  else if alloc sz then Ok (mk_CodeBuffer ∅ sz 0 false) else Err AllocFailed.

Definition with_default_size (page : Z) (alloc : Z -> bool) : result CodeBuffer BufError :=
  new page alloc DEFAULT_CODE_BUF_SIZE.

Definition capacity (b : CodeBuffer) : Z := size b.

Definition remaining (b : CodeBuffer) : Z := size b - offset b.

Definition ptr_at (b : CodeBuffer) (o : Z) : option Z :=
  if o <=? size b then Some o else None.

Definition set_offset (b : CodeBuffer) (o : Z) : option CodeBuffer :=
  if o <=? size b then Some (mk_CodeBuffer (mem b) (size b) o (jmp_trans b)) else None.

(** Whether [check_highwater] leaves through [longjmp]. *)
Definition check_highwater (b : CodeBuffer) : bool :=
  (size b <? offset b + HIGHWATER_MARGIN) && jmp_trans b.

Definition emit_le (b : CodeBuffer) (n : nat) (v : Z) : option CodeBuffer :=
  if offset b + Z.of_nat n <=? size b then
    Some (mk_CodeBuffer (write_le (mem b) (offset b) n v) (size b)
            (offset b + Z.of_nat n) (jmp_trans b))
  else None.

Definition emit_u8 (b : CodeBuffer) (v : Z) : option CodeBuffer := emit_le b 1 v.
Definition emit_u16 (b : CodeBuffer) (v : Z) : option CodeBuffer := emit_le b 2 v.
Definition emit_u32 (b : CodeBuffer) (v : Z) : option CodeBuffer := emit_le b 4 v.
Definition emit_u64 (b : CodeBuffer) (v : Z) : option CodeBuffer := emit_le b 8 v.

Fixpoint copy_bytes (m : gmap Z Z) (o : Z) (data : list Z) : gmap Z Z :=
  match data with
  | [] => m
  | x :: rest => copy_bytes (<[o := x]> m) (o + 1) rest
  end.

Definition emit_bytes (b : CodeBuffer) (data : list Z) : option CodeBuffer :=
  let n := Z.of_nat (length data) in
  if offset b + n <=? size b then
    Some (mk_CodeBuffer (copy_bytes (mem b) (offset b) data) (size b) (offset b + n)
            (jmp_trans b))
  else None.

Definition patch_le (b : CodeBuffer) (o : Z) (n : nat) (v : Z) : option CodeBuffer :=
  if o + Z.of_nat n <=? size b then
    Some (mk_CodeBuffer (write_le (mem b) o n v) (size b) (offset b) (jmp_trans b))
  else None.

Definition patch_u8 (b : CodeBuffer) (o v : Z) : option CodeBuffer := patch_le b o 1 v.

(** The aligned (atomic) and the unaligned store write the same four bytes. *)
Definition patch_u32 (b : CodeBuffer) (o v : Z) : option CodeBuffer := patch_le b o 4 v.

Definition read_u32 (b : CodeBuffer) (o : Z) : option Z :=
  if o + 4 <=? size b then Some (read_le (mem b) o 4) else None.

Definition as_slice (b : CodeBuffer) : list Z :=
  (fun i => byte_at (mem b) (Z.of_nat i)) <$> seq 0 (Z.to_nat (offset b)).

Lemma emit_le_inv b n v b' :
  emit_le b n v = Some b' ->
  offset b + Z.of_nat n <= size b /\
  b' = mk_CodeBuffer (write_le (mem b) (offset b) n v) (size b) (offset b + Z.of_nat n)
         (jmp_trans b).
Proof. unfold emit_le. case_if; [|done]. intros [= <-]. by apply Z.leb_le in Heqb0. Qed.

(** ** Jumps *)

Class HostCodeGen (B : Type) := {
  patch_jump : B -> CodeBuffer -> Z -> Z -> option CodeBuffer
}.

(** Where the five-byte jump at [o] goes. *)
Definition jump_target (b : CodeBuffer) (o : Z) : Z :=
  o + 5 + signed 32 (read_le (mem b) (o + 1) 4).

(** The operand bytes of the jumps at [o] and [o'] do not overlap. *)
Definition jumps_apart (o o' : Z) : Prop := o + 5 <= o' + 1 \/ o' + 5 <= o + 1.

Class HostCodeGenLaws (B : Type) `{HostCodeGen B} := {
  patch_jump_ok : forall (be : B) b o t,
    0 <= o -> o + 5 <= size b -> 0 <= t <= size b -> size b < 2 ^ 31 ->
    is_Some (patch_jump be b o t);
  patch_jump_keeps : forall (be : B) b o t b',
    patch_jump be b o t = Some b' -> size b' = size b /\ offset b' = offset b;
  patch_jump_same : forall (be : B) b o t b',
    patch_jump be b o t = Some b' -> jump_target b' o = t;
  patch_jump_other : forall (be : B) b o t b' o',
    patch_jump be b o t = Some b' -> jumps_apart o o' ->
    jump_target b' o' = jump_target b o'
}.

(** The x86-64 backend. *)
Record X86_64CodeGen := mk_X86_64CodeGen { tb_ret_offset : Z }.

Definition x86_patch_jump (be : X86_64CodeGen) (b : CodeBuffer)
    (jump_offset target_offset : Z) : option CodeBuffer :=
  let disp := target_offset - (jump_offset + 5) in
  if (- 2 ^ 31 <=? disp) && (disp <=? 2 ^ 31 - 1)
  then patch_u32 b (jump_offset + 1) (wrap 32 disp)
  else None.

#[export] Instance X86_HostCodeGen : HostCodeGen X86_64CodeGen := {
  patch_jump := x86_patch_jump
}.

Lemma x86_patch_inv be b o t b' :
  x86_patch_jump be b o t = Some b' ->
  - 2 ^ 31 <= t - (o + 5) <= 2 ^ 31 - 1 /\
  b' = mk_CodeBuffer (write_le (mem b) (o + 1) 4 (wrap 32 (t - (o + 5)))) (size b) (offset b)
         (jmp_trans b).
Proof.
  unfold x86_patch_jump, patch_u32, patch_le. case_if; [|done]. case_if; [|done].
  intros [= <-]. apply andb_true_iff in Heqb0 as [?%Z.leb_le ?%Z.leb_le]. done.
Qed.

#[export] Instance X86_HostCodeGenLaws : HostCodeGenLaws X86_64CodeGen.
Proof.
  split.
  - intros be b o t Ho Hs Ht Hb. simpl. unfold x86_patch_jump, patch_u32, patch_le.
    rewrite (proj2 (Z.leb_le _ _)), (proj2 (Z.leb_le _ _)) by lia. simpl.
    rewrite (proj2 (Z.leb_le _ _)) by lia. done.
  - intros be b o t b' (_ & ->)%x86_patch_inv. done.
  - intros be b o t b' (Hd & ->)%x86_patch_inv. unfold jump_target. cbn [mem].
    rewrite read_write_le, wrap_small by (apply wrap_range; lia).
    rewrite signed_wrap by lia. lia.
  - intros be b o t b' o' (_ & ->)%x86_patch_inv Ha. unfold jump_target. do 2 f_equal.
    apply read_le_ext. intros i Hi. cbn [mem]. rewrite byte_write_le, decide_False; [done|].
    unfold jumps_apart in Ha. lia.
Qed.

(** ** Properties *)

(** Retargeting a jump of the x86-64 code succeeds for every jump and target
    inside a buffer smaller than 2 GiB; afterwards the jump goes exactly to the
    target, every jump whose operand does not overlap it goes where it went
    before, and nothing else about the buffer changes. *)
Theorem x86_patch_jump_correct (be : X86_64CodeGen) (b : CodeBuffer) (o t : Z) :
  0 <= o -> o + 5 <= size b -> 0 <= t <= size b -> size b < 2 ^ 31 ->
  exists b', x86_patch_jump be b o t = Some b' /\ jump_target b' o = t /\
    (forall o', jumps_apart o o' -> jump_target b' o' = jump_target b o') /\
    size b' = size b /\ offset b' = offset b.
Proof.
  intros Ho Hs Ht Hb. destruct (patch_jump_ok be b o t Ho Hs Ht Hb) as [b' E].
  exists b'. split; [exact E|]. split; [by eapply patch_jump_same|].
  split; [intros o' Ha; by eapply patch_jump_other|]. by eapply patch_jump_keeps.
Qed.

Lemma x86_patch_jump_correct_witness :
  exists b', x86_patch_jump (mk_X86_64CodeGen 0) (mk_CodeBuffer ∅ 4096 64 false) 16 1024
             = Some b' /\ jump_target b' 16 = 1024.
Proof.
  destruct (x86_patch_jump_correct (mk_X86_64CodeGen 0) (mk_CodeBuffer ∅ 4096 64 false) 16 1024)
    as (b' & E & H & _); simpl; try lia. exists b'. split; [exact E|exact H].
Defined.

(** What the emit methods write is what is read back: after emitting a 32-bit
    word the cursor has moved by four bytes and stays inside the buffer, the
    word reads back at the old cursor, and every word that lies outside the four
    bytes is unchanged. *)
Theorem emit_u32_read (b b' : CodeBuffer) (v : Z) :
  0 <= offset b -> 0 <= v < 2 ^ 32 -> emit_u32 b v = Some b' ->
  offset b' = offset b + 4 /\ offset b' <= size b' /\
  read_u32 b' (offset b) = Some v /\
  forall o, 0 <= o -> o + 4 <= offset b \/ offset b + 4 <= o -> read_u32 b' o = read_u32 b o.
Proof.
  intros H0 Hv (Hle & ->)%emit_le_inv. change (Z.of_nat 4) with 4 in *.
  unfold read_u32. cbn [offset size mem]. split; [done|]. split; [done|]. split.
  - rewrite (proj2 (Z.leb_le _ _)) by done. f_equal. rewrite read_write_le.
    by apply wrap_small.
  - intros o Ho Hap. case_if; [|done]. f_equal. apply read_le_ext. intros i Hi.
    rewrite byte_write_le, decide_False; [done|]. lia.
Qed.

Lemma emit_u32_read_witness :
  exists b', emit_u32 (mk_CodeBuffer ∅ 4096 64 false) 0xDEADBEEF = Some b' /\
    read_u32 b' 64 = Some 0xDEADBEEF.
Proof.
  eexists. split; [reflexivity|].
  refine (proj1 (proj2 (proj2 (emit_u32_read (mk_CodeBuffer ∅ 4096 64 false) _ 0xDEADBEEF
    _ _ eq_refl)))); simpl; lia.
Defined.
