(* ===== verification/TbStore.v ===== *)
(** * The block store

    Models [accel/src/exec/tb_store.rs] and the functions of
    [accel/src/exec/exec_loop.rs] that change it ([tb_gen_code], [tb_find],
    [tb_add_jump], [flush_pending_tbs]): blocks in an append-only array, linked
    through intrusive lists into hash buckets and per-page lists, chained by
    patched jumps, invalidated one by one, page by page or all at once by a
    generation counter.

    The vectors [hash], [code_pages] and [page_heads] have fixed sizes and are
    maps here, an absent key being the initial [None] or 0; their indices are
    masked or tested against the size first.  The published length [len] is the
    length of [tbs] after every operation and is not a separate field.  The walks
    over the intrusive lists take fuel; running out of it, and a block index out
    of range, is [None].  Operations run one at a time: the locks serialise
    them. *)

From Stdlib Require Import ZArith Lia Bool.
From stdpp Require Import base tactics numbers list gmap.
From S2P Require Import Prelude Tb CodeBuffer.

Definition MAX_TBS : nat := Z.to_nat 65536.
Definition CODE_REFCOUNT_PAGES : Z := Z.shiftl 1 20.

Record TbStore := mk_TbStore {
  tbs : list TranslationBlock;
  hash : gmap Z nat;
  code_pages : gmap Z Z;
  page_heads : gmap Z nat;
  global_gen : Z
}.

(** ** Field updates of a block *)

Definition set_hash_next (n : option nat) (tb : TranslationBlock) : TranslationBlock :=
  {| pc := pc tb; cs_base := cs_base tb; flags := flags tb; cflags := cflags tb;
     Tb.size := Tb.size tb; icount := icount tb; instret_discarded := instret_discarded tb;
     host_offset := host_offset tb; host_size := host_size tb;
     jmp_insn_offset := jmp_insn_offset tb; jmp_reset_offset := jmp_reset_offset tb;
     phys_pc := phys_pc tb; hash_next := n; page_next := page_next tb; jmp := jmp tb;
     contains_atomic := contains_atomic tb; invalid := invalid tb; gen := gen tb;
     exit_target := exit_target tb |}.

Definition set_page_next (n : option nat) (tb : TranslationBlock) : TranslationBlock :=
  {| pc := pc tb; cs_base := cs_base tb; flags := flags tb; cflags := cflags tb;
     Tb.size := Tb.size tb; icount := icount tb; instret_discarded := instret_discarded tb;
     host_offset := host_offset tb; host_size := host_size tb;
     jmp_insn_offset := jmp_insn_offset tb; jmp_reset_offset := jmp_reset_offset tb;
     phys_pc := phys_pc tb; hash_next := hash_next tb; page_next := n; jmp := jmp tb;
     contains_atomic := contains_atomic tb; invalid := invalid tb; gen := gen tb;
     exit_target := exit_target tb |}.

Definition set_jmp (j : TbJmpState) (tb : TranslationBlock) : TranslationBlock :=
  {| pc := pc tb; cs_base := cs_base tb; flags := flags tb; cflags := cflags tb;
     Tb.size := Tb.size tb; icount := icount tb; instret_discarded := instret_discarded tb;
     host_offset := host_offset tb; host_size := host_size tb;
     jmp_insn_offset := jmp_insn_offset tb; jmp_reset_offset := jmp_reset_offset tb;
     phys_pc := phys_pc tb; hash_next := hash_next tb; page_next := page_next tb; jmp := j;
     contains_atomic := contains_atomic tb; invalid := invalid tb; gen := gen tb;
     exit_target := exit_target tb |}.

Definition set_invalid (tb : TranslationBlock) : TranslationBlock :=
  {| pc := pc tb; cs_base := cs_base tb; flags := flags tb; cflags := cflags tb;
     Tb.size := Tb.size tb; icount := icount tb; instret_discarded := instret_discarded tb;
     host_offset := host_offset tb; host_size := host_size tb;
     jmp_insn_offset := jmp_insn_offset tb; jmp_reset_offset := jmp_reset_offset tb;
     phys_pc := phys_pc tb; hash_next := hash_next tb; page_next := page_next tb;
     jmp := jmp tb; contains_atomic := contains_atomic tb; invalid := true; gen := gen tb;
     exit_target := exit_target tb |}.

Definition set_exit_target (t : Z) (tb : TranslationBlock) : TranslationBlock :=
  {| pc := pc tb; cs_base := cs_base tb; flags := flags tb; cflags := cflags tb;
     Tb.size := Tb.size tb; icount := icount tb; instret_discarded := instret_discarded tb;
     host_offset := host_offset tb; host_size := host_size tb;
     jmp_insn_offset := jmp_insn_offset tb; jmp_reset_offset := jmp_reset_offset tb;
     phys_pc := phys_pc tb; hash_next := hash_next tb; page_next := page_next tb;
     jmp := jmp tb; contains_atomic := contains_atomic tb; invalid := invalid tb;
     gen := gen tb; exit_target := t |}.

(** ** Operations of the store *)

Definition new : TbStore := mk_TbStore [] ∅ ∅ ∅ 1.

Definition get (st : TbStore) (i : nat) : option TranslationBlock := tbs st !! i.

Definition set_tbs (st : TbStore) (l : list TranslationBlock) : TbStore :=
  mk_TbStore l (hash st) (code_pages st) (page_heads st) (global_gen st).

(** A write through [get_mut(i)], which asserts that [i] is in range. *)
Definition upd (st : TbStore) (i : nat) (f : TranslationBlock -> TranslationBlock)
    : option TbStore :=
  tb <-! get st i ;; Some (set_tbs st (<[i := f tb]> (tbs st))).

Definition alloc (st : TbStore) (p f cf : Z) : option nat * TbStore :=
  let i := length (tbs st) in
  if decide (MAX_TBS <= i)%nat then (None, st)
  else (Some i, set_tbs st (tbs st ++ [TB_new p f cf])).

(** [v[k] = x] for a vector of options. *)
Definition put_head (m : gmap Z nat) (k : Z) (x : option nat) : gmap Z nat :=
  partial_alter (fun _ => x) k m.

Definition set_hash (st : TbStore) (b : Z) (x : option nat) : TbStore :=
  mk_TbStore (tbs st) (put_head (hash st) b x) (code_pages st) (page_heads st) (global_gen st).

Definition set_page_head (st : TbStore) (p : Z) (x : option nat) : TbStore :=
  mk_TbStore (tbs st) (hash st) (code_pages st) (put_head (page_heads st) p x) (global_gen st).

Definition set_code_page (st : TbStore) (p v : Z) : TbStore :=
  mk_TbStore (tbs st) (hash st) (<[p := v]> (code_pages st)) (page_heads st) (global_gen st).

(** Not invalidated and of the current generation. *)
Definition current (st : TbStore) (tb : TranslationBlock) : bool :=
  negb (invalid tb) && (gen tb =? global_gen st).

Fixpoint lookup_walk (fuel : nat) (st : TbStore) (p f : Z) (cur : option nat)
    : option (option nat) :=
  match cur with
  | None => Some None
  | Some i =>
      match fuel with
      | O => None
      | S fuel' =>
          tb <-! get st i ;;
          if current st tb && (pc tb =? p) && (flags tb =? f) then Some (Some i)
          else lookup_walk fuel' st p f (hash_next tb)
      end
  end.

Definition lookup (st : TbStore) (p f : Z) : option (option nat) :=
  lookup_walk (length (tbs st)) st p f (hash st !! tb_hash p f).

Definition insert (st : TbStore) (i : nat) : option TbStore :=
  tb <-! get st i ;;
  let bucket := tb_hash (pc tb) (flags tb) in
  st <-! upd st i (set_hash_next (hash st !! bucket)) ;;
  Some (set_hash st bucket (Some i)).

(** *** Code pages *)

Definition code_page (st : TbStore) (p : Z) : Z := default 0 (code_pages st !! p).

Definition dec_code_page (st : TbStore) (p : Z) : TbStore :=
  if p <? CODE_REFCOUNT_PAGES then set_code_page st p (Z.max 0 (code_page st p - 1)) else st.

Definition is_code_page (st : TbStore) (p : Z) : bool :=
  if p <? CODE_REFCOUNT_PAGES then 0 <? code_page st p else false.

Definition mark_code_page (st : TbStore) (p : Z) (i : nat) : option TbStore :=
  if CODE_REFCOUNT_PAGES <=? p then Some st
  else
    let st := set_code_page st p (Z.min 255 (code_page st p + 1)) in
    st <-! upd st i (set_page_next (page_heads st !! p)) ;;
    Some (set_page_head st p (Some i)).

(** The walk of [unlink_page]: a next index out of range ends it. *)
Fixpoint unlink_walk (fuel : nat) (st : TbStore) (p : Z) (i : nat) (prev cur : option nat)
    : option TbStore :=
  match cur with
  | None => Some st
  | Some c =>
      match fuel with
      | O => None
      | S fuel' =>
          if decide (length (tbs st) <= c)%nat then Some st
          else
            tb <-! get st c ;;
            if decide (c = i) then
              st <-! match prev with
                     | Some q => upd st q (set_page_next (page_next tb))
                     | None => Some (set_page_head st p (page_next tb))
                     end ;;
              upd st i (set_page_next None)
            else
              let next := match page_next tb with
                          | Some n => if decide (n < length (tbs st))%nat then Some n else None
                          | None => None
                          end in
              unlink_walk fuel' st p i (Some c) next
      end
  end.

Definition unlink_page (st : TbStore) (p : Z) (i : nat) : option TbStore :=
  if CODE_REFCOUNT_PAGES <=? p then Some st
  else unlink_walk (S (length (tbs st))) st p i None (page_heads st !! p).

(** *** Invalidation *)

Section Invalidate.
Context {B : Type} `{HostCodeGen B}.
Variable be : B.

(** Slots are indices into arrays of two. *)
Definition slot_get {A} (l : list (option A)) (slot : nat) : option (option A) := l !! slot.

Definition reset_jump (tb : TranslationBlock) (buf : CodeBuffer) (slot : nat)
    : option CodeBuffer :=
  jo <-! slot_get (jmp_insn_offset tb) slot ;;
  ro <-! slot_get (jmp_reset_offset tb) slot ;;
  match jo, ro with
  | Some jmp_off, Some reset_off => patch_jump be buf jmp_off reset_off
  | _, _ => Some buf
  end.

Definition clear_dest (slot : nat) (tb : TranslationBlock) : TranslationBlock :=
  set_jmp (mk_TbJmpState (<[slot := None]> (jmp_dest (jmp tb))) (jmp_list (jmp tb))) tb.

Definition clear_list (tb : TranslationBlock) : TranslationBlock :=
  set_jmp (mk_TbJmpState (jmp_dest (jmp tb)) []) tb.

Definition clear_dests (tb : TranslationBlock) : TranslationBlock :=
  set_jmp (mk_TbJmpState [None; None] (jmp_list (jmp tb))) tb.

Definition drop_edge (src slot : nat) (tb : TranslationBlock) : TranslationBlock :=
  set_jmp (mk_TbJmpState (jmp_dest (jmp tb))
             (filter (fun e => negb (bool_decide (e = (src, slot)))) (jmp_list (jmp tb)))) tb.

(** Unlink the incoming edges: each source jump goes back to its own exit. *)
Fixpoint unlink_incoming (st : TbStore) (buf : CodeBuffer) (l : list (nat * nat))
    : option (TbStore * CodeBuffer) :=
  match l with
  | [] => Some (st, buf)
  | (src, slot) :: rest =>
      src_tb <-! get st src ;;
      buf <-! reset_jump src_tb buf slot ;;
      st <-! upd st src (clear_dest slot) ;;
      unlink_incoming st buf rest
  end.

(** The outgoing edges of a block, slot by slot. *)
Definition outgoing (tb : TranslationBlock) : list (nat * nat) :=
  omap (fun slot => d ← jmp_dest (jmp tb) !! slot; d' ← d; Some (slot, d')) [0%nat; 1%nat].

Fixpoint unlink_outgoing (st : TbStore) (i : nat) (l : list (nat * nat)) : option TbStore :=
  match l with
  | [] => Some st
  | (slot, dst) :: rest =>
      st <-! upd st dst (drop_edge i slot) ;;
      unlink_outgoing st i rest
  end.

Fixpoint unlink_hash (fuel : nat) (st : TbStore) (bucket : Z) (i : nat)
    (prev cur : option nat) : option TbStore :=
  match cur with
  | None => Some st
  | Some c =>
      match fuel with
      | O => None
      | S fuel' =>
          tb <-! get st c ;;
          if decide (c = i) then
            st <-! match prev with
                   | Some q => upd st q (set_hash_next (hash_next tb))
                   | None => Some (set_hash st bucket (hash_next tb))
                   end ;;
            upd st c (set_hash_next None)
          else unlink_hash fuel' st bucket i cur (hash_next tb)
      end
  end.

Definition invalidate (st : TbStore) (buf : CodeBuffer) (i : nat)
    : option (TbStore * CodeBuffer) :=
  st <-! upd st i set_invalid ;;
  tb <-! get st i ;;
  let page := shr (phys_pc tb) 12 in
  let st := dec_code_page st page in
  st <-! unlink_page st page i ;;
  st <-! upd st i clear_list ;;
  r <-! unlink_incoming st buf (jmp_list (jmp tb)) ;;
  let '(st, buf) := r in
  tb' <-! get st i ;;
  st <-! upd st i clear_dests ;;
  st <-! unlink_outgoing st i (outgoing tb') ;;
  let bucket := tb_hash (pc tb) (flags tb) in
  st <-! unlink_hash (length (tbs st)) st bucket i None (hash st !! bucket) ;;
  Some (st, buf).

(** The generation never becomes 0, the value new blocks carry. *)
Definition invalidate_all (st : TbStore) : TbStore :=
  let g := wrapping_add 64 (global_gen st) 1 in
  mk_TbStore (tbs st) (hash st) ∅ (page_heads st) (if g =? 0 then 1 else g).

(** The current blocks on a page list, in list order. *)
Fixpoint page_walk (fuel : nat) (st : TbStore) (cur : option nat) : option (list nat) :=
  match cur with
  | None => Some []
  | Some i =>
      match fuel with
      | O => None
      | S fuel' =>
          if decide (length (tbs st) <= i)%nat then Some []
          else
            tb <-! get st i ;;
            l <-! page_walk fuel' st (page_next tb) ;;
            Some (if current st tb then i :: l else l)
      end
  end.

Fixpoint invalidate_list (st : TbStore) (buf : CodeBuffer) (l : list nat)
    : option (TbStore * CodeBuffer) :=
  match l with
  | [] => Some (st, buf)
  | i :: rest => r <-! invalidate st buf i ;; invalidate_list r.1 r.2 rest
  end.

(** [for i in i..i+n]: the full scan of the fallback path, against the generation
    read before it. *)
Fixpoint invalidate_scan (st : TbStore) (buf : CodeBuffer) (g p : Z) (i n : nat)
    : option (TbStore * CodeBuffer) :=
  match n with
  | O => Some (st, buf)
  | S n' =>
      tb <-! get st i ;;
      if negb (invalid tb) && (gen tb =? g) && (shr (phys_pc tb) 12 =? p) then
        r <-! invalidate st buf i ;; invalidate_scan r.1 r.2 g p (S i) n'
      else invalidate_scan st buf g p (S i) n'
  end.

Definition invalidate_phys_page (st : TbStore) (buf : CodeBuffer) (p : Z)
    : option (TbStore * CodeBuffer) :=
  if CODE_REFCOUNT_PAGES <=? p then Some (st, buf)
  else
    l <-! page_walk (S (length (tbs st))) st (page_heads st !! p) ;;
    match l with
    | _ :: _ => invalidate_list st buf l
    | [] =>
        if is_code_page st p
        then invalidate_scan st buf (global_gen st) p 0 (length (tbs st))
        else Some (st, buf)
    end.

(** *** Invalidation in the dispatch loop ([exec_loop.rs]) *)

(** Pages written since the last exit: only tracked code pages matter. *)
Fixpoint dirty_pages (st : TbStore) (buf : CodeBuffer) (dirty : list Z)
    : option (TbStore * CodeBuffer) :=
  match dirty with
  | [] => Some (st, buf)
  | p :: rest =>
      r <-! (if is_code_page st p then invalidate_phys_page st buf p else Some (st, buf)) ;;
      dirty_pages r.1 r.2 rest
  end.

Definition take_dirty_pages (st : TbStore) (jc : JumpCache.JumpCache) (buf : CodeBuffer)
    (dirty : list Z) : option (TbStore * JumpCache.JumpCache * CodeBuffer) :=
  match dirty with
  | [] => Some (st, jc, buf)
  | _ :: _ => r <-! dirty_pages st buf dirty ;; Some (r.1, JumpCache.invalidate jc, r.2)
  end.

Fixpoint flush_pages (st : TbStore) (buf : CodeBuffer) (dirty : list Z)
    : option (TbStore * CodeBuffer) :=
  match dirty with
  | [] => Some (st, buf)
  | p :: rest => r <-! invalidate_phys_page st buf p ;; flush_pages r.1 r.2 rest
  end.

(** [ArchExitAction::FlushDirtyTbPages]. *)
Definition flush_dirty_tb_pages (st : TbStore) (jc : JumpCache.JumpCache) (buf : CodeBuffer)
    (dirty : list Z) : option (TbStore * JumpCache.JumpCache * CodeBuffer) :=
  match dirty with
  | [] => Some (invalidate_all st, JumpCache.invalidate jc, buf)
  | _ :: _ => r <-! flush_pages st buf dirty ;; Some (r.1, JumpCache.invalidate jc, r.2)
  end.

Definition flush (st : TbStore) : TbStore := mk_TbStore [] ∅ ∅ ∅ (global_gen st).

(** *** Chaining ([exec_loop.rs]) *)

Definition set_dest (slot dst : nat) (tb : TranslationBlock) : TranslationBlock :=
  set_jmp (mk_TbJmpState (<[slot := Some dst]> (jmp_dest (jmp tb))) (jmp_list (jmp tb))) tb.

Definition push_edge (src slot : nat) (tb : TranslationBlock) : TranslationBlock :=
  set_jmp (mk_TbJmpState (jmp_dest (jmp tb)) (jmp_list (jmp tb) ++ [(src, slot)])) tb.

Definition tb_add_jump (st : TbStore) (buf : CodeBuffer) (src slot dst : nat)
    : option (TbStore * CodeBuffer) :=
  src_tb <-! get st src ;;
  jo <-! slot_get (jmp_insn_offset src_tb) slot ;;
  match jo with
  | None => Some (st, buf)
  | Some jmp_off =>
      dst_tb <-! get st dst ;;
      if negb (current st dst_tb) then Some (st, buf)
      else
        d <-! slot_get (jmp_dest (jmp src_tb)) slot ;;
        if decide (d = Some dst) then Some (st, buf)
        else
          buf <-! patch_jump be buf jmp_off (host_offset dst_tb) ;;
          st <-! upd st src (set_dest slot dst) ;;
          st <-! upd st dst (push_edge src slot) ;;
          Some (st, buf)
  end.

End Invalidate.

(** *** Translation ([exec_loop.rs])

    What the guest front end and the backend produce for a block: parameters of
    [tb_gen_code], which records them. *)
Record Generated := mk_Generated {
  g_size : Z;
  g_insns : Z;
  g_instret_discarded : Z;
  g_phys_pc : Z;
  g_host_offset : Z;
  g_host_size : Z;
  g_atomic : bool;
  g_offsets : list (option (Z * Z));
  g_buf : CodeBuffer
}.

(** The fields written before [mark_code_page], the generation stamp included. *)
Definition stamp (g : Generated) (gen_now : Z) (tb : TranslationBlock) : TranslationBlock :=
  {| pc := pc tb; cs_base := cs_base tb; flags := flags tb; cflags := cflags tb;
     Tb.size := g_size g; icount := g_insns g; instret_discarded := g_instret_discarded g;
     host_offset := host_offset tb; host_size := host_size tb;
     jmp_insn_offset := jmp_insn_offset tb; jmp_reset_offset := jmp_reset_offset tb;
     phys_pc := g_phys_pc g; hash_next := hash_next tb; page_next := page_next tb;
     jmp := jmp tb; contains_atomic := contains_atomic tb; invalid := invalid tb;
     gen := gen_now; exit_target := exit_target tb |}.

(** The fields written after translation. *)
Definition set_host (g : Generated) (tb : TranslationBlock) : TranslationBlock :=
  {| pc := pc tb; cs_base := cs_base tb; flags := flags tb; cflags := cflags tb;
     Tb.size := Tb.size tb; icount := icount tb; instret_discarded := instret_discarded tb;
     host_offset := g_host_offset g; host_size := g_host_size g;
     jmp_insn_offset := jmp_insn_offset tb; jmp_reset_offset := jmp_reset_offset tb;
     phys_pc := phys_pc tb; hash_next := hash_next tb; page_next := page_next tb;
     jmp := jmp tb; contains_atomic := g_atomic g; invalid := invalid tb; gen := gen tb;
     exit_target := exit_target tb |}.

(** [for (i, offset) in offsets.iter().enumerate()]. *)
Fixpoint set_offsets (tb : TranslationBlock) (i : nat) (l : list (option (Z * Z)))
    : option TranslationBlock :=
  match l with
  | [] => Some tb
  | None :: rest => set_offsets tb (S i) rest
  | Some (j, r) :: rest =>
      tb <-! set_jmp_insn_offset tb i (wrap 32 j) ;;
      tb <-! set_jmp_reset_offset tb i (wrap 32 r) ;;
      set_offsets tb (S i) rest
  end.

(** From the stamp to the jump offsets. *)
Definition record_block (st : TbStore) (i : nat) (g : Generated) : option TbStore :=
  st <-! upd st i (stamp g (global_gen st)) ;;
  st <-! mark_code_page st (shr (g_phys_pc g) 12) i ;;
  st <-! upd st i (set_host g) ;;
  tb <-! get st i ;;
  tb <-! set_offsets tb 0 (g_offsets g) ;;
  upd st i (fun _ => tb).

Definition MIN_CODE_BUF_REMAINING : Z := 4096.

(** [cur_phys] is [cpu.translate_pc(pc)], [res] the outcome of code generation
    ([None] when the front end produced nothing, a fetch fault); the retry with
    fewer instructions after a [longjmp] out of a full buffer is not modelled. *)
Definition tb_gen_code (st : TbStore) (jc : JumpCache.JumpCache) (buf : CodeBuffer)
    (cur_phys p f cf : Z) (res : option Generated)
    : option (option nat * TbStore * JumpCache.JumpCache * CodeBuffer) :=
  let ephemeral := negb (cf =? 0) in
  if remaining buf <? MIN_CODE_BUF_REMAINING then Some (None, st, jc, buf)
  else
    hit <-! (if ephemeral then Some None
             else
               found <-! lookup st p f ;;
               match found with
               | None => Some None
               | Some i =>
                   tb <-! get st i ;;
                   Some (if negb (cur_phys =? u64_max) && (phys_pc tb =? cur_phys)
                         then Some i else None)
               end) ;;
    match hit with
    | Some i => Some (Some i, st, JumpCache.insert jc p i, buf)
    | None =>
        let '(ix, st) := alloc st p f cf in
        match ix with
        | None => Some (None, st, jc, buf)
        | Some i =>
            match res with
            | None => st <-! upd st i set_invalid ;; Some (None, st, jc, buf)
            | Some g =>
                st <-! record_block st i g ;;
                if ephemeral then Some (Some i, st, jc, g_buf g)
                else
                  st <-! insert st i ;;
                  Some (Some i, st, JumpCache.insert jc p i, g_buf g)
            end
        end
    end.

Definition tb_find (st : TbStore) (jc : JumpCache.JumpCache) (buf : CodeBuffer)
    (cur_phys p f : Z) (res : option Generated)
    : option (option nat * TbStore * JumpCache.JumpCache * CodeBuffer) :=
  if cur_phys =? u64_max then tb_gen_code st jc buf cur_phys p f 0 res
  else
    fast <-! match JumpCache.lookup jc p with
             | None => Some None
             | Some i =>
                 tb <-! get st i ;;
                 Some (if current st tb && (pc tb =? p) && (flags tb =? f)
                          && (phys_pc tb =? cur_phys) then Some i else None)
             end ;;
    match fast with
    | Some i => Some (Some i, st, jc, buf)
    | None =>
        found <-! lookup st p f ;;
        slow <-! match found with
                 | None => Some None
                 | Some i =>
                     tb <-! get st i ;;
                     Some (if phys_pc tb =? cur_phys then Some i else None)
                 end ;;
        match slow with
        | Some i => Some (Some i, st, JumpCache.insert jc p i, buf)
        | None => tb_gen_code st jc buf cur_phys p f 0 res
        end
    end.

(** The store and cache part of [flush_pending_tbs]. *)
Definition flush_pending_tbs (st : TbStore) (jc : JumpCache.JumpCache) (pending : bool)
    : bool * TbStore * JumpCache.JumpCache :=
  if negb pending then (false, st, jc)
  else (true, invalidate_all st, JumpCache.invalidate jc).

(** Recovery from a full buffer ([run_riscv_cpu] in [system/src/lib.rs]): everything
    is dropped and code generation restarts at [code_gen_start]. *)
Definition recover_buffer_full (st : TbStore) (jc : JumpCache.JumpCache) (buf : CodeBuffer)
    (code_gen_start : Z) : option (TbStore * JumpCache.JumpCache * CodeBuffer) :=
  let st := flush (invalidate_all st) in
  buf <-! set_offset buf code_gen_start ;;
  Some (st, JumpCache.invalidate jc, buf).

(** The target remembered for indirect exits: stored after a search, reused when it
    is current and has the key. *)
Definition store_exit_target (st : TbStore) (src dst : nat) : option TbStore :=
  upd st src (set_exit_target (Z.of_nat dst)).

Definition cached_target (st : TbStore) (src : nat) (p f : Z) : option (option nat) :=
  stb <-! get st src ;;
  let cached := exit_target stb in
  if cached =? EXIT_TARGET_NONE then Some None
  else
    tb <-! get st (Z.to_nat cached) ;;
    Some (if current st tb && (pc tb =? p) && (flags tb =? f)
          then Some (Z.to_nat cached) else None).

(** ** Intrusive lists *)

(** The list of blocks reached from a head through a link field. *)
Inductive chain (next : TranslationBlock -> option nat) (l : list TranslationBlock)
    : option nat -> list nat -> Prop :=
| chain_nil : chain next l None []
| chain_cons i tb c :
    l !! i = Some tb -> chain next l (next tb) c -> chain next l (Some i) (i :: c).

Section Chains.
Variable next : TranslationBlock -> option nat.

Lemma chain_det l h c1 c2 : chain next l h c1 -> chain next l h c2 -> c1 = c2.
Proof.
  intros H1. revert c2. induction H1 as [|i tb c Hi _ IH]; intros c2 H2; inversion H2;
    subst; [done|]. simplify_eq. f_equal. by apply IH.
Qed.

Lemma chain_suffix l h c1 i c2 : chain next l h (c1 ++ i :: c2) -> chain next l (Some i) (i :: c2).
Proof.
  revert h. induction c1 as [|x c1 IH]; intros h H; inversion H; subst; [|by eapply IH].
  by econstructor.
Qed.

(** A finite chain has no cycle. *)
Lemma chain_NoDup l h c : chain next l h c -> NoDup c.
Proof.
  intros H. remember (length c) as n eqn:En. revert h c H En.
  induction n as [n IH] using lt_wf_ind. intros h c H ->. inversion H as [|i tb c' Hi Hc]; subst.
  { constructor. }
  constructor; [|by eapply (IH (length c')); [simpl; lia|..]].
  intros (c1 & c2 & ->)%list_elem_of_split.
  pose proof (chain_suffix _ _ _ _ _ Hc) as Hs. pose proof (chain_det _ _ _ _ H Hs) as E.
  apply (f_equal length) in E. simpl in E. rewrite length_app in E. simpl in E. lia.
Qed.

Lemma chain_lookup l h c i : chain next l h c -> i ∈ c -> is_Some (l !! i).
Proof.
  induction 1 as [|j tb c Hj _ IH]; [by intros ?%elem_of_nil|].
  intros [->|Hin]%elem_of_cons; [by eexists|by apply IH].
Qed.

Lemma chain_length l h c : chain next l h c -> (length c <= length l)%nat.
Proof.
  intros H. pose proof (chain_NoDup _ _ _ H) as Hnd.
  rewrite <- (length_seq (length l) 0). apply submseteq_length.
  apply NoDup_submseteq; [done|]. intros i Hi. apply elem_of_seq.
  destruct (chain_lookup _ _ _ _ H Hi) as [tb Htb]. apply lookup_lt_Some in Htb. lia.
Qed.

(** Changing blocks that keep their link, or are not on the chain. *)
Lemma chain_frame l l' h c :
  chain next l h c ->
  (forall i tb, i ∈ c -> l !! i = Some tb ->
     exists tb', l' !! i = Some tb' /\ next tb' = next tb) ->
  chain next l' h c.
Proof.
  induction 1 as [|i tb c Hi _ IH]; intros Hf; [constructor|].
  destruct (Hf i tb) as (tb' & Htb' & En); [by left|done|].
  econstructor; [done|]. rewrite En. apply IH. intros j tbj Hj. apply Hf. by right.
Qed.

End Chains.

(** ** Families of lists

    Each head owns a list whose members have the head's key, so the lists are
    disjoint. *)
Section Linked.
Variable next : TranslationBlock -> option nat.
Variable set_next : option nat -> TranslationBlock -> TranslationBlock.
Variable key : TranslationBlock -> Z.
Hypothesis next_set : forall n tb, next (set_next n tb) = n.
Hypothesis key_set : forall n tb, key (set_next n tb) = key tb.

Definition linked (heads : gmap Z nat) (l : list TranslationBlock) : Prop :=
  forall b, exists c, chain next l (heads !! b) c /\
    forall i, i ∈ c -> exists tb, l !! i = Some tb /\ key tb = b.

Definition on_list (heads : gmap Z nat) (l : list TranslationBlock) (i : nat) : Prop :=
  exists b c, chain next l (heads !! b) c /\ i ∈ c.

Lemma linked_frame heads l l' :
  linked heads l ->
  (forall i tb, on_list heads l i -> l !! i = Some tb ->
     exists tb', l' !! i = Some tb' /\ next tb' = next tb /\ key tb' = key tb) ->
  linked heads l' /\ (forall i, on_list heads l' i <-> on_list heads l i).
Proof.
  intros Hl Hf.
  assert (Hc : forall b c, chain next l (heads !! b) c -> chain next l' (heads !! b) c).
  { intros b c Hc. eapply chain_frame; [done|]. intros i tb Hi Htb.
    destruct (Hf i tb) as (tb' & ? & ? & _); [by exists b, c|done|eauto]. }
  split.
  - intros b. destruct (Hl b) as (c & Hch & Hk). exists c. split; [by apply Hc|].
    intros i Hi. destruct (Hk i Hi) as (tb & Htb & <-).
    destruct (Hf i tb) as (tb' & ? & _ & ?); [by eexists _, c|done|eauto].
  - intros i. split; intros (b & c & Hch & Hi); exists b, c; split; auto.
    destruct (Hl b) as (c' & Hch' & _). by rewrite (chain_det _ _ _ _ _ Hch (Hc _ _ Hch')).
Qed.

Lemma linked_app heads l tb :
  linked heads l -> linked heads (l ++ [tb]) /\
  (forall i, on_list heads (l ++ [tb]) i <-> on_list heads l i).
Proof.
  intros Hl. apply linked_frame; [done|]. intros i t _ Hi. exists t.
  split; [by apply lookup_app_l_Some|done].
Qed.

Lemma on_list_lookup heads l i : on_list heads l i -> is_Some (l !! i).
Proof. intros (b & c & H & Hi). by eapply chain_lookup. Qed.

(** Membership determines the head. *)
Lemma on_list_key heads l i tb :
  linked heads l -> on_list heads l i -> l !! i = Some tb ->
  exists c, chain next l (heads !! key tb) c /\ i ∈ c.
Proof.
  intros Hl (b & c & Hc & Hi) Htb. exists c. split; [|done].
  destruct (Hl b) as (c' & Hc' & Hk). rewrite (chain_det _ _ _ _ _ Hc Hc') in Hi.
  destruct (Hk i Hi) as (tb' & ? & ?). simplify_eq. done.
Qed.

(** Prepending a block that is on no list. *)
Lemma linked_push heads l i tb :
  linked heads l -> l !! i = Some tb -> ~ on_list heads l i ->
  let heads' := put_head heads (key tb) (Some i) in
  let l' := <[i := set_next (heads !! key tb) tb]> l in
  linked heads' l' /\ (forall j, on_list heads' l' j <-> j = i \/ on_list heads l j).
Proof.
  intros Hl Hi Hni heads' l'. pose proof (lookup_lt_Some _ _ _ Hi) as Hlt.
  assert (Hsame : forall b c, chain next l (heads !! b) c -> chain next l' (heads !! b) c).
  { intros b c Hc. eapply chain_frame; [done|]. intros j t Hj Ht. exists t. split; [|done].
    unfold l'. rewrite list_lookup_insert_ne; [done|]. intros <-. destruct Hni. by exists b, c. }
  assert (Hpush : forall c, chain next l (heads !! key tb) c ->
    chain next l' (heads' !! key tb) (i :: c)).
  { intros c Hc. unfold heads', put_head. rewrite lookup_partial_alter_eq.
    econstructor; [by apply list_lookup_insert_eq|]. rewrite next_set. by apply Hsame. }
  assert (Hother : forall b, b <> key tb -> heads' !! b = heads !! b).
  { intros b Hb. unfold heads', put_head. by rewrite lookup_partial_alter_ne. }
  assert (Hkey : forall j t, l !! j = Some t -> exists t', l' !! j = Some t' /\ key t' = key t).
  { intros j t Ht. unfold l'. destruct (decide (i = j)) as [<-|].
    - rewrite list_lookup_insert_eq by done. simplify_eq. eauto.
    - rewrite list_lookup_insert_ne by done. eauto. }
  split.
  - intros b. destruct (Hl b) as (c & Hc & Hk).
    assert (Hk' : forall j, j ∈ c -> exists t, l' !! j = Some t /\ key t = b).
    { intros j Hj. destruct (Hk j Hj) as (t & Ht & <-). by apply Hkey. }
    destruct (decide (b = key tb)) as [->|Hne].
    + exists (i :: c). split; [by apply Hpush|]. intros j [->|Hj]%elem_of_cons; [|auto].
      by apply Hkey.
    + exists c. rewrite Hother by done. split; [by apply Hsame|done].
  - intros j. split.
    + intros (b & c & Hc & Hj). destruct (decide (b = key tb)) as [->|Hne].
      * destruct (Hl (key tb)) as (c0 & Hc0 & _).
        rewrite (chain_det _ _ _ _ _ Hc (Hpush _ Hc0)) in Hj.
        apply elem_of_cons in Hj as [->|Hj]; [by left|right; by exists (key tb), c0].
      * destruct (Hl b) as (c0 & Hc0 & _). rewrite Hother in Hc by done.
        rewrite (chain_det _ _ _ _ _ Hc (Hsame _ _ Hc0)) in Hj. right. by exists b, c0.
    + intros [->|(b & c & Hc & Hj)].
      * destruct (Hl (key tb)) as (c0 & Hc0 & _). exists (key tb), (i :: c0).
        split; [by apply Hpush|by left].
      * destruct (decide (b = key tb)) as [->|Hne].
        -- exists (key tb), (i :: c). split; [by apply Hpush|by right].
        -- exists b, c. rewrite Hother by done. split; [by apply Hsame|done].
Qed.

(** The two ways a block leaves its list. *)
Lemma chain_unlink_head l i tb c :
  chain next l (Some i) (i :: c) -> l !! i = Some tb ->
  chain next (<[i := set_next None tb]> l) (next tb) c.
Proof.
  intros Hc Hi. pose proof (chain_NoDup _ _ _ _ Hc) as [Hni _]%NoDup_cons.
  inversion Hc; subst. simplify_eq. eapply chain_frame; [done|]. intros j t Hj Ht. exists t.
  split; [|done]. rewrite list_lookup_insert_ne; [done|]. by intros <-.
Qed.

Lemma chain_unlink_mid l h c1 q i c2 tbq tbi :
  chain next l h (c1 ++ q :: i :: c2) -> l !! q = Some tbq -> l !! i = Some tbi ->
  chain next (<[i := set_next None tbi]> (<[q := set_next (next tbi) tbq]> l)) h (c1 ++ q :: c2).
Proof.
  intros Hc Hq Hi. pose proof (chain_NoDup _ _ _ _ Hc) as Hnd.
  pose proof (lookup_lt_Some _ _ _ Hq) as Hlq.
  apply NoDup_app in Hnd as (Hnd1 & Hd & Hnd2).
  apply NoDup_cons in Hnd2 as [Hq2 Hnd2]. apply NoDup_cons in Hnd2 as [Hi2 Hnd2].
  assert (Hqi : q <> i) by (intros ->; set_solver).
  set (l' := <[i := _]> _).
  assert (Hkeep : forall j, j <> i -> j <> q -> l' !! j = l !! j).
  { intros j Hji Hjq. unfold l'. by rewrite !list_lookup_insert_ne by done. }
  revert h Hc. induction c1 as [|x c1 IH]; intros h Hc; inversion Hc as [|? t ? Ht Hrest]; subst.
  - inversion Hrest as [E1 E2|? t2 ? Ht2 Hrest2 E1 E2]; subst. simplify_eq. simpl.
    apply (chain_cons _ _ _ (set_next (next tbi) tbq)).
    { unfold l'. rewrite list_lookup_insert_ne by done. by apply list_lookup_insert_eq. }
    rewrite next_set. eapply chain_frame; [done|]. intros j tj Hj Htj. exists tj.
    split; [|done]. rewrite Hkeep; [done|set_solver..].
  - simpl. apply (chain_cons _ _ _ t).
    { rewrite Hkeep; [done|..]; intros ->; apply (Hd _ (list_elem_of_here _ _)); set_solver. }
    apply IH; [by apply NoDup_cons in Hnd1 as [_ ?]|set_solver|done].
Qed.

(** Removing [i] from the list of head [b]. *)
Lemma linked_shrink heads l heads' l' b c1 i c2 :
  linked heads l -> chain next l (heads !! b) (c1 ++ i :: c2) ->
  chain next l' (heads' !! b) (c1 ++ c2) ->
  (forall b', b' <> b -> heads' !! b' = heads !! b') ->
  (forall j, j ∉ c1 ++ i :: c2 -> l' !! j = l !! j) ->
  (forall j t, l !! j = Some t -> exists t', l' !! j = Some t' /\ key t' = key t) ->
  linked heads' l' /\ (forall j, on_list heads' l' j <-> on_list heads l j /\ j <> i).
Proof.
  intros Hl Hc Hc' Hh Hk Hkey.
  destruct (Hl b) as (c0 & Hc0 & Hkb). pose proof (chain_det _ _ _ _ _ Hc0 Hc) as ->.
  assert (Hdis : forall b' c, b' <> b -> chain next l (heads !! b') c ->
    forall j, j ∈ c -> j ∉ c1 ++ i :: c2).
  { intros b' c Hne Hcb j Hj Hjc. destruct (Hl b') as (c' & Hcb' & Hkb').
    rewrite (chain_det _ _ _ _ _ Hcb Hcb') in Hj.
    destruct (Hkb' j Hj) as (t1 & ? & ?), (Hkb j Hjc) as (t2 & ? & ?). simplify_eq. }
  assert (Hother : forall b' c, b' <> b -> chain next l (heads !! b') c ->
    chain next l' (heads' !! b') c).
  { intros b' c Hne Hcb. rewrite Hh by done. eapply chain_frame; [done|].
    intros j t Hj Ht. exists t. split; [|done]. rewrite Hk; [done|]. by eapply Hdis. }
  assert (Hni : i ∉ c1 ++ c2).
  { pose proof (chain_NoDup _ _ _ _ Hc) as Hnd. rewrite <- Permutation_middle in Hnd.
    by apply NoDup_cons in Hnd as [? _]. }
  split.
  - intros b'. destruct (decide (b' = b)) as [->|Hne].
    + exists (c1 ++ c2). split; [done|]. intros j Hj.
      destruct (Hkb j) as (t & Ht & <-); [set_solver|by apply Hkey].
    + destruct (Hl b') as (c & Hcb & Hkb'). exists c. split; [by apply Hother|].
      intros j Hj. destruct (Hkb' j Hj) as (t & Ht & <-). by apply Hkey.
  - intros j. split.
    + intros (b' & c & Hcb & Hj). destruct (decide (b' = b)) as [->|Hne].
      * rewrite (chain_det _ _ _ _ _ Hcb Hc') in Hj. split; [|by intros ->].
        exists b, (c1 ++ i :: c2). split; [done|set_solver].
      * destruct (Hl b') as (c0 & Hcb0 & _).
        rewrite (chain_det _ _ _ _ _ Hcb (Hother _ _ Hne Hcb0)) in Hj.
        split; [by exists b', c0|]. intros ->. eapply Hdis; [done|exact Hcb0|done|set_solver].
    + intros [(b' & c & Hcb & Hj) Hji]. destruct (decide (b' = b)) as [->|Hne].
      * rewrite (chain_det _ _ _ _ _ Hcb Hc) in Hj. exists b, (c1 ++ c2).
        split; [done|set_solver].
      * exists b', c. split; [by apply Hother|done].
Qed.

(** Blocks keep everything but their link. *)
Definition relinked (l l' : list TranslationBlock) : Prop :=
  length l' = length l /\
  forall j t, l !! j = Some t -> exists n, l' !! j = Some (set_next n t).

Hypothesis set_same : forall tb, set_next (next tb) tb = tb.

Lemma relinked_refl l : relinked l l.
Proof. split; [done|]. intros j t Ht. exists (next t). by rewrite set_same. Qed.

Lemma relinked_insert l l' i t n :
  relinked l l' -> l !! i = Some t -> relinked l (<[i := set_next n t]> l').
Proof.
  intros [Hlen H] Hi. split; [by rewrite length_insert|]. intros j u Hj.
  destruct (decide (i = j)) as [<-|Hne].
  - simplify_eq. rewrite list_lookup_insert_eq; [eauto|].
    rewrite Hlen. by eapply lookup_lt_Some.
  - rewrite list_lookup_insert_ne by done. by apply H.
Qed.

(** A block appended at the front of its list. *)
Lemma linked_new heads l tb :
  linked heads l -> next tb = heads !! key tb ->
  let heads' := put_head heads (key tb) (Some (length l)) in
  linked heads' (l ++ [tb]) /\
  (forall j, on_list heads' (l ++ [tb]) j <-> j = length l \/ on_list heads l j).
Proof.
  intros Hl Hn heads'. destruct (linked_app heads l tb Hl) as [Hl1 Ho1].
  destruct (linked_push heads (l ++ [tb]) (length l) tb Hl1) as [Hl2 Ho2].
  - by apply list_lookup_middle.
  - rewrite Ho1. intros [t Ht%lookup_lt_Some]%on_list_lookup. lia.
  - rewrite <- Hn, set_same, list_insert_id in Hl2, Ho2 by by apply list_lookup_middle.
    split; [done|]. intros j. unfold heads'. by rewrite Ho2, Ho1.
Qed.

Lemma linked_remove_head heads l b i tb c :
  linked heads l -> heads !! b = Some i -> chain next l (Some i) (i :: c) -> l !! i = Some tb ->
  let heads' := put_head heads b (next tb) in
  let l' := <[i := set_next None tb]> l in
  linked heads' l' /\ (forall j, on_list heads' l' j <-> on_list heads l j /\ j <> i) /\
  relinked l l'.
Proof.
  intros Hl Hb Hc Hi heads' l'.
  assert (Hr : relinked l l') by (apply relinked_insert; [apply relinked_refl|done]).
  assert (linked heads' l' /\ (forall j, on_list heads' l' j <-> on_list heads l j /\ j <> i))
    as [? ?]; [|done].
  apply (linked_shrink heads l heads' l' b [] i c); try done.
  - by rewrite Hb.
  - unfold heads', put_head. rewrite lookup_partial_alter_eq. by apply chain_unlink_head.
  - intros b' Hne. unfold heads', put_head. by rewrite lookup_partial_alter_ne.
  - intros j Hj. unfold l'. rewrite list_lookup_insert_ne; [done|set_solver].
  - intros j t Ht. destruct (proj2 Hr j t Ht) as [n ->]. eauto.
Qed.

Lemma linked_remove_mid heads l b c1 q i c2 tbq tbi :
  linked heads l -> chain next l (heads !! b) (c1 ++ q :: i :: c2) ->
  l !! q = Some tbq -> l !! i = Some tbi ->
  let l' := <[i := set_next None tbi]> (<[q := set_next (next tbi) tbq]> l) in
  linked heads l' /\ (forall j, on_list heads l' j <-> on_list heads l j /\ j <> i) /\
  relinked l l'.
Proof.
  intros Hl Hc Hq Hi l'.
  assert (Hr : relinked l l').
  { apply relinked_insert; [|done]. apply relinked_insert; [apply relinked_refl|done]. }
  assert (linked heads l' /\ (forall j, on_list heads l' j <-> on_list heads l j /\ j <> i))
    as [? ?]; [|done].
  apply (linked_shrink heads l heads l' b (c1 ++ [q]) i c2); try done.
  - by rewrite <- app_assoc.
  - rewrite <- app_assoc. by apply chain_unlink_mid.
  - intros j Hj. unfold l'. rewrite !list_lookup_insert_ne; [done|set_solver..].
  - intros j t Ht. destruct (proj2 Hr j t Ht) as [n ->]. eauto.
Qed.

End Linked.

(** ** The two families of the store *)

Definition hash_key (tb : TranslationBlock) : Z := tb_hash (pc tb) (flags tb).
Definition page_key (tb : TranslationBlock) : Z := shr (phys_pc tb) 12.

Definition hash_linked (st : TbStore) : Prop := linked hash_next hash_key (hash st) (tbs st).
Definition page_linked (st : TbStore) : Prop := linked page_next page_key (page_heads st) (tbs st).
Definition hashed (st : TbStore) (i : nat) : Prop := on_list hash_next (hash st) (tbs st) i.
Definition paged (st : TbStore) (i : nat) : Prop := on_list page_next (page_heads st) (tbs st) i.

Lemma upd_Some st i tb f :
  get st i = Some tb -> upd st i f = Some (set_tbs st (<[i := f tb]> (tbs st))).
Proof. intros H. unfold upd. by rewrite H. Qed.

Lemma chain_head next l h c : chain next l h c -> h = head c.
Proof. by destruct 1. Qed.

Lemma set_hash_same tb : set_hash_next (hash_next tb) tb = tb.
Proof. by destruct tb. Qed.

Lemma set_page_same tb : set_page_next (page_next tb) tb = tb.
Proof. by destruct tb. Qed.

Lemma last_snoc_inv {A} (c : list A) q : last c = Some q -> exists c', c = c' ++ [q].
Proof.
  destruct c as [|x c _] using rev_ind; [done|]. rewrite last_snoc. intros [= ->]. eauto.
Qed.

(** [unlink_hash] takes the block out of its bucket and changes nothing else. *)
Lemma unlink_hash_spec b i c : forall fuel st c1,
  hash_linked st -> chain hash_next (tbs st) (hash st !! b) (c1 ++ c) ->
  (length c <= fuel)%nat -> i ∉ c1 -> (hashed st i -> i ∈ c) ->
  exists st', unlink_hash fuel st b i (last c1) (head c) = Some st' /\
    hash_linked st' /\ (forall j, hashed st' j <-> hashed st j /\ j <> i) /\
    relinked set_hash_next (tbs st) (tbs st') /\
    code_pages st' = code_pages st /\ page_heads st' = page_heads st /\
    global_gen st' = global_gen st.
Proof.
  induction c as [|x c IH]; intros fuel st c1 Hl Hc Hf Hi Hon.
  { exists st. destruct fuel; (split; [done|]); split_and!; try done;
      try (by apply (relinked_refl hash_next), set_hash_same);
      (intros j; split; [intros Hj; split; [done|intros ->; set_solver]|by intros []]). }
  destruct fuel as [|fuel]; [simpl in Hf; lia|]. simpl.
  destruct (chain_lookup _ _ _ _ x Hc) as [tb Htb]; [set_solver|].
  unfold get. rewrite Htb. pose proof (chain_suffix _ _ _ _ _ _ Hc) as Hx.
  inversion Hx as [|? tb' ? Htb' Hrest]; subst. simplify_eq.
  destruct (decide (x = i)) as [->|Hne].
  - destruct (last c1) as [q|] eqn:Eq.
    + apply last_snoc_inv in Eq as [c1' ->]. rewrite <- app_assoc in Hc. simpl in Hc.
      destruct (chain_lookup _ _ _ _ q Hc) as [tbq Hq]; [set_solver|].
      rewrite (upd_Some st q tbq) by done.
      rewrite (upd_Some _ i tb) by (unfold get; simpl; rewrite list_lookup_insert_ne; [done|];
        intros ->; set_solver).
      destruct (linked_remove_mid hash_next set_hash_next hash_key ltac:(done) ltac:(done)
        set_hash_same (hash st) (tbs st) b c1' q i c tbq tb) as (Hl' & Ho' & Hr'); try done.
      eexists. split; [done|]. by split_and!.
    + apply last_None in Eq as ->. simpl in Hc. pose proof (chain_head _ _ _ _ Hc) as Hh.
      simpl in Hh. rewrite (upd_Some _ i tb) by done.
      destruct (linked_remove_head hash_next set_hash_next hash_key ltac:(done) ltac:(done)
        set_hash_same (hash st) (tbs st) b i tb c) as (Hl' & Ho' & Hr'); try done.
      eexists. split; [done|]. by split_and!.
  - rewrite (chain_head _ _ _ _ Hrest). rewrite <- (last_snoc x c1).
    apply (IH fuel st (c1 ++ [x])); try done; [by rewrite <- app_assoc|simpl in Hf; lia|set_solver|].
    intros H%Hon. set_solver.
Qed.

(** [unlink_walk] does the same for the page list. *)
Lemma unlink_walk_spec p i c : forall fuel st c1,
  page_linked st -> chain page_next (tbs st) (page_heads st !! p) (c1 ++ c) ->
  (length c < fuel)%nat -> i ∉ c1 -> (paged st i -> i ∈ c) ->
  exists st', unlink_walk fuel st p i (last c1) (head c) = Some st' /\
    page_linked st' /\ (forall j, paged st' j <-> paged st j /\ j <> i) /\
    relinked set_page_next (tbs st) (tbs st') /\
    code_pages st' = code_pages st /\ hash st' = hash st /\ global_gen st' = global_gen st.
Proof.
  induction c as [|x c IH]; intros fuel st c1 Hl Hc Hf Hi Hon.
  { exists st. destruct fuel; (split; [done|]); split_and!; try done;
      try (by apply (relinked_refl page_next), set_page_same);
      (intros j; split; [intros Hj; split; [done|intros ->; set_solver]|by intros []]). }
  destruct fuel as [|fuel]; [simpl in Hf; lia|]. simpl.
  destruct (chain_lookup _ _ _ _ x Hc) as [tb Htb]; [set_solver|].
  pose proof (lookup_lt_Some _ _ _ Htb) as Hlt. rewrite decide_False by lia.
  unfold get. rewrite Htb. pose proof (chain_suffix _ _ _ _ _ _ Hc) as Hx.
  inversion Hx as [|? tb' ? Htb' Hrest]; subst. simplify_eq.
  destruct (decide (x = i)) as [->|Hne].
  - destruct (last c1) as [q|] eqn:Eq.
    + apply last_snoc_inv in Eq as [c1' ->]. rewrite <- app_assoc in Hc. simpl in Hc.
      destruct (chain_lookup _ _ _ _ q Hc) as [tbq Hq]; [set_solver|].
      rewrite (upd_Some st q tbq) by done.
      rewrite (upd_Some _ i tb) by (unfold get; simpl; rewrite list_lookup_insert_ne; [done|];
        intros ->; set_solver).
      destruct (linked_remove_mid page_next set_page_next page_key ltac:(done) ltac:(done)
        set_page_same (page_heads st) (tbs st) p c1' q i c tbq tb) as (Hl' & Ho' & Hr'); try done.
      eexists. split; [done|]. by split_and!.
    + apply last_None in Eq as ->. simpl in Hc. pose proof (chain_head _ _ _ _ Hc) as Hh.
      simpl in Hh. rewrite (upd_Some _ i tb) by done.
      destruct (linked_remove_head page_next set_page_next page_key ltac:(done) ltac:(done)
        set_page_same (page_heads st) (tbs st) p i tb c) as (Hl' & Ho' & Hr'); try done.
      eexists. split; [done|]. by split_and!.
  - assert (Hn : match page_next tb with
                 | Some n => if decide (n < length (tbs st))%nat then Some n else None
                 | None => None
                 end = head c).
    { rewrite (chain_head _ _ _ _ Hrest). destruct c as [|y c]; [done|]. simpl.
      destruct (chain_lookup _ _ _ _ y Hrest) as [ty Hy%lookup_lt_Some]; [set_solver|].
      by rewrite decide_True. }
    rewrite Hn, <- (last_snoc x c1).
    apply (IH fuel st (c1 ++ [x])); try done; [by rewrite <- app_assoc|simpl in Hf; lia|set_solver|].
    intros H%Hon. set_solver.
Qed.

(** ** Walks over the lists *)

Definition matches (st : TbStore) (p f : Z) (tb : TranslationBlock) : bool :=
  current st tb && (pc tb =? p) && (flags tb =? f).

Lemma lookup_walk_spec st p f c : forall fuel cur,
  chain hash_next (tbs st) cur c -> (length c <= fuel)%nat ->
  exists r, lookup_walk fuel st p f cur = Some r /\
    match r with
    | Some i => exists tb, i ∈ c /\ get st i = Some tb /\ matches st p f tb = true
    | None => forall i tb, i ∈ c -> get st i = Some tb -> matches st p f tb = false
    end.
Proof.
  induction c as [|x c IH]; intros fuel cur Hc Hf; inversion Hc as [|? tb ? Htb Hrest]; subst.
  { exists None. destruct fuel; (split; [done|set_solver]). }
  destruct fuel as [|fuel]; [simpl in Hf; lia|]. simpl. unfold get at 1. rewrite Htb.
  fold (matches st p f tb). destruct (matches st p f tb) eqn:Em.
  - exists (Some x). split; [done|]. exists tb. split; [by left|done].
  - destruct (IH fuel (hash_next tb) Hrest) as (r & -> & Hr); [simpl in Hf; lia|].
    exists r. split; [done|]. destruct r as [i|].
    + destruct Hr as (ti & ? & ? & ?). exists ti. split; [by right|done].
    + intros i ti [->|Hi]%elem_of_cons Hti; [|by eapply Hr].
      unfold get in Hti. congruence.
Qed.

Lemma page_walk_spec st c : forall fuel cur,
  chain page_next (tbs st) cur c -> (length c < fuel)%nat ->
  exists l, page_walk fuel st cur = Some l /\ NoDup l /\
    (forall i, i ∈ l <-> i ∈ c /\ exists tb, get st i = Some tb /\ current st tb = true).
Proof.
  induction c as [|x c IH]; intros fuel cur Hc Hf; inversion Hc as [|? tb ? Htb Hrest]; subst.
  { exists []. destruct fuel; (split; [done|]); split; [constructor|set_solver|constructor|set_solver]. }
  pose proof (chain_NoDup _ _ _ _ Hc) as [Hx Hnd]%NoDup_cons.
  destruct fuel as [|fuel]; [simpl in Hf; lia|]. simpl.
  rewrite decide_False by (pose proof (lookup_lt_Some _ _ _ Htb); lia).
  unfold get at 1. rewrite Htb.
  destruct (IH fuel (page_next tb) Hrest) as (l & -> & Hndl & Hl); [simpl in Hf; lia|].
  eexists. split; [done|]. destruct (current st tb) eqn:Ec; split.
  - apply NoDup_cons. split; [|done]. intros [Hi _]%Hl. done.
  - intros i. rewrite !elem_of_cons, Hl. split.
    + intros [->|[? ?]]; [|by auto]. split; [by left|]. exists tb. done.
    + intros [[->|?] ?]; auto.
  - done.
  - intros i. rewrite elem_of_cons, Hl. split; [intros [? ?]; auto|].
    intros [[->|?] (ti & Hti & ?)]; [|eauto]. unfold get in Hti. congruence.
Qed.

(** ** Chained jumps *)

(** The part of a block that chaining reads and writes. *)
Record JV := mk_JV {
  v_dest : list (option nat);
  v_list : list (nat * nat);
  v_invalid : bool;
  v_gen : Z;
  v_host : Z;
  v_insn : list (option Z);
  v_reset : list (option Z)
}.

Definition jview (tb : TranslationBlock) : JV :=
  mk_JV (jmp_dest (jmp tb)) (jmp_list (jmp tb)) (invalid tb) (gen tb) (host_offset tb)
    (jmp_insn_offset tb) (jmp_reset_offset tb).

(** The patched jump of slot [s]. *)
Definition jump_at (v : JV) (s : nat) (o r : Z) : Prop :=
  v_insn v !! s = Some (Some o) /\ v_reset v !! s = Some (Some r).

(** What one block's fields satisfy on their own. *)
Record shape (sz g : Z) (v : JV) : Prop := mk_shape {
  sh_dest : length (v_dest v) = 2%nat;
  sh_insn : length (v_insn v) = 2%nat;
  sh_reset : length (v_reset v) = 2%nat;
  sh_pair : forall s o, v_insn v !! s = Some (Some o) -> exists r, v_reset v !! s = Some (Some r);
  sh_range : forall s o r, jump_at v s o r -> 0 <= o /\ o + 5 <= sz /\ 0 <= r <= sz;
  sh_host : 0 <= v_host v <= sz;
  sh_gen : 0 <= v_gen v <= g
}.

Record jumps_ok (vs : list JV) (g : Z) (buf : CodeBuffer) : Prop := mk_jumps_ok {
  j_size : 0 <= size buf < 2 ^ 31;
  j_shape : forall i v, vs !! i = Some v -> shape (size buf) g v;
  (** an outgoing edge is recorded at its target, which is valid, and of the
      current generation when its source is *)
  j_dest : forall i v s d, vs !! i = Some v -> v_dest v !! s = Some (Some d) ->
    (exists o, v_insn v !! s = Some (Some o)) /\
    exists u, vs !! d = Some u /\ (i, s) ∈ v_list u /\ v_invalid u = false /\
      (v_gen v = g -> v_gen u = g);
  j_list : forall d u i s, vs !! d = Some u -> (i, s) ∈ v_list u ->
    is_Some (vs !! i) /\ (s < 2)%nat;
  j_apart : forall i i' v v' s s' o o' r r', vs !! i = Some v -> vs !! i' = Some v' ->
    jump_at v s o r -> jump_at v' s' o' r' -> (i, s) <> (i', s') -> jumps_apart o o';
  (** the code of a valid block jumps to its recorded target, or to its own exit *)
  j_code : forall i v s o r, vs !! i = Some v -> v_invalid v = false -> jump_at v s o r ->
    match v_dest v !! s with
    | Some (Some d) => exists u, vs !! d = Some u /\ jump_target buf o = v_host u
    | _ => jump_target buf o = r
    end
}.

(** Only the chaining state of blocks changes. *)
Definition rejumped (l l' : list TranslationBlock) : Prop :=
  length l' = length l /\
  forall k tb, l !! k = Some tb -> exists j, l' !! k = Some (set_jmp j tb).

Lemma set_jmp_same tb : set_jmp (jmp tb) tb = tb.
Proof. by destruct tb. Qed.

Lemma rejumped_refl l : rejumped l l.
Proof. split; [done|]. intros k tb H. exists (jmp tb). by rewrite set_jmp_same. Qed.

Lemma rejumped_insert l i tb j : l !! i = Some tb -> rejumped l (<[i := set_jmp j tb]> l).
Proof.
  intros Hi. split; [by rewrite length_insert|]. intros k t Hk.
  destruct (decide (i = k)) as [<-|].
  - rewrite list_lookup_insert_eq by by eapply lookup_lt_Some. simplify_eq. eauto.
  - rewrite list_lookup_insert_ne by done. exists (jmp t). by rewrite set_jmp_same.
Qed.

Lemma rejumped_trans l1 l2 l3 : rejumped l1 l2 -> rejumped l2 l3 -> rejumped l1 l3.
Proof.
  intros [Hl1 H1] [Hl2 H2]. split; [congruence|]. intros k tb Hk.
  destruct (H1 k tb Hk) as [j1 Hj1]. destruct (H2 k _ Hj1) as [j2 ->]. by exists j2.
Qed.

Definition same_heads (st st' : TbStore) : Prop :=
  hash st' = hash st /\ code_pages st' = code_pages st /\ page_heads st' = page_heads st /\
  global_gen st' = global_gen st.

Section Jumps.
Context {B : Type} `{HostCodeGenLaws B}.
Variable be : B.

Lemma reset_jump_spec tb buf s sz g :
  shape sz g (jview tb) -> size buf = sz -> sz < 2 ^ 31 -> (s < 2)%nat ->
  exists buf', reset_jump be tb buf s = Some buf' /\ size buf' = size buf /\
    (forall o r, jump_at (jview tb) s o r -> jump_target buf' o = r) /\
    (forall o', (forall o r, jump_at (jview tb) s o r -> jumps_apart o o') ->
       jump_target buf' o' = jump_target buf o').
Proof.
  intros Hsh Hsz Hlt Hs. unfold reset_jump, slot_get.
  destruct (lookup_lt_is_Some_2 (jmp_insn_offset tb) s) as [jo Hjo];
    [pose proof (sh_insn _ _ _ Hsh) as E; simpl in E; lia|].
  destruct (lookup_lt_is_Some_2 (jmp_reset_offset tb) s) as [ro Hro];
    [pose proof (sh_reset _ _ _ Hsh) as E; simpl in E; lia|].
  rewrite Hjo, Hro. destruct jo as [o|], ro as [r|].
  2,3,4: exists buf; split_and!; try done; intros o' r' [H1 H2]; simpl in *; congruence.
  assert (Hj : jump_at (jview tb) s o r) by done.
  destruct (sh_range _ _ _ Hsh s o r Hj) as (Ho1 & Ho2 & Hr).
  destruct (patch_jump_ok be buf o r) as [buf' E]; [lia..|]. exists buf'. split; [done|].
  split; [by eapply patch_jump_keeps|]. split.
  - intros o' r' [H1 H2]. simpl in *. simplify_eq. by eapply patch_jump_same.
  - intros o' Ha. eapply patch_jump_other; [done|]. by eapply Ha.
Qed.

(** After the incoming edges are unlinked: exactly the listed edges are gone, and
    exactly their jumps go to their own exits. *)
Lemma unlink_incoming_spec l : forall st buf g,
  size buf < 2 ^ 31 ->
  (forall k tb, tbs st !! k = Some tb -> shape (size buf) g (jview tb)) ->
  (forall k k' t t' s s' o o' r r', tbs st !! k = Some t -> tbs st !! k' = Some t' ->
     jump_at (jview t) s o r -> jump_at (jview t') s' o' r' -> (k, s) <> (k', s') ->
     jumps_apart o o') ->
  (forall k s, (k, s) ∈ l -> is_Some (tbs st !! k) /\ (s < 2)%nat) ->
  exists st' buf', unlink_incoming be st buf l = Some (st', buf') /\
    same_heads st st' /\ size buf' = size buf /\ length (tbs st') = length (tbs st) /\
    (forall k tb, tbs st !! k = Some tb -> exists j, tbs st' !! k = Some (set_jmp j tb) /\
       jmp_list j = jmp_list (jmp tb) /\
       forall s, jmp_dest j !! s
         = if decide ((k, s) ∈ l) then Some None else jmp_dest (jmp tb) !! s) /\
    (forall k tb s o r, tbs st !! k = Some tb -> jump_at (jview tb) s o r ->
       jump_target buf' o = if decide ((k, s) ∈ l) then r else jump_target buf o).
Proof.
  induction l as [|[src slot] l IH]; intros st buf g Hsz Hsh Hap Hin.
  { exists st, buf. split_and!; try done.
    intros k tb Hk. exists (jmp tb). split; [by rewrite set_jmp_same|]. split; [done|].
    intros s. by rewrite decide_False by set_solver. }
  destruct (Hin src slot) as [[tb Htb] Hs]; [by left|]. simpl. unfold get at 1. rewrite Htb.
  destruct (reset_jump_spec tb buf slot (size buf) g) as (buf1 & -> & Hsz1 & Hself & Hoth);
    [by eapply Hsh|done|done|done|].
  rewrite (upd_Some st src tb) by done.
  set (st1 := set_tbs st (<[src := clear_dest slot tb]> (tbs st))).
  assert (Hst1 : forall k t1, tbs st1 !! k = Some t1 -> exists t, tbs st !! k = Some t /\
    exists j, t1 = set_jmp j t /\ jmp_list j = jmp_list (jmp t) /\
      jmp_dest j = if decide (k = src) then <[slot := None]> (jmp_dest (jmp t))
                   else jmp_dest (jmp t)).
  { intros k t1. simpl. intros [(-> & <- & _)|[Hne Hk]]%list_lookup_insert_Some.
    - exists tb. split; [done|]. eexists. split; [done|]. by rewrite decide_True.
    - exists t1. split; [done|]. exists (jmp t1). rewrite set_jmp_same, decide_False by done.
      done. }
  assert (Hlk : forall k, is_Some (tbs st1 !! k) <-> is_Some (tbs st !! k))
    by (intros k; simpl; rewrite list_lookup_insert_is_Some; done).
  destruct (IH st1 buf1 g) as (st' & buf' & -> & Hsame & Hsz' & Hlen & Htbs & Hjt).
  { lia. }
  { intros k t1 Hk. destruct (Hst1 k t1 Hk) as (t & Ht & j & -> & _ & Hd).
    destruct (Hsh k t Ht) as [A1 A2 A3 A4 A5 A6 A7]. rewrite Hsz1. split; try done. simpl.
    rewrite Hd. case_decide; [by rewrite length_insert|done]. }
  { intros k k' t t' s s' o o' r r' Hk Hk' Hj Hj'.
    destruct (Hst1 k t Hk) as (t0 & Ht0 & j & -> & _).
    destruct (Hst1 k' t' Hk') as (t0' & Ht0' & j' & -> & _). by eapply Hap. }
  { intros k s Hks. destruct (Hin k s) as [? ?]; [by right|]. by rewrite Hlk. }
  exists st', buf'. split; [done|]. split_and!; try done.
  - congruence.
  - rewrite Hlen. simpl. by rewrite length_insert.
  - intros k t Ht. destruct (proj2 (Hlk k) (mk_is_Some _ _ Ht)) as [t1 Ht1].
    destruct (Hst1 k t1 Ht1) as (t0 & Ht0 & j & -> & Hjl & Hjd). simplify_eq.
    destruct (Htbs k _ Ht1) as (j' & -> & Hjl' & Hjd'). exists j'.
    split; [done|]. split; [by rewrite Hjl'|]. intros s. rewrite Hjd'. simpl. rewrite Hjd.
    destruct (decide ((k, s) ∈ l)) as [Hi|Hi]; [by rewrite decide_True by (by right)|].
    destruct (decide (k = src)) as [->|Hne].
    + destruct (decide (s = slot)) as [->|Hns].
      * rewrite decide_True by (by left). apply list_lookup_insert_eq.
        pose proof (sh_dest _ _ _ (Hsh src _ Ht)) as E. simpl in E. lia.
      * rewrite list_lookup_insert_ne by done. rewrite decide_False by set_solver. done.
    + rewrite decide_False by set_solver. done.
  - intros k t s o r Ht Hj. destruct (proj2 (Hlk k) (mk_is_Some _ _ Ht)) as [t1 Ht1].
    destruct (Hst1 k t1 Ht1) as (t0 & Ht0 & j & -> & _). simplify_eq.
    rewrite (Hjt k _ s o r Ht1 Hj).
    destruct (decide ((k, s) ∈ l)) as [Hi|Hi]; [by rewrite decide_True by (by right)|].
    destruct (decide ((k, s) = (src, slot))) as [[= -> ->]|Hne].
    + rewrite decide_True by (by left). simplify_eq. by apply Hself.
    + rewrite decide_False by set_solver. apply Hoth. intros o0 r0 Hj0.
      by eapply Hap; [exact Htb|exact Ht|..].
Qed.

End Jumps.

Lemma unlink_outgoing_spec i l : forall st,
  (forall s d, (s, d) ∈ l -> is_Some (tbs st !! d)) ->
  exists st', unlink_outgoing st i l = Some st' /\ same_heads st st' /\
    length (tbs st') = length (tbs st) /\
    forall k tb, tbs st !! k = Some tb -> exists j, tbs st' !! k = Some (set_jmp j tb) /\
      jmp_dest j = jmp_dest (jmp tb) /\
      (forall e, e ∈ jmp_list j -> e ∈ jmp_list (jmp tb)) /\
      (forall e, e ∈ jmp_list (jmp tb) -> e.1 <> i -> e ∈ jmp_list j).
Proof.
  induction l as [|[s d] l IH]; intros st Hin.
  { exists st. split_and!; try done. intros k tb Hk. exists (jmp tb).
    by rewrite set_jmp_same. }
  destruct (Hin s d) as [td Htd]; [by left|]. simpl. rewrite (upd_Some st d td) by done.
  set (st1 := set_tbs st (<[d := drop_edge i s td]> (tbs st))).
  destruct (IH st1) as (st' & -> & Hsame & Hlen & Htbs).
  { intros s' d' H. simpl. rewrite list_lookup_insert_is_Some. eapply Hin. by right. }
  exists st'. split_and!; try done.
  { rewrite Hlen. simpl. by rewrite length_insert. }
  intros k tb Hk. destruct (decide (d = k)) as [<-|Hne].
  - simplify_eq. destruct (Htbs d (drop_edge i s td)) as (j & Hj & Hjd & Hsub & Hkeep).
    { simpl. apply list_lookup_insert_eq. by eapply lookup_lt_Some. }
    exists j. split; [done|]. split; [done|]. simpl in Hsub, Hkeep. split.
    + intros e He. apply Hsub in He. by apply list_elem_of_filter in He as [_ ?].
    + intros e He Hei. apply Hkeep; [|done]. apply list_elem_of_filter. split; [|done].
      destruct e as [e1 e2]. simpl in Hei. rewrite bool_decide_eq_false_2; [done|congruence].
  - apply Htbs. simpl. by rewrite list_lookup_insert_ne.
Qed.

(** ** Frames *)

(** What identifies a block and its code. *)
Definition same_code (t t' : TranslationBlock) : Prop :=
  pc t' = pc t /\ flags t' = flags t /\ cflags t' = cflags t /\ phys_pc t' = phys_pc t /\
  gen t' = gen t /\ host_offset t' = host_offset t /\
  jmp_insn_offset t' = jmp_insn_offset t /\ jmp_reset_offset t' = jmp_reset_offset t.

(** Everything outside the links, the edges and the [invalid] flag. *)
Definition same_id (t t' : TranslationBlock) : Prop :=
  same_code t t' /\ exit_target t' = exit_target t.

Definition same_ids (l l' : list TranslationBlock) : Prop :=
  length l' = length l /\
  forall k t, l !! k = Some t -> exists t', l' !! k = Some t' /\ same_id t t'.

Lemma same_ids_trans l1 l2 l3 : same_ids l1 l2 -> same_ids l2 l3 -> same_ids l1 l3.
Proof.
  intros [L1 H1] [L2 H2]. split; [congruence|]. intros k t Hk.
  destruct (H1 k t Hk) as (t2 & Hk2 & I1). destruct (H2 k t2 Hk2) as (t3 & Hk3 & I2).
  exists t3. split; [done|]. unfold same_id, same_code in *. intuition congruence.
Qed.

(** Blocks keep their links and keys. *)
Definition same_links (l l' : list TranslationBlock) : Prop :=
  forall k t, l !! k = Some t -> exists t', l' !! k = Some t' /\
    hash_next t' = hash_next t /\ page_next t' = page_next t /\
    hash_key t' = hash_key t /\ page_key t' = page_key t.

Definition lists_kept (st st' : TbStore) : Prop :=
  hash_linked st' /\ page_linked st' /\
  (forall j, hashed st' j <-> hashed st j) /\ (forall j, paged st' j <-> paged st j).

Lemma lists_frame st st' :
  hash_linked st -> page_linked st -> hash st' = hash st -> page_heads st' = page_heads st ->
  same_links (tbs st) (tbs st') -> lists_kept st st'.
Proof.
  intros Hh Hp Eh Ep Hs. unfold lists_kept, hash_linked, page_linked, hashed, paged.
  rewrite Eh, Ep.
  destruct (linked_frame hash_next hash_key (hash st) (tbs st) (tbs st') Hh) as [? ?].
  { intros i t _ Ht. destruct (Hs i t Ht) as (t' & ? & ? & ? & ? & ?). eauto. }
  destruct (linked_frame page_next page_key (page_heads st) (tbs st) (tbs st') Hp) as [? ?].
  { intros i t _ Ht. destruct (Hs i t Ht) as (t' & ? & ? & ? & ? & ?). eauto. }
  done.
Qed.

Lemma rejumped_links l l' : rejumped l l' -> same_links l l' /\ same_ids l l'.
Proof.
  intros [Hl H]. split; [|split; [done|]]; intros k t Hk; destruct (H k t Hk) as [j ->];
    eexists; (split; [done|]); by split_and!.
Qed.

Lemma relinked_hash_ids l l' :
  relinked set_hash_next l l' ->
  same_ids l l' /\ jview <$> l' = jview <$> l /\
  (forall k t, l !! k = Some t -> exists t', l' !! k = Some t' /\
     page_next t' = page_next t /\ page_key t' = page_key t /\ invalid t' = invalid t).
Proof.
  intros [Hl H]. split_and!.
  - split; [done|]. intros k t Hk. destruct (H k t Hk) as [n ->].
    eexists. split; [done|]. by split_and!.
  - apply list_eq. intros k. rewrite !list_lookup_fmap.
    destruct (l !! k) as [t|] eqn:E; simpl; [by destruct (H k t E) as [n ->]|].
    apply lookup_ge_None in E. by rewrite lookup_ge_None_2 by lia.
  - intros k t Hk. destruct (H k t Hk) as [n ->]. by eexists.
Qed.

Lemma relinked_page_ids l l' :
  relinked set_page_next l l' ->
  same_ids l l' /\ jview <$> l' = jview <$> l /\
  (forall k t, l !! k = Some t -> exists t', l' !! k = Some t' /\
     hash_next t' = hash_next t /\ hash_key t' = hash_key t /\ invalid t' = invalid t /\
     jmp t' = jmp t).
Proof.
  intros [Hl H]. split_and!.
  - split; [done|]. intros k t Hk. destruct (H k t Hk) as [n ->].
    eexists. split; [done|]. by split_and!.
  - apply list_eq. intros k. rewrite !list_lookup_fmap.
    destruct (l !! k) as [t|] eqn:E; simpl; [by destruct (H k t E) as [n ->]|].
    apply lookup_ge_None in E. by rewrite lookup_ge_None_2 by lia.
  - intros k t Hk. destruct (H k t Hk) as [n ->]. by eexists.
Qed.

(** ** Invalidating one block *)

(** What [invalidate i] does to block [k]; [li] are the incoming edges of [i]. *)
Record hit (i : nat) (li : list (nat * nat)) (k : nat) (t t' : TranslationBlock) : Prop := mk_hit {
  hit_id : same_id t t';
  hit_invalid : invalid t' = invalid t || bool_decide (k = i);
  hit_dest : forall s, jmp_dest (jmp t') !! s
    = if decide (k = i) then [None; None] !! s
      else if decide ((k, s) ∈ li) then Some None else jmp_dest (jmp t) !! s;
  hit_sub : forall e, e ∈ jmp_list (jmp t') -> e ∈ jmp_list (jmp t);
  hit_keep : forall e, k <> i -> e ∈ jmp_list (jmp t) -> e.1 <> i -> e ∈ jmp_list (jmp t')
}.

Lemma lookup_length {A} (l l' : list A) :
  (forall i, is_Some (l !! i) <-> is_Some (l' !! i)) -> length l = length l'.
Proof.
  intros H. apply Nat.le_antisymm; apply Nat.nlt_ge; intros Hlt.
  - apply lookup_lt_is_Some_2, H, lookup_lt_is_Some_1 in Hlt. lia.
  - apply lookup_lt_is_Some_2, H, lookup_lt_is_Some_1 in Hlt. lia.
Qed.

Lemma jump_at_id t t' s o r :
  same_id t t' -> jump_at (jview t') s o r <-> jump_at (jview t) s o r.
Proof. intros ((_ & _ & _ & _ & _ & _ & Ei & Er) & _). unfold jump_at. simpl. by rewrite Ei, Er. Qed.

(** Invalidating one block keeps the chaining consistent. *)
Section Hit.
Variables (i : nat) (ti : TranslationBlock) (l l' : list TranslationBlock).
Variables (g : Z) (buf buf' : CodeBuffer).
Hypothesis Hi : l !! i = Some ti.
Hypothesis Hlen : length l' = length l.
Hypothesis Hok : jumps_ok (jview <$> l) g buf.
Hypothesis Hh : forall k t, l !! k = Some t -> exists t', l' !! k = Some t' /\
  hit i (jmp_list (jmp ti)) k t t'.
Hypothesis Hsz : size buf' = size buf.
Hypothesis Ht : forall k t s o r, l !! k = Some t -> jump_at (jview t) s o r ->
  jump_target buf' o = if decide ((k, s) ∈ jmp_list (jmp ti)) then r else jump_target buf o.

Lemma hit_back k v' :
  (jview <$> l') !! k = Some v' ->
  exists t t', l !! k = Some t /\ v' = jview t' /\ hit i (jmp_list (jmp ti)) k t t'.
Proof.
  intros (t' & -> & Ht')%list_lookup_fmap_Some. destruct (lookup_lt_is_Some_2 l k) as [t Hk].
  { rewrite <- Hlen. by eapply lookup_lt_Some. }
  destruct (Hh k t Hk) as (t'' & Ht'' & Hhit). simplify_eq. eauto.
Qed.

Lemma view_lookup k t (m : list TranslationBlock) :
  m !! k = Some t -> (jview <$> m) !! k = Some (jview t).
Proof. intros Hk. by rewrite list_lookup_fmap, Hk. Qed.

Lemma hit_shape k v' : (jview <$> l') !! k = Some v' -> shape (size buf') g v'.
Proof.
  intros (t & t' & Hk & -> & [Hid Hin Hd Hsub Hkeep])%hit_back.
  destruct (j_shape _ _ _ Hok k _ (view_lookup k t l Hk)) as [A1 A2 A3 A4 A5 A6 A7].
  pose proof Hid as ((_ & _ & _ & _ & Eg & Eh & Ei & Er) & _). simpl in *.
  rewrite Hsz. split; simpl; rewrite ?Eg, ?Eh, ?Ei, ?Er; try done.
  - rewrite <- A1. apply lookup_length. intros s. rewrite Hd.
    destruct (decide (k = i)) as [E|E].
    + rewrite !lookup_lt_is_Some. by rewrite A1.
    + destruct (decide ((k, s) ∈ _)) as [E2|]; [|reflexivity].
      rewrite lookup_lt_is_Some, A1. split; [intros _|eauto].
      destruct (j_list _ _ _ Hok i _ k s (view_lookup i ti l Hi) E2). done.
  - intros s o r Hj. apply (A5 s). by apply (jump_at_id t t').
Qed.

Lemma hit_dest_ok k v' s d :
  (jview <$> l') !! k = Some v' -> v_dest v' !! s = Some (Some d) ->
  (exists o, v_insn v' !! s = Some (Some o)) /\
  exists u, (jview <$> l') !! d = Some u /\ (k, s) ∈ v_list u /\ v_invalid u = false /\
    (v_gen v' = g -> v_gen u = g).
Proof.
  intros (t & t' & Hk & -> & [Hid Hin Hd Hsub Hkeep])%hit_back. simpl. rewrite Hd.
  destruct (decide (k = i)) as [->|Hki]; [by destruct s as [|[|]]|].
  destruct (decide ((k, s) ∈ _)) as [|Hnin]; [done|]. intros Hds.
  destruct (j_dest _ _ _ Hok k _ s d (view_lookup k t l Hk) Hds)
    as ((o & Ho) & u & Hu & Hul & Hui & Hug).
  split. { exists o. destruct Hid as ((_ & _ & _ & _ & _ & _ & -> & _) & _). done. }
  apply list_lookup_fmap_Some in Hu as (td & -> & Hdk).
  assert (d <> i) as Hdi. { intros ->. rewrite Hi in Hdk. by injection Hdk as <-. }
  destruct (Hh d td Hdk) as (td' & Hdk' & [Hid' Hin' _ _ Hkeep']).
  exists (jview td'). split; [by apply view_lookup|].
  destruct Hid as ((_ & _ & _ & _ & Eg & _) & _), Hid' as ((_ & _ & _ & _ & Eg' & _) & _). simpl in *.
  rewrite Hin', bool_decide_eq_false_2, orb_false_r, Eg, Eg' by done. auto.
Qed.

Lemma hit_code k v' s o r :
  (jview <$> l') !! k = Some v' -> v_invalid v' = false -> jump_at v' s o r ->
  match v_dest v' !! s with
  | Some (Some d) => exists u, (jview <$> l') !! d = Some u /\ jump_target buf' o = v_host u
  | _ => jump_target buf' o = r
  end.
Proof.
  intros (t & t' & Hk & -> & [Hid Hin Hd Hsub Hkeep])%hit_back Hinv Hj.
  apply (jump_at_id t t') in Hj; [|done]. simpl in Hinv |- *.
  rewrite Hin in Hinv. apply orb_false_iff in Hinv as [Hinv Hki%bool_decide_eq_false].
  rewrite Hd, decide_False by done. rewrite (Ht k t s o r Hk Hj).
  destruct (decide ((k, s) ∈ _)) as [E|E]; [done|].
  pose proof (j_code _ _ _ Hok k _ s o r (view_lookup k t l Hk) Hinv Hj) as Jc. simpl in Jc.
  destruct (jmp_dest (jmp t) !! s) as [[d|]|]; try done.
  destruct Jc as (u & (td & -> & Hdk)%list_lookup_fmap_Some & ->).
  destruct (Hh d td Hdk) as (td' & Hdk' & [((_ & _ & _ & _ & _ & Eh & _) & _) _ _ _ _]).
  exists (jview td'). split; [by apply view_lookup|by simpl].
Qed.

Lemma hit_jumps_ok : jumps_ok (jview <$> l') g buf'.
Proof.
  split.
  - rewrite Hsz. apply Hok.
  - apply hit_shape.
  - apply hit_dest_ok.
  - intros d u' j s (t & t' & Hk & -> & [Hid Hin Hd Hsub Hkeep])%hit_back Hjs.
    destruct (j_list _ _ _ Hok d _ j s (view_lookup d t l Hk) (Hsub _ Hjs)) as [Hj Hs].
    split; [|done]. rewrite list_lookup_fmap, fmap_is_Some, lookup_lt_is_Some in *.
    by rewrite Hlen.
  - intros k k' v v' s s' o o' r r' (t & t' & Hk & -> & Hhit)%hit_back
      (u & u' & Hk' & -> & Hhit')%hit_back Hj Hj'.
    apply (jump_at_id t t') in Hj; [|apply Hhit]. apply (jump_at_id u u') in Hj'; [|apply Hhit'].
    by eapply (j_apart _ _ _ Hok); [apply view_lookup|apply view_lookup|..].
  - apply hit_code.
Qed.

End Hit.

(** The page heads beyond the tracked range stay empty. *)
Definition heads_ok (st : TbStore) : Prop :=
  forall p, CODE_REFCOUNT_PAGES <= p -> page_heads st !! p = None.

Lemma paged_range st i tb :
  page_linked st -> heads_ok st -> paged st i -> tbs st !! i = Some tb ->
  page_key tb < CODE_REFCOUNT_PAGES.
Proof.
  intros Hl Hh Hp Hi. destruct (on_list_key _ _ _ _ _ _ Hl Hp Hi) as (c & Hc & Hin).
  destruct (Z.lt_ge_cases (page_key tb) CODE_REFCOUNT_PAGES) as [|Hge]; [done|].
  rewrite Hh in Hc by done. inversion Hc. subst. by apply elem_of_nil in Hin.
Qed.

Lemma unlink_page_spec st i tb :
  page_linked st -> heads_ok st -> tbs st !! i = Some tb ->
  exists st', unlink_page st (page_key tb) i = Some st' /\
    page_linked st' /\ (forall j, paged st' j <-> paged st j /\ j <> i) /\
    relinked set_page_next (tbs st) (tbs st') /\
    code_pages st' = code_pages st /\ hash st' = hash st /\ global_gen st' = global_gen st.
Proof.
  intros Hl Hh Hi. unfold unlink_page.
  destruct (Z.leb_spec CODE_REFCOUNT_PAGES (page_key tb)) as [Hge|Hlt].
  - exists st. split_and!; try done; [|by apply (relinked_refl page_next), set_page_same].
    intros j. split; [|by intros []]. intros Hj. split; [done|]. intros ->.
    pose proof (paged_range _ _ _ Hl Hh Hj Hi). lia.
  - destruct (Hl (page_key tb)) as (c & Hc & Hk).
    rewrite (chain_head _ _ _ _ Hc). change None with (last (@nil nat)).
    apply unlink_walk_spec; [done|done| |set_solver|].
    + pose proof (chain_length _ _ _ _ Hc). lia.
    + intros Hp. destruct (on_list_key _ _ _ _ _ _ Hl Hp Hi) as (c' & Hc' & Hin).
      by rewrite (chain_det _ _ _ _ _ Hc Hc').
Qed.

Lemma same_links_insert l i t t' :
  l !! i = Some t -> hash_next t' = hash_next t -> page_next t' = page_next t ->
  hash_key t' = hash_key t -> page_key t' = page_key t -> same_links l (<[i := t']> l).
Proof.
  intros Hi E1 E2 E3 E4 k u Hk. destruct (decide (i = k)) as [<-|].
  - rewrite list_lookup_insert_eq by by eapply lookup_lt_Some. simplify_eq. by eexists.
  - rewrite list_lookup_insert_ne by done. by eexists.
Qed.

(** The effect of invalidating a list of blocks. *)
Record invalidated (li : list nat) (st : TbStore) (buf : CodeBuffer) (st' : TbStore)
    (buf' : CodeBuffer) : Prop := mk_invalidated {
  iv_hash : hash_linked st';
  iv_page : page_linked st';
  iv_heads : heads_ok st';
  iv_jumps : jumps_ok (jview <$> tbs st') (global_gen st') buf';
  iv_hashed : forall j, hashed st' j <-> hashed st j /\ j ∉ li;
  iv_paged : forall j, paged st' j <-> paged st j /\ j ∉ li;
  iv_gen : global_gen st' = global_gen st;
  iv_len : length (tbs st') = length (tbs st);
  iv_tbs : forall k t, tbs st !! k = Some t -> exists t', tbs st' !! k = Some t' /\
    same_id t t' /\ invalid t' = invalid t || bool_decide (k ∈ li);
  iv_count : forall p, (forall i t, i ∈ li -> tbs st !! i = Some t -> page_key t <> p) ->
    code_page st' p = code_page st p;
  iv_nonneg : forall p, 0 <= code_page st p -> 0 <= code_page st' p
}.

Section InvalidateSpec.
Context {B : Type} `{HostCodeGenLaws B}.
Variable be : B.
Variables (st : TbStore) (buf : CodeBuffer) (i : nat) (tb : TranslationBlock).
Hypothesis Hhash : hash_linked st.
Hypothesis Hpage : page_linked st.
Hypothesis Hheads : heads_ok st.
Hypothesis Hjumps : jumps_ok (jview <$> tbs st) (global_gen st) buf.
Hypothesis Hi : tbs st !! i = Some tb.

(** Up to the page list: the block is marked and off its page. *)
Lemma invalidate_page_part :
  exists st3,
    (st1 <-! upd st i set_invalid ;;
     unlink_page (dec_code_page st1 (page_key tb)) (page_key tb) i) = Some st3 /\
    hash_linked st3 /\ page_linked st3 /\ heads_ok st3 /\
    (forall j, hashed st3 j <-> hashed st j) /\ (forall j, paged st3 j <-> paged st j /\ j <> i) /\
    global_gen st3 = global_gen st /\ hash st3 = hash st /\ length (tbs st3) = length (tbs st) /\
    (forall k t, tbs st !! k = Some t -> exists n, tbs st3 !! k
       = Some (set_page_next n (if decide (k = i) then set_invalid t else t))) /\
    (forall p, p <> page_key tb -> code_page st3 p = code_page st p) /\
    (forall p, 0 <= code_page st p -> 0 <= code_page st3 p).
Proof.
  rewrite (upd_Some st i tb) by done.
  set (st1 := set_tbs st (<[i := set_invalid tb]> (tbs st))).
  set (st2 := dec_code_page st1 (page_key tb)).
  assert (E2 : tbs st2 = <[i := set_invalid tb]> (tbs st) /\ hash st2 = hash st /\
    page_heads st2 = page_heads st /\ global_gen st2 = global_gen st).
  { unfold st2, dec_code_page. by case_if. }
  destruct E2 as (Et & Eh & Ep & Eg).
  destruct (lists_frame st st2 Hhash Hpage Eh Ep) as (Hh2 & Hp2 & Hhd2 & Hpd2).
  { rewrite Et. by apply (same_links_insert _ _ tb). }
  assert (Hi2 : tbs st2 !! i = Some (set_invalid tb)).
  { rewrite Et. apply list_lookup_insert_eq. by eapply lookup_lt_Some. }
  destruct (unlink_page_spec st2 i (set_invalid tb) Hp2) as
    (st3 & E3 & Hp3 & Hpd3 & Hr3 & Ec3 & Eh3 & Eg3); [by unfold heads_ok; rewrite Ep|done|].
  exists st3. split; [exact E3|]. destruct (relinked_page_ids _ _ Hr3) as (_ & _ & Hk3).
  destruct (linked_frame hash_next hash_key (hash st2) (tbs st2) (tbs st3) Hh2) as [Hh3 Hhd3].
  { intros k t _ Ht. destruct (Hk3 k t Ht) as (t' & ? & ? & ? & _). eauto. }
  split; [by unfold hash_linked; rewrite Eh3|]. split; [done|]. split_and!.
  - intros p Hge. destruct (Hp3 p) as (c & Hc & Hk). destruct (page_heads st3 !! p) as [j|] eqn:E;
      [exfalso|done]. inversion Hc as [|? tj ? Hj Hcj]; subst.
    assert (Hpg : paged st3 j) by (exists p, (j :: c0); rewrite E; split; [done|by left]).
    apply Hpd3 in Hpg as [Hpg _]. destruct (Hk j) as (t' & Ht' & <-); [by left|]. simplify_eq.
    destruct (on_list_lookup _ _ _ _ Hpg) as [t2 Ht2].
    destruct (proj2 Hr3 j t2 Ht2) as [n Hn]. simplify_eq.
    pose proof (paged_range st2 j t2 Hp2 ltac:(by unfold heads_ok; rewrite Ep) Hpg Ht2) as Hlt.
    unfold page_key in *. simpl in Hge. lia.
  - intros j. unfold hashed. rewrite Eh3, Hhd3. apply Hhd2.
  - intros j. rewrite Hpd3, Hpd2. done.
  - congruence.
  - congruence.
  - rewrite (proj1 Hr3), Et. by rewrite length_insert.
  - intros k t Hk. destruct (decide (k = i)) as [->|Hne].
    + simplify_eq. by apply (proj2 Hr3).
    + apply (proj2 Hr3). rewrite Et. by rewrite list_lookup_insert_ne.
  - intros p Hne. unfold code_page. rewrite Ec3. unfold st2, dec_code_page.
    case_if; [|done]. simpl. by rewrite lookup_insert_ne.
  - intros p. unfold code_page. rewrite Ec3. unfold st2, dec_code_page. case_if; [|done]. simpl.
    destruct (decide (page_key tb = p)) as [->|]; [|by rewrite lookup_insert_ne].
    rewrite lookup_insert_eq. simpl. lia.
Qed.

(** The block at [k] once [i] is off its page and has no incoming list. *)
Definition detached (k : nat) (t : TranslationBlock) (n : option nat) : TranslationBlock :=
  let t' := set_page_next n (if decide (k = i) then set_invalid t else t) in
  if decide (k = i) then clear_list t' else t'.

Lemma detached_at k t n s o r :
  jump_at (jview (detached k t n)) s o r <-> jump_at (jview t) s o r.
Proof. unfold detached. by case_decide. Qed.

Lemma view_at k t : tbs st !! k = Some t -> (jview <$> tbs st) !! k = Some (jview t).
Proof. intros Hk. by rewrite list_lookup_fmap, Hk. Qed.

Section Edges.
Variable st3 : TbStore.
Hypothesis Hlen3 : length (tbs st3) = length (tbs st).
Hypothesis Htbs3 : forall k t, tbs st !! k = Some t -> exists n, tbs st3 !! k
  = Some (set_page_next n (if decide (k = i) then set_invalid t else t)).

(** The incoming list is taken. *)
Lemma take_list :
  exists st4, upd st3 i clear_list = Some st4 /\ same_heads st3 st4 /\
    rejumped (tbs st3) (tbs st4) /\ length (tbs st4) = length (tbs st) /\
    (forall k t, tbs st !! k = Some t -> exists n, tbs st4 !! k = Some (detached k t n)) /\
    (forall k t4, tbs st4 !! k = Some t4 ->
       exists t n, tbs st !! k = Some t /\ t4 = detached k t n).
Proof.
  destruct (Htbs3 i tb Hi) as [ni Hi3]. rewrite decide_True in Hi3 by done.
  rewrite (upd_Some st3 i _ _ Hi3). eexists. split; [done|]. split; [done|].
  split; [by apply rejumped_insert|].
  assert (Hlen4 : length (<[i := clear_list (set_page_next ni (set_invalid tb))]> (tbs st3))
    = length (tbs st)) by (by rewrite length_insert).
  split; [done|]. simpl.
  assert (H4 : forall k t, tbs st !! k = Some t -> exists n,
    <[i := clear_list (set_page_next ni (set_invalid tb))]> (tbs st3) !! k
    = Some (detached k t n)).
  { intros k t Hk. unfold detached. destruct (decide (k = i)) as [->|Hne].
    - simplify_eq. exists ni. apply list_lookup_insert_eq. by eapply lookup_lt_Some.
    - destruct (Htbs3 k t Hk) as [n Hn]. rewrite decide_False in Hn by done.
      exists n. by rewrite list_lookup_insert_ne. }
  split; [done|]. intros k t4 Hk. destruct (lookup_lt_is_Some_2 (tbs st) k) as [t Ht].
  { rewrite <- Hlen4. by eapply lookup_lt_Some. }
  destruct (H4 k t Ht) as [n Hn]. simplify_eq. eauto.
Qed.

End Edges.

(** The incoming edges are cut. *)
Lemma cut_incoming st4 :
  (forall k t, tbs st !! k = Some t -> exists n, tbs st4 !! k = Some (detached k t n)) ->
  (forall k t4, tbs st4 !! k = Some t4 ->
     exists t n, tbs st !! k = Some t /\ t4 = detached k t n) ->
  exists st5 buf', unlink_incoming be st4 buf (jmp_list (jmp tb)) = Some (st5, buf') /\
    same_heads st4 st5 /\ size buf' = size buf /\ rejumped (tbs st4) (tbs st5) /\
    (forall k t, tbs st !! k = Some t -> exists n j,
       tbs st5 !! k = Some (set_jmp j (detached k t n)) /\
       jmp_list j = (if decide (k = i) then [] else jmp_list (jmp t)) /\
       forall s, jmp_dest j !! s = if decide ((k, s) ∈ jmp_list (jmp tb)) then Some None
                                   else jmp_dest (jmp t) !! s) /\
    (forall k t s o r, tbs st !! k = Some t -> jump_at (jview t) s o r ->
       jump_target buf' o
       = if decide ((k, s) ∈ jmp_list (jmp tb)) then r else jump_target buf o).
Proof.
  intros H4 Hback. destruct Hjumps as [Jsz Jsh Jd Jl Ja Jc].
  destruct (unlink_incoming_spec be (jmp_list (jmp tb)) st4 buf (global_gen st))
    as (st5 & buf' & E & Hsame & Hsz & Hlen & Htbs & Hjt); [lia| | | |].
  { intros k t4 (t & n & Ht & ->)%Hback.
    destruct (Jsh k _ (view_at k t Ht)) as [A1 A2 A3 A4 A5 A6 A7].
    split; unfold detached; case_decide; try done; intros s o r Hj; by apply (A5 s). }
  { intros k k' t t' s s' o o' r r' (t0 & n & Ht0 & ->)%Hback (t0' & n' & Ht0' & ->)%Hback
      Hj%detached_at Hj'%detached_at. by eapply Ja; [apply view_at|apply view_at|..]. }
  { intros k s Hks. destruct (Jl i _ k s (view_at i tb Hi) Hks) as [Hk Hs]. split; [|done].
    rewrite list_lookup_fmap, fmap_is_Some in Hk. destruct Hk as [t Ht].
    destruct (H4 k t Ht) as [n ->]. done. }
  exists st5, buf'. split_and!; try done.
  - split; [done|]. intros k t Hk. destruct (Htbs k t Hk) as (j & ? & _). eauto.
  - intros k t Ht. destruct (H4 k t Ht) as [n Hn]. destruct (Htbs k _ Hn) as (j & Hj & Hl & Hd).
    exists n, j. split; [done|]. unfold detached in Hl, Hd. destruct (decide (k = i)); done.
  - intros k t s o r Hk Hj. destruct (H4 k t Hk) as [n Hn].
    apply (Hjt k _ s o r Hn). by apply detached_at.
Qed.

(** The outgoing edges are forgotten at both ends. *)
Lemma cut_outgoing st5 :
  (forall k t, tbs st !! k = Some t -> exists n j,
     tbs st5 !! k = Some (set_jmp j (detached k t n)) /\
     jmp_list j = (if decide (k = i) then [] else jmp_list (jmp t)) /\
     forall s, jmp_dest j !! s = if decide ((k, s) ∈ jmp_list (jmp tb)) then Some None
                                 else jmp_dest (jmp t) !! s) ->
  exists st7,
    (tb' <-! get st5 i ;;
     st6 <-! upd st5 i clear_dests ;;
     unlink_outgoing st6 i (outgoing tb')) = Some st7 /\
    same_heads st5 st7 /\ rejumped (tbs st5) (tbs st7) /\
    (forall k t, tbs st !! k = Some t -> exists t', tbs st7 !! k = Some t' /\
       hit i (jmp_list (jmp tb)) k t t').
Proof.
  intros H5. destruct Hjumps as [Jsz Jsh Jd Jl Ja Jc].
  destruct (H5 i tb Hi) as (ni & ji & Hi5 & Hli & Hdi). rewrite decide_True in Hli by done.
  unfold get. rewrite Hi5, (upd_Some st5 i _ _ Hi5). set (st6 := set_tbs st5 _).
  destruct (unlink_outgoing_spec i (outgoing (set_jmp ji (detached i tb ni))) st6)
    as (st7 & -> & Hsame7 & Hlen7 & Htbs7).
  { intros s d Hsd. apply list_elem_of_omap in Hsd as (s0 & _ & Hsd). simpl in Hsd.
    rewrite Hdi in Hsd. destruct (decide ((i, s0) ∈ _)); [done|].
    destruct (jmp_dest (jmp tb) !! s0) as [[d'|]|] eqn:Ed; simpl in Hsd; simplify_eq.
    destruct (Jd i _ s d (view_at i tb Hi) Ed) as (_ & u & Hu & _).
    apply list_lookup_fmap_Some in Hu as (td & _ & Htd).
    simpl. rewrite list_lookup_insert_is_Some.
    destruct (H5 d td Htd) as (nd & jd & -> & _). done. }
  exists st7. split; [done|]. split; [done|].
  split.
  { apply (rejumped_trans _ (tbs st6)); [by apply rejumped_insert|]. split; [done|].
    intros k t Hk. destruct (Htbs7 k t Hk) as (j & ? & _). eauto. }
  intros k t Hk. destruct (decide (k = i)) as [->|Hne].
  - simplify_eq. destruct (Htbs7 i (clear_dests (set_jmp ji (detached i tb ni))))
      as (j & Hj & Hjd & Hsub & _).
    { apply list_lookup_insert_eq. by eapply lookup_lt_Some. }
    eexists. split; [exact Hj|]. simpl in Hjd, Hsub. rewrite Hli in Hsub.
    split; unfold detached; rewrite ?decide_True by done; try done.
    + by rewrite bool_decide_eq_true_2, orb_true_r.
    + intros s. rewrite decide_True by done. simpl. by rewrite Hjd.
    + intros e He. apply Hsub in He. set_solver.
  - destruct (H5 k t Hk) as (n & j5 & Hk5 & Hl5 & Hd5). rewrite decide_False in Hl5 by done.
    destruct (Htbs7 k (set_jmp j5 (detached k t n))) as (j & Hj & Hjd & Hsub & Hkeep).
    { simpl. by rewrite list_lookup_insert_ne. }
    eexists. split; [exact Hj|]. simpl in Hjd, Hsub, Hkeep. rewrite Hl5 in Hsub, Hkeep.
    split; unfold detached; rewrite ?decide_False by done; try done.
    + by rewrite bool_decide_eq_false_2, orb_false_r.
    + intros s. rewrite decide_False by done. simpl. by rewrite Hjd, Hd5.
    + intros e _. apply Hkeep.
Qed.

Lemma same_heads_trans s1 s2 s3 : same_heads s1 s2 -> same_heads s2 s3 -> same_heads s1 s3.
Proof. unfold same_heads. intuition congruence. Qed.

(** [invalidate] on a block in range always completes, with the effect above. *)
Lemma invalidate_spec :
  exists st' buf', invalidate be st buf i = Some (st', buf') /\
    invalidated [i] st buf st' buf'.
Proof.
  destruct invalidate_page_part as (st3 & E3 & Hh3 & Hp3 & Hhd3 & Hhs3 & Hps3 & Hg3 & Eh3 & Hl3 &
    Ht3 & Hc3 & Hn3).
  unfold invalidate. rewrite (upd_Some st i tb) in E3 |- * by done. cbv beta iota in E3.
  unfold get at 1. simpl tbs at 1.
  rewrite list_lookup_insert_eq by by eapply lookup_lt_Some.
  change (shr (phys_pc (set_invalid tb)) 12) with (page_key tb). cbv zeta beta iota.
  rewrite E3. change (jmp_list (jmp (set_invalid tb))) with (jmp_list (jmp tb)).
  destruct (take_list st3 Hl3 Ht3) as (st4 & -> & Hs4 & Hrj4 & Hl4 & Hf4 & Hb4).
  destruct (cut_incoming st4 Hf4 Hb4) as (st5 & buf' & -> & Hs5 & Hsz & Hrj5 & Ht5 & Hjt).
  destruct (cut_outgoing st5 Ht5) as (st7 & E7 & Hs7 & Hrj7 & Ht7).
  destruct (get st5 i) as [tb'|]; [|done]. destruct (upd st5 i clear_dests) as [st6|]; [|done].
  rewrite E7. clear E7. change (tb_hash _ _) with (hash_key tb).
  pose proof (same_heads_trans _ _ _ Hs4 (same_heads_trans _ _ _ Hs5 Hs7)) as (Eh7 & Ec7 & Ep7 & Eg7).
  pose proof (rejumped_trans _ _ _ Hrj4 (rejumped_trans _ _ _ Hrj5 Hrj7)) as Hrj.
  destruct (rejumped_links _ _ Hrj) as [Hlk _].
  destruct (lists_frame st3 st7 Hh3 Hp3 Eh7 Ep7 Hlk) as (Hh7 & Hp7 & Hhs7 & Hps7).
  destruct (Ht7 i tb Hi) as (t7 & Hi7 & [Hid7 _ _ _ _]).
  destruct (Hh7 (hash_key tb)) as (c & Hc & Hck). rewrite (chain_head _ _ _ _ Hc).
  destruct (unlink_hash_spec (hash_key tb) i c (length (tbs st7)) st7 [])
    as (st8 & E8 & Hh8 & Hhs8 & Hr8 & Ec8 & Ep8 & Eg8); try done.
  { by eapply chain_length. }
  { set_solver. }
  { intros Hon. destruct (on_list_key _ _ _ _ _ _ Hh7 Hon Hi7) as (c' & Hc' & Hin).
    destruct Hid7 as ((Epc & Efl & _) & _). unfold hash_key in Hc'. rewrite Epc, Efl in Hc'.
    by rewrite (chain_det _ _ _ _ _ Hc Hc'). }
  simpl in E8. rewrite E8. exists st8, buf'. split; [done|].
  destruct (relinked_hash_ids _ _ Hr8) as (Hids8 & Ev8 & Hk8).
  destruct (linked_frame page_next page_key (page_heads st7) (tbs st7) (tbs st8) Hp7) as [Hp8 Hps8].
  { intros k t _ Ht. destruct (Hk8 k t Ht) as (t' & ? & ? & ? & _). eauto. }
  split; try done.
  - unfold page_linked. by rewrite Ep8.
  - intros p Hp. rewrite Ep8, Ep7. by apply Hhd3.
  - rewrite Ev8, Eg8, Eg7, Hg3. apply (hit_jumps_ok i tb (tbs st) (tbs st7) _ buf); try done.
    by rewrite (proj1 Hrj).
  - intros j. by rewrite Hhs8, Hhs7, Hhs3, list_elem_of_singleton.
  - intros j. unfold paged in *. rewrite Ep8, Hps8, Hps7, Hps3, list_elem_of_singleton. done.
  - congruence.
  - rewrite (proj1 Hr8), (proj1 Hrj). done.
  - intros k t Hk. destruct (Ht7 k t Hk) as (t1 & Hk1 & [Hid1 Hin1 _ _ _]).
    destruct (Hk8 k t1 Hk1) as (t2 & Hk2 & _ & _ & Hin2). exists t2. split; [done|].
    destruct (proj2 Hids8 k t1 Hk1) as (t2' & ? & Hid2). simplify_eq.
    rewrite (bool_decide_ext (k ∈ [i]) (k = i)) by apply list_elem_of_singleton.
    split; [|congruence]. unfold same_id, same_code in *. intuition congruence.
  - intros p Hp. unfold code_page. rewrite Ec8, Ec7. apply Hc3. intros ->.
    by apply (Hp i tb); [left|..].
  - intros p Hp. unfold code_page. rewrite Ec8, Ec7. by apply Hn3.
Qed.

End InvalidateSpec.
