(* ===== verification/TbStoreProof.v ===== *)
(** * The block store is consistent

    The invariant of the store and the code buffer, kept by every operation of
    the execution loop, and what it gives: lookups are exact, an invalidated page
    has no live block, and live code jumps only to live code. *)

From Stdlib Require Import ZArith Lia Bool.
From stdpp Require Import base tactics numbers list gmap.
From S2P Require Import Prelude Tb CodeBuffer TbStore.

(** A block a lookup may return or a jump may be chained to. *)
Definition live (st : TbStore) (i : nat) (t : TranslationBlock) : Prop :=
  tbs st !! i = Some t /\ current st t = true.

(** The four structural parts, which [invalidate] keeps. *)
Record lists_ok (st : TbStore) (buf : CodeBuffer) : Prop := mk_lists_ok {
  i_hash : hash_linked st;
  i_page : page_linked st;
  i_heads : heads_ok st;
  i_jumps : jumps_ok (jview <$> tbs st) (global_gen st) buf
}.

(** The remembered targets are blocks of the store. *)
Definition exits_ok (l : list TranslationBlock) : Prop :=
  forall i t, l !! i = Some t ->
    exit_target t = EXIT_TARGET_NONE \/ 0 <= exit_target t < Z.of_nat (length l).

Record inv (st : TbStore) (buf : CodeBuffer) : Prop := mk_inv {
  i_lists : lists_ok st buf;
  i_gen : 0 < global_gen st < 2 ^ 64;
  i_hashed : forall i t, hashed st i -> tbs st !! i = Some t ->
    invalid t = false /\ cflags t = 0;
  i_live_hash : forall i t, live st i t -> cflags t = 0 -> hashed st i;
  i_live_page : forall i t, live st i t -> page_key t < CODE_REFCOUNT_PAGES ->
    paged st i /\ 0 < code_page st (page_key t);
  i_count : forall p, 0 <= code_page st p;
  i_exit : exits_ok (tbs st)
}.

(** ** Page invalidation *)

Section Pages.
Context {B : Type} `{HostCodeGenLaws B}.
Variable be : B.

Lemma lists_ok_invalidated li st buf st' buf' :
  invalidated li st buf st' buf' -> lists_ok st' buf'.
Proof. intros []. done. Qed.

Lemma same_id_refl t : same_id t t.
Proof. by split_and!. Qed.

Lemma invalidated_nil st buf : lists_ok st buf -> invalidated [] st buf st buf.
Proof.
  intros [? ? ? ?]. split; try done.
  - set_solver.
  - set_solver.
  - intros k t Hk. exists t. split; [done|]. split; [|by rewrite orb_false_r]. by split_and!.
Qed.

Lemma same_id_key t t' : same_id t t' -> page_key t' = page_key t.
Proof. intros ((_ & _ & _ & E & _) & _). unfold page_key. by rewrite E. Qed.

Lemma invalidated_trans i li st buf st1 buf1 st2 buf2 :
  invalidated [i] st buf st1 buf1 -> invalidated li st1 buf1 st2 buf2 ->
  invalidated (i :: li) st buf st2 buf2.
Proof.
  intros [_ _ _ _ Hh1 Hp1 Hg1 Hl1 Ht1 Hc1 Hn1] [? ? ? ? Hh2 Hp2 Hg2 Hl2 Ht2 Hc2 Hn2].
  split; try done.
  - intros j. rewrite Hh2, Hh1. set_solver.
  - intros j. rewrite Hp2, Hp1. set_solver.
  - congruence.
  - congruence.
  - intros k t Hk. destruct (Ht1 k t Hk) as (t1 & Hk1 & I1 & E1).
    destruct (Ht2 k t1 Hk1) as (t2 & Hk2 & I2 & E2). exists t2. split; [done|]. split.
    { unfold same_id, same_code in *. intuition congruence. }
    rewrite E2, E1, <- orb_assoc, <- bool_decide_or. f_equal. apply bool_decide_ext. set_solver.
  - intros p Hp. rewrite Hc2, Hc1; [done| |].
    + intros j t ->%list_elem_of_singleton Hj. apply (Hp i t); [by left|done].
    + intros j t1 Hj Hj1. destruct (lookup_lt_is_Some_2 (tbs st) j) as [t Ht].
      { rewrite <- Hl1. by eapply lookup_lt_Some. }
      destruct (Ht1 j t Ht) as (t1' & ? & I & _). simplify_eq.
      rewrite (same_id_key _ _ I). apply (Hp j t); [by right|done].
  - intros p Hp. by apply Hn2, Hn1.
Qed.

Lemma invalidate_list_spec li : forall st buf,
  lists_ok st buf -> (forall i, i ∈ li -> is_Some (tbs st !! i)) ->
  exists st' buf', invalidate_list be st buf li = Some (st', buf') /\
    invalidated li st buf st' buf'.
Proof.
  induction li as [|i li IH]; intros st buf Hok Hin.
  { exists st, buf. split; [done|by apply invalidated_nil]. }
  destruct (Hin i) as [t Ht]; [by left|].
  destruct (invalidate_spec be st buf i t) as (st1 & buf1 & E & H1); [apply Hok..|done|].
  destruct (IH st1 buf1) as (st2 & buf2 & E2 & H2).
  { by eapply lists_ok_invalidated. }
  { intros j Hj. destruct (Hin j) as [tj Htj]; [by right|].
    destruct (iv_tbs _ _ _ _ _ H1 j tj Htj) as (t' & -> & _). done. }
  exists st2, buf2. simpl. rewrite E. simpl. split; [done|]. by eapply invalidated_trans.
Qed.

(** With no current block on the page the scan finds nothing to do. *)
Lemma invalidate_scan_idle st buf p n : forall i,
  (i + n <= length (tbs st))%nat ->
  (forall k t, live st k t -> page_key t <> p) ->
  invalidate_scan be st buf (global_gen st) p i n = Some (st, buf).
Proof.
  induction n as [|n IH]; intros i Hi Hno; [done|]. simpl.
  destruct (lookup_lt_is_Some_2 (tbs st) i) as [t Ht]; [lia|]. unfold get. rewrite Ht.
  fold (current st t). destruct (current st t) eqn:Ec; [|apply IH; [lia|done]].
  rewrite (proj2 (Z.eqb_neq _ _)); [apply IH; [lia|done]|]. by apply (Hno i).
Qed.

(** What page invalidation does: it invalidates a list of blocks, all on the
    page, which contains every live block of the page. *)
Lemma invalidate_phys_page_list st buf p :
  inv st buf -> p < CODE_REFCOUNT_PAGES ->
  exists li st' buf', invalidate_phys_page be st buf p = Some (st', buf') /\
    invalidated li st buf st' buf' /\
    (forall i, i ∈ li -> exists t, live st i t /\ page_key t = p) /\
    (forall i t, live st i t -> page_key t = p -> i ∈ li).
Proof.
  intros [Hok Hg Hhd Hlh Hlp _ _] Hp. unfold invalidate_phys_page.
  destruct (Z.leb_spec CODE_REFCOUNT_PAGES p); [lia|].
  destruct (i_page _ _ Hok p) as (c & Hc & Hk).
  destruct (page_walk_spec st c (S (length (tbs st))) _ Hc) as (l & -> & Hnd & Hl).
  { pose proof (chain_length _ _ _ _ Hc). lia. }
  assert (Hin : forall i, i ∈ l -> exists t, live st i t /\ page_key t = p).
  { intros i [Hi (t & Ht & Hcur)]%Hl. exists t. split; [done|].
    destruct (Hk i Hi) as (t' & Ht' & ?). unfold get in Ht. by simplify_eq. }
  assert (Hall : forall i t, live st i t -> page_key t = p -> i ∈ l).
  { intros i t Hli <-. destruct (Hlp i t Hli Hp) as [Hpg _]. destruct Hli as [Ht Hcur].
    apply Hl. split; [|by exists t].
    destruct (on_list_key _ _ _ _ _ _ (i_page _ _ Hok) Hpg Ht) as (c' & Hc' & Hi).
    by rewrite (chain_det _ _ _ _ _ Hc Hc'). }
  destruct l as [|x l].
  - exists [], st, buf. split; [|by split; [apply invalidated_nil|]].
    destruct (is_code_page st p); [|done]. apply invalidate_scan_idle; [done|].
    intros k t Hkt E. set_solver.
  - destruct (invalidate_list_spec (x :: l) st buf Hok) as (st' & buf' & E & Hiv).
    { intros i (t & [Ht _] & _)%Hin. done. }
    exists (x :: l), st', buf'. done.
Qed.

Lemma live_invalidated li st buf st' buf' i t' :
  invalidated li st buf st' buf' -> live st' i t' ->
  exists t, live st i t /\ i ∉ li /\ same_id t t'.
Proof.
  intros Hiv [Ht' Hc]. destruct (lookup_lt_is_Some_2 (tbs st) i) as [t Ht].
  { rewrite <- (iv_len _ _ _ _ _ Hiv). by eapply lookup_lt_Some. }
  destruct (iv_tbs _ _ _ _ _ Hiv i t Ht) as (t2 & ? & I & E). simplify_eq.
  exists t. unfold live, current in *. rewrite E, (iv_gen _ _ _ _ _ Hiv) in Hc.
  apply andb_true_iff in Hc as [Hc Hgen]. apply negb_true_iff, orb_false_iff in Hc as [Hc Hin].
  apply bool_decide_eq_false in Hin. destruct I as ((? & ? & ? & ? & Eg & ?) & ?).
  rewrite Eg in Hgen. rewrite Hc, Hgen. by split_and!.
Qed.

Lemma invalidated_live li st buf st' buf' i t :
  invalidated li st buf st' buf' -> live st i t -> i ∉ li ->
  exists t', live st' i t' /\ same_id t t'.
Proof.
  intros Hiv [Ht Hc] Hi. destruct (iv_tbs _ _ _ _ _ Hiv i t Ht) as (t' & Ht' & I & E).
  exists t'. split; [|done]. split; [done|]. unfold current in *.
  rewrite E, (iv_gen _ _ _ _ _ Hiv), bool_decide_eq_false_2, orb_false_r by done.
  by destruct I as ((_ & _ & _ & _ & -> & _) & _).
Qed.

Lemma exits_invalidated li st buf st' buf' :
  invalidated li st buf st' buf' -> exits_ok (tbs st) -> exits_ok (tbs st').
Proof.
  intros Hiv He i t' Ht'. pose proof (iv_len _ _ _ _ _ Hiv) as El.
  destruct (lookup_lt_is_Some_2 (tbs st) i) as [t Ht].
  { rewrite <- El. by eapply lookup_lt_Some. }
  destruct (iv_tbs _ _ _ _ _ Hiv i t Ht) as (t2 & ? & [_ E] & _). simplify_eq.
  rewrite El, E. by eapply He.
Qed.

Lemma invalidate_phys_page_inv st buf p :
  inv st buf ->
  exists st' buf', invalidate_phys_page be st buf p = Some (st', buf') /\ inv st' buf' /\
    (p < CODE_REFCOUNT_PAGES -> forall i t, live st' i t -> page_key t <> p) /\
    (forall i t', live st' i t' -> exists t, live st i t /\ same_id t t') /\
    (forall i t, live st i t -> page_key t <> p -> exists t', live st' i t' /\ same_id t t').
Proof.
  intros Hinv. destruct (Z.lt_ge_cases p CODE_REFCOUNT_PAGES) as [Hp|Hp].
  2: { exists st, buf. unfold invalidate_phys_page. destruct (Z.leb_spec CODE_REFCOUNT_PAGES p); [|lia].
       split; [done|]. split; [done|]. split; [lia|].
       split; intros i t Hl; intros; exists t; by split_and!. }
  destruct (invalidate_phys_page_list st buf p Hinv Hp) as (li & st' & buf' & E & Hiv & Hin & Hall).
  exists st', buf'. split; [done|]. destruct Hinv as [Hok Hg Hhd Hlh Hlp Hct Hex].
  assert (Hgone : forall i t, live st' i t -> page_key t <> p).
  { intros i t Hl Ep. destruct (live_invalidated _ _ _ _ _ _ _ Hiv Hl) as (t0 & Hl0 & Hn & I).
    apply Hn, (Hall i t0); [done|]. by rewrite <- (same_id_key _ _ I). }
  split; [|split; [done|split]].
  2: { intros i t' Hl. destruct (live_invalidated _ _ _ _ _ _ _ Hiv Hl) as (t & ? & _ & ?). eauto. }
  2: { intros i t Hl Hne. apply (invalidated_live li st buf st' buf'); [done..|].
       intros (t0 & [Ht0 _] & E0)%Hin. destruct Hl as [Ht _]. by simplify_eq. }
  split.
  - by eapply lists_ok_invalidated.
  - by rewrite (iv_gen _ _ _ _ _ Hiv).
  - intros i t Hi Ht. apply (iv_hashed _ _ _ _ _ Hiv) in Hi as [Hi Hni].
    destruct (lookup_lt_is_Some_2 (tbs st) i) as [t0 Ht0].
    { rewrite <- (iv_len _ _ _ _ _ Hiv). by eapply lookup_lt_Some. }
    destruct (iv_tbs _ _ _ _ _ Hiv i t0 Ht0) as (t2 & ? & I & Ei). simplify_eq.
    destruct (Hhd i t0 Hi Ht0) as [Ev Hcf]. rewrite Ei, Ev, bool_decide_eq_false_2 by done.
    split; [done|]. destruct I as ((_ & _ & -> & _) & _). done.
  - intros i t Hl Hcf. destruct (live_invalidated _ _ _ _ _ _ _ Hiv Hl) as (t0 & Hl0 & Hn & I).
    apply (iv_hashed _ _ _ _ _ Hiv). split; [|done]. apply (Hlh i t0); [done|].
    by destruct I as ((_ & _ & <- & _) & _).
  - intros i t Hl Hpr. pose proof (Hgone i t Hl) as Hne.
    destruct (live_invalidated _ _ _ _ _ _ _ Hiv Hl) as (t0 & Hl0 & Hn & I).
    rewrite (same_id_key _ _ I) in *. destruct (Hlp i t0 Hl0 Hpr) as [Hpg Hcnt].
    split; [by apply (iv_paged _ _ _ _ _ Hiv)|].
    rewrite (iv_count _ _ _ _ _ Hiv); [done|]. intros j tj (tj' & [Hj _] & Ej)%Hin Htj.
    simplify_eq. congruence.
  - intros q. by apply (iv_nonneg _ _ _ _ _ Hiv).
  - by eapply exits_invalidated.
Qed.

End Pages.

(** ** Translation *)

(** What the backend promises for a block it emits: its jumps lie in the buffer,
    apart from each other and from every earlier jump, and go to the block's own
    exits; the jumps emitted before are untouched. *)
Record gen_ok (st : TbStore) (buf : CodeBuffer) (g : Generated) : Prop := mk_gen_ok {
  go_size : size (g_buf g) = size buf;
  go_host : 0 <= g_host_offset g <= size buf;
  go_slots : length (g_offsets g) = 2%nat;
  go_range : forall s o r, g_offsets g !! s = Some (Some (o, r)) ->
    0 <= o /\ o + 5 <= size buf /\ 0 <= r <= size buf /\ jump_target (g_buf g) o = r;
  go_own : forall o o' r r', g_offsets g = [Some (o, r); Some (o', r')] -> jumps_apart o o';
  go_old : forall i t s o r, tbs st !! i = Some t -> jump_at (jview t) s o r ->
    jump_target (g_buf g) o = jump_target buf o /\
    forall s' o' r', g_offsets g !! s' = Some (Some (o', r')) -> jumps_apart o o'
}.

Definition slot_fst (x : option (Z * Z)) : option Z := fst <$> x.
Definition slot_snd (x : option (Z * Z)) : option Z := snd <$> x.

(** The block as recorded: everything but its two links. *)
Definition new_block (p f cf now : Z) (g : Generated) (hn pn : option nat) : TranslationBlock := {|
  pc := p; cs_base := 0; flags := f; cflags := cf; Tb.size := g_size g; icount := g_insns g;
  instret_discarded := g_instret_discarded g; host_offset := g_host_offset g;
  host_size := g_host_size g; jmp_insn_offset := slot_fst <$> g_offsets g;
  jmp_reset_offset := slot_snd <$> g_offsets g; phys_pc := g_phys_pc g;
  hash_next := hn; page_next := pn; jmp := TbJmpState_new; contains_atomic := g_atomic g;
  invalid := false; gen := now; exit_target := EXIT_TARGET_NONE
|}.

Lemma set_offsets_new st buf g tb :
  gen_ok st buf g -> size buf < 2 ^ 31 ->
  jmp_insn_offset tb = [None; None] -> jmp_reset_offset tb = [None; None] ->
  set_offsets tb 0 (g_offsets g) = Some
    {| pc := pc tb; cs_base := cs_base tb; flags := flags tb; cflags := cflags tb;
       Tb.size := Tb.size tb; icount := icount tb; instret_discarded := instret_discarded tb;
       host_offset := host_offset tb; host_size := host_size tb;
       jmp_insn_offset := slot_fst <$> g_offsets g;
       jmp_reset_offset := slot_snd <$> g_offsets g;
       phys_pc := phys_pc tb; hash_next := hash_next tb; page_next := page_next tb;
       jmp := jmp tb; contains_atomic := contains_atomic tb; invalid := invalid tb;
       gen := gen tb; exit_target := exit_target tb |}.
Proof.
  intros [_ _ Hs Hr _ _] Hsz Hi He.
  assert (Hw : forall s o r, g_offsets g !! s = Some (Some (o, r)) ->
    wrap 32 o = o /\ wrap 32 r = r).
  { intros s o r Hso. destruct (Hr s o r Hso) as (? & ? & ? & _).
    split; apply wrap_small; split; lia. }
  destruct (g_offsets g) as [|a [|b [|]]]; try done.
  pose proof (Hw 0%nat) as H0. pose proof (Hw 1%nat) as H1. simpl in H0, H1. clear Hw Hr Hs.
  destruct tb, a as [[oa ra]|], b as [[ob rb]|]; simpl in *; subst; simpl;
    repeat match goal with
    | H : forall o r, Some (Some (?a, ?b)) = _ -> _ |- _ =>
        destruct (H a b eq_refl) as [-> ->]; clear H
    end; done.
Qed.

Lemma upd_app st l x f :
  tbs st = l ++ [x] -> upd st (length l) f = Some (set_tbs st (l ++ [f x])).
Proof.
  intros E. unfold upd, get. rewrite E, list_lookup_middle by done. f_equal.
  by rewrite insert_app_r_alt, Nat.sub_diag by done.
Qed.

Lemma get_app st l x : tbs st = l ++ [x] -> get st (length l) = Some x.
Proof. intros E. unfold get. rewrite E. by apply list_lookup_middle. Qed.

(** The state after [record_block]. *)
Definition recorded (st : TbStore) (T : TranslationBlock) : TbStore :=
  let k := page_key T in
  if k <? CODE_REFCOUNT_PAGES then
    mk_TbStore (tbs st ++ [T]) (hash st)
      (<[k := Z.min 255 (code_page st k + 1)]> (code_pages st))
      (put_head (page_heads st) k (Some (length (tbs st)))) (global_gen st)
  else set_tbs st (tbs st ++ [T]).

Definition page_link (st : TbStore) (k : Z) : option nat :=
  if k <? CODE_REFCOUNT_PAGES then page_heads st !! k else None.

Lemma record_block_eq st buf g p f cf :
  gen_ok st buf g -> size buf < 2 ^ 31 ->
  record_block (set_tbs st (tbs st ++ [TB_new p f cf])) (length (tbs st)) g
  = Some (recorded st (new_block p f cf (global_gen st) g None
      (page_link st (shr (g_phys_pc g) 12)))).
Proof.
  intros Hgo Hsz. unfold record_block. erewrite upd_app by done. simpl.
  unfold mark_code_page, recorded, page_link. change (page_key _) with (shr (g_phys_pc g) 12).
  destruct (Z.leb_spec CODE_REFCOUNT_PAGES (shr (g_phys_pc g) 12)) as [Hp|Hp];
    (destruct (Z.ltb_spec (shr (g_phys_pc g) 12) CODE_REFCOUNT_PAGES); [try lia|try lia]).
  - erewrite upd_app by done. erewrite get_app by done.
    erewrite (set_offsets_new st buf g) by done. by erewrite upd_app by done.
  - erewrite upd_app by done. simpl. erewrite upd_app by done. erewrite get_app by done.
    erewrite (set_offsets_new st buf g) by done. by erewrite upd_app by done.
Qed.

(** *** The invariant with the new block *)

Lemma new_jump_at p f cf now g hn pn s o r :
  jump_at (jview (new_block p f cf now g hn pn)) s o r <->
  g_offsets g !! s = Some (Some (o, r)).
Proof.
  unfold jump_at. simpl. rewrite !list_lookup_fmap. split.
  - destruct (g_offsets g !! s) as [[[o' r']|]|]; simpl; intros [? ?]; by simplify_eq.
  - intros ->. done.
Qed.

Lemma new_shape st buf p f cf g hn pn :
  gen_ok st buf g -> 0 < global_gen st ->
  shape (size buf) (global_gen st) (jview (new_block p f cf (global_gen st) g hn pn)).
Proof.
  intros [G1 G2 G3 G4 G5 G6] Hgen. split; simpl; try done.
  - by rewrite length_fmap.
  - by rewrite length_fmap.
  - intros s o. rewrite !list_lookup_fmap. destruct (_ !! s) as [[[o' r']|]|]; [|done..].
    simpl. eauto.
  - intros s o r Hj%(new_jump_at p f cf (global_gen st) g hn pn). by apply G4 in Hj as (? & ? & ? & _).
  - lia.
Qed.

(** A block without edges is added. *)
Lemma jumps_ok_app vs g buf buf' v :
  jumps_ok vs g buf -> size buf' = size buf -> shape (size buf) g v ->
  v_dest v = [None; None] -> v_list v = [] ->
  (forall s s' o o' r r', jump_at v s o r -> jump_at v s' o' r' -> s <> s' -> jumps_apart o o') ->
  (forall s o r, jump_at v s o r -> jump_target buf' o = r) ->
  (forall k u s o r, vs !! k = Some u -> jump_at u s o r ->
     jump_target buf' o = jump_target buf o /\
     forall s' o' r', jump_at v s' o' r' -> jumps_apart o o') ->
  jumps_ok (vs ++ [v]) g buf'.
Proof.
  intros [Jsz Jsh Jd Jl Ja Jc] Esz Hsh Ed El Hown Hexit Hold.
  assert (Hv : forall k u, (vs ++ [v]) !! k = Some u ->
    vs !! k = Some u \/ u = v /\ k = length vs).
  { intros k u [?|[Hge Hk]]%lookup_app_Some; [by left|right].
    apply list_lookup_singleton_Some in Hk as [E ->]. split; [done|lia]. }
  assert (Happ : forall k u, vs !! k = Some u -> (vs ++ [v]) !! k = Some u)
    by (intros; by apply lookup_app_l_Some).
  split; rewrite ?Esz; try done.
  - intros k u [Hk|[-> _]]%Hv; [by eapply Jsh|done].
  - intros k u s d [Hk|[-> _]]%Hv Hd; [|rewrite Ed in Hd; by destruct s as [|[|]]].
    destruct (Jd k u s d Hk Hd) as (? & w & ? & ?). eauto 10.
  - intros d u k s [Hk|[-> _]]%Hv Hin; [|rewrite El in Hin; by apply elem_of_nil in Hin].
    destruct (Jl d u k s Hk Hin) as [[w Hw] ?]. split; [|done]. exists w. by apply Happ.
  - intros k k' u u' s s' o o' r r' [Hk|[-> ->]]%Hv [Hk'|[-> ->]]%Hv Hj Hj' Hne.
    + by apply (Ja k k' u u' s s' o o' r r').
    + destruct (Hold k u s o r Hk Hj) as [_ ?]. eauto.
    + destruct (Hold k' u' s' o' r' Hk' Hj') as [_ Ha]. destruct (Ha _ _ _ Hj); [by right|by left].
    + apply (Hown s s' o o' r r'); [done..|]. intros ->. done.
  - intros k u s o r [Hk|[-> ->]]%Hv Hinv Hj.
    + specialize (Jc k u s o r Hk Hinv Hj). destruct (Hold k u s o r Hk Hj) as [-> _].
      destruct (v_dest u !! s) as [[d|]|]; try done. destruct Jc as (w & ? & ?). eauto.
    + rewrite Ed, (Hexit s o r Hj). by destruct s as [|[|]].
Qed.

Lemma jumps_ok_new st buf g p f cf hn pn :
  jumps_ok (jview <$> tbs st) (global_gen st) buf -> 0 < global_gen st -> gen_ok st buf g ->
  jumps_ok (jview <$> (tbs st ++ [new_block p f cf (global_gen st) g hn pn])) (global_gen st)
    (g_buf g).
Proof.
  intros Hok Hgen Hgo. rewrite fmap_app. pose proof Hgo as [G1 G2 G3 G4 G5 G6].
  apply (jumps_ok_app _ _ buf); try done.
  - by apply new_shape.
  - intros s s' o o' r r' Hj%new_jump_at Hj'%new_jump_at Hne.
    destruct (g_offsets g) as [|a [|b [|]]]; try done.
    pose proof (lookup_lt_Some _ _ _ Hj) as Hs. pose proof (lookup_lt_Some _ _ _ Hj') as Hs'.
    destruct s as [|[|s]], s' as [|[|s']]; simpl in Hs, Hs'; try lia; try done;
      simplify_eq/=; destruct (G5 _ _ _ _ eq_refl); [by left|by right|by right|by left].
  - intros s o r (_ & _ & _ & E)%new_jump_at%G4. done.
  - intros k u s o r (t & -> & Hk)%list_lookup_fmap_Some Hj. destruct (G6 k t s o r Hk Hj) as [E Ha].
    split; [done|]. intros s' o' r' Hj'%new_jump_at. by eapply Ha.
Qed.

(** The state with the block [T] in its lists. *)
Definition placed (st : TbStore) (T : TranslationBlock) : TbStore :=
  if cflags T =? 0 then set_hash (recorded st T) (hash_key T) (Some (length (tbs st)))
  else recorded st T.

Definition hash_link (st : TbStore) (p f cf : Z) : option nat :=
  if cf =? 0 then hash st !! tb_hash p f else None.

Lemma insert_recorded st p f g now pn :
  insert (recorded st (new_block p f 0 now g None pn)) (length (tbs st))
  = Some (placed st (new_block p f 0 now g (hash_link st p f 0) pn)).
Proof.
  unfold insert, placed, recorded. change (page_key _) with (shr (g_phys_pc g) 12).
  destruct (shr (g_phys_pc g) 12 <? CODE_REFCOUNT_PAGES); simpl;
    (erewrite get_app by done); cbv beta iota zeta; (erewrite upd_app by done); done.
Qed.

Lemma exits_app l T :
  exits_ok l -> exit_target T = EXIT_TARGET_NONE -> exits_ok (l ++ [T]).
Proof.
  intros He HT i t [Hi|[_ Hi]]%lookup_app_Some.
  - rewrite length_app. simpl. destruct (He i t Hi); [by left|right; lia].
  - apply list_lookup_singleton_Some in Hi as [_ <-]. by left.
Qed.

Section Placed.
Variables (st : TbStore) (T : TranslationBlock).
Let n := length (tbs st).
Let st' := placed st T.

Lemma placed_tbs : tbs st' = tbs st ++ [T] /\ global_gen st' = global_gen st.
Proof. unfold st', placed, recorded. by case_if; case_if. Qed.

Lemma placed_lookup k t :
  tbs st' !! k = Some t <-> tbs st !! k = Some t \/ k = n /\ t = T.
Proof.
  rewrite (proj1 placed_tbs), lookup_app_Some. split.
  - intros [?|[Hge Hk]]; [by left|right]. apply list_lookup_singleton_Some in Hk as [? ->].
    unfold n. split; [lia|done].
  - intros [?|[-> ->]]; [by left|right]. split; [done|]. unfold n. by rewrite Nat.sub_diag.
Qed.

Hypothesis Hpn : page_next T = page_link st (page_key T).
Hypothesis Hhn : hash_next T = hash_link st (pc T) (flags T) (cflags T).

Lemma placed_hash :
  hash_linked st ->
  hash_linked st' /\ (forall j, hashed st' j <-> j = n /\ cflags T = 0 \/ hashed st j).
Proof.
  intros Hl. unfold hash_linked, hashed. rewrite (proj1 placed_tbs).
  assert (E : hash st' = if cflags T =? 0 then put_head (hash st) (hash_key T) (Some n)
                         else hash st) by (unfold st', placed, recorded; by case_if; case_if).
  rewrite E. unfold hash_link in Hhn. destruct (Z.eqb_spec (cflags T) 0) as [Hc|Hc].
  - destruct (linked_new hash_next set_hash_next hash_key ltac:(done) ltac:(done)
      set_hash_same (hash st) (tbs st) T Hl) as [? Hon]; [done|]. split; [done|].
    intros j. unfold n. rewrite Hon. naive_solver.
  - destruct (linked_app hash_next hash_key (hash st) (tbs st) T Hl) as [? Hon].
    split; [done|]. intros j. rewrite Hon. naive_solver.
Qed.

Lemma placed_page :
  page_linked st -> heads_ok st ->
  page_linked st' /\ heads_ok st' /\
  (forall j, paged st' j <-> j = n /\ page_key T < CODE_REFCOUNT_PAGES \/ paged st j).
Proof.
  intros Hl Hh. unfold page_linked, paged, heads_ok. rewrite (proj1 placed_tbs).
  assert (E : page_heads st' = if page_key T <? CODE_REFCOUNT_PAGES
                 then put_head (page_heads st) (page_key T) (Some n)
                 else page_heads st) by (unfold st', placed, recorded; by case_if; case_if).
  rewrite E. unfold page_link in Hpn.
  destruct (Z.ltb_spec (page_key T) CODE_REFCOUNT_PAGES) as [Hc|Hc].
  - destruct (linked_new page_next set_page_next page_key ltac:(done) ltac:(done)
      set_page_same (page_heads st) (tbs st) T Hl) as [? Hon]; [done|]. split; [done|]. split.
    + intros q Hq. unfold put_head. rewrite lookup_partial_alter_ne by lia. by apply Hh.
    + intros j. unfold n. rewrite Hon. naive_solver.
  - destruct (linked_app page_next page_key (page_heads st) (tbs st) T Hl) as [? Hon].
    split; [done|]. split; [done|]. intros j. rewrite Hon. naive_solver lia.
Qed.

Lemma placed_count q :
  code_page st' q = if decide (q = page_key T /\ page_key T < CODE_REFCOUNT_PAGES)
                    then Z.min 255 (code_page st q + 1) else code_page st q.
Proof.
  assert (E : code_pages st' = if page_key T <? CODE_REFCOUNT_PAGES
     then <[page_key T := Z.min 255 (code_page st (page_key T) + 1)]> (code_pages st)
     else code_pages st) by (unfold st', placed, recorded; by case_if; case_if).
  unfold code_page at 1. rewrite E. destruct (Z.ltb_spec (page_key T) CODE_REFCOUNT_PAGES).
  - destruct (decide (q = page_key T)) as [->|Hne].
    + rewrite decide_True by done. by rewrite lookup_insert_eq.
    + rewrite decide_False by tauto. by rewrite lookup_insert_ne.
  - rewrite decide_False by lia. done.
Qed.

Lemma placed_inv buf buf' :
  inv st buf -> invalid T = false -> exit_target T = EXIT_TARGET_NONE ->
  jumps_ok (jview <$> (tbs st ++ [T])) (global_gen st) buf' ->
  inv st' buf'.
Proof.
  intros [[Ih Ip Ihd Ij] Ig Ihh Ilh Ilp Ic Ie] Hiv Hex Hj. destruct placed_tbs as [Et Eg].
  destruct (placed_hash Ih) as [Hh Hho]. destruct (placed_page Ip Ihd) as (Hp & Hhd & Hpo).
  assert (Hlive : forall i t, live st' i t -> live st i t \/ i = n /\ t = T).
  { intros i t [Hi Hc]. apply placed_lookup in Hi as [Hi|]; [left|by right].
    split; [done|]. unfold current in *. by rewrite Eg in Hc. }
  split.
  - split; try done. by rewrite Et, Eg.
  - by rewrite Eg.
  - intros i t Hi Ht. apply placed_lookup in Ht. apply Hho in Hi.
    destruct Ht as [Ht|[En ->]], Hi as [[En' Hc]|Hi]; try done.
    + apply lookup_lt_Some in Ht. unfold n in En'. lia.
    + by eapply Ihh.
    + apply on_list_lookup in Hi as [? Hlt%lookup_lt_Some]. unfold n in En. lia.
  - intros i t Hl Hcf. apply Hho. destruct (Hlive i t Hl) as [Ho|[-> ->]]; [|by left].
    right. by eapply Ilh.
  - intros i t Hl Hpg. rewrite placed_count, Hpo. pose proof (Ic (page_key t)).
    destruct (Hlive i t Hl) as [Ho|[-> ->]].
    + destruct (Ilp i t Ho Hpg). split; [by right|]. case_decide; lia.
    + split; [by left|]. rewrite decide_True by done. lia.
  - intros q. rewrite placed_count. specialize (Ic q). case_decide; lia.
  - rewrite Et. by apply exits_app.
Qed.

End Placed.

(** A block whose fetch faulted: present, invalid, on no list. *)
Lemma faulted_inv st buf p f cf :
  inv st buf -> inv (set_tbs st (tbs st ++ [set_invalid (TB_new p f cf)])) buf.
Proof.
  intros [[Ih Ip Ihd Ij] Ig Ihh Ilh Ilp Ic Ie]. set (T := set_invalid _).
  destruct (linked_app hash_next hash_key (hash st) (tbs st) T Ih) as [Hh Hho].
  destruct (linked_app page_next page_key (page_heads st) (tbs st) T Ip) as [Hp Hpo].
  assert (Hlive : forall i t, live (set_tbs st (tbs st ++ [T])) i t -> live st i t).
  { intros i t [[Hi|[_ Hi]]%lookup_app_Some Hc]; [done|].
    by apply list_lookup_singleton_Some in Hi as [_ <-]. }
  split; try done.
  - split; try done. simpl. rewrite fmap_app.
    assert (Hno : forall s o r, ~ jump_at (jview T) s o r).
    { intros s o r [Hs _]. by destruct s as [|[|]]. }
    apply (jumps_ok_app _ _ buf); try done.
    + split; simpl; try done; [by intros [|[|]] o| by intros s o r ?%Hno| |lia].
      pose proof (j_size _ _ _ Ij). lia.
    + by intros s s' o o' r r' ?%Hno.
    + by intros s o r ?%Hno.
    + intros k u s o r _ _. split; [done|]. by intros s' o' r' ?%Hno.
  - intros i t Hi Ht. apply Hho in Hi. apply (Ihh i); [done|].
    destruct (on_list_lookup _ _ _ _ Hi) as [t' Ht']. simpl in Ht.
    rewrite lookup_app_l in Ht by (by eapply lookup_lt_Some). done.
  - intros i t Hl Hcf. apply Hho. by eapply Ilh; [apply Hlive|].
  - intros i t Hl Hpg. destruct (Ilp i t (Hlive i t Hl) Hpg). split; [by apply Hpo|done].
  - by apply exits_app.
Qed.

(** ** Lookup and translation *)

(** A lookup ends; what it finds is a live block with the key, and it finds one
    whenever a live block that is not single-use has the key. *)
Lemma lookup_spec st buf p f :
  inv st buf ->
  exists r, lookup st p f = Some r /\
    match r with
    | Some i => exists t, live st i t /\ pc t = p /\ flags t = f /\ cflags t = 0
    | None => forall i t, live st i t -> cflags t = 0 -> ~ (pc t = p /\ flags t = f)
    end.
Proof.
  intros [[Ih Ip Ihd Ij] Ig Ihh Ilh Ilp Ic Ie]. destruct (Ih (tb_hash p f)) as (c & Hc & Hk).
  destruct (lookup_walk_spec st p f c (length (tbs st)) _ Hc) as (r & E & Hr).
  { by eapply chain_length. }
  exists r. split; [exact E|]. destruct r as [i|].
  - destruct Hr as (t & Hi & Ht & Hm). exists t. unfold matches in Hm.
    apply andb_true_iff in Hm as [Hm Hf%Z.eqb_eq]. apply andb_true_iff in Hm as [Hcur Hp%Z.eqb_eq].
    split_and!; try done. apply (Ihh i t); [|done]. by exists (tb_hash p f), c.
  - intros i t Hl Hcf [Hp Hf]. pose proof (Ilh i t Hl Hcf) as Hon. destruct Hl as [Ht Hcur].
    destruct (on_list_key _ _ _ _ _ _ Ih Hon Ht) as (c' & Hc' & Hi).
    unfold hash_key in Hc'. rewrite Hp, Hf in Hc'. rewrite (chain_det _ _ _ _ _ Hc' Hc) in Hi.
    specialize (Hr i t Hi Ht). unfold matches in Hr. rewrite Hcur in Hr.
    rewrite (proj2 (Z.eqb_eq _ _) Hp), (proj2 (Z.eqb_eq _ _) Hf) in Hr. done.
Qed.

(** The jump cache names blocks of the store. *)
Definition jc_ok (jc : JumpCache.JumpCache) (st : TbStore) : Prop :=
  JumpCache.wf jc /\
  forall q i, JumpCache.lookup jc q = Some i -> (i < length (tbs st))%nat.

Lemma jc_ok_insert jc st st' p i :
  jc_ok jc st -> (length (tbs st) <= length (tbs st'))%nat -> (i < length (tbs st'))%nat ->
  jc_ok (JumpCache.insert jc p i) st'.
Proof.
  intros [Hwf Hl] Hle Hi. split; [by apply (JumpCache.wf_ops jc p i)|].
  intros q j. rewrite JumpCache.lookup_insert by done. case_decide; [by intros [= <-]|].
  intros Hj%Hl. lia.
Qed.

Lemma jc_ok_mono jc st st' :
  jc_ok jc st -> (length (tbs st) <= length (tbs st'))%nat -> jc_ok jc st'.
Proof. intros [Hwf Hl] Hle. split; [done|]. intros q j H%Hl. lia. Qed.

Lemma live_lt st i t : live st i t -> (i < length (tbs st))%nat.
Proof. intros [H _]. by eapply lookup_lt_Some. Qed.

(** What a search for the code of [p] under [f] must deliver. *)
Definition found (st : TbStore) (cur_phys p f : Z) (res : option Generated) (i : nat) : Prop :=
  exists t, live st i t /\ pc t = p /\ flags t = f /\
    (cur_phys <> u64_max /\ phys_pc t = cur_phys \/
     exists g, res = Some g /\ phys_pc t = g_phys_pc g).

(** The outcome of a search: the invariant, no live block lost, and the block
    returned, if any, is the one sought. *)
Record searched (st : TbStore) (cur_phys p f : Z) (res : option Generated)
    (buf : CodeBuffer) (r : option nat) (st' : TbStore) (jc' : JumpCache.JumpCache)
    (buf' : CodeBuffer) : Prop := mk_searched {
  se_inv : inv st' buf';
  se_jc : jc_ok jc' st';
  se_size : size buf' = size buf;
  se_keep : forall i t, live st i t -> live st' i t;
  se_found : forall i, r = Some i -> found st' cur_phys p f res i
}.

Lemma live_placed st T i t : live st i t -> live (placed st T) i t.
Proof.
  intros [Ht Hc]. split; [apply placed_lookup; by left|]. unfold current in *.
  by rewrite (proj2 (placed_tbs st T)).
Qed.

(** A block is translated and recorded. *)
Lemma translated st jc buf cur_phys p f cf g :
  inv st buf -> jc_ok jc st -> gen_ok st buf g ->
  exists st1 st2,
    record_block (set_tbs st (tbs st ++ [TB_new p f cf])) (length (tbs st)) g = Some st1 /\
    (if negb (cf =? 0) then Some st1 else insert st1 (length (tbs st))) = Some st2 /\
    searched st cur_phys p f (Some g) buf (Some (length (tbs st))) st2
      (if negb (cf =? 0) then jc else JumpCache.insert jc p (length (tbs st))) (g_buf g).
Proof.
  intros Hinv Hjc Hgo. pose proof (i_jumps _ _ (i_lists _ _ Hinv)) as Hj.
  pose proof (i_gen _ _ Hinv) as Hg.
  erewrite record_block_eq; [|done|apply (j_size _ _ _ Hj)].
  set (pn := page_link _ _). eexists.
  set (T := new_block p f cf (global_gen st) g (hash_link st p f cf) pn).
  exists (placed st T). split; [done|]. split.
  { unfold T, placed, hash_link. simpl. destruct (Z.eqb_spec cf 0) as [->|Hne]; simpl; [|done].
    apply insert_recorded. }
  assert (Hlen : length (tbs (placed st T)) = S (length (tbs st))).
  { rewrite (proj1 (placed_tbs st T)), length_app. simpl. lia. }
  split.
  - apply (placed_inv st T) with (buf := buf); try done. apply (jumps_ok_new st buf); [done|lia|done].
  - destruct (negb (cf =? 0)); [apply (jc_ok_mono jc st); [done|lia]|].
    apply (jc_ok_insert jc st); [done|lia|lia].
  - apply (go_size _ _ _ Hgo).
  - intros i t. apply live_placed.
  - intros i [= <-]. exists T. split; [|split_and!; [done..|right; by exists g]].
    split; [apply placed_lookup; by right|]. unfold current.
    rewrite (proj2 (placed_tbs st T)). simpl. by rewrite Z.eqb_refl.
Qed.

Lemma tb_gen_code_spec st jc buf cur_phys p f cf res :
  inv st buf -> jc_ok jc st -> (forall g, res = Some g -> gen_ok st buf g) ->
  exists r st' jc' buf',
    tb_gen_code st jc buf cur_phys p f cf res = Some (r, st', jc', buf') /\
    searched st cur_phys p f res buf r st' jc' buf'.
Proof.
  intros Hinv Hjc Hgo. unfold tb_gen_code.
  destruct (remaining buf <? MIN_CODE_BUF_REMAINING).
  { exists None, st, jc, buf. split; [done|]. by split. }
  assert (exists h, (if negb (cf =? 0) then Some None
    else found <-! lookup st p f ;;
         match found with
         | Some i => tb <-! get st i ;;
             Some (if negb (cur_phys =? u64_max) && (phys_pc tb =? cur_phys) then Some i else None)
         | None => Some None
         end) = Some h /\ forall i, h = Some i -> found st cur_phys p f res i)
    as (h & -> & Hh).
  { destruct (negb (cf =? 0)); [by exists None|].
    destruct (lookup_spec st buf p f Hinv) as ([i|] & -> & Hr); [|by exists None].
    destruct Hr as (t & Hl & Hp & Hf & Hcf). unfold get. rewrite (proj1 Hl).
    destruct (negb (cur_phys =? u64_max)) eqn:Em; [|by exists None].
    destruct (Z.eqb_spec (phys_pc t) cur_phys) as [E|]; simpl; [|by exists None].
    apply negb_true_iff, Z.eqb_neq in Em. exists (Some i). split; [done|]. intros j [= <-].
    exists t. split_and!; auto. }
  destruct h as [i|].
  { exists (Some i), st, (JumpCache.insert jc p i), buf. split; [done|].
    destruct (Hh i eq_refl) as (t & Hl & _). split; try done.
    apply (jc_ok_insert jc st); [done..|]. by eapply live_lt. }
  unfold alloc. destruct (decide (MAX_TBS <= length (tbs st))%nat) as [_|_].
  { exists None, st, jc, buf. split; [done|]. by split. }
  destruct res as [g|].
  - destruct (translated st jc buf cur_phys p f cf g) as (st1 & st2 & -> & E2 & Hs); auto.
    destruct (negb (cf =? 0)).
    + injection E2 as <-. eexists _, _, _, _. split; [done|exact Hs].
    + rewrite E2. eexists _, _, _, _. split; [done|exact Hs].
  - erewrite upd_app by done.
    exists None, (set_tbs st (tbs st ++ [set_invalid (TB_new p f cf)])), jc, buf. split; [done|].
    split; try done; [by apply faulted_inv|apply (jc_ok_mono jc st); [done|]|].
    + simpl. rewrite length_app. lia.
    + intros i t [Ht Hc]. split; [by apply lookup_app_l_Some|done].
Qed.

(** Searching without translating. *)
Lemma searched_hit st jc buf cur_phys p f res i :
  inv st buf -> jc_ok jc st -> found st cur_phys p f res i ->
  searched st cur_phys p f res buf (Some i) st (JumpCache.insert jc p i) buf /\
  searched st cur_phys p f res buf (Some i) st jc buf.
Proof.
  intros Hinv Hjc Hf. pose proof Hf as (t & Hl & _).
  split; split; try done; try (by intros j [= <-]).
  apply (jc_ok_insert jc st); [done..|]. by eapply live_lt.
Qed.

Lemma found_intro st cur_phys p f res i t :
  live st i t -> pc t = p -> flags t = f -> cur_phys <> u64_max -> phys_pc t = cur_phys ->
  found st cur_phys p f res i.
Proof. intros. exists t. split_and!; auto. Qed.

Lemma tb_find_spec st jc buf cur_phys p f res :
  inv st buf -> jc_ok jc st -> (forall g, res = Some g -> gen_ok st buf g) ->
  exists r st' jc' buf', tb_find st jc buf cur_phys p f res = Some (r, st', jc', buf') /\
    searched st cur_phys p f res buf r st' jc' buf'.
Proof.
  intros Hinv Hjc Hgo. unfold tb_find.
  destruct (Z.eqb_spec cur_phys u64_max) as [|Hne]; [by apply tb_gen_code_spec|].
  assert (exists h, match JumpCache.lookup jc p with
    | Some i => tb <-! get st i ;;
        Some (if current st tb && (pc tb =? p) && (flags tb =? f) && (phys_pc tb =? cur_phys)
              then Some i else None)
    | None => Some None
    end = Some h /\ forall i, h = Some i -> found st cur_phys p f res i) as (h & -> & Hh).
  { destruct (JumpCache.lookup jc p) as [i|] eqn:E; [|by exists None].
    destruct (lookup_lt_is_Some_2 (tbs st) i) as [t Ht]; [by eapply (proj2 Hjc)|].
    unfold get. rewrite Ht. eexists. split; [done|]. intros j.
    destruct (current st t && (pc t =? p) && (flags t =? f) && (phys_pc t =? cur_phys)) eqn:Ec; [|done].
    intros [= <-]. rewrite !andb_true_iff, !Z.eqb_eq in Ec. destruct Ec as [[[? ?] ?] ?].
    by apply (found_intro _ _ _ _ _ _ t). }
  destruct h as [i|].
  { exists (Some i), st, jc, buf. split; [done|].
    by apply (searched_hit st jc buf cur_phys p f res i); auto. }
  destruct (lookup_spec st buf p f Hinv) as (r & -> & Hr).
  assert (exists h, match r with
    | Some i => tb <-! get st i ;; Some (if phys_pc tb =? cur_phys then Some i else None)
    | None => Some None
    end = Some h /\ forall i, h = Some i -> found st cur_phys p f res i) as (h & -> & Hs).
  { destruct r as [i|]; [|by exists None]. destruct Hr as (t & Hl & Hp & Hf & _).
    unfold get. rewrite (proj1 Hl). eexists. split; [done|]. intros j.
    destruct (Z.eqb_spec (phys_pc t) cur_phys); [|done]. intros [= <-].
    by apply (found_intro _ _ _ _ _ _ t). }
  destruct h as [i|]; [|by apply tb_gen_code_spec].
  exists (Some i), st, (JumpCache.insert jc p i), buf. split; [done|].
  by apply (searched_hit st jc buf cur_phys p f res i); auto.
Qed.

(** ** Chaining *)

(** What chaining [src] to [dst] through [slot] leaves of a block. *)
Record linked_to (src slot dst k : nat) (t t' : TranslationBlock) : Prop := mk_linked_to {
  lt_id : same_id t t';
  lt_invalid : invalid t' = invalid t;
  lt_dest : jmp_dest (jmp t')
    = if decide (k = src) then <[slot := Some dst]> (jmp_dest (jmp t)) else jmp_dest (jmp t);
  lt_list : jmp_list (jmp t')
    = if decide (k = dst) then jmp_list (jmp t) ++ [(src, slot)] else jmp_list (jmp t)
}.

Section Chaining.
Variables (src slot dst : nat) (l l' : list TranslationBlock) (g : Z) (buf buf' : CodeBuffer).
Variables (ts td : TranslationBlock) (jo : Z).
Hypothesis Hok : jumps_ok (jview <$> l) g buf.
Hypothesis Hsrc : l !! src = Some ts.
Hypothesis Hdst : l !! dst = Some td.
Hypothesis Hjo : jmp_insn_offset ts !! slot = Some (Some jo).
Hypothesis Hval : invalid td = false.
Hypothesis Hgen : gen td = g.
Hypothesis Hlen : length l' = length l.
Hypothesis Hl' : forall k t, l !! k = Some t -> exists t', l' !! k = Some t' /\
  linked_to src slot dst k t t'.
Hypothesis Hsz : size buf' = size buf.
Hypothesis Hself : jump_target buf' jo = host_offset td.
Hypothesis Hoth : forall o, jumps_apart jo o -> jump_target buf' o = jump_target buf o.

Lemma chain_back k v' :
  (jview <$> l') !! k = Some v' ->
  exists t t', l !! k = Some t /\ l' !! k = Some t' /\ v' = jview t' /\
    linked_to src slot dst k t t'.
Proof.
  intros (t' & -> & Ht')%list_lookup_fmap_Some. destruct (lookup_lt_is_Some_2 l k) as [t Hk].
  { rewrite <- Hlen. by eapply lookup_lt_Some. }
  destruct (Hl' k t Hk) as (t'' & Ht'' & ?). simplify_eq. eauto 10.
Qed.

Lemma chained_shape k v' : (jview <$> l') !! k = Some v' -> shape (size buf') g v'.
Proof.
  intros (t & t' & Hk & _ & -> & [Hid _ Hd _])%chain_back.
  destruct (j_shape _ _ _ Hok k _ (view_lookup k t l Hk)) as [A1 A2 A3 A4 A5 A6 A7].
  pose proof Hid as ((_ & _ & _ & _ & Eg & Eh & Ei & Er) & _). simpl in *.
  rewrite Hsz. split; simpl; rewrite ?Eg, ?Eh, ?Ei, ?Er, ?Hd; try done.
  - case_decide; [by rewrite length_insert|done].
  - intros s o r Hj. apply (A5 s). by apply (jump_at_id t t').
Qed.

(** The new edge, and the edges that were there. *)
Lemma chained_dest k v' s d :
  (jview <$> l') !! k = Some v' -> v_dest v' !! s = Some (Some d) ->
  (exists o, v_insn v' !! s = Some (Some o)) /\
  exists u, (jview <$> l') !! d = Some u /\ (k, s) ∈ v_list u /\ v_invalid u = false /\
    (v_gen v' = g -> v_gen u = g).
Proof.
  intros (t & t' & Hk & Hk' & -> & [Hid Hinv Hd _])%chain_back. simpl. rewrite Hd.
  pose proof Hid as ((_ & _ & _ & _ & -> & _ & -> & _) & _). intros Hds.
  destruct (decide (k = src /\ s = slot)) as [[-> ->]|Hne].
  - rewrite decide_True, list_lookup_insert_Some in Hds by done.
    destruct Hds as [(_ & [= <-] & _)|[]]; [|done]. simplify_eq. split; [by exists jo|].
    destruct (Hl' dst td Hdst) as (td' & Hd' & [((_ & _ & _ & _ & Eg & _) & _) Ei _ El]).
    exists (jview td'). split; [by apply view_lookup|]. simpl.
    rewrite El, decide_True, Ei, Eg by done. split; [set_solver|done].
  - assert (Hold : v_dest (jview t) !! s = Some (Some d)).
    { simpl. destruct (decide (k = src)) as [->|]; [|done].
      by rewrite list_lookup_insert_ne in Hds by naive_solver. }
    destruct (j_dest _ _ _ Hok k _ s d (view_lookup k t l Hk) Hold)
      as (Ho & u & (tu & -> & Hu)%list_lookup_fmap_Some & Hin & Hiu & Hgu).
    split; [done|]. destruct (Hl' d tu Hu) as (tu' & Hu' & [((_ & _ & _ & _ & Eg & _) & _) Ei _ El]).
    exists (jview tu'). split; [by apply view_lookup|]. simpl in *.
    rewrite El, Ei, Eg. split; [case_decide; set_solver|done].
Qed.

Lemma chained_code k v' s o r :
  (jview <$> l') !! k = Some v' -> v_invalid v' = false -> jump_at v' s o r ->
  match v_dest v' !! s with
  | Some (Some d) => exists u, (jview <$> l') !! d = Some u /\ jump_target buf' o = v_host u
  | _ => jump_target buf' o = r
  end.
Proof.
  intros (t & t' & Hk & Hk' & -> & [Hid Hinv Hd _])%chain_back Hv Hj.
  apply (jump_at_id t t') in Hj; [|done]. simpl in *. rewrite Hd. rewrite Hinv in Hv.
  destruct (decide (k = src /\ s = slot)) as [[-> ->]|Hne].
  - simplify_eq. rewrite decide_True by done. rewrite list_lookup_insert_eq.
    2: { pose proof (j_shape _ _ _ Hok src _ (view_lookup src ts l Hsrc)) as Hsh.
         pose proof (sh_dest _ _ _ Hsh) as Ed. pose proof (sh_insn _ _ _ Hsh) as E.
         simpl in Ed, E. rewrite Ed, <- E. by eapply lookup_lt_Some. }
    destruct Hj as [Hj _]. simpl in Hj. simplify_eq.
    destruct (Hl' dst td Hdst) as (td' & Hd' & [((_ & _ & _ & _ & _ & Eh & _) & _) _ _ _]).
    exists (jview td'). split; [by apply view_lookup|]. simpl. congruence.
  - rewrite (Hoth o).
    2: { assert (exists r0, jump_at (jview ts) slot jo r0) as [r0 Hj0].
         { destruct (sh_pair _ _ _ (j_shape _ _ _ Hok src _ (view_lookup src ts l Hsrc)) slot jo Hjo)
             as [r0 Hr0]. by exists r0. }
         apply (j_apart _ _ _ Hok src k _ _ slot s jo o r0 r (view_lookup _ _ _ Hsrc)
           (view_lookup _ _ _ Hk) Hj0 Hj). intros [= -> ->]. naive_solver. }
    pose proof (j_code _ _ _ Hok k _ s o r (view_lookup k t l Hk) Hv Hj) as Jc. simpl in Jc.
    replace ((if decide (k = src) then <[slot := Some dst]> (jmp_dest (jmp t))
              else jmp_dest (jmp t)) !! s) with (jmp_dest (jmp t) !! s).
    2: { destruct (decide (k = src)) as [->|]; [|done]. by rewrite list_lookup_insert_ne by naive_solver. }
    destruct (jmp_dest (jmp t) !! s) as [[d|]|]; try done.
    destruct Jc as (u & (tu & -> & Hu)%list_lookup_fmap_Some & ->).
    destruct (Hl' d tu Hu) as (tu' & Hu' & [((_ & _ & _ & _ & _ & Eh & _) & _) _ _ _]).
    exists (jview tu'). split; [by apply view_lookup|]. simpl. congruence.
Qed.

Lemma chained_jumps_ok : (slot < 2)%nat -> jumps_ok (jview <$> l') g buf'.
Proof.
  intros Hslot. split.
  - rewrite Hsz. apply Hok.
  - apply chained_shape.
  - apply chained_dest.
  - intros d u' j s (t & t' & Hk & _ & -> & [_ _ _ El])%chain_back Hin. simpl in Hin.
    assert (is_Some ((jview <$> l) !! j) /\ (s < 2)%nat) as [Hj Hs].
    { rewrite El in Hin. case_decide; [|by apply (j_list _ _ _ Hok d _ j s (view_lookup d t l Hk))].
      apply elem_of_app in Hin as [Hin|[= -> ->]%list_elem_of_singleton];
        [by apply (j_list _ _ _ Hok d _ j s (view_lookup d t l Hk))|].
      split; [|done]. rewrite (view_lookup _ _ _ Hsrc). done. }
    split; [|done]. rewrite list_lookup_fmap, fmap_is_Some, lookup_lt_is_Some in *.
    by rewrite Hlen.
  - intros k k' v v' s s' o o' r r' (t & t' & Hk & _ & -> & Ht)%chain_back
      (u & u' & Hk' & _ & -> & Hu)%chain_back Hj Hj'.
    apply (jump_at_id t t') in Hj; [|apply Ht]. apply (jump_at_id u u') in Hj'; [|apply Hu].
    by eapply (j_apart _ _ _ Hok); [apply view_lookup|apply view_lookup|..].
  - apply chained_code.
Qed.

End Chaining.

(** Changes that no list and no lookup sees. *)
Definition quiet (t t' : TranslationBlock) : Prop :=
  same_code t t' /\ invalid t' = invalid t /\ hash_next t' = hash_next t /\
  page_next t' = page_next t.

Definition quiet_all (l l' : list TranslationBlock) : Prop :=
  length l' = length l /\
  forall k t, l !! k = Some t -> exists t', l' !! k = Some t' /\ quiet t t'.

Lemma quiet_refl t : quiet t t.
Proof. by split_and!. Qed.

Lemma quiet_all_refl l : quiet_all l l.
Proof. split; [done|]. intros k t Hk. exists t. split; [done|apply quiet_refl]. Qed.

Lemma quiet_insert l i t t' :
  l !! i = Some t -> quiet t t' -> quiet_all l (<[i := t']> l).
Proof.
  intros Hi Hq. split; [by rewrite length_insert|]. intros k u Hk.
  destruct (decide (i = k)) as [<-|Hne].
  - rewrite list_lookup_insert_eq by by eapply lookup_lt_Some. simplify_eq. eauto.
  - rewrite list_lookup_insert_ne by done. exists u. split; [done|apply quiet_refl].
Qed.

Lemma quiet_trans l1 l2 l3 : quiet_all l1 l2 -> quiet_all l2 l3 -> quiet_all l1 l3.
Proof.
  intros [L1 H1] [L2 H2]. split; [congruence|]. intros k t Hk.
  destruct (H1 k t Hk) as (t2 & Hk2 & Q1). destruct (H2 k t2 Hk2) as (t3 & Hk3 & Q2).
  exists t3. split; [done|]. unfold quiet, same_code in *. intuition congruence.
Qed.

Lemma quiet_live st st' i t :
  quiet_all (tbs st) (tbs st') -> global_gen st' = global_gen st -> live st i t ->
  exists t', live st' i t' /\ quiet t t'.
Proof.
  intros [_ Hq] Eg [Ht Hc]. destruct (Hq i t Ht) as (t' & Ht' & Q). exists t'.
  split; [|done]. split; [done|]. destruct Q as ((_ & _ & _ & _ & E & _) & Ei & _).
  unfold current in *. by rewrite Ei, E, Eg.
Qed.

Lemma quiet_live_back st st' i t' :
  quiet_all (tbs st) (tbs st') -> global_gen st' = global_gen st -> live st' i t' ->
  exists t, live st i t /\ quiet t t'.
Proof.
  intros [Hl Hq] Eg [Ht' Hc]. destruct (lookup_lt_is_Some_2 (tbs st) i) as [t Ht].
  { rewrite <- Hl. by eapply lookup_lt_Some. }
  destruct (Hq i t Ht) as (t2 & ? & Q). simplify_eq. exists t. split; [|done].
  split; [done|]. destruct Q as ((_ & _ & _ & _ & E & _) & Ei & _).
  unfold current in *. by rewrite Ei, E, Eg in Hc.
Qed.

Lemma quiet_inv st st' buf buf' :
  inv st buf -> quiet_all (tbs st) (tbs st') -> same_heads st st' -> exits_ok (tbs st') ->
  jumps_ok (jview <$> tbs st') (global_gen st') buf' -> inv st' buf'.
Proof.
  intros [[Ih Ip Ihd Ij] Ig Ihh Ilh Ilp Ic Ie] Hq (Eh & Ec & Ep & Eg) He Hj.
  destruct (lists_frame st st' Ih Ip Eh Ep) as (Hh & Hp & Hho & Hpo).
  { intros k t Hk. destruct (proj2 Hq k t Hk) as (t' & Hk' & (I & _ & ? & ?)). exists t'.
    split_and!; try done; [|unfold page_key; by destruct I as (_ & _ & _ & -> & _)].
    destruct I as (E1 & E2 & _). unfold hash_key. by rewrite E1, E2. }
  assert (Ecp : forall q, code_page st' q = code_page st q) by (intros; unfold code_page; by rewrite Ec).
  split.
  - split; try done. intros q Hge. rewrite Ep. by apply Ihd.
  - by rewrite Eg.
  - intros i t' Hi Ht'. apply Hho in Hi. destruct (on_list_lookup _ _ _ _ Hi) as [t Ht].
    destruct (proj2 Hq i t Ht) as (t2 & ? & (I & Ei & _)). simplify_eq.
    destruct (Ihh i t Hi Ht). destruct I as (_ & _ & -> & _). split; [congruence|done].
  - intros i t' Hl Hcf. destruct (quiet_live_back st st' i t' Hq Eg Hl) as (t & Hlt & (I & _)).
    apply Hho, (Ilh i t); [done|]. by destruct I as (_ & _ & <- & _).
  - intros i t' Hl. destruct (quiet_live_back st st' i t' Hq Eg Hl) as (t & Hlt & (I & _)).
    destruct I as (_ & _ & _ & E & _). unfold page_key. rewrite E. fold (page_key t).
    rewrite Ecp. intros Hpg. destruct (Ilp i t Hlt Hpg).
    split; [by apply Hpo|done].
  - intros q. rewrite Ecp. apply Ic.
  - done.
Qed.

(** The two updates of [tb_add_jump], which may be to the same block. *)
Lemma add_edge l src slot dst ts td :
  l !! src = Some ts -> l !! dst = Some td ->
  exists td1, <[src := set_dest slot dst ts]> l !! dst = Some td1 /\
    length (<[dst := push_edge src slot td1]> (<[src := set_dest slot dst ts]> l)) = length l /\
    forall k t, l !! k = Some t -> exists t',
      <[dst := push_edge src slot td1]> (<[src := set_dest slot dst ts]> l) !! k = Some t' /\
      linked_to src slot dst k t t'.
Proof.
  intros Hts Htd. pose proof (lookup_lt_Some _ _ _ Hts). pose proof (lookup_lt_Some _ _ _ Htd).
  exists (if decide (src = dst) then set_dest slot dst ts else td). split.
  { destruct (decide (src = dst)) as [->|]; [by apply list_lookup_insert_eq|].
    by rewrite list_lookup_insert_ne. }
  split; [by rewrite !length_insert|]. intros k t Hk.
  destruct (decide (k = dst)) as [->|Hd].
  - eexists. split; [apply list_lookup_insert_eq; by rewrite length_insert|]. simplify_eq.
    destruct (decide (src = dst)) as [->|]; simplify_eq; split; simpl;
      rewrite ?decide_True by done; rewrite ?decide_False by done; first [done|by split_and!].
  - rewrite list_lookup_insert_ne by done. destruct (decide (k = src)) as [->|Hs].
    + eexists. split; [by apply list_lookup_insert_eq|]. simplify_eq.
      split; simpl; rewrite ?decide_True by done; rewrite ?decide_False by done; first [done|by split_and!].
    + rewrite list_lookup_insert_ne by done. exists t. split; [done|].
      split; rewrite ?decide_False by done; first [done|by split_and!].
Qed.

Section AddJump.
Context {B : Type} `{HostCodeGenLaws B}.
Variable be : B.

Lemma tb_add_jump_spec st buf src slot dst :
  inv st buf -> (src < length (tbs st))%nat -> (dst < length (tbs st))%nat -> (slot < 2)%nat ->
  exists st' buf', tb_add_jump be st buf src slot dst = Some (st', buf') /\ inv st' buf' /\
    size buf' = size buf /\ quiet_all (tbs st) (tbs st') /\ global_gen st' = global_gen st.
Proof.
  intros Hinv [ts Hts]%lookup_lt_is_Some_2 [td Htd]%lookup_lt_is_Some_2 Hslot.
  assert (Hsame : exists st' buf', Some (st, buf) = Some (st', buf') /\ inv st' buf' /\
    size buf' = size buf /\ quiet_all (tbs st) (tbs st') /\ global_gen st' = global_gen st).
  { exists st, buf. split; [done|]. split; [done|]. split; [done|]. split; [apply quiet_all_refl|done]. }
  pose proof (i_jumps _ _ (i_lists _ _ Hinv)) as Hok. unfold tb_add_jump, get, slot_get.
  rewrite Hts. pose proof (j_shape _ _ _ Hok src _ (view_lookup src ts _ Hts)) as Sh.
  destruct (lookup_lt_is_Some_2 (jmp_insn_offset ts) slot) as [[jo|] Hjo];
    [pose proof (sh_insn _ _ _ Sh) as E; simpl in E; lia| |by rewrite Hjo].
  destruct (lookup_lt_is_Some_2 (jmp_dest (jmp ts)) slot) as [d Hd];
    [pose proof (sh_dest _ _ _ Sh) as E; simpl in E; lia|].
  rewrite Hjo, Htd, Hd. destruct (negb (current st td)) eqn:Ecur; [done|].
  destruct (decide (d = Some dst)); [done|].
  destruct (sh_pair _ _ _ Sh slot jo Hjo) as [r Hr].
  destruct (sh_range _ _ _ Sh slot jo r (conj Hjo Hr)) as (Ho1 & Ho2 & _).
  pose proof (sh_host _ _ _ (j_shape _ _ _ Hok dst _ (view_lookup dst td _ Htd))) as Hh. simpl in Hh.
  pose proof (j_size _ _ _ Hok) as Hsz.
  destruct (patch_jump_ok be buf jo (host_offset td)) as [buf' E]; [lia..|]. rewrite E.
  rewrite (upd_Some st src ts) by done.
  destruct (add_edge (tbs st) src slot dst ts td Hts Htd) as (td1 & Htd1 & Hlen & Hl').
  rewrite (upd_Some _ dst td1) by done. eexists _, buf'. split; [done|].
  apply negb_false_iff, andb_true_iff in Ecur as [Hval%negb_true_iff Hgen%Z.eqb_eq].
  destruct (patch_jump_keeps be buf jo _ buf' E) as [Esz _].
  assert (Hq : quiet_all (tbs st) (<[dst := push_edge src slot td1]>
    (<[src := set_dest slot dst ts]> (tbs st)))).
  { apply (quiet_trans _ (<[src := set_dest slot dst ts]> (tbs st)));
      (eapply quiet_insert; [done|by split_and!]). }
  split; [|done]. apply (quiet_inv st _ buf); try done.
  { intros k t' Ht'. simpl in *. rewrite Hlen. destruct (lookup_lt_is_Some_2 (tbs st) k) as [t Ht].
    { rewrite <- Hlen. by eapply lookup_lt_Some. }
    destruct (Hl' k t Ht) as (t2 & ? & [[_ Ee] _ _ _]). simplify_eq. rewrite Ee.
    by apply (i_exit _ _ Hinv k). }
  apply (chained_jumps_ok src slot dst (tbs st) _ _ buf buf' ts td jo); try done.
  - by eapply patch_jump_same.
  - intros o. by eapply patch_jump_other.
Qed.

End AddJump.

(** ** The whole store, event by event *)

Lemma gen_bump g : 0 < g < 2 ^ 64 - 1 ->
  (let g' := wrapping_add 64 g 1 in if g' =? 0 then 1 else g') = g + 1.
Proof.
  intros Hg. unfold wrapping_add. rewrite wrap_small by (split; lia). simpl.
  destruct (Z.eqb_spec (g + 1) 0); lia.
Qed.

(** After the generation is bumped no block is current. *)
Lemma invalidate_all_dead st buf i t :
  inv st buf -> global_gen st < 2 ^ 64 - 1 -> ~ live (invalidate_all st) i t.
Proof.
  intros Hinv Hlt [Ht Hc]. pose proof (i_gen _ _ Hinv) as Hg.
  pose proof (j_shape _ _ _ (i_jumps _ _ (i_lists _ _ Hinv)) i _ (view_lookup i t _ Ht)) as Sh.
  pose proof (sh_gen _ _ _ Sh) as Hge. simpl in Hge. unfold current in Hc. simpl in Hc.
  rewrite gen_bump in Hc by lia. apply andb_true_iff in Hc as [_ Hc%Z.eqb_eq]. lia.
Qed.

Lemma jumps_ok_bump vs g buf : jumps_ok vs g buf -> jumps_ok vs (g + 1) buf.
Proof.
  intros [Jsz Jsh Jd Jl Ja Jc]. split; try done.
  - intros i v Hi. destruct (Jsh i v Hi). split; try done. lia.
  - intros i v s d Hi Hd. destruct (Jd i v s d Hi Hd) as (? & u & ? & ? & ? & _).
    split; [done|]. exists u. split_and!; try done.
    intros E. pose proof (sh_gen _ _ _ (Jsh i v Hi)). lia.
Qed.

Lemma invalidate_all_inv st buf :
  inv st buf -> global_gen st < 2 ^ 64 - 1 -> inv (invalidate_all st) buf.
Proof.
  intros Hinv Hlt. pose proof (i_gen _ _ Hinv) as Hg.
  pose proof (fun i t => invalidate_all_dead st buf i t Hinv Hlt) as Hdead.
  destruct Hinv as [[Ih Ip Ihd Ij] _ Ihh _ _ _ Ie].
  assert (Eg : global_gen (invalidate_all st) = global_gen st + 1) by (apply gen_bump; lia).
  split; try done.
  - split; try done. rewrite Eg. by apply jumps_ok_bump.
  - rewrite Eg. lia.
  - intros i t Hl. by apply Hdead in Hl.
  - intros i t Hl. by apply Hdead in Hl.
Qed.

Lemma empty_linked next key : linked next key ∅ [].
Proof. intros b. exists []. rewrite lookup_empty. split; [constructor|set_solver]. Qed.

Lemma empty_inv g buf :
  0 < g < 2 ^ 64 -> 0 <= size buf < 2 ^ 31 -> inv (mk_TbStore [] ∅ ∅ ∅ g) buf.
Proof.
  intros Hg Hs. split; try done.
  - split; [apply empty_linked|apply empty_linked| |]; [intros p _; apply lookup_empty|].
    by split.
  - by intros i t [? _].
  - by intros i t [? _].
Qed.

Lemma jc_ok_invalidate jc st :
  JumpCache.wf jc -> JumpCache.generation jc < 2 ^ 64 - 1 -> jc_ok (JumpCache.invalidate jc) st.
Proof.
  intros Hwf Hg. split; [by apply (JumpCache.wf_ops jc 0 0)|].
  intros q i. by rewrite JumpCache.lookup_invalidate.
Qed.

Record Exec := mk_Exec {
  x_store : TbStore;
  x_jc : JumpCache.JumpCache;
  x_buf : CodeBuffer
}.

(** What the dispatch loop does to the store, the jump cache and the buffer. *)
Inductive event :=
| EFind (cur_phys p f : Z) (res : option Generated)
| EGen (cur_phys p f cf : Z) (res : option Generated)
| EChain (src slot dst : nat)
| EExitTarget (src dst : nat)
| EDirty (dirty : list Z)
| EFlushPages (dirty : list Z)
| EFlushAll
| EBufferFull (code_gen_start : Z).

Definition wrap_up (r : option (TbStore * JumpCache.JumpCache * CodeBuffer)) : option Exec :=
  match r with Some (st, jc, buf) => Some (mk_Exec st jc buf) | None => None end.

Section Events.
Context {B : Type} `{HostCodeGenLaws B}.
Variable be : B.

Definition exec_event (x : Exec) (e : event) : option Exec :=
  let st := x_store x in let jc := x_jc x in let buf := x_buf x in
  match e with
  | EFind cur p f res =>
      '(_, st, jc, buf) ← tb_find st jc buf cur p f res; Some (mk_Exec st jc buf)
  | EGen cur p f cf res =>
      '(_, st, jc, buf) ← tb_gen_code st jc buf cur p f cf res; Some (mk_Exec st jc buf)
  | EChain src slot dst =>
      '(st, buf) ← tb_add_jump be st buf src slot dst; Some (mk_Exec st jc buf)
  | EExitTarget src dst => st ← store_exit_target st src dst; Some (mk_Exec st jc buf)
  | EDirty dirty => wrap_up (take_dirty_pages be st jc buf dirty)
  | EFlushPages dirty => wrap_up (flush_dirty_tb_pages be st jc buf dirty)
  | EFlushAll => let '(_, st, jc) := flush_pending_tbs st jc true in Some (mk_Exec st jc buf)
  | EBufferFull start => wrap_up (recover_buffer_full st jc buf start)
  end.

Definition no_wrap (x : Exec) : Prop :=
  global_gen (x_store x) < 2 ^ 64 - 1 /\ JumpCache.generation (x_jc x) < 2 ^ 64 - 1.

(** What the loop guarantees of an event: generated code keeps the backend's
    promise, indices come from earlier searches, counters have not run out. *)
Definition event_ok (x : Exec) (e : event) : Prop :=
  let n := length (tbs (x_store x)) in
  match e with
  | EFind _ _ _ res | EGen _ _ _ _ res =>
      forall g, res = Some g -> gen_ok (x_store x) (x_buf x) g
  | EChain src slot dst => (src < n)%nat /\ (slot < 2)%nat /\ (dst < n)%nat
  | EExitTarget src dst => (src < n)%nat /\ (dst < n)%nat
  | EDirty _ | EFlushPages _ | EFlushAll => no_wrap x
  | EBufferFull start => no_wrap x /\ start <= size (x_buf x)
  end.

Definition exec_inv (x : Exec) : Prop :=
  inv (x_store x) (x_buf x) /\ jc_ok (x_jc x) (x_store x).

(** The live blocks after some pages were handled: those that were there, but for
    the pages listed. *)
Record pages_gone (dirty : list Z) (st st' : TbStore) : Prop := mk_pages_gone {
  pg_back : forall i t', live st' i t' -> exists t, live st i t /\ same_id t t';
  pg_gone : forall i t, live st' i t -> page_key t < CODE_REFCOUNT_PAGES -> page_key t ∉ dirty;
  pg_keep : forall i t, live st i t -> page_key t ∉ dirty ->
    exists t', live st' i t' /\ same_id t t'
}.

Lemma same_id_trans t1 t2 t3 : same_id t1 t2 -> same_id t2 t3 -> same_id t1 t3.
Proof. unfold same_id, same_code. intuition congruence. Qed.

Lemma pages_gone_nil st : pages_gone [] st st.
Proof. split; [|set_solver|]; intros i t; eauto using same_id_refl. Qed.

Lemma pages_gone_cons p dirty st st1 st2 :
  pages_gone [p] st st1 -> pages_gone dirty st1 st2 -> pages_gone (p :: dirty) st st2.
Proof.
  intros [B1 G1 K1] [B2 G2 K2]. split.
  - intros i t2 (t1 & (t & ? & ?)%B1 & ?)%B2. eauto using same_id_trans.
  - intros i t2 Hl Hlt. pose proof (G2 i t2 Hl Hlt) as Hn. destruct (B2 i t2 Hl) as (t1 & Hl1 & I).
    rewrite (same_id_key _ _ I) in *. pose proof (G1 i t1 Hl1 Hlt). set_solver.
  - intros i t Hl Hn. destruct (K1 i t Hl) as (t1 & Hl1 & I1); [set_solver|].
    destruct (K2 i t1 Hl1) as (t2 & ? & ?); [|eauto using same_id_trans].
    rewrite (same_id_key _ _ I1). set_solver.
Qed.

Lemma page_gone_one st buf p :
  inv st buf -> exists st' buf', invalidate_phys_page be st buf p = Some (st', buf') /\
    inv st' buf' /\ pages_gone [p] st st'.
Proof.
  intros Hinv. destruct (invalidate_phys_page_inv be st buf p Hinv)
    as (st' & buf' & E & Hinv' & Hg & Hb & Hk). exists st', buf'. split_and!; try done.
  split; [done| |].
  - intros i t Hl Hlt Ep%list_elem_of_singleton. apply (Hg ltac:(lia) i t Hl Ep).
  - intros i t Hl Hn. apply Hk; [done|]. set_solver.
Qed.

(** A page that is not a code page needs no work. *)
Lemma page_gone_clean st buf p :
  inv st buf -> is_code_page st p = false -> pages_gone [p] st st.
Proof.
  intros Hinv Hc. split; [intros i t; eauto using same_id_refl| |intros i t; eauto using same_id_refl].
  intros i t Hl Hlt Ep%list_elem_of_singleton.
  destruct (i_live_page _ _ Hinv i t Hl Hlt) as [_ Hpos].
  unfold is_code_page in Hc. rewrite <- Ep, (proj2 (Z.ltb_lt _ _) Hlt) in Hc. apply Z.ltb_ge in Hc. lia.
Qed.

Lemma dirty_pages_spec dirty : forall st buf,
  inv st buf -> exists st' buf', dirty_pages be st buf dirty = Some (st', buf') /\
    inv st' buf' /\ pages_gone dirty st st'.
Proof.
  induction dirty as [|p dirty IH]; intros st buf Hinv.
  { exists st, buf. split_and!; try done. apply pages_gone_nil. }
  assert (exists st1 buf1, (if is_code_page st p then invalidate_phys_page be st buf p
    else Some (st, buf)) = Some (st1, buf1) /\ inv st1 buf1 /\ pages_gone [p] st st1)
    as (st1 & buf1 & E & Hinv1 & H1).
  { destruct (is_code_page st p) eqn:Ec; [by apply page_gone_one|].
    exists st, buf. split_and!; try done. by eapply page_gone_clean. }
  destruct (IH st1 buf1 Hinv1) as (st2 & buf2 & E2 & Hinv2 & H2).
  exists st2, buf2. simpl. rewrite E. split_and!; try done. by eapply pages_gone_cons.
Qed.

Lemma flush_pages_spec dirty : forall st buf,
  inv st buf -> exists st' buf', flush_pages be st buf dirty = Some (st', buf') /\
    inv st' buf' /\ pages_gone dirty st st'.
Proof.
  induction dirty as [|p dirty IH]; intros st buf Hinv.
  { exists st, buf. split_and!; try done. apply pages_gone_nil. }
  destruct (page_gone_one st buf p Hinv) as (st1 & buf1 & E & Hinv1 & H1).
  destruct (IH st1 buf1 Hinv1) as (st2 & buf2 & E2 & Hinv2 & H2).
  exists st2, buf2. simpl. rewrite E. split_and!; try done. by eapply pages_gone_cons.
Qed.

Lemma exit_target_inv st buf src dst :
  inv st buf -> (src < length (tbs st))%nat -> (dst < length (tbs st))%nat ->
  exists st', store_exit_target st src dst = Some st' /\ inv st' buf /\
    length (tbs st') = length (tbs st).
Proof.
  intros Hinv [t Ht]%lookup_lt_is_Some_2 Hd. unfold store_exit_target.
  rewrite (upd_Some st src t) by done. eexists. split; [done|].
  split; [|simpl; by rewrite length_insert]. apply (quiet_inv st _ buf); try done.
  - simpl. eapply quiet_insert; [done|by split_and!].
  - intros k u. simpl. rewrite length_insert.
    intros [(-> & <- & _)|[_ Hk]]%list_lookup_insert_Some; [right; simpl; lia|].
    by apply (i_exit _ _ Hinv k).
  - simpl. rewrite list_fmap_insert, list_insert_id; [apply Hinv|]. by rewrite list_lookup_fmap, Ht.
Qed.

(** Every event the loop may issue completes, and keeps the invariant. *)
Lemma exec_event_ok x e :
  exec_inv x -> event_ok x e -> exists x', exec_event x e = Some x' /\ exec_inv x'.
Proof.
  destruct x as [st jc buf]. intros [Hinv Hjc] Hok. simpl in Hinv, Hjc.
  destruct e as [cur p f res|cur p f cf res|src slot dst|src dst|dirty|dirty| |start];
    unfold exec_event; cbn [x_store x_jc x_buf].
  - destruct (tb_find_spec st jc buf cur p f res Hinv Hjc Hok) as (r & st' & jc' & buf' & -> & []).
    simpl. by eexists.
  - destruct (tb_gen_code_spec st jc buf cur p f cf res Hinv Hjc Hok)
      as (r & st' & jc' & buf' & -> & []). simpl. by eexists.
  - destruct Hok as (Hs & Hsl & Hd).
    destruct (tb_add_jump_spec be st buf src slot dst Hinv Hs Hd Hsl)
      as (st' & buf' & -> & Hinv' & _ & [El _] & _). simpl. eexists. split; [done|].
    split; [done|]. apply (jc_ok_mono jc st); [done|]. simpl. lia.
  - destruct Hok as [Hs Hd].
    destruct (exit_target_inv st buf src dst Hinv Hs Hd) as (st' & -> & Hinv' & El). simpl.
    eexists. split; [done|]. split; [done|]. apply (jc_ok_mono jc st); [done|]. simpl. lia.
  - destruct Hok as [Hg Hgj]. simpl in *. destruct dirty as [|p dirty]; [by eexists|].
    unfold take_dirty_pages. destruct (dirty_pages_spec (p :: dirty) st buf Hinv)
      as (st' & buf' & -> & Hinv' & _). eexists. split; [done|]. split; [done|].
    apply jc_ok_invalidate; [apply Hjc|done].
  - destruct Hok as [Hg Hgj]. simpl in *. destruct dirty as [|p dirty].
    + eexists. split; [done|]. split; [by apply invalidate_all_inv|].
      apply jc_ok_invalidate; [apply Hjc|done].
    + unfold flush_dirty_tb_pages. destruct (flush_pages_spec (p :: dirty) st buf Hinv)
        as (st' & buf' & -> & Hinv' & _). eexists. split; [done|]. split; [done|].
      apply jc_ok_invalidate; [apply Hjc|done].
  - destruct Hok as [Hg Hgj]. simpl in *. eexists. split; [done|].
    split; [by apply invalidate_all_inv|]. apply jc_ok_invalidate; [apply Hjc|done].
  - destruct Hok as [[Hg Hgj] Hs]. simpl in *. unfold recover_buffer_full, set_offset.
    rewrite (proj2 (Z.leb_le _ _) Hs). eexists. split; [done|].
    split; [|apply jc_ok_invalidate; [apply Hjc|done]]. pose proof (i_gen _ _ Hinv).
    assert (Eg : global_gen (invalidate_all st) = global_gen st + 1) by (apply gen_bump; lia).
    apply empty_inv; [rewrite Eg; lia|apply (i_jumps _ _ (i_lists _ _ Hinv))].
Qed.

Inductive reachable : Exec -> Prop :=
| reach_init b : 0 <= size b < 2 ^ 31 -> reachable (mk_Exec new JumpCache.new b)
| reach_event x e x' :
    reachable x -> event_ok x e -> exec_event x e = Some x' -> reachable x'.

Lemma exec_reachable_inv x : reachable x -> exec_inv x.
Proof.
  induction 1 as [b Hb|x e x' _ IH Hok E].
  - split; [by apply empty_inv|]. split; [apply JumpCache.cache_wf_new|].
    intros q i. cbn [x_jc]. by rewrite JumpCache.lookup_new.
  - destruct (exec_event_ok x e IH Hok) as (x2 & E2 & ?). congruence.
Qed.

End Events.

(** ** A sample run

    Two blocks are translated, the first is chained to the second and remembers it
    as an indirect target. *)
Module Run.

Definition be : X86_64CodeGen := mk_X86_64CodeGen 0.

Definition buf0 : CodeBuffer := mk_CodeBuffer ∅ 65536 256 false.

(** Code at [off] with one patchable jump, sixteen bytes in, to the next byte. *)
Definition code (phys off : Z) (b : CodeBuffer) : Generated :=
  mk_Generated 4 1 0 phys off 64 false [Some (off + 16, off + 21); None]
    (mk_CodeBuffer (mem b) (size b) (off + 64) false).

Definition x0 : Exec := mk_Exec new JumpCache.new buf0.
Definition e1 : event := EFind 0x80000000 0x80000000 3 (Some (code 0x80000000 256 buf0)).
Definition x1 : Exec := default x0 (exec_event be x0 e1).
Definition e2 : event := EFind 0x80001000 0x80001000 3 (Some (code 0x80001000 320 (x_buf x1))).
Definition x2 : Exec := default x0 (exec_event be x1 e2).
Definition x3 : Exec := default x0 (exec_event be x2 (EChain 0 0 1)).
Definition x4 : Exec := default x0 (exec_event be x3 (EExitTarget 0 1)).

Lemma read_empty o n : read_le ∅ o n = 0.
Proof.
  revert o. induction n as [|n IH]; intros o; [done|]. cbn [read_le]. rewrite IH.
  unfold byte_at. by rewrite lookup_empty.
Qed.

Lemma code_ok st phys off b :
  mem b = ∅ -> size b = 65536 -> 0 <= off < 60000 ->
  (forall i t s o r, tbs st !! i = Some t -> jump_at (jview t) s o r -> o + 5 <= off) ->
  gen_ok st b (code phys off b).
Proof.
  intros Hm Hs Ho Hold. split; simpl; rewrite ?Hs; try lia; try done.
  - intros s o r H. destruct s as [|[|]]; simplify_eq/=. split_and!; try lia.
    unfold jump_target. cbn [mem]. rewrite Hm, read_empty. change (signed 32 0) with 0. lia.
  - intros i t s o r Hi Hj. split; [done|]. intros s' o' r' H. pose proof (Hold i t s o r Hi Hj).
    destruct s' as [|[|]]; simplify_eq/=. left. lia.
Qed.

Lemma run_x1 : exec_event be x0 e1 = Some x1.
Proof. vm_compute. reflexivity. Qed.

Lemma run_x2 : exec_event be x1 e2 = Some x2.
Proof. vm_compute. reflexivity. Qed.

Lemma run_x3 : exec_event be x2 (EChain 0 0 1) = Some x3.
Proof. vm_compute. reflexivity. Qed.

Lemma run_x4 : exec_event be x3 (EExitTarget 0 1) = Some x4.
Proof. vm_compute. reflexivity. Qed.

Lemma ok_e1 : event_ok x0 e1.
Proof. intros g [= <-]. apply code_ok; [done|done|lia|]. by intros [|]. Qed.

Lemma ok_e2 : event_ok x1 e2.
Proof.
  intros g [= <-]. apply code_ok; [by vm_compute|by vm_compute|lia|].
  assert (E : exists t, tbs (x_store x1) = [t] /\ jmp_insn_offset t = [Some 272; None]).
  { eexists. split; [vm_compute; reflexivity|done]. }
  destruct E as (t & -> & Et). intros i u s o r Hi [Hj _].
  apply list_lookup_singleton_Some in Hi as [_ <-]. simpl in Hj. rewrite Et in Hj.
  destruct s as [|[|]]; simplify_eq/=. lia.
Qed.

Lemma reach1 : reachable be x1.
Proof.
  apply (reach_event be x0 e1); [|exact ok_e1|exact run_x1]. apply reach_init. by vm_compute.
Qed.

Lemma reach4 : reachable be x4.
Proof.
  apply (reach_event be x3 (EExitTarget 0 1)); [|vm_compute; lia|exact run_x4].
  apply (reach_event be x2 (EChain 0 0 1)); [|vm_compute; lia|exact run_x3].
  apply (reach_event be x1 e2); [exact reach1|exact ok_e2|exact run_x2].
Qed.

Lemma room4 : no_wrap x4.
Proof. by vm_compute. Qed.

End Run.

(** ** Properties *)

(** C9: In every state the dispatch loop can reach, every event it may issue
    (search, translation, chaining, page and global invalidation, recovery from a
    full buffer) completes: no index is out of range, no list walk runs for ever,
    no jump patch overflows. *)
Theorem store_events_complete {B} `{HostCodeGenLaws B} (be : B) (x : Exec) (e : event) :
  reachable be x -> event_ok x e -> exists x', exec_event be x e = Some x' /\ reachable be x'.
Proof.
  intros Hr Hok. destruct (exec_event_ok be x e (exec_reachable_inv be x Hr) Hok) as (x' & E & _).
  exists x'. split; [done|]. by eapply reach_event.
Qed.

Lemma store_events_complete_witness :
  exists x', exec_event Run.be Run.x4 (EDirty [0x80000]) = Some x' /\ reachable Run.be x'.
Proof. apply (store_events_complete Run.be Run.x4 _ Run.reach4). exact Run.room4. Defined.

(** C7: Live code jumps only to live code: the patched jump of a live block goes
    to its own exit stub or to the entry of a live block. *)
Theorem live_code_jumps_live {B} `{HostCodeGenLaws B} (be : B) (x : Exec) i t s o r :
  reachable be x -> live (x_store x) i t -> jump_at (jview t) s o r ->
  jump_target (x_buf x) o = r \/
  exists d u, live (x_store x) d u /\ jump_target (x_buf x) o = host_offset u.
Proof.
  intros Hr%exec_reachable_inv [Ht Hc] Hj. destruct Hr as [Hinv _].
  pose proof (i_jumps _ _ (i_lists _ _ Hinv)) as Hok. unfold current in Hc.
  apply andb_true_iff in Hc as [Hv%negb_true_iff Hg%Z.eqb_eq].
  pose proof (j_code _ _ _ Hok i _ s o r (view_lookup i t _ Ht) Hv Hj) as Jc. simpl in Jc.
  destruct (jmp_dest (jmp t) !! s) as [[d|]|] eqn:Ed; [right|by left|by left].
  destruct Jc as (u & Hu & ->).
  destruct (j_dest _ _ _ Hok i _ s d (view_lookup i t _ Ht) Ed) as (_ & u' & Hu' & _ & Hiv & Hgu).
  simplify_eq. apply list_lookup_fmap_Some in Hu as (td & -> & Hd). exists d, td.
  split; [|done]. split; [done|]. unfold current. simpl in *. by rewrite Hiv, Hgu, Z.eqb_refl.
Qed.

Lemma live_code_jumps_live_witness :
  exists t, live (x_store Run.x4) 0 t /\
    (jump_target (x_buf Run.x4) 272 = 277 \/
     exists d u, live (x_store Run.x4) d u /\ jump_target (x_buf Run.x4) 272 = host_offset u).
Proof.
  assert (H : exists t, live (x_store Run.x4) 0 t /\ jump_at (jview t) 0 272 277).
  { eexists. split; [split; [vm_compute; reflexivity|by vm_compute]|by vm_compute]. }
  destruct H as (t & Hl & Hj). exists t. split; [exact Hl|].
  exact (live_code_jumps_live Run.be Run.x4 0 t 0 272 277 Run.reach4 Hl Hj).
Defined.



(** A hash lookup is exact: it ends, what it returns is live, has the program
    counter and flags sought and is no single-use block, and it misses only when no
    live block could be returned. *)
Theorem lookup_exact {B} `{HostCodeGenLaws B} (be : B) (x : Exec) p f :
  reachable be x ->
  exists r, lookup (x_store x) p f = Some r /\
    match r with
    | Some i => exists t, live (x_store x) i t /\ pc t = p /\ flags t = f /\ cflags t = 0
    | None => forall i t, live (x_store x) i t -> cflags t = 0 -> ~ (pc t = p /\ flags t = f)
    end.
Proof. intros [Hinv _]%exec_reachable_inv. by eapply lookup_spec. Qed.

Lemma lookup_exact_witness :
  lookup (x_store Run.x4) 0x80001000 3 = Some (Some 1%nat) /\
  exists t, live (x_store Run.x4) 1 t /\ pc t = 0x80001000 /\ flags t = 3 /\ cflags t = 0.
Proof.
  assert (E : lookup (x_store Run.x4) 0x80001000 3 = Some (Some 1%nat)) by (by vm_compute).
  split; [exact E|].
  destruct (lookup_exact Run.be Run.x4 0x80001000 3 Run.reach4) as (r & Er & H).
  rewrite E in Er. injection Er as <-. exact H.
Defined.

(** C30: A search returns code for what is executed: the block found or translated
    is live, has the program counter and flags sought, and its physical address is
    the current translation of the program counter, or the one the translation was
    made from; no block that was live is lost. *)
Theorem tb_find_correct {B} `{HostCodeGenLaws B} (be : B) (x : Exec) cur_phys p f res :
  reachable be x -> (forall g, res = Some g -> gen_ok (x_store x) (x_buf x) g) ->
  exists r st' jc' buf',
    tb_find (x_store x) (x_jc x) (x_buf x) cur_phys p f res = Some (r, st', jc', buf') /\
    (forall i, r = Some i -> found st' cur_phys p f res i) /\
    (forall i t, live (x_store x) i t -> live st' i t).
Proof.
  intros [Hinv Hjc]%exec_reachable_inv Hgo.
  destruct (tb_find_spec _ _ _ cur_phys p f res Hinv Hjc Hgo) as (r & st' & jc' & buf' & E & []).
  by exists r, st', jc', buf'.
Qed.

Lemma tb_find_correct_witness :
  exists r st' jc' buf',
    tb_find (x_store Run.x1) (x_jc Run.x1) (x_buf Run.x1) 0x80001000 0x80001000 3
      (Some (Run.code 0x80001000 320 (x_buf Run.x1))) = Some (r, st', jc', buf') /\
    r = Some 1%nat /\
    found st' 0x80001000 0x80001000 3 (Some (Run.code 0x80001000 320 (x_buf Run.x1))) 1.
Proof.
  destruct (tb_find_correct Run.be Run.x1 0x80001000 0x80001000 3 _ Run.reach1 Run.ok_e2)
    as (r & st' & jc' & buf' & E & H & _). exists r, st', jc', buf'. split; [exact E|].
  assert (Er : r = Some 1%nat).
  { assert (F : (fun z => z.1.1.1) <$> tb_find (x_store Run.x1) (x_jc Run.x1) (x_buf Run.x1)
      0x80001000 0x80001000 3 (Some (Run.code 0x80001000 320 (x_buf Run.x1)))
      = Some (Some 1%nat)) by (by vm_compute).
    rewrite E in F. by injection F. }
  split; [exact Er|exact (H _ Er)].
Defined.

(** A remembered indirect target is safe to use: reading it never leaves the
    store, and it is used only for a live block with the program counter and flags
    reached. *)
Theorem cached_target_live {B} `{HostCodeGenLaws B} (be : B) (x : Exec) src p f :
  reachable be x -> (src < length (tbs (x_store x)))%nat ->
  exists r, cached_target (x_store x) src p f = Some r /\
    forall i, r = Some i -> exists t, live (x_store x) i t /\ pc t = p /\ flags t = f.
Proof.
  intros [Hinv _]%exec_reachable_inv [t Ht]%lookup_lt_is_Some_2. unfold cached_target, get. rewrite Ht.
  cbv zeta. destruct (i_exit _ _ Hinv src t Ht) as [->|Hr]; [by exists None|].
  destruct (Z.eqb_spec (exit_target t) EXIT_TARGET_NONE); [by exists None|].
  destruct (lookup_lt_is_Some_2 (tbs (x_store x)) (Z.to_nat (exit_target t))) as [u Hu]; [lia|].
  rewrite Hu. eexists. split; [done|]. intros i.
  destruct (current _ u && (pc u =? p) && (flags u =? f)) eqn:E; [|done]. intros [= <-].
  rewrite !andb_true_iff, !Z.eqb_eq in E. destruct E as [[? ?] ?]. by exists u.
Qed.

Lemma cached_target_live_witness :
  cached_target (x_store Run.x4) 0 0x80001000 3 = Some (Some 1%nat) /\
  exists t, live (x_store Run.x4) 1 t /\ pc t = 0x80001000 /\ flags t = 3.
Proof.
  assert (E : cached_target (x_store Run.x4) 0 0x80001000 3 = Some (Some 1%nat))
    by (by vm_compute).
  split; [exact E|].
  destruct (cached_target_live Run.be Run.x4 0 0x80001000 3 Run.reach4) as (r & Er & H).
  { apply Nat.ltb_lt. by vm_compute. }
  apply H. congruence.
Defined.

(** A global flush invalidates everything at once: afterwards no block is live,
    so lookups and the jump cache return nothing. *)
Theorem flush_all_empties {B} `{HostCodeGenLaws B} (be : B) (x : Exec) p f :
  reachable be x -> no_wrap x ->
  exists x', exec_event be x EFlushAll = Some x' /\
    (forall i t, ~ live (x_store x') i t) /\
    lookup (x_store x') p f = Some None /\ JumpCache.lookup (x_jc x') p = None.
Proof.
  intros [Hinv Hjc]%exec_reachable_inv [Hg Hgj]. eexists. split; [done|]. cbn [x_store x_jc].
  pose proof (fun i t => invalidate_all_dead _ _ i t Hinv Hg) as Hdead. split_and!; [done| |].
  - destruct (lookup_spec _ _ p f (invalidate_all_inv _ _ Hinv Hg)) as ([i|] & E & Hr); [|done].
    destruct Hr as (t & Hl & _). by apply Hdead in Hl.
  - apply JumpCache.lookup_invalidate; [apply Hjc|done].
Qed.

Lemma flush_all_empties_witness :
  exists x', exec_event Run.be Run.x4 EFlushAll = Some x' /\
    lookup (x_store x') 0x80001000 3 = Some None.
Proof.
  destruct (flush_all_empties Run.be Run.x4 0x80001000 3 Run.reach4 Run.room4)
    as (x' & E & _ & H & _). exists x'. split; [exact E|exact H].
Defined.
