(* ===== verification/IrHost.v ===== *)
(** * Host meaning of the IR ops a front end emits

    [IrSem] leaves the meaning of memory accesses, comparisons, wide multiplication and
    division, bit counting and helper calls open.  Here it is fixed to what the opcode
    documentation of [accel/src/ir/opcode.rs] states, with guest memory behind two
    functions on an abstract world and helper functions found by their address.  Then
    straight-line execution of a list of ops, and a calculus of builder programs
    ([spec]): what a computation of [Ir] emits and which temporaries it knows. *)

From Stdlib Require Import ZArith Lia Bool.
From stdpp Require Import base tactics numbers list gmap functions.
From S2P Require Import Prelude IrTypes IrOpcode IrContext IrBuild IrSem.
Import Opcode.

(** Population count of the low [n] bits. *)
Fixpoint ctpop (n : nat) (a : Z) : Z :=
  match n with O => 0 | S k => ctpop k a + Z.b2z (Z.testbit a (Z.of_nat k)) end.

(** The bytes of a 64-bit value in the opposite order. *)
Definition bswap64 (a : Z) : Z :=
  foldr (fun i r => r * 256 + a / 2 ^ (8 * Z.of_nat i) mod 256) 0 (rev (seq 0 8)).

(** A loaded value of [m]'s size, extended as [m] says. *)
Definition mem_extend (m v : Z) : Z :=
  let bits := 8 * MemOp.size_bytes m in
  if MemOp.is_signed m then u64 (signed bits (wrap bits v)) else wrap bits v.

Section Host.
Context {W : Type}.
Variable mem_load : W -> Z -> Z -> option Z * W.
Variable mem_store : W -> Z -> Z -> Z -> bool * W.
(** The function at a host address, on its six argument registers. *)
Variable helper_at : Z -> option (list Z -> option Z).

Definition host_value (opc : Opcode) (bits : Z) (cargs : list N) (vs : list Z) : option (list Z) :=
  match opc, wrap bits <$> vs, cargs with
  | SetCond, [a; b], [c] => cc ← cond_of_carg c; Some [Z.b2z (Cond.holds bits cc a b)]
  | MovCond, [c1; c2; v1; v2], [c] =>
      cc ← cond_of_carg c; Some [if Cond.holds bits cc c1 c2 then v1 else v2]
  | MulS2, [a; b], [] =>
      let p := signed bits a * signed bits b in Some [wrap bits p; wrap bits (p / 2 ^ bits)]
  | MulU2, [a; b], [] => Some [wrap bits (a * b); wrap bits (a * b / 2 ^ bits)]
  | DivU2, [al; ah; b], [] =>
      let n := ah * 2 ^ bits + al in
      if (b =? 0) || (2 ^ bits <=? n / b) then None else Some [n / b; n mod b]
  | Clz, [a; b], [] => Some [if a =? 0 then b else bits - 1 - Z.log2 a]
  | Ctz, [a; b], [] => Some [if a =? 0 then b else trailing_zeros bits a]
  | CtPop, [a], [] => Some [ctpop (Z.to_nat bits) a]
  | Bswap64, [a], [_] => Some [bswap64 a]
  | Mb, [], [_] => Some []
  | _, _, _ => None
  end.

Definition host_ext (opc : Opcode) (ty : Ty.Ty) (cargs : list N) (vs : list Z) (w : W)
    : option (option (list Z) * W) :=
  match opc, vs, cargs with
  | QemuLd, [addr], [m] =>
      let m := Z.of_N m in
      match mem_load w addr (MemOp.size_bytes m) with
      | (Some v, w') => Some (Some [mem_extend m v], w')
      | (None, w') => Some (None, w')
      end
  | QemuSt, [v; addr], [m] =>
      let n := MemOp.size_bytes (Z.of_N m) in
      match mem_store w addr n (wrap (8 * n) v) with
      | (true, w') => Some (Some [], w')
      | (false, w') => Some (None, w')
      end
  | _, _, _ => vs' ← host_value opc (ty_bits ty) cargs vs; Some (Some vs', w)
  end.

Definition host_call (cargs : list N) (args gs : list Z) (w : W)
    : option (list Z * list Z * W) :=
  match cargs with
  | [lo; hi] =>
      f ← helper_at (Z.of_N lo + 2 ^ 32 * Z.of_N hi);
      r ← f args;
      Some ([r], gs, w)
  | _ => None
  end.

Variable chained : N -> W -> bool.

Definition exec1 := exec_op host_ext host_call chained.

(** How a list of ops ends: by falling off its end, or by leaving at op number [i]. *)
Inductive stop := Fell | LeftAt (i : nat) (op : Op.Op).

(** Execution of a list of ops whose jumps go forward.  [i] is the number of the first
    op; after a jump the ops up to the label are skipped. *)
Fixpoint exec_ops (ts : list Temp.Temp) (nb i : nat) (skip : option N) (l : list Op.Op)
    (σ : N -> Z) (w : W) : option ((N -> Z) * W * stop) :=
  match l with
  | [] => match skip with None => Some (σ, w, Fell) | Some _ => None end
  | op :: rest =>
      match skip with
      | Some lab =>
          if decide (Op.opc op = SetLabel /\ nth 0 (Op.args op) 0%N = lab)
          then exec_ops ts nb (S i) None rest σ w
          else exec_ops ts nb (S i) skip rest σ w
      | None =>
          match exec1 ts nb op σ w with
          | Some (σ', w', Fall) => exec_ops ts nb (S i) None rest σ' w'
          | Some (σ', w', Jump lab) => exec_ops ts nb (S i) (Some lab) rest σ' w'
          | Some (σ', w', Leave) => Some (σ', w', LeftAt i op)
          | None => None
          end
      end
  end.

Lemma exec_ops_app ts nb i skip l1 l2 σ w σ' w' :
  exec_ops ts nb i skip l1 σ w = Some (σ', w', Fell) ->
  exec_ops ts nb i skip (l1 ++ l2) σ w = exec_ops ts nb (i + length l1) None l2 σ' w'.
Proof.
  revert i skip σ w. induction l1 as [|op l1 IH]; cbn [exec_ops app length]; intros i skip σ w.
  { destruct skip; [done|]. intros [= <- <-]. by rewrite Nat.add_0_r. }
  rewrite Nat.add_succ_r. destruct skip as [lab|].
  - destruct (decide _); apply (IH (S i)).
  - destruct (exec1 ts nb op σ w) as [[[σ1 w1] [| |]]|]; [apply (IH (S i))..|done|done].
Qed.

Lemma exec_ops_left ts nb i skip l1 l2 σ w σ' w' j op :
  exec_ops ts nb i skip l1 σ w = Some (σ', w', LeftAt j op) ->
  exec_ops ts nb i skip (l1 ++ l2) σ w = Some (σ', w', LeftAt j op).
Proof.
  revert i skip σ w. induction l1 as [|o l1 IH]; cbn [exec_ops app]; intros i skip σ w.
  { by destruct skip. }
  destruct skip as [lab|]; [destruct (decide _); apply (IH (S i))|].
  destruct (exec1 ts nb o σ w) as [[[σ1 w1] [| |]]|]; [apply (IH (S i))..|done|done].
Qed.

Lemma exec_ops_at ts nb i skip l σ w σ' w' j op :
  exec_ops ts nb i skip l σ w = Some (σ', w', LeftAt j op) ->
  (i <= j)%nat /\ l !! (j - i)%nat = Some op.
Proof.
  revert i skip σ w. induction l as [|o l IH]; cbn [exec_ops]; intros i skip σ w He.
  { by destruct skip. }
  assert (Hs : forall i' s σ1 w1, i' = S i -> exec_ops ts nb i' s l σ1 w1 = Some (σ', w', LeftAt j op) ->
    (i <= j)%nat /\ (o :: l) !! (j - i)%nat = Some op).
  { intros i' s σ1 w1 -> H. destruct (IH _ _ _ _ H) as [Hle Hl]. split; [lia|].
    replace (j - i)%nat with (S (j - S i)) by lia. exact Hl. }
  destruct skip as [lab|]; [destruct (decide _); by eapply Hs|].
  destruct (exec1 ts nb o σ w) as [[[σ1 w1] [| |]]|]; [by eapply Hs..| |done].
  injection He as <- <- <- <-. by rewrite Nat.sub_diag.
Qed.

(** The labels of a block are placed once. *)
Definition label_of (op : Op.Op) : option N :=
  if decide (Op.opc op = SetLabel) then Some (nth 0 (Op.args op) 0%N) else None.

Definition labels_once (l : list Op.Op) : Prop :=
  forall i j a b lab, l !! i = Some a -> l !! j = Some b ->
    label_of a = Some lab -> label_of b = Some lab -> i = j.

Lemma label_of_eq op lab :
  label_of op = Some lab <-> Op.opc op = SetLabel /\ nth 0 (Op.args op) 0%N = lab.
Proof. unfold label_of. destruct (decide _); naive_solver. Qed.

Lemma find_label_once (ops : list Op.Op) lab k j op :
  labels_once ops -> ops !! j = Some op -> label_of op = Some lab ->
  find_label lab ops k = Some (k + j)%nat.
Proof.
  revert k j. induction ops as [|o ops IH]; intros k j Hu Hj Hl; [done|].
  cbn [find_label]. destruct (decide _) as [Ho|Ho].
  - apply label_of_eq in Ho. pose proof (Hu 0%nat j o op lab eq_refl Hj Ho Hl). f_equal. lia.
  - destruct j as [|j]; [injection Hj as ->; by apply label_of_eq in Hl|].
    rewrite (IH (S k) j); [f_equal; lia| |done|done].
    intros a b x y lab' Ha Hb Hx Hy. pose proof (Hu (S a) (S b) x y lab' Ha Hb Hx Hy). lia.
Qed.

(** Running the whole block by [IrSem.run] does what [exec_ops] says. *)
Lemma exec_ops_run (ctx : Context.Context) i skip l σ w σ' w' j op :
  drop i (Context.ops ctx) = l -> labels_once (Context.ops ctx) ->
  exec_ops (Context.temps ctx) (Context.nb_globals ctx) i skip l σ w = Some (σ', w', LeftAt j op) ->
  exists p n, match skip with
    | None => p = i
    | Some lab => find_label lab (Context.ops ctx) 0 = Some p end /\
    run host_ext host_call chained ctx n (Running p σ w) = Some (Left j σ' w').
Proof.
  revert i skip σ w. induction l as [|o l IH]; cbn [exec_ops]; intros i skip σ w Hd Hu He.
  { by destruct skip. }
  assert (Hi : Context.ops ctx !! i = Some o).
  { rewrite <- (Nat.add_0_r i), <- lookup_drop, Hd. done. }
  assert (Hd' : drop (S i) (Context.ops ctx) = l).
  { rewrite <- (Nat.add_1_r i), <- drop_drop, Hd. done. }
  destruct skip as [lab|].
  - destruct (decide _) as [Ho|Ho].
    + destruct (IH _ _ _ _ Hd' Hu He) as (p & n & -> & Hr). exists i, (S n). split.
      * eapply (find_label_once _ _ 0); [done|done|by apply label_of_eq].
      * cbn [run]. unfold step_config. rewrite Hi. cbn [mbind option_bind].
        unfold exec_op. destruct Ho as [-> _]. exact Hr.
    + destruct (IH _ _ _ _ Hd' Hu He) as (p & n & Hp & Hr). by exists p, n.
  - exists i. fold exec1 in *. destruct (exec1 _ _ o σ w) as [[[σ1 w1] [|lab|]]|] eqn:E1; [..|done].
    + destruct (IH _ _ _ _ Hd' Hu He) as (p & n & -> & Hr). exists (S n). split; [done|].
      cbn [run]. unfold step_config. rewrite Hi. cbn [mbind option_bind].
      unfold exec1 in E1. by rewrite E1.
    + destruct (IH _ _ _ _ Hd' Hu He) as (p & n & Hp & Hr). exists (S n). split; [done|].
      cbn [run]. unfold step_config. rewrite Hi. cbn [mbind option_bind].
      unfold exec1 in E1. rewrite E1. cbn [mbind option_bind]. rewrite Hp. exact Hr.
    + injection He as <- <- <- <-. exists 1%nat. split; [done|].
      cbn [run]. unfold step_config. rewrite Hi. cbn [mbind option_bind].
      unfold exec1 in E1. by rewrite E1.
Qed.

End Host.

(** ** Known temporaries *)

Inductive ent := Var (ty : Ty.Ty) | Cst (ty : Ty.Ty) (v : Z).

Notation tenv := (gmap N ent).

Definition typed (ts : list Temp.Temp) (E : tenv) : Prop :=
  forall t e, E !! t = Some e -> exists x, ts !! N.to_nat t = Some x /\
    match e with
    | Var ty => Temp.ty x = ty /\ Temp.is_const x = false
    | Cst ty v => Temp.ty x = ty /\ Temp.is_const x = true /\ Temp.val x = v
    end.

Lemma typed_mono ts ts' E E' : ts `prefix_of` ts' -> E' ⊆ E -> typed ts E -> typed ts' E'.
Proof.
  intros Hp Hs Ht t e He. destruct (Ht t e) as (x & Hx & H); [by eapply lookup_weaken|].
  exists x. split; [by eapply prefix_lookup_Some|done].
Qed.

Lemma read_cst ts E σ t ty v : typed ts E -> E !! t = Some (Cst ty v) -> read ts σ t = v.
Proof. intros Ht He. destruct (Ht _ _ He) as (x & Hx & _ & Hc & <-). by apply read_const. Qed.

Lemma read_var ts E σ t ty v :
  typed ts E -> E !! t = Some (Var ty) -> read ts (write ts σ t v) t = wrap (ty_bits ty) v.
Proof. intros Ht He. destruct (Ht _ _ He) as (x & Hx & <- & Hc). by apply read_write_eq. Qed.

(** ** Builder programs

    [static c E n]: the context has [n] temps and [E] describes some of them.
    [spec m E n Φ]: the builder succeeds, appends some ops, leaves earlier temps alone,
    and [Φ] holds of its result, the ops, the new description and the new count. *)

Record static (c : Context.Context) (E : tenv) (n : N) : Prop := mk_static {
  st_wf : Context.wf c;
  st_len : N.of_nat (length (Context.temps c)) = n;
  st_typed : typed (Context.temps c) E;
  st_dom : forall t e, E !! t = Some e -> (t < n)%N
}.

Record extends (c c' : Context.Context) (l : list Op.Op) : Prop := mk_extends {
  ex_ops : Context.ops c' = Context.ops c ++ l;
  ex_temps : Context.temps c `prefix_of` Context.temps c';
  ex_globals : Context.nb_globals c' = Context.nb_globals c
}.

Lemma extends_trans c1 c2 c3 l1 l2 :
  extends c1 c2 l1 -> extends c2 c3 l2 -> extends c1 c3 (l1 ++ l2).
Proof.
  intros [E1 P1 G1] [E2 P2 G2]. split; [by rewrite E2, E1, app_assoc|by etrans|congruence].
Qed.

Definition spec {A} (m : Ir A) (E : tenv) (n : N)
    (Φ : A -> list Op.Op -> tenv -> N -> Prop) : Prop :=
  forall c, static c E n ->
    exists a c' l E' n', m c = Some (a, c') /\ extends c c' l /\ static c' E' n' /\
      E ⊆ E' /\ (n <= n')%N /\ Φ a l E' n'.

Lemma spec_ret {A} (a : A) E n (Φ : A -> list Op.Op -> tenv -> N -> Prop) :
  Φ a [] E n -> spec (mret a) E n Φ.
Proof.
  intros H c Hc. exists a, c, [], E, n. split_and!; try done.
  split; [by rewrite app_nil_r|done|done].
Qed.

Lemma spec_bind {A B} (m : Ir A) (f : A -> Ir B) E n (Φ : B -> list Op.Op -> tenv -> N -> Prop) :
  spec m E n (fun a l E1 n1 => E ⊆ E1 -> (n <= n1)%N ->
    spec (f a) E1 n1 (fun b l' E2 n2 => Φ b (l ++ l') E2 n2)) ->
  spec (m ≫= f) E n Φ.
Proof.
  intros H c Hc. destruct (H c Hc) as (a & c1 & l & E1 & n1 & Em & Hx & Hs & HE & Hn & Hf).
  destruct (Hf HE Hn c1 Hs) as (b & c2 & l' & E2 & n2 & Em' & Hx' & Hs' & HE' & Hn' & HΦ).
  exists b, c2, (l ++ l'), E2, n2. split_and!; try done.
  - unfold mbind, ir_bind. by rewrite Em.
  - by eapply extends_trans.
  - by etrans.
  - lia.
Qed.

Lemma spec_mono {A} (m : Ir A) E n (Φ Ψ : A -> list Op.Op -> tenv -> N -> Prop) :
  spec m E n Φ -> (forall a l E' n', E ⊆ E' -> (n <= n')%N -> Φ a l E' n' -> Ψ a l E' n') ->
  spec m E n Ψ.
Proof.
  intros H Hi c Hc. destruct (H c Hc) as (a & c' & l & E' & n' & ? & ? & ? & ? & ? & ?).
  exists a, c', l, E', n'. split_and!; try done. by apply Hi.
Qed.

Lemma spec_expect {A} (o : option A) (a : A) E n (Φ : A -> list Op.Op -> tenv -> N -> Prop) :
  o = Some a -> Φ a [] E n -> spec (expect o) E n Φ.
Proof. intros -> H. exact (spec_ret a E n Φ H). Qed.

Lemma static_emit c E n op : static c E n -> static (Context.emit_op c op).2 E n.
Proof. intros [Hw Hl Ht Hd]. split; [|done..]. eapply Context.wf_ext; [..|exact Hw]; done. Qed.

Lemma spec_emit opc ty args E n (Φ : unit -> list Op.Op -> tenv -> N -> Prop) :
  (forall i, Φ tt [Op.with_args i opc ty args] E n) -> spec (emit opc ty args) E n Φ.
Proof.
  intros H c Hc. eexists _, _, _, E, n. split; [reflexivity|]. split; [by split|].
  split; [by apply static_emit|]. split_and!; [done|lia|]. apply H.
Qed.

Lemma spec_new_temp ty E n (Φ : N -> list Op.Op -> tenv -> N -> Prop) :
  (forall d E', E ⊆ E' -> d = n -> E' !! d = Some (Var ty) -> Φ d [] E' (n + 1)%N) ->
  spec (new_temp ty) E n Φ.
Proof.
  intros H c [Hw Hl Ht Hd]. unfold new_temp, total, Context.new_temp. rewrite Hl.
  assert (Hn : E !! n = None).
  { destruct (E !! n) as [e|] eqn:He; [|done]. apply Hd in He. lia. }
  eexists _, _, [], (<[n := Var ty]> E), (n + 1)%N. split; [reflexivity|].
  split; [split; [by rewrite app_nil_r|by apply prefix_app_r|done]|].
  assert (Hs : E ⊆ <[n := Var ty]> E) by by apply insert_subseteq.
  split; [|split; [done|split; [lia|apply H; [done|done|by rewrite lookup_insert_eq]]]].
  split; cbn [Context.temps Context.set_temps].
  - apply Context.wf_push_local; [done|by rewrite Hl|done|done].
  - rewrite length_app. cbn [length]. lia.
  - intros t e [[<- <-]|[_ He]]%lookup_insert_Some.
    + exists (Temp.new_ebb n ty). rewrite <- Hl, Nat2N.id. split; [by apply list_lookup_middle|done].
    + destruct (Ht t e He) as (x & Hx & ?). exists x. split; [by apply lookup_app_l_Some|done].
  - intros t e [[<- _]|[_ He]]%lookup_insert_Some; [lia|]. apply Hd in He. lia.
Qed.

Lemma spec_new_label E n (Φ : N -> list Op.Op -> tenv -> N -> Prop) :
  (forall lab, Φ lab [] E n) -> spec new_label E n Φ.
Proof.
  intros H c [Hw Hl Ht Hd]. unfold new_label, total, Context.new_label.
  eexists _, _, [], E, n. split; [reflexivity|].
  split; [by split; [rewrite app_nil_r|..]|].
  split; [split; [eapply Context.wf_ext; [..|exact Hw]; done|done..]|]. split_and!; [done|lia|]. apply H.
Qed.

Lemma spec_new_const ty v E n (Φ : N -> list Op.Op -> tenv -> N -> Prop) :
  (forall t E' n', E ⊆ E' -> (n <= n')%N -> (t < n')%N -> E' !! t = Some (Cst ty v) -> Φ t [] E' n') ->
  spec (new_const ty v) E n Φ.
Proof.
  intros H c [Hw Hl Ht Hd]. unfold new_const, total.
  destruct (Context.new_const c ty v) as [i c'] eqn:Ec.
  destruct (Context.new_const_spec c ty v i c' Hw Ec)
    as (Hw' & (x & Hx & Hk & Hty & Hv) & Hp & Hi & Hlen & _ & Ho & Hg).
  assert (Hcx : typed (Context.temps c') {[ i := Cst ty v ]}).
  { intros t e [<- <-]%lookup_singleton_Some. exists x. split_and!; try done.
    unfold Temp.is_const. by rewrite Hk, bool_decide_eq_true_2. }
  assert (Hs : E ⊆ <[i := Cst ty v]> E).
  { apply map_subseteq_spec. intros t e He. rewrite lookup_insert_Some.
    destruct (decide (i = t)) as [<-|]; [left|by right]. split; [done|].
    destruct (Ht i e He) as (y & Hy & Hm).
    rewrite (prefix_lookup_Some _ _ _ _ Hy Hp) in Hx. injection Hx as <-.
    unfold Temp.is_const in Hm. rewrite Hk, bool_decide_eq_true_2 in Hm by done.
    destruct e; naive_solver. }
  assert (Hle : (n <= N.of_nat (length (Context.temps c')))%N) by (apply prefix_length in Hp; lia).
  assert (Hti : (i < N.of_nat (length (Context.temps c')))%N)
    by (apply lookup_lt_Some in Hx; lia).
  eexists i, c', [], (<[i := Cst ty v]> E), (N.of_nat (length (Context.temps c'))).
  split; [reflexivity|]. split; [split; [by rewrite app_nil_r|done|done]|].
  split; [|split; [done|split; [done|apply H; [done..|by rewrite lookup_insert_eq]]]].
  split; [done|done| |].
  - intros t e [[<- <-]|[_ He]]%lookup_insert_Some.
    + exact (Hcx i (Cst ty v) (lookup_singleton_eq i (Cst ty v))).
    + destruct (Ht t e He) as (y & Hy & ?). exists y. split; [by eapply prefix_lookup_Some|done].
  - intros t e [[<- _]|[_ He]]%lookup_insert_Some; [done|]. apply Hd in He. lia.
Qed.

(** ** Executing one op

    [upd ts σ d v σ1]: [σ1] is [σ] with [d] reading as [v].  Each rule replaces the
    first op of the list by its effect. *)

Definition upd (ts : list Temp.Temp) (σ : N -> Z) (d : N) (v : Z) (σ1 : N -> Z) : Prop :=
  read ts σ1 d = v /\ forall t, t <> d -> read ts σ1 t = read ts σ t.

Lemma upd_write ts E σ d ty v :
  typed ts E -> E !! d = Some (Var ty) -> upd ts σ d (wrap (ty_bits ty) v) (write ts σ d v).
Proof.
  intros Ht He. split; [by eapply read_var|]. intros t Hne. apply read_write_ne. congruence.
Qed.

(** The binary ops with a pure meaning. *)
Definition is_bin (opc : Opcode) : bool :=
  match opc with
  | Add | Sub | Mul | And | Or | Xor | AndC | Shl | Shr | Sar | RotL | RotR => true
  | _ => false
  end.

Section Rules.
Context {W : Type}.
Variable mem_load : W -> Z -> Z -> option Z * W.
Variable mem_store : W -> Z -> Z -> Z -> bool * W.
Variable helper_at : Z -> option (list Z -> option Z).
Variable chained : N -> W -> bool.
Variables (ts : list Temp.Temp) (E : tenv) (nb : nat).
Hypothesis Htyped : typed ts E.
Variable i : nat.
Variable P : option ((N -> Z) * W * stop) -> Prop.

Local Notation run i := (exec_ops mem_load mem_store helper_at chained ts nb i None).
Local Notation exec := (exec1 mem_load mem_store helper_at chained ts nb).

Lemma x_step op l σ w σ1 w1 :
  exec op σ w = Some (σ1, w1, Fall) -> P (run (S i) l σ1 w1) -> P (run i (op :: l) σ w).
Proof. intros He HP. cbn [exec_ops]. by rewrite He. Qed.

Lemma x_write op l σ w d ty v :
  E !! d = Some (Var ty) -> exec op σ w = Some (write ts σ d v, w, Fall) ->
  (forall σ1, upd ts σ d (wrap (ty_bits ty) v) σ1 -> P (run (S i) l σ1 w)) ->
  P (run i (op :: l) σ w).
Proof. intros Hd He HP. eapply x_step; [exact He|]. apply HP. by eapply upd_write. Qed.

Lemma x_bin k opc ty d a b l σ w va vb v :
  is_bin opc = true -> E !! d = Some (Var ty) -> read ts σ a = va -> read ts σ b = vb ->
  sem_binary opc (ty_bits ty) (wrap (ty_bits ty) va) (wrap (ty_bits ty) vb) = Some v ->
  (forall σ1, upd ts σ d (wrap (ty_bits ty) v) σ1 -> P (run (S i) l σ1 w)) ->
  P (run i (Op.with_args k opc ty [d; a; b] :: l) σ w).
Proof.
  intros Hb Hd <- <- Hv. apply x_write; [done|].
  destruct opc; try discriminate Hb; unfold exec1, exec_op, exec_pure; cbn [is_pure Op.opc Op.with_args Op.op_type Op.args nth app take
    Nat.min length Op.MAX_OP_ARGS Op.new]; unfold operand; by rewrite Hv.
Qed.

Lemma x_mov k ty d a l σ w va :
  E !! d = Some (Var ty) -> read ts σ a = va ->
  (forall σ1, upd ts σ d (wrap (ty_bits ty) (wrap (ty_bits ty) va)) σ1 -> P (run (S i) l σ1 w)) ->
  P (run i (Op.with_args k Mov ty [d; a] :: l) σ w).
Proof. intros Hd <-. by apply x_write. Qed.

Lemma x_not k ty d a l σ w va :
  E !! d = Some (Var ty) -> read ts σ a = va ->
  (forall σ1, upd ts σ d (wrap (ty_bits ty) (bnot (ty_bits ty) (wrap (ty_bits ty) va))) σ1 ->
     P (run (S i) l σ1 w)) ->
  P (run i (Op.with_args k Not ty [d; a] :: l) σ w).
Proof. intros Hd <-. by apply x_write. Qed.

Lemma x_ext k opc ty d a l σ w va v :
  match opc with ExtI32I64 | ExtUI32I64 | ExtrlI64I32 | ExtrhI64I32 => True | _ => False end ->
  E !! d = Some (Var ty) -> read ts σ a = va -> sem_ext32 opc va = Some v ->
  (forall σ1, upd ts σ d (wrap (ty_bits ty) v) σ1 -> P (run (S i) l σ1 w)) ->
  P (run i (Op.with_args k opc ty [d; a] :: l) σ w).
Proof.
  intros Ho Hd <- Hv. apply x_write; [done|].
  destruct opc; try contradiction; unfold exec1, exec_op, exec_pure; cbn [is_pure Op.opc Op.with_args Op.op_type Op.args nth app take
    Nat.min length Op.MAX_OP_ARGS Op.new]; by rewrite Hv.
Qed.

(** One output computed by [host_value]. *)
Lemma x_host op l σ w d v :
  match Op.opc op with
  | SetCond | MovCond | Clz | Ctz | CtPop | Bswap64 => True | _ => False end ->
  Op.oargs op = [d] -> E !! d = Some (Var (Op.op_type op)) ->
  host_value (Op.opc op) (ty_bits (Op.op_type op)) (Op.cargs op) (read ts σ <$> Op.iargs op)
    = Some [v] ->
  (forall σ1, upd ts σ d (wrap (ty_bits (Op.op_type op)) v) σ1 -> P (run (S i) l σ1 w)) ->
  P (run i (op :: l) σ w).
Proof.
  intros Ho Hoa Hd Hv. apply x_write; [done|].
  destruct (Op.opc op) eqn:Eo; try contradiction;
    unfold exec1, exec_op, host_ext; rewrite Eo; cbn [is_pure]; rewrite Hv, Hoa; reflexivity.
Qed.

(** Two outputs. *)
Lemma x_host2 op l σ w d1 d2 v1 v2 ty1 ty2 :
  match Op.opc op with MulS2 | MulU2 | DivU2 => True | _ => False end ->
  Op.oargs op = [d1; d2] -> E !! d1 = Some (Var ty1) -> E !! d2 = Some (Var ty2) ->
  host_value (Op.opc op) (ty_bits (Op.op_type op)) (Op.cargs op) (read ts σ <$> Op.iargs op)
    = Some [v1; v2] ->
  (forall σ1 σ2, upd ts σ d1 (wrap (ty_bits ty1) v1) σ1 -> upd ts σ1 d2 (wrap (ty_bits ty2) v2) σ2 ->
     P (run (S i) l σ2 w)) ->
  P (run i (op :: l) σ w).
Proof.
  intros Ho Hoa Hd1 Hd2 Hv HP.
  eapply (x_step _ _ _ _ (write ts (write ts σ d1 v1) d2 v2) w).
  - destruct (Op.opc op) eqn:Eo; try contradiction;
      unfold exec1, exec_op, host_ext; rewrite Eo; cbn [is_pure]; rewrite Hv, Hoa; reflexivity.
  - eapply HP; by eapply upd_write.
Qed.

Lemma x_setcond k ty d a b cc l σ w va vb :
  E !! d = Some (Var ty) -> read ts σ a = va -> read ts σ b = vb ->
  (forall σ1, upd ts σ d (wrap (ty_bits ty)
     (Z.b2z (Cond.holds (ty_bits ty) cc (wrap (ty_bits ty) va) (wrap (ty_bits ty) vb)))) σ1 ->
     P (run (S i) l σ1 w)) ->
  P (run i (Op.with_args k SetCond ty [d; a; b; Cond.as_u32 cc] :: l) σ w).
Proof.
  intros Hd <- <- HP. eapply x_host; [done|done|exact Hd| |exact HP].
  change (Op.cargs _) with [Cond.as_u32 cc]. cbn. by rewrite cond_of_carg_as_u32.
Qed.

Lemma x_movcond k ty d c1 c2 a b cc l σ w v1 v2 va vb :
  E !! d = Some (Var ty) -> read ts σ c1 = v1 -> read ts σ c2 = v2 ->
  read ts σ a = va -> read ts σ b = vb ->
  (forall σ1, upd ts σ d (wrap (ty_bits ty)
     (if Cond.holds (ty_bits ty) cc (wrap (ty_bits ty) v1) (wrap (ty_bits ty) v2)
      then wrap (ty_bits ty) va else wrap (ty_bits ty) vb)) σ1 ->
     P (run (S i) l σ1 w)) ->
  P (run i (Op.with_args k MovCond ty [d; c1; c2; a; b; Cond.as_u32 cc] :: l) σ w).
Proof.
  intros Hd <- <- <- <- HP. eapply x_host; [done|done|exact Hd| |exact HP].
  change (Op.cargs _) with [Cond.as_u32 cc]. cbn. by rewrite cond_of_carg_as_u32.
Qed.

Lemma x_clz k ty d a b l σ w va vb :
  E !! d = Some (Var ty) -> read ts σ a = va -> read ts σ b = vb ->
  (forall σ1, upd ts σ d (wrap (ty_bits ty)
     (if wrap (ty_bits ty) va =? 0 then wrap (ty_bits ty) vb
      else ty_bits ty - 1 - Z.log2 (wrap (ty_bits ty) va))) σ1 -> P (run (S i) l σ1 w)) ->
  P (run i (Op.with_args k Clz ty [d; a; b] :: l) σ w).
Proof. intros Hd <- <- HP. by eapply x_host; [done|done|exact Hd| |exact HP]. Qed.

Lemma x_ctz k ty d a b l σ w va vb :
  E !! d = Some (Var ty) -> read ts σ a = va -> read ts σ b = vb ->
  (forall σ1, upd ts σ d (wrap (ty_bits ty)
     (if wrap (ty_bits ty) va =? 0 then wrap (ty_bits ty) vb
      else trailing_zeros (ty_bits ty) (wrap (ty_bits ty) va))) σ1 -> P (run (S i) l σ1 w)) ->
  P (run i (Op.with_args k Ctz ty [d; a; b] :: l) σ w).
Proof. intros Hd <- <- HP. by eapply x_host; [done|done|exact Hd| |exact HP]. Qed.

Lemma x_ctpop k ty d a l σ w va :
  E !! d = Some (Var ty) -> read ts σ a = va ->
  (forall σ1, upd ts σ d (wrap (ty_bits ty)
     (ctpop (Z.to_nat (ty_bits ty)) (wrap (ty_bits ty) va))) σ1 -> P (run (S i) l σ1 w)) ->
  P (run i (Op.with_args k CtPop ty [d; a] :: l) σ w).
Proof. intros Hd <- HP. by eapply x_host; [done|done|exact Hd| |exact HP]. Qed.

Lemma x_bswap64 k d a flags l σ w va :
  E !! d = Some (Var Ty.I64) -> read ts σ a = va ->
  (forall σ1, upd ts σ d (wrap 64 (bswap64 (wrap 64 va))) σ1 -> P (run (S i) l σ1 w)) ->
  P (run i (Op.with_args k Bswap64 Ty.I64 [d; a; flags] :: l) σ w).
Proof. intros Hd <- HP. by eapply x_host; [done|done|exact Hd| |exact HP]. Qed.

Lemma x_muls2 k d1 d2 a b l σ w va vb :
  E !! d1 = Some (Var Ty.I64) -> E !! d2 = Some (Var Ty.I64) ->
  read ts σ a = va -> read ts σ b = vb ->
  (forall σ1 σ2, let p := signed 64 (wrap 64 va) * signed 64 (wrap 64 vb) in
     upd ts σ d1 (wrap 64 (wrap 64 p)) σ1 ->
     upd ts σ1 d2 (wrap 64 (wrap 64 (p / 2 ^ 64))) σ2 -> P (run (S i) l σ2 w)) ->
  P (run i (Op.with_args k MulS2 Ty.I64 [d1; d2; a; b] :: l) σ w).
Proof. intros Hd1 Hd2 <- <- HP. by eapply x_host2; [done|done|exact Hd1|exact Hd2| |exact HP]. Qed.

Lemma x_mulu2 k d1 d2 a b l σ w va vb :
  E !! d1 = Some (Var Ty.I64) -> E !! d2 = Some (Var Ty.I64) ->
  read ts σ a = va -> read ts σ b = vb ->
  (forall σ1 σ2, let p := wrap 64 va * wrap 64 vb in
     upd ts σ d1 (wrap 64 (wrap 64 p)) σ1 ->
     upd ts σ1 d2 (wrap 64 (wrap 64 (p / 2 ^ 64))) σ2 -> P (run (S i) l σ2 w)) ->
  P (run i (Op.with_args k MulU2 Ty.I64 [d1; d2; a; b] :: l) σ w).
Proof. intros Hd1 Hd2 <- <- HP. by eapply x_host2; [done|done|exact Hd1|exact Hd2| |exact HP]. Qed.

(** Division by a non-zero value of a number whose high half is zero. *)
Lemma x_divu2 k ty d1 d2 a z b l σ w va vb :
  E !! d1 = Some (Var ty) -> E !! d2 = Some (Var ty) ->
  read ts σ a = va -> read ts σ z = 0 -> read ts σ b = vb -> 0 < wrap (ty_bits ty) vb ->
  (forall σ1 σ2,
     upd ts σ d1 (wrap (ty_bits ty) (wrap (ty_bits ty) va / wrap (ty_bits ty) vb)) σ1 ->
     upd ts σ1 d2 (wrap (ty_bits ty) (wrap (ty_bits ty) va mod wrap (ty_bits ty) vb)) σ2 ->
     P (run (S i) l σ2 w)) ->
  P (run i (Op.with_args k DivU2 ty [d1; d2; a; z; b] :: l) σ w).
Proof.
  intros Hd1 Hd2 <- Hz <- Hb HP. eapply x_host2; [done|done|exact Hd1|exact Hd2| |exact HP].
  change (Op.cargs _) with (@nil N). change (read ts σ <$> Op.iargs _) with [read ts σ a; read ts σ z; read ts σ b].
  unfold host_value. cbn [fmap list_fmap Op.opc Op.with_args Op.op_type Op.new]. rewrite Hz.
  replace (wrap (ty_bits ty) 0) with 0 by by destruct ty.
  rewrite Z.mul_0_l, Z.add_0_l. pose proof (ty_bits_pos ty).
  pose proof (wrap_range (ty_bits ty) (read ts σ a) ltac:(lia)) as Hr. unfold in_range in Hr.
  destruct (Z.eqb_spec (wrap (ty_bits ty) (read ts σ b)) 0); [lia|].
  destruct (Z.leb_spec (2 ^ ty_bits ty) (wrap (ty_bits ty) (read ts σ a) / wrap (ty_bits ty) (read ts σ b)));
    [|done].
  pose proof (Z.div_le_upper_bound (wrap (ty_bits ty) (read ts σ a)) (wrap (ty_bits ty) (read ts σ b))
    (wrap (ty_bits ty) (read ts σ a))). nia.
Qed.

(** Guest memory: the access succeeds, or the block is left. *)
Lemma x_ld op m l σ w d a va v w' :
  Op.opc op = QemuLd -> Op.oargs op = [d] -> Op.iargs op = [a] -> Op.cargs op = [Z.to_N m] ->
  0 <= m -> E !! d = Some (Var Ty.I64) -> read ts σ a = va ->
  mem_load w va (MemOp.size_bytes m) = (Some v, w') ->
  (forall σ1, upd ts σ d (wrap 64 (mem_extend m v)) σ1 -> P (run (S i) l σ1 w')) ->
  P (run i (op :: l) σ w).
Proof.
  intros Ho Hoa Hia Hca Hm Hd <- Hl HP.
  eapply (x_step _ _ _ _ (write ts σ d (mem_extend m v)) w').
  - unfold exec1, exec_op. rewrite Ho. cbn [is_pure]. rewrite Hoa, Hia, Hca. unfold host_ext.
    cbn [fmap list_fmap]. rewrite Z2N.id by done. by rewrite Hl.
  - apply HP. exact (upd_write ts E σ d Ty.I64 _ Htyped Hd).
Qed.

Lemma x_ld_fault op m l σ w a va w' :
  Op.opc op = QemuLd -> Op.iargs op = [a] -> Op.cargs op = [Z.to_N m] ->
  0 <= m -> read ts σ a = va -> mem_load w va (MemOp.size_bytes m) = (None, w') ->
  P (Some (σ, w', LeftAt i op)) -> P (run i (op :: l) σ w).
Proof.
  intros Ho Hia Hca Hm <- Hl HP. cbn [exec_ops].
  unfold exec1, exec_op. rewrite Ho. cbn [is_pure]. rewrite Hia, Hca. unfold host_ext.
  cbn [fmap list_fmap]. rewrite Z2N.id by done. by rewrite Hl.
Qed.

Lemma x_st op m l σ w a b va vb ok w' :
  Op.opc op = QemuSt -> Op.oargs op = [] -> Op.iargs op = [a; b] -> Op.cargs op = [Z.to_N m] ->
  0 <= m -> read ts σ a = va -> read ts σ b = vb ->
  mem_store w vb (MemOp.size_bytes m) (wrap (8 * MemOp.size_bytes m) va) = (ok, w') ->
  P (if ok : bool then run (S i) l σ w' else Some (σ, w', LeftAt i op)) ->
  P (run i (op :: l) σ w).
Proof.
  intros Ho Hoa Hia Hca Hm <- <- Hl HP. cbn [exec_ops].
  unfold exec1, exec_op. rewrite Ho. cbn [is_pure]. rewrite Hia, Hca, Hoa. unfold host_ext.
  cbn [fmap list_fmap]. rewrite Z2N.id by done. rewrite Hl. by destruct ok.
Qed.

(** A helper that leaves the globals alone. *)
Lemma write_all_same σ0 l :
  (forall t, t ∈ l -> E !! t = Some (Var Ty.I64) /\ in_range 64 (read ts σ0 t)) ->
  forall σ, (forall t, read ts σ t = read ts σ0 t) ->
  exists σ1, write_all ts σ l (read ts σ0 <$> l) = Some σ1 /\
    forall t, read ts σ1 t = read ts σ0 t.
Proof.
  induction l as [|t l IH]; intros Hl σ Hσ; [by exists σ|]. cbn [fmap list_fmap write_all].
  apply IH; [intros u Hu; apply Hl; by right|]. intros u.
  destruct (Hl t) as [Ht Hr]; [by left|].
  destruct (upd_write ts E σ t Ty.I64 (read ts σ0 t) Htyped Ht) as [Hw Hn].
  destruct (decide (u = t)) as [->|]; [|by rewrite Hn].
  rewrite Hw. apply wrap_small, Hr.
Qed.

Lemma x_call op l σ w d lo hi f v :
  Op.opc op = Call -> Op.oargs op = [d] -> Op.cargs op = [lo; hi] ->
  E !! d = Some (Var Ty.I64) ->
  (forall t, (t < N.of_nat nb)%N -> E !! t = Some (Var Ty.I64) /\ in_range 64 (read ts σ t)) ->
  helper_at (Z.of_N lo + 2 ^ 32 * Z.of_N hi) = Some f -> f (read ts σ <$> Op.iargs op) = Some v ->
  (forall σ1, upd ts σ d (wrap 64 v) σ1 -> P (run (S i) l σ1 w)) -> P (run i (op :: l) σ w).
Proof.
  intros Ho Hoa Hca Hd Hg Hf Hv HP.
  destruct (write_all_same σ (N.of_nat <$> seq 0 nb)) with (σ := σ) as (σ1 & Hw & Hr); [|done|].
  { intros t (k & -> & Hk%elem_of_seq)%list_elem_of_fmap. apply Hg. lia. }
  eapply (x_step _ _ _ _ (write ts σ1 d v) w).
  - unfold exec1, exec_op. rewrite Ho. cbn [is_pure]. rewrite Hoa, Hca. unfold host_call.
    rewrite Hf. cbn [mbind option_bind]. rewrite Hv. cbn [mbind option_bind].
    rewrite <- list_fmap_compose in Hw. unfold compose in Hw. rewrite Hw. reflexivity.
  - apply HP. destruct (upd_write ts E σ1 d Ty.I64 v Htyped Hd) as [H1 H2].
    split; [exact H1|]. intros t Ht. by rewrite H2, Hr.
Qed.

(** ** Control flow *)

Lemma x_start k args l σ w :
  P (run (S i) l σ w) -> P (run i (Op.with_args k InsnStart Ty.I64 args :: l) σ w).
Proof. done. Qed.

Lemma x_mb k args l σ w :
  Op.cargs (Op.with_args k Mb Ty.I64 args) = args -> length args = 1%nat ->
  P (run (S i) l σ w) -> P (run i (Op.with_args k Mb Ty.I64 args :: l) σ w).
Proof. destruct args as [|a [|]]; done. Qed.

Lemma x_exit k args l σ w :
  P (Some (σ, w, LeftAt i (Op.with_args k ExitTb Ty.I64 args))) ->
  P (run i (Op.with_args k ExitTb Ty.I64 args :: l) σ w).
Proof. done. Qed.

Lemma x_goto k args l σ w :
  P (Some (σ, w, LeftAt i (Op.with_args k GotoTb Ty.I64 args))) -> P (run (S i) l σ w) ->
  P (run i (Op.with_args k GotoTb Ty.I64 args :: l) σ w).
Proof.
  intros H1 H2. cbn [exec_ops]. unfold exec1, exec_op. cbn [is_pure Op.opc Op.with_args].
  by destruct (chained _ w).
Qed.

Lemma x_brcond k a b cc lab l σ w va vb :
  read ts σ a = va -> read ts σ b = vb ->
  P (exec_ops mem_load mem_store helper_at chained ts nb (S i)
       (if Cond.holds 64 cc (wrap 64 va) (wrap 64 vb) then Some lab else None) l σ w) ->
  P (run i (Op.with_args k BrCond Ty.I64 [a; b; Cond.as_u32 cc; lab] :: l) σ w).
Proof.
  intros <- <- HP. cbn [exec_ops]. unfold exec1, exec_op.
  cbn [is_pure Op.opc Op.with_args Op.args nth app take Nat.min length Op.MAX_OP_ARGS Op.new].
  rewrite cond_of_carg_as_u32. cbn [mbind option_bind Op.op_type]. unfold operand.
  cbn [ty_bits Op.with_args Op.op_type Op.new]. revert HP. by destruct (Cond.holds 64 cc _ _).
Qed.

(** Looking for a label. *)
Lemma x_skip op lab l σ w :
  Op.opc op <> SetLabel ->
  P (exec_ops mem_load mem_store helper_at chained ts nb (S i) (Some lab) l σ w) ->
  P (exec_ops mem_load mem_store helper_at chained ts nb i (Some lab) (op :: l) σ w).
Proof. intros Ho HP. cbn [exec_ops]. by rewrite decide_False by tauto. Qed.

Lemma x_land k lab l σ w :
  P (run (S i) l σ w) ->
  P (exec_ops mem_load mem_store helper_at chained ts nb i (Some lab)
       (Op.with_args k SetLabel Ty.I64 [lab] :: l) σ w).
Proof. intros HP. cbn [exec_ops]. by rewrite decide_True by done. Qed.

End Rules.

(** One label in the middle of a list. *)
Lemma labels_once_mid (l1 l2 : list Op.Op) op :
  Forall (fun o => label_of o = None) l1 -> Forall (fun o => label_of o = None) l2 ->
  labels_once (l1 ++ op :: l2).
Proof.
  intros H1 H2. assert (Hi : forall i a lab, (l1 ++ op :: l2) !! i = Some a -> label_of a = Some lab ->
    i = length l1).
  { intros i a lab Ha Hl. rewrite Forall_lookup in H1, H2.
    apply lookup_app_Some in Ha as [Ha|[Hlen Ha]]; [by rewrite (H1 i a Ha) in Hl|].
    destruct (i - length l1)%nat as [|j] eqn:Ej; [lia|]. by rewrite (H2 j a Ha) in Hl. }
  intros i j a b lab Ha Hb Hla Hlb. by rewrite (Hi i a lab Ha Hla), (Hi j b lab Hb Hlb).
Qed.
