(* ===== verification/Decode.v ===== *)
(** * The decoder generator

    Models [decode/src/lib.rs]: the parser of [.decode] files and the decoder it
    generates.  The generator prints Rust; here the printed functions are given their
    meaning directly ([extract_field], [field_expr], [decode_fn]).  Maps ordered by key
    ([BTreeMap]) are association lists sorted by key.  Characters are bytes, so the
    character classes are the ASCII ones. *)

From Stdlib Require Import ZArith Lia Bool String Ascii.
From stdpp Require Import base tactics numbers list.
From S2P Require Import Prelude.

Local Open Scope string_scope.
Local Open Scope Z_scope.

(** ** Text *)

Module Text.

Definition is_digit (c : ascii) : bool :=
  let n := N_of_ascii c in (48 <=? n)%N && (n <=? 57)%N.

Definition is_alphanumeric (c : ascii) : bool :=
  let n := N_of_ascii c in
  is_digit c || (65 <=? n)%N && (n <=? 90)%N || (97 <=? n)%N && (n <=? 122)%N.

(** Space, tab, line feed, vertical tab, form feed, carriage return. *)
Definition is_whitespace (c : ascii) : bool :=
  let n := N_of_ascii c in (n =? 32)%N || (9 <=? n)%N && (n <=? 13)%N.

Fixpoint all (f : ascii -> bool) (s : string) : bool :=
  match s with
  | EmptyString => true
  | String c s => f c && all f s
  end.

Definition is_empty (s : string) : bool := match s with EmptyString => true | _ => false end.

(** [s.find(c)] with both sides: before the first [c], and after it. *)
Fixpoint split_once (c : ascii) (s : string) : option (string * string) :=
  match s with
  | EmptyString => None
  | String d s =>
      if Ascii.eqb d c then Some (EmptyString, s)
      else match split_once c s with
           | Some (a, b) => Some (String d a, b)
           | None => None
           end
  end.

Fixpoint strip_prefix (p s : string) : option string :=
  match p, s with
  | EmptyString, _ => Some s
  | String a p, String b s => if Ascii.eqb a b then strip_prefix p s else None
  | _, _ => None
  end.

Definition starts_with (p s : string) : bool :=
  match strip_prefix p s with Some _ => true | None => false end.

Fixpoint trim_start (s : string) : string :=
  match s with
  | String c s' => if is_whitespace c then trim_start s' else s
  | EmptyString => EmptyString
  end.

Fixpoint trim_end (s : string) : string :=
  match s with
  | EmptyString => EmptyString
  | String c s =>
      match trim_end s with
      | EmptyString => if is_whitespace c then EmptyString else String c EmptyString
      | t => String c t
      end
  end.

Definition trim (s : string) : string := trim_end (trim_start s).

(** [cur] is the token so far. *)
Fixpoint tokens_from (cur : string) (s : string) : list string :=
  let flush := if is_empty cur then [] else [cur] in
  match s with
  | EmptyString => flush
  | String c s =>
      if is_whitespace c then flush ++ tokens_from EmptyString s
      else tokens_from (cur ++ String c EmptyString) s
  end.

Definition split_whitespace (s : string) : list string := tokens_from EmptyString s.

Definition newline : ascii := "010"%char.
Definition backslash : ascii := "092"%char.

(** [str::lines]: no line after the last line feed; a carriage return before it goes too. *)
Fixpoint drop_cr (s : string) : string :=
  match s with
  | EmptyString => EmptyString
  | String c EmptyString => if Ascii.eqb c "013"%char then EmptyString else s
  | String c s' => String c (drop_cr s')
  end.

Fixpoint lines_from (cur : string) (s : string) : list string :=
  match s with
  | EmptyString => if is_empty cur then [] else [drop_cr cur]
  | String c s =>
      if Ascii.eqb c newline then drop_cr cur :: lines_from EmptyString s
      else lines_from (cur ++ String c EmptyString) s
  end.

Definition lines (s : string) : list string := lines_from EmptyString s.

(** Decimal digits; [None] on another character. *)
Fixpoint digits (acc : Z) (s : string) : option Z :=
  match s with
  | EmptyString => Some acc
  | String c s =>
      if is_digit c then digits (10 * acc + (Z.of_N (N_of_ascii c) - 48)) s else None
  end.

Definition parse_nat (s : string) : option Z := if is_empty s then None else digits 0 s.

(** [str::parse::<u32>]: an optional [+]. *)
Definition parse_u32 (s : string) : option Z :=
  let s := match strip_prefix "+" s with Some s => s | None => s end in
  match parse_nat s with
  | Some v => if v <? 2 ^ 32 then Some v else None
  | None => None
  end.

Definition parse_i32 (s : string) : option Z :=
  match strip_prefix "-" s with
  | Some s => match parse_nat s with
              | Some v => if v <=? 2 ^ 31 then Some (- v) else None
              | None => None
              end
  | None =>
      let s := match strip_prefix "+" s with Some s => s | None => s end in
      match parse_nat s with
      | Some v => if v <? 2 ^ 31 then Some v else None
      | None => None
      end
  end.

End Text.
Import Text.

(** ** Ordered maps *)

Module BTreeMap.

Definition t (A : Type) : Type := list (string * A).

Fixpoint get {A} (k : string) (m : t A) : option A :=
  match m with
  | [] => None
  | (k', v) :: m => if String.eqb k k' then Some v else get k m
  end.

Definition contains_key {A} (k : string) (m : t A) : bool :=
  match get k m with Some _ => true | None => false end.

Fixpoint insert {A} (k : string) (v : A) (m : t A) : t A :=
  match m with
  | [] => [(k, v)]
  | (k', v') :: m' =>
      match String.compare k k' with
      | Lt => (k, v) :: m
      | Eq => (k, v) :: m'
      | Gt => (k', v') :: insert k v m'
      end
  end.

(** [entry(k).or_insert(v)]. *)
Definition or_insert {A} (k : string) (v : A) (m : t A) : t A :=
  if contains_key k m then m else insert k v m.

Definition extend {A} (m m' : t A) : t A := fold_left (fun m kv => insert kv.1 kv.2 m) m' m.

Definition keys {A} (m : t A) : list string := fst <$> m.

End BTreeMap.

(** ** Data structures *)

Record FieldSegment := mk_FieldSegment { pos : Z; len : Z; signed_ : bool }.

Record Field := mk_Field { f_name : string; segments : list FieldSegment; func : option string }.

Record ArgSet := mk_ArgSet { a_name : string; a_fields : list string; is_extern : bool }.

Inductive FieldMapping :=
| FieldRef (f : string)
| Inline (pos len : Z) (signed : bool)
| Const (c : Z).

Record Format := mk_Format {
  fmt_bits : Z;
  fmt_mask : Z;
  fmt_args : string;
  fmt_map : BTreeMap.t FieldMapping
}.

Record Pattern := mk_Pattern {
  name : string;
  fixedbits : Z;
  fixedmask : Z;
  args_name : string;
  field_map : BTreeMap.t FieldMapping
}.

Record Parsed := mk_Parsed {
  fields : BTreeMap.t Field;
  argsets : BTreeMap.t ArgSet;
  patterns : list Pattern
}.

Inductive error :=
| ExceedsWidth (w : Z)
| BadInlineLen (s : string)
| BadSegment (s : string)
| BadPos (s : string)
| BadLen (s : string)
| BadAttr (s : string)
| UnknownFormat (s : string)
| UnknownArgset (a p : string)
| AtLine (n : Z) (e : error).

(** ** Bit patterns *)

Definition is_bit_char (c : ascii) : bool :=
  Ascii.eqb c "0" || Ascii.eqb c "1" || Ascii.eqb c "." || Ascii.eqb c "-".

Definition is_bit_token (s : string) : bool := negb (is_empty s) && all is_bit_char s.

Definition is_inline_field (s : string) : bool :=
  match split_once ":" s with
  | Some (nm, rest) =>
      negb (is_empty nm) && all (fun c => is_alphanumeric c || Ascii.eqb c "_") nm
      && negb (is_empty rest) && all is_digit rest
  | None => false
  end.

Record BitPattern := mk_BitPattern {
  bp_bits : Z;
  bp_mask : Z;
  inline_fields : BTreeMap.t (Z * Z);
  bit_pos : Z
}.

Definition bit_char (width : Z) (c : ascii) (b : BitPattern) : result BitPattern error :=
  if bit_pos b <? 0 then Err (ExceedsWidth width)
  else
    let bit := Z.shiftl 1 (bit_pos b) in
    Ok (mk_BitPattern
      (if Ascii.eqb c "1" then Z.lor (bp_bits b) bit else bp_bits b)
      (if Ascii.eqb c "1" || Ascii.eqb c "0" then Z.lor (bp_mask b) bit else bp_mask b)
      (inline_fields b) (bit_pos b - 1)).

Fixpoint bit_chars (width : Z) (s : string) (b : BitPattern) : result BitPattern error :=
  match s with
  | EmptyString => Ok b
  | String c s => b <-? bit_char width c b ;; bit_chars width s b
  end.

Definition inline_field (tok : string) (b : BitPattern) : result BitPattern error :=
  match split_once ":" tok with
  | Some (nm, l) =>
      match parse_u32 l with
      | Some n => Ok (mk_BitPattern (bp_bits b) (bp_mask b)
          (BTreeMap.insert nm (u32 (bit_pos b - n + 1), n) (inline_fields b)) (bit_pos b - n))
      | None => Err (BadInlineLen l)
      end
  | None => Ok b
  end.

Fixpoint bit_tokens (width : Z) (tokens : list string) (b : BitPattern) : result BitPattern error :=
  match tokens with
  | [] => Ok b
  | tok :: rest =>
      if is_bit_token tok then b <-? bit_chars width tok b ;; bit_tokens width rest b
      else if is_inline_field tok then b <-? inline_field tok b ;; bit_tokens width rest b
      else Ok b
  end.

Definition parse_bit_tokens (tokens : list string) (width : Z) : result BitPattern error :=
  bit_tokens width tokens (mk_BitPattern 0 0 [] (width - 1)).

Fixpoint count_bit_tokens (tokens : list string) : nat :=
  match tokens with
  | tok :: rest => if is_bit_token tok || is_inline_field tok then S (count_bit_tokens rest) else O
  | [] => O
  end.

(** ** Definitions of a file *)

Definition parse_field_segment (s : string) : result FieldSegment error :=
  match split_once ":" s with
  | None => Err (BadSegment s)
  | Some (pos_str, rest) =>
      let sg := starts_with "s" rest in
      let len_str := match strip_prefix "s" rest with Some r => r | None => rest end in
      match parse_u32 pos_str with
      | None => Err (BadPos pos_str)
      | Some p =>
          match parse_u32 len_str with
          | None => Err (BadLen len_str)
          | Some l => Ok (mk_FieldSegment p l sg)
          end
      end
  end.

(** [&s[1..]]. *)
Definition skip1 (s : string) : string := match s with String _ s => s | EmptyString => EmptyString end.

Definition field_token (f : Field) (tok : string) : result Field error :=
  match strip_prefix "!function=" tok with
  | Some fn => Ok (mk_Field (f_name f) (segments f) (Some fn))
  | None => s <-? parse_field_segment tok ;; Ok (mk_Field (f_name f) (segments f ++ [s]) (func f))
  end.

Fixpoint try_fold {A B} (f : A -> B -> result A error) (l : list B) (a : A) : result A error :=
  match l with
  | [] => Ok a
  | b :: l => a <-? f a b ;; try_fold f l a
  end.

Definition parse_field (line : string) : result Field error :=
  match split_whitespace line with
  | [] => Err (BadSegment line)
  | t :: rest => try_fold field_token rest (mk_Field (skip1 t) [] None)
  end.

Definition parse_argset (line : string) : result ArgSet error :=
  match split_whitespace line with
  | [] => Err (BadSegment line)
  | t :: rest =>
      let ext := match last (t :: rest) with Some l => String.eqb l "!extern" | None => false end in
      Ok (mk_ArgSet (skip1 t) (if ext then removelast rest else rest) ext)
  end.

Definition Attrs : Type := string * BTreeMap.t FieldMapping.

Definition attr (flds : BTreeMap.t Field) (st : Attrs) (tok : string) : result Attrs error :=
  let '(args, fm) := st in
  match strip_prefix "&" tok with
  | Some a => Ok (a, fm)
  | None =>
  match strip_prefix "%" tok with
  | Some f => Ok (args, BTreeMap.insert f (FieldRef f) fm)
  | None =>
  match split_once "=" tok with
  | Some (key, v) =>
      match strip_prefix "%" v with
      | Some fref => Ok (args, BTreeMap.insert key (FieldRef fref) fm)
      | None =>
          match parse_i32 v with
          | Some c => Ok (args, BTreeMap.insert key (Const c) fm)
          | None => Err (BadAttr tok)
          end
      end
  | None =>
      if starts_with "!" tok then Ok st
      else if negb (starts_with "@" tok) && BTreeMap.contains_key tok flds
      then Ok (args, BTreeMap.insert tok (FieldRef tok) fm)
      else Ok st
  end end end.

Definition parse_attrs (tokens : list string) (flds : BTreeMap.t Field) : result Attrs error :=
  try_fold (attr flds) tokens (EmptyString, []).

(** The inline fields of the bit pattern that have no mapping yet. *)
Definition with_inline (b : BitPattern) (fm : BTreeMap.t FieldMapping) : BTreeMap.t FieldMapping :=
  fold_left (fun fm kv => BTreeMap.or_insert kv.1 (Inline kv.2.1 kv.2.2 false) fm) (inline_fields b) fm.

Definition parse_format (line : string) (flds : BTreeMap.t Field) (width : Z)
    : result (string * Format) error :=
  let tokens := split_whitespace line in
  let nm := skip1 (default EmptyString (head tokens)) in
  let n := count_bit_tokens (tail tokens) in
  bp <-? parse_bit_tokens (take n (tail tokens)) width ;;
  am <-? parse_attrs (drop n (tail tokens)) flds ;;
  Ok (nm, mk_Format (bp_bits bp) (bp_mask bp) am.1 (with_inline bp am.2)).

Fixpoint find_format (tokens : list string) : option string :=
  match tokens with
  | [] => None
  | t :: rest => match strip_prefix "@" t with Some f => Some f | None => find_format rest end
  end.

Definition parse_pattern (line : string) (formats : BTreeMap.t Format) (flds : BTreeMap.t Field)
    (auto_args : BTreeMap.t ArgSet) (width : Z) : result (Pattern * BTreeMap.t ArgSet) error :=
  let tokens := split_whitespace line in
  let nm := default EmptyString (head tokens) in
  let n := count_bit_tokens (tail tokens) in
  bp <-? parse_bit_tokens (take n (tail tokens)) width ;;
  let rest := drop n (tail tokens) in
  match find_format rest with
  | Some fname =>
      match BTreeMap.get fname formats with
      | None => Err (UnknownFormat fname)
      | Some fmt =>
          am <-? parse_attrs rest flds ;;
          Ok (mk_Pattern nm (Z.lor (bp_bits bp) (fmt_bits fmt)) (Z.lor (bp_mask bp) (fmt_mask fmt))
                (fmt_args fmt) (BTreeMap.extend (fmt_map fmt) am.2), auto_args)
      end
  | None =>
      am <-? parse_attrs rest flds ;;
      let fm := with_inline bp am.2 in
      if is_empty am.1 && negb (bool_decide (fm = [])) then
        let aname := "_auto_" ++ nm in
        Ok (mk_Pattern nm (bp_bits bp) (bp_mask bp) aname fm,
            BTreeMap.insert aname (mk_ArgSet aname (BTreeMap.keys fm) false) auto_args)
      else Ok (mk_Pattern nm (bp_bits bp) (bp_mask bp) am.1 fm, auto_args)
  end.

(** ** Files *)

(** The output of [merge_continuations] is kept reversed: pushing and popping happen at
    its end. *)
Fixpoint push_str (s : string) (out : list ascii) : list ascii :=
  match s with EmptyString => out | String c s => push_str s (c :: out) end.

Definition ends_with (c : ascii) (out : list ascii) : bool :=
  match out with d :: _ => Ascii.eqb d c | [] => false end.

Fixpoint pop_spaces (out : list ascii) : list ascii :=
  match out with
  | c :: rest => if Ascii.eqb c " " then pop_spaces rest else out
  | [] => []
  end.

Definition merge_line (st : list ascii * bool) (line : string) : list ascii * bool :=
  let '(out, cont) := st in
  let out :=
    if cont : bool then push_str (trim line) (" "%char :: out)
    else push_str line (match out with [] => [] | _ => newline :: out end) in
  if ends_with backslash out then (pop_spaces (tail out), true) else (out, false).

Fixpoint of_reversed (out : list ascii) (acc : string) : string :=
  match out with [] => acc | c :: out => of_reversed out (String c acc) end.

Definition merge_continuations (input : string) : string :=
  of_reversed (fold_left merge_line (lines input) ([], false)).1 EmptyString.

Record Parser := mk_Parser {
  p_fields : BTreeMap.t Field;
  p_argsets : BTreeMap.t ArgSet;
  p_formats : BTreeMap.t Format;
  p_patterns : list Pattern;
  p_auto : BTreeMap.t ArgSet
}.

Definition strip_comment (raw : string) : string :=
  match split_once "#" raw with Some (before, _) => before | None => raw end.

(** The closure of the loop of [parse_with_width]; the line is not empty. *)
Definition parse_line (width : Z) (st : Parser) (line : string) : result Parser error :=
  match line with
  | EmptyString => Ok st
  | String first _ =>
      if Ascii.eqb first "%" then
        f <-? parse_field line ;;
        Ok (mk_Parser (BTreeMap.insert (f_name f) f (p_fields st)) (p_argsets st) (p_formats st)
              (p_patterns st) (p_auto st))
      else if Ascii.eqb first "&" then
        a <-? parse_argset line ;;
        Ok (mk_Parser (p_fields st) (BTreeMap.insert (a_name a) a (p_argsets st)) (p_formats st)
              (p_patterns st) (p_auto st))
      else if Ascii.eqb first "@" then
        nf <-? parse_format line (p_fields st) width ;;
        Ok (mk_Parser (p_fields st) (p_argsets st) (BTreeMap.insert nf.1 nf.2 (p_formats st))
              (p_patterns st) (p_auto st))
      else if Ascii.eqb first "{" || Ascii.eqb first "}" || Ascii.eqb first "[" || Ascii.eqb first "]"
      then Ok st
      else
        pa <-? parse_pattern line (p_formats st) (p_fields st) (p_auto st) width ;;
        Ok (mk_Parser (p_fields st) (p_argsets st) (p_formats st) (p_patterns st ++ [pa.1]) pa.2)
  end.

Fixpoint parse_lines (width : Z) (lineno : Z) (l : list string) (st : Parser) : result Parser error :=
  match l with
  | [] => Ok st
  | raw :: rest =>
      match parse_line width st (trim (strip_comment raw)) with
      | Ok st => parse_lines width (lineno + 1) rest st
      | Err e => Err (AtLine (lineno + 1) e)
      end
  end.

(** The last pass of [parse_with_width]. *)
Fixpoint check_argsets (sets : BTreeMap.t ArgSet) (ps : list Pattern) : result unit error :=
  match ps with
  | [] => Ok tt
  | p :: ps =>
      if negb (is_empty (args_name p)) && negb (BTreeMap.contains_key (args_name p) sets)
      then Err (UnknownArgset (args_name p) (name p))
      else check_argsets sets ps
  end.

Definition parse_with_width (input : string) (width : Z) : result Parsed error :=
  st <-? parse_lines width 0 (lines (merge_continuations input)) (mk_Parser [] [] [] [] []) ;;
  let sets := BTreeMap.extend (p_argsets st) (p_auto st) in
  _ <-? check_argsets sets (p_patterns st) ;;
  Ok (mk_Parsed (p_fields st) sets (p_patterns st)).

(** ** The generated decoder *)

(** [((insn as iW) << lshift) >> rshift] as an [i64]. *)
Definition sext_bits (width lshift rshift insn : Z) : Z :=
  Z.shiftr (signed width (shl width insn lshift)) rshift.

(** [(insn >> pos) & mask]. *)
Definition zext_bits (p l insn : Z) : Z := Z.land (Z.shiftr insn p) (Z.shiftl 1 l - 1).

Definition segment (width : Z) (s : FieldSegment) (insn : Z) : Z :=
  if signed_ s then sext_bits width (width - pos s - len s) (width - len s) insn
  else zext_bits (pos s) (len s) insn.

(** [emit_func_transform]. *)
Definition func_transform (fn : option string) (v : Z) : Z :=
  match fn with
  | None => v
  | Some fn =>
      if String.eqb fn "ex_shift_1" then Z.shiftl v 1
      else if String.eqb fn "ex_shift_2" then Z.shiftl v 2
      else if String.eqb fn "ex_shift_3" then Z.shiftl v 3
      else if String.eqb fn "ex_shift_4" then Z.shiftl v 4
      else if String.eqb fn "ex_shift_12" then Z.shiftl v 12
      else if String.eqb fn "ex_rvc_register" then v + 8
      else if String.eqb fn "ex_sreg_register"
      then nth (Z.to_nat (Z.land v 7)) [8; 9; 18; 19; 20; 21; 22; 23] 0
      else v
  end.

(** [emit_extract_field]: the first segment may be signed, the others are appended below
    it.  A field without segments makes the generator panic. *)
Definition extract_field (width : Z) (f : Field) (insn : Z) : option Z :=
  match segments f with
  | [] => None
  | s0 :: rest =>
      Some (func_transform (func f)
        (fold_left (fun v s => Z.lor (Z.shiftl v (len s)) (zext_bits (pos s) (len s) insn)) rest
           (segment width s0 insn)))
  end.

(** A reference to a field the file does not define is an error of the Rust compiler. *)
Definition field_expr (width : Z) (flds : BTreeMap.t Field) (m : FieldMapping) (insn : Z) : option Z :=
  match m with
  | FieldRef r => match BTreeMap.get r flds with Some f => extract_field width f insn | None => None end
  | Inline p l sg =>
      Some (if sg then sext_bits width (width - p - l) (width - l) insn else zext_bits p l insn)
  | Const c => Some c
  end.

(** The fields of the argument structure, zero where the pattern does not map them. *)
Definition build_args (width : Z) (pd : Parsed) (p : Pattern) (insn : Z) : option (list (string * Z)) :=
  let arg_fields :=
    if is_empty (args_name p) then []
    else match BTreeMap.get (args_name p) (argsets pd) with Some a => a_fields a | None => [] end in
  mapM (fun af =>
    match BTreeMap.get af (field_map p) with
    | Some m => v ← field_expr width (fields pd) m insn; Some (af, v)
    | None => Some (af, 0)
    end) arg_fields.

Definition full_mask (width : Z) : Z := if width <=? 16 then 0xffff else 0xffffffff.

Definition matches (width : Z) (p : Pattern) (insn : Z) : bool :=
  if fixedmask p =? full_mask width then insn =? fixedbits p
  else Z.land insn (fixedmask p) =? fixedbits p.

(** The chain of tests: the first pattern that matches is the answer, whatever its
    [trans_] method then returns. *)
Fixpoint decode_patterns (width : Z) (pd : Parsed) (ps : list Pattern) (insn : Z)
    : option (option (string * list (string * Z))) :=
  match ps with
  | [] => Some None
  | p :: ps =>
      if matches width p insn then
        args ← build_args width pd p insn; Some (Some (name p, args))
      else decode_patterns width pd ps insn
  end.

Definition decode_fn (width : Z) (pd : Parsed) (insn : Z) : option (option (string * list (string * Z))) :=
  decode_patterns width pd (patterns pd) insn.

(** ** Facts about generated decoders *)

Lemma zext_bits_div p l w : 0 <= p -> 0 <= l -> zext_bits p l w = (w / 2 ^ p) mod 2 ^ l.
Proof.
  intros Hp Hl. unfold zext_bits. replace (Z.shiftl 1 l - 1) with (Z.ones l) by (unfold Z.ones; lia).
  by rewrite land_ones_wrap, Z.shiftr_div_pow2.
Qed.

(** A signed segment is the sign extension of its bits. *)
Lemma sext_bits_signed width p l w :
  0 <= p -> 0 < l -> p + l <= width ->
  sext_bits width (width - p - l) (width - l) w = signed l ((w / 2 ^ p) mod 2 ^ l).
Proof.
  intros Hp Hl Hle. unfold sext_bits, shl, wrap.
  assert (E : Z.shiftl w (width - p - l) mod 2 ^ width = 2 ^ (width - l) * ((w / 2 ^ p) mod 2 ^ l)
              + (Z.shiftl w (width - p - l) mod 2 ^ (width - l))).
  { rewrite Z.shiftl_mul_pow2 by lia. set (a := w * 2 ^ (width - p - l)).
    replace (2 ^ width) with (2 ^ (width - l) * 2 ^ l) by (rewrite <- Z.pow_add_r by lia; f_equal; lia).
    rewrite Z.rem_mul_r by (try apply Z.pow_nonzero; lia). subst a.
    replace (2 ^ (width - l)) with (2 ^ p * 2 ^ (width - p - l)) at 3
      by (rewrite <- Z.pow_add_r by lia; f_equal; lia).
    rewrite Z.div_mul_cancel_r by (apply Z.pow_nonzero; lia). lia. }
  rewrite E. set (v := (w / 2 ^ p) mod 2 ^ l). set (r := Z.shiftl w (width - p - l) mod 2 ^ (width - l)).
  assert (Hr : 0 <= r < 2 ^ (width - l)) by (apply Z.mod_pos_bound, Z.pow_pos_nonneg; lia).
  assert (Hv : 0 <= v < 2 ^ l) by (apply Z.mod_pos_bound, Z.pow_pos_nonneg; lia).
  clearbody v r. clear E. pose proof (Z.pow_pos_nonneg 2 (width - l) ltac:(lia) ltac:(lia)) as Hk.
  assert (E1 : 2 ^ (width - 1) = 2 ^ (width - l) * 2 ^ (l - 1))
    by (rewrite <- Z.pow_add_r by lia; f_equal; lia).
  assert (E2 : 2 ^ width = 2 ^ (width - l) * 2 ^ l) by (rewrite <- Z.pow_add_r by lia; f_equal; lia).
  rewrite Z.shiftr_div_pow2 by lia. set (k := 2 ^ (width - l)) in *. unfold signed. rewrite E1, E2.
  destruct (Z.ltb_spec v (2 ^ (l - 1))).
  - rewrite (proj2 (Z.ltb_lt _ _)) by nia. symmetry. apply Z.div_unique with r; lia.
  - rewrite (proj2 (Z.ltb_ge _ _)) by nia. symmetry. apply Z.div_unique with r; lia.
Qed.

(** Both forms of the test are the masked comparison. *)
Lemma matches_land width p w :
  width = 16 \/ width = 32 -> in_range width w ->
  matches width p w = (Z.land w (fixedmask p) =? fixedbits p).
Proof.
  intros Hw Hr. unfold matches, full_mask.
  destruct (Z.eqb_spec (fixedmask p) (if width <=? 16 then 0xffff else 0xffffffff)) as [E|]; [|done].
  rewrite E.
  destruct Hw as [-> | ->]; cbn [Z.leb Z.compare Pos.compare Pos.compare_cont];
    [change 0xffff with (Z.ones 16)|change 0xffffffff with (Z.ones 32)];
    rewrite land_ones_wrap by lia; by rewrite wrap_small.
Qed.

(** Two patterns that fix a common bit differently. *)
Definition incompatible (p q : Pattern) : bool :=
  negb (Z.land (Z.land (fixedmask p) (fixedmask q)) (Z.lxor (fixedbits p) (fixedbits q)) =? 0).

Lemma incompatible_matches width p q w :
  width = 16 \/ width = 32 -> in_range width w ->
  incompatible p q = true -> matches width p w = true -> matches width q w = false.
Proof.
  intros Hw Hr Hi. rewrite !matches_land by done. intros Hp%Z.eqb_eq. apply Z.eqb_neq. intros Hq.
  unfold incompatible in Hi. apply negb_true_iff, Z.eqb_neq in Hi. apply Hi.
  rewrite <- Hp, <- Hq. apply Z.bits_inj'. intros i Hi0. zbits_rewrite.
  destruct (Z.testbit w i), (Z.testbit (fixedmask p) i), (Z.testbit (fixedmask q) i); done.
Qed.

(** The decoder takes the first pattern that matches. *)
Lemma decode_patterns_first width pd l1 p l2 w :
  Forall (fun q => matches width q w = false) l1 -> matches width p w = true ->
  decode_patterns width pd (l1 ++ p :: l2) w
  = (args ← build_args width pd p w; Some (Some (name p, args))).
Proof.
  intros Hl Hm. induction Hl as [|q l1 Hq _ IH]; cbn [app decode_patterns]; [by rewrite Hm|].
  by rewrite Hq.
Qed.

Lemma decode_patterns_at width pd l1 p l2 w :
  width = 16 \/ width = 32 -> in_range width w ->
  forallb (incompatible p) l1 = true -> matches width p w = true ->
  decode_patterns width pd (l1 ++ p :: l2) w
  = (args ← build_args width pd p w; Some (Some (name p, args))).
Proof.
  intros Hw Hr Hl Hm. apply decode_patterns_first; [|done]. rewrite forallb_forall in Hl.
  apply Forall_forall. intros q Hq. apply (incompatible_matches width p); try done.
  by apply Hl, list_elem_of_In.
Qed.

(** ... and only answers with patterns of the file. *)
Lemma decode_patterns_inv width pd ps w nm args :
  decode_patterns width pd ps w = Some (Some (nm, args)) ->
  exists p, p ∈ ps /\ matches width p w = true /\ nm = name p /\ build_args width pd p w = Some args.
Proof.
  induction ps as [|p ps IH]; cbn [decode_patterns]; [done|].
  destruct (matches width p w) eqn:Em.
  - destruct (build_args width pd p w) as [a|] eqn:Eb; [|done]. intros [= <- <-].
    exists p. split_and!; try done. by left.
  - intros (q & Hq & Hrest)%IH. exists q. split; [by right|done].
Qed.

(** A word given by its fields: each run of bits is a pair of position and length. *)
Definition covers (mask : Z) (segs : list (Z * Z)) : bool :=
  forallb (fun i => negb (Z.testbit mask i) ||
    existsb (fun s => (s.1 <=? i) && (i <? s.1 + s.2)) segs) (Z.of_nat <$> seq 0 32).

Lemma land_covered mask bits segs w :
  in_range 32 mask -> Z.land bits mask = bits -> covers mask segs = true ->
  Forall (fun s => 0 <= s.1 /\ 0 <= s.2 /\ (w / 2 ^ s.1) mod 2 ^ s.2 = (bits / 2 ^ s.1) mod 2 ^ s.2) segs ->
  Z.land w mask = bits.
Proof.
  intros Hm Hb Hc Hs. rewrite <- Hb. apply Z.bits_inj'. intros i Hi. rewrite !Z.land_spec.
  destruct (Z.testbit mask i) eqn:Em; [|by rewrite !andb_false_r]. rewrite !andb_true_r.
  assert (Hi32 : i < 32).
  { destruct (Z.lt_ge_cases i 32); [done|]. destruct Hm as [H0 H1]. destruct (decide (mask = 0)) as [->|].
    { by rewrite Z.bits_0 in Em. }
    rewrite Z.bits_above_log2 in Em; [done|lia|]. apply Z.log2_lt_pow2; [lia|].
    assert (2 ^ 32 <= 2 ^ i) by (apply Z.pow_le_mono_r; lia). lia. }
  unfold covers in Hc. rewrite forallb_forall in Hc. specialize (Hc i).
  rewrite Em in Hc. cbn [negb orb] in Hc.
  assert (Hin : In i (Z.of_nat <$> seq 0 32)).
  { apply list_elem_of_In, list_elem_of_fmap. exists (Z.to_nat i). split; [lia|]. apply elem_of_seq. lia. }
  apply Hc, existsb_exists in Hin as ([p l] & Hin & Hr). cbn [fst snd] in Hr.
  apply andb_true_iff in Hr as [H1%Z.leb_le H2%Z.ltb_lt].
  rewrite Forall_forall in Hs. destruct (Hs (p, l)) as (Hp & Hl & E); [by apply list_elem_of_In|].
  cbn [fst snd] in *. replace i with (i - p + p) by lia. rewrite <- !Z.div_pow2_bits by lia.
  rewrite <- (Z.mod_pow2_bits_low (w / 2 ^ p) l), <- (Z.mod_pow2_bits_low (bits / 2 ^ p) l) by lia.
  by rewrite E.
Qed.
