(* ===== verification/RvInsn.v ===== *)
(** * RISC-V instructions

    The argument sets of [guest/riscv/src/riscv/insn32.decode] as records and, per
    extension, the instructions the decoder hands to the translator: one constructor
    for each [trans_] method of the [Decode] trait implemented in
    [guest/riscv/src/riscv/trans/mod.rs], with the argument set it takes.  The fields
    are [i64] values of the decoder.  The floating-point extensions are not modelled. *)

From Stdlib Require Import ZArith Bool.
From stdpp Require Import base.
From S2P Require Import Prelude.

(** ** Argument sets *)

Module ArgsB.
Record t := mk { imm : Z; rs2 : Z; rs1 : Z }.
End ArgsB.
Module ArgsI.
Record t := mk { imm : Z; rs1 : Z; rd : Z }.
End ArgsI.
Module ArgsJ.
Record t := mk { imm : Z; rd : Z }.
End ArgsJ.
Module ArgsR.
Record t := mk { rd : Z; rs1 : Z; rs2 : Z }.
End ArgsR.
Module ArgsR2.
Record t := mk { rd : Z; rs1 : Z }.
End ArgsR2.
Module ArgsS.
Record t := mk { imm : Z; rs1 : Z; rs2 : Z }.
End ArgsS.
Module ArgsU.
Record t := mk { imm : Z; rd : Z }.
End ArgsU.
Module ArgsShift.
Record t := mk { shamt : Z; rs1 : Z; rd : Z }.
End ArgsShift.
Module ArgsAtomic.
Record t := mk { aq : Z; rl : Z; rs2 : Z; rs1 : Z; rd : Z }.
End ArgsAtomic.
Module ArgsCsr.
Record t := mk { csr : Z; rs1 : Z; rd : Z }.
End ArgsCsr.

(** ** Instructions *)

Inductive Rv32i :=
| LUI (a : ArgsU.t) | AUIPC (a : ArgsU.t) | JAL (a : ArgsJ.t) | JALR (a : ArgsI.t)
| BEQ (a : ArgsB.t) | BNE (a : ArgsB.t) | BLT (a : ArgsB.t) | BGE (a : ArgsB.t)
| BLTU (a : ArgsB.t) | BGEU (a : ArgsB.t)
| LB (a : ArgsI.t) | LH (a : ArgsI.t) | LW (a : ArgsI.t) | LBU (a : ArgsI.t) | LHU (a : ArgsI.t)
| SB (a : ArgsS.t) | SH (a : ArgsS.t) | SW (a : ArgsS.t)
| ADDI (a : ArgsI.t) | SLTI (a : ArgsI.t) | SLTIU (a : ArgsI.t)
| XORI (a : ArgsI.t) | ORI (a : ArgsI.t) | ANDI (a : ArgsI.t)
| SLLI (a : ArgsShift.t) | SRLI (a : ArgsShift.t) | SRAI (a : ArgsShift.t)
| ADD (a : ArgsR.t) | SUB (a : ArgsR.t) | SLL (a : ArgsR.t) | SLT (a : ArgsR.t)
| SLTU (a : ArgsR.t) | XOR (a : ArgsR.t) | SRL (a : ArgsR.t) | SRA (a : ArgsR.t)
| OR (a : ArgsR.t) | AND (a : ArgsR.t)
| FENCE | FENCE_I.

Inductive Rv64i :=
| LWU (a : ArgsI.t) | LD (a : ArgsI.t) | SD (a : ArgsS.t)
| ADDIW (a : ArgsI.t) | SLLIW (a : ArgsShift.t) | SRLIW (a : ArgsShift.t) | SRAIW (a : ArgsShift.t)
| ADDW (a : ArgsR.t) | SUBW (a : ArgsR.t) | SLLW (a : ArgsR.t) | SRLW (a : ArgsR.t) | SRAW (a : ArgsR.t).

Inductive Priv :=
| ECALL | EBREAK | MRET | SRET | WFI | SFENCE_VMA | SINVAL_VMA
| TH_FENCE_SPA | MFENCE_SPA | MINVAL_SPA.

Inductive Zicsr :=
| CSRRW (a : ArgsCsr.t) | CSRRS (a : ArgsCsr.t) | CSRRC (a : ArgsCsr.t)
| CSRRWI (a : ArgsCsr.t) | CSRRSI (a : ArgsCsr.t) | CSRRCI (a : ArgsCsr.t).

Inductive Rvm :=
| MUL (a : ArgsR.t) | MULH (a : ArgsR.t) | MULHSU (a : ArgsR.t) | MULHU (a : ArgsR.t)
| DIV (a : ArgsR.t) | DIVU (a : ArgsR.t) | REM (a : ArgsR.t) | REMU (a : ArgsR.t)
| MULW (a : ArgsR.t) | DIVW (a : ArgsR.t) | DIVUW (a : ArgsR.t) | REMW (a : ArgsR.t) | REMUW (a : ArgsR.t).

Inductive Rva :=
| LR_W (a : ArgsAtomic.t) | SC_W (a : ArgsAtomic.t) | AMOSWAP_W (a : ArgsAtomic.t)
| AMOADD_W (a : ArgsAtomic.t) | AMOXOR_W (a : ArgsAtomic.t) | AMOAND_W (a : ArgsAtomic.t)
| AMOOR_W (a : ArgsAtomic.t) | AMOMIN_W (a : ArgsAtomic.t) | AMOMAX_W (a : ArgsAtomic.t)
| AMOMINU_W (a : ArgsAtomic.t) | AMOMAXU_W (a : ArgsAtomic.t)
| LR_D (a : ArgsAtomic.t) | SC_D (a : ArgsAtomic.t) | AMOSWAP_D (a : ArgsAtomic.t)
| AMOADD_D (a : ArgsAtomic.t) | AMOXOR_D (a : ArgsAtomic.t) | AMOAND_D (a : ArgsAtomic.t)
| AMOOR_D (a : ArgsAtomic.t) | AMOMIN_D (a : ArgsAtomic.t) | AMOMAX_D (a : ArgsAtomic.t)
| AMOMINU_D (a : ArgsAtomic.t) | AMOMAXU_D (a : ArgsAtomic.t).

Inductive Zba :=
| SH1ADD (a : ArgsR.t) | SH2ADD (a : ArgsR.t) | SH3ADD (a : ArgsR.t)
| SH1ADD_UW (a : ArgsR.t) | SH2ADD_UW (a : ArgsR.t) | SH3ADD_UW (a : ArgsR.t)
| ADD_UW (a : ArgsR.t) | SLLI_UW (a : ArgsShift.t).

Inductive Zbb :=
| ANDN (a : ArgsR.t) | ORN (a : ArgsR.t) | XNOR (a : ArgsR.t)
| MAX (a : ArgsR.t) | MAXU (a : ArgsR.t) | MIN (a : ArgsR.t) | MINU (a : ArgsR.t)
| ROL (a : ArgsR.t) | ROR (a : ArgsR.t) | ROLW (a : ArgsR.t) | RORW (a : ArgsR.t)
| RORI (a : ArgsShift.t) | RORIW (a : ArgsShift.t)
| CLZ (a : ArgsR2.t) | CTZ (a : ArgsR2.t) | CPOP (a : ArgsR2.t)
| CLZW (a : ArgsR2.t) | CTZW (a : ArgsR2.t) | CPOPW (a : ArgsR2.t)
| SEXT_B (a : ArgsR2.t) | SEXT_H (a : ArgsR2.t) | ZEXT_H (a : ArgsR2.t)
| REV8 (a : ArgsR2.t) | ORC_B (a : ArgsR2.t).

Inductive Zbc := CLMUL (a : ArgsR.t) | CLMULH (a : ArgsR.t) | CLMULR (a : ArgsR.t).

Inductive Zbs :=
| BCLR (a : ArgsR.t) | BCLRI (a : ArgsShift.t) | BEXT (a : ArgsR.t) | BEXTI (a : ArgsShift.t)
| BINV (a : ArgsR.t) | BINVI (a : ArgsShift.t) | BSET (a : ArgsR.t) | BSETI (a : ArgsShift.t).

Inductive Zbk :=
| BREV8 (a : ArgsR2.t) | PACK (a : ArgsR.t) | PACKH (a : ArgsR.t) | PACKW (a : ArgsR.t)
| XPERM4 (a : ArgsR.t) | XPERM8 (a : ArgsR.t).

Inductive Zicbo := CBO_INVAL | CBO_CLEAN | CBO_FLUSH | CBO_ZERO.

Inductive Insn :=
| Rv32i_insn (i : Rv32i) | Rv64i_insn (i : Rv64i) | Priv_insn (i : Priv) | Zicsr_insn (i : Zicsr)
| Rvm_insn (i : Rvm) | Rva_insn (i : Rva) | Zba_insn (i : Zba) | Zbb_insn (i : Zbb)
| Zbc_insn (i : Zbc) | Zbs_insn (i : Zbs) | Zbk_insn (i : Zbk) | Zicbo_insn (i : Zicbo).
