(* ===== verification/RvTrans.v ===== *)
(** * The RISC-V front end

    Models [guest/riscv/src/riscv/trans/] (the [gen_] helpers and the [trans_] methods
    of the integer, privileged, CSR, multiply, atomic and bit-manipulation
    instructions), the translation context and translator of
    [guest/riscv/src/riscv/mod.rs], the generic [translator_loop] of
    [guest/riscv/src/lib.rs] and the helper functions of [trans/helpers.rs].

    The addresses of the helper functions and the offset of [mstatus] in the CPU struct
    are parameters, as are the guest code bytes behind [guest_base] and the decoder.  Additions on program counters wrap at 64
    bits. *)

From Stdlib Require Import ZArith Lia Bool String.
From stdpp Require Import base tactics numbers list.
From S2P Require Import Prelude IrTypes IrContext IrBuild Tb RvInsn.

(** ** Configuration and translation context *)

(** The extension flags the modelled instructions test; [has_xthead] says whether any of
    the vendor extensions is on. *)
Record RiscvCfg := mk_RiscvCfg {
  misa_m : bool; misa_a : bool; misa_c : bool;
  ext_zicsr : bool; ext_zicbom : bool; ext_zicboz : bool;
  ext_zba : bool; ext_zbb : bool; ext_zbc : bool; ext_zbs : bool;
  ext_zbkb : bool; ext_zbkx : bool; ext_svinval : bool; has_xthead : bool
}.

Inductive DisasJumpType := Next | TooMany | NoReturn.

Global Instance DisasJumpType_eq_dec : EqDecision DisasJumpType.
Proof. solve_decision. Defined.

Record Dis := mk_Dis {
  pc_first : Z;
  pc_next : Z;
  is_jmp : DisasJumpType;
  num_insns : Z;
  max_insns : Z;
  cfg : RiscvCfg;
  env : N;
  gpr : list N;
  pc : N;
  load_res : N;
  load_val : N;
  cross_page_insn : Z;
  cross_page_pc : Z;
  page_byte_limit : Z;
  opcode : Z;
  cur_insn_len : Z;
  csr_helper : Z;
  lr_helper : Z;
  sc_helper : Z;
  amo_helper : Z
}.

Definition set_is_jmp (j : DisasJumpType) (d : Dis) : Dis := {|
  pc_first := pc_first d; pc_next := pc_next d; is_jmp := j; num_insns := num_insns d;
  max_insns := max_insns d; cfg := cfg d; env := env d; gpr := gpr d; pc := pc d;
  load_res := load_res d; load_val := load_val d; cross_page_insn := cross_page_insn d;
  cross_page_pc := cross_page_pc d; page_byte_limit := page_byte_limit d; opcode := opcode d;
  cur_insn_len := cur_insn_len d; csr_helper := csr_helper d; lr_helper := lr_helper d;
  sc_helper := sc_helper d; amo_helper := amo_helper d |}.

Definition set_insn (op len : Z) (d : Dis) : Dis := {|
  pc_first := pc_first d; pc_next := pc_next d; is_jmp := is_jmp d; num_insns := num_insns d;
  max_insns := max_insns d; cfg := cfg d; env := env d; gpr := gpr d; pc := pc d;
  load_res := load_res d; load_val := load_val d; cross_page_insn := cross_page_insn d;
  cross_page_pc := cross_page_pc d; page_byte_limit := page_byte_limit d; opcode := op;
  cur_insn_len := len; csr_helper := csr_helper d; lr_helper := lr_helper d;
  sc_helper := sc_helper d; amo_helper := amo_helper d |}.

Definition set_counts (next n : Z) (d : Dis) : Dis := {|
  pc_first := pc_first d; pc_next := next; is_jmp := is_jmp d; num_insns := n;
  max_insns := max_insns d; cfg := cfg d; env := env d; gpr := gpr d; pc := pc d;
  load_res := load_res d; load_val := load_val d; cross_page_insn := cross_page_insn d;
  cross_page_pc := cross_page_pc d; page_byte_limit := page_byte_limit d; opcode := opcode d;
  cur_insn_len := cur_insn_len d; csr_helper := csr_helper d; lr_helper := lr_helper d;
  sc_helper := sc_helper d; amo_helper := amo_helper d |}.

Definition set_temps (e : N) (g : list N) (p lr lv : N) (d : Dis) : Dis := {|
  pc_first := pc_first d; pc_next := pc_next d; is_jmp := is_jmp d; num_insns := num_insns d;
  max_insns := max_insns d; cfg := cfg d; env := e; gpr := g; pc := p;
  load_res := lr; load_val := lv; cross_page_insn := cross_page_insn d;
  cross_page_pc := cross_page_pc d; page_byte_limit := page_byte_limit d; opcode := opcode d;
  cur_insn_len := cur_insn_len d; csr_helper := csr_helper d; lr_helper := lr_helper d;
  sc_helper := sc_helper d; amo_helper := amo_helper d |}.

Definition dis_new (start : Z) (c : RiscvCfg) : Dis := {|
  pc_first := start; pc_next := start; is_jmp := Next; num_insns := 0; max_insns := 512;
  cfg := c; env := 0; gpr := replicate 32 0%N; pc := 0; load_res := 0; load_val := 0;
  cross_page_insn := 0; cross_page_pc := 0;
  page_byte_limit := u64 (Z.land start (bnot 64 0xFFF) + 0x1000);
  opcode := 0; cur_insn_len := 4; csr_helper := 0; lr_helper := 0; sc_helper := 0;
  amo_helper := 0 |}.

(** ** Helper functions called from generated code *)

(** [a.wrapping_div(b)] and [wrapping_rem] on signed values round towards zero. *)
Definition helper_divs64 (a b : Z) : Z :=
  let a := signed 64 a in let b := signed 64 b in
  u64 (if b =? 0 then -1
       else if (a =? - 2 ^ 63) && (b =? -1) then - 2 ^ 63
       else Z.quot a b).

Definition helper_rems64 (a b : Z) : Z :=
  let a := signed 64 a in let b := signed 64 b in
  u64 (if b =? 0 then a
       else if (a =? - 2 ^ 63) && (b =? -1) then 0
       else Z.rem a b).

Definition helper_divw64 (a b : Z) : Z :=
  let a32 := signed 32 (u32 a) in let b32 := signed 32 (u32 b) in
  u64 (if b32 =? 0 then -1
       else if (a32 =? - 2 ^ 31) && (b32 =? -1) then - 2 ^ 31
       else Z.quot a32 b32).

Definition helper_remw64 (a b : Z) : Z :=
  let a32 := signed 32 (u32 a) in let b32 := signed 32 (u32 b) in
  u64 (if b32 =? 0 then a32
       else if (a32 =? - 2 ^ 31) && (b32 =? -1) then 0
       else Z.rem a32 b32).

(** [for i in lo..hi { r = step(i, r) }]. *)
Definition for_range (lo hi : Z) (step : Z -> Z -> Z) (r : Z) : Z :=
  foldl (fun r i => step (Z.of_nat i) r) r (seq (Z.to_nat lo) (Z.to_nat (hi - lo))).

Definition helper_orc_b (val : Z) : Z :=
  for_range 0 8 (fun i r =>
    let byte := Z.land (shr val (i * 8)) 0xFF in
    if byte =? 0 then r else Z.lor r (shl 64 0xFF (i * 8))) 0.

(** [u8::reverse_bits]. *)
Definition reverse_bits8 (b : Z) : Z :=
  for_range 0 8 (fun k r => if Z.testbit b (7 - k) then Z.lor r (shl 8 1 k) else r) 0.

Definition helper_brev8 (val : Z) : Z :=
  for_range 0 8 (fun i r =>
    Z.lor r (shl 64 (reverse_bits8 (u8 (Z.land (shr val (i * 8)) 0xFF))) (i * 8))) 0.

Definition helper_xperm4 (rs1 rs2 : Z) : Z :=
  for_range 0 16 (fun i r =>
    let idx := Z.land (shr rs2 (i * 4)) 0xF in
    let nibble := Z.land (shr rs1 (idx * 4)) 0xF in
    Z.lor r (shl 64 nibble (i * 4))) 0.

Definition helper_xperm8 (rs1 rs2 : Z) : Z :=
  for_range 0 8 (fun i r =>
    let idx := Z.land (shr rs2 (i * 8)) 0xFF in
    if idx <? 8 then
      let byte := Z.land (shr rs1 (idx * 8)) 0xFF in
      Z.lor r (shl 64 byte (i * 8))
    else r) 0.

Definition helper_clmul (rs1 rs2 : Z) : Z :=
  for_range 0 64 (fun i r =>
    if Z.land (shr rs2 i) 1 =? 0 then r else Z.lxor r (shl 64 rs1 i)) 0.

Definition helper_clmulh (rs1 rs2 : Z) : Z :=
  for_range 1 64 (fun i r =>
    if Z.land (shr rs2 i) 1 =? 0 then r else Z.lxor r (shr rs1 (64 - i))) 0.

Definition helper_clmulr (rs1 rs2 : Z) : Z :=
  for_range 0 64 (fun i r =>
    if Z.land (shr rs2 i) 1 =? 0 then r else Z.lxor r (shr rs1 (63 - i))) 0.

(** Their names, for the address the translator emits. *)
Inductive Helper :=
| H_divs64 | H_rems64 | H_divw64 | H_remw64 | H_orc_b | H_brev8 | H_xperm4 | H_xperm8
| H_clmul | H_clmulh | H_clmulr | H_sc.

Global Instance Helper_eq_dec : EqDecision Helper.
Proof. solve_decision. Defined.

Section Front.
Variable addr_of : Helper -> Z.
Variable MSTATUS_OFFSET : Z.
Implicit Types (d : Dis).

Local Notation I64 := Ty.I64.
Local Notation I32 := Ty.I32.

(** ** Register access ([gen_common.rs]) *)

(** [self.gpr[idx as usize]]; an index out of range panics. *)
Definition gpr_temp d (idx : Z) : Ir N :=
  expect (if idx <? 0 then None else gpr d !! Z.to_nat idx).

Definition gpr_or_zero d (idx : Z) : Ir N :=
  if idx =? 0 then new_const I64 0 else gpr_temp d idx.

Definition addr_with_imm (base : N) (imm : Z) : Ir N :=
  if imm =? 0 then mret base
  else
    c ← new_const I64 (u64 imm);
    t ← new_temp I64;
    bin gen_add I64 t base c.

Definition gen_set_gpr d (rd : Z) (val : N) : Ir unit :=
  if rd =? 0 then mret tt
  else g ← gpr_temp d rd; un gen_mov I64 g val ;; mret tt.

Definition gen_set_gpr_sx32 d (rd : Z) (val : N) : Ir unit :=
  if rd =? 0 then mret tt
  else g ← gpr_temp d rd; gen_ext_i32_i64 g val ;; mret tt.

Definition gen_helper_call (helper : Z) (args : list N) : Ir N :=
  dst ← new_temp I64;
  gen_call dst helper args ;;
  mret dst.

(** ** Base integer helpers ([gen_rvi.rs]) *)

Definition gen_load d (a : ArgsI.t) (memop : Z) : Ir bool :=
  base ← gpr_or_zero d (ArgsI.rs1 a);
  addr ← addr_with_imm base (ArgsI.imm a);
  dst ← new_temp I64;
  gen_qemu_ld I64 dst addr memop ;;
  gen_set_gpr d (ArgsI.rd a) dst ;;
  mret true.

Definition gen_store d (a : ArgsS.t) (memop : Z) : Ir bool :=
  base ← gpr_or_zero d (ArgsS.rs1 a);
  addr ← addr_with_imm base (ArgsS.imm a);
  val ← gpr_or_zero d (ArgsS.rs2 a);
  gen_qemu_st I64 val addr memop ;;
  mret true.

Definition gen_arith d (a : ArgsR.t) (op : BinOp) : Ir bool :=
  s1 ← gpr_or_zero d (ArgsR.rs1 a);
  s2 ← gpr_or_zero d (ArgsR.rs2 a);
  t ← new_temp I64;
  bin op I64 t s1 s2 ;;
  gen_set_gpr d (ArgsR.rd a) t ;;
  mret true.

Definition gen_setcond_rr d (a : ArgsR.t) (cond : Cond.Cond) : Ir bool :=
  s1 ← gpr_or_zero d (ArgsR.rs1 a);
  s2 ← gpr_or_zero d (ArgsR.rs2 a);
  t ← new_temp I64;
  gen_setcond I64 t s1 s2 cond ;;
  gen_set_gpr d (ArgsR.rd a) t ;;
  mret true.

Definition gen_arith_imm d (a : ArgsI.t) (op : BinOp) : Ir bool :=
  src ← gpr_or_zero d (ArgsI.rs1 a);
  imm ← new_const I64 (u64 (ArgsI.imm a));
  t ← new_temp I64;
  bin op I64 t src imm ;;
  gen_set_gpr d (ArgsI.rd a) t ;;
  mret true.

Definition gen_setcond_imm d (a : ArgsI.t) (cond : Cond.Cond) : Ir bool :=
  src ← gpr_or_zero d (ArgsI.rs1 a);
  imm ← new_const I64 (u64 (ArgsI.imm a));
  t ← new_temp I64;
  gen_setcond I64 t src imm cond ;;
  gen_set_gpr d (ArgsI.rd a) t ;;
  mret true.

Definition gen_shift_imm d (a : ArgsShift.t) (op : BinOp) : Ir bool :=
  src ← gpr_or_zero d (ArgsShift.rs1 a);
  sh ← new_const I64 (u64 (ArgsShift.shamt a));
  t ← new_temp I64;
  bin op I64 t src sh ;;
  gen_set_gpr d (ArgsShift.rd a) t ;;
  mret true.

Definition gen_arith_w d (a : ArgsR.t) (op : BinOp) : Ir bool :=
  s1 ← gpr_or_zero d (ArgsR.rs1 a);
  s2 ← gpr_or_zero d (ArgsR.rs2 a);
  t ← new_temp I64;
  bin op I64 t s1 s2 ;;
  gen_set_gpr_sx32 d (ArgsR.rd a) t ;;
  mret true.

Definition gen_arith_imm_w d (a : ArgsI.t) (op : BinOp) : Ir bool :=
  src ← gpr_or_zero d (ArgsI.rs1 a);
  imm ← new_const I64 (u64 (ArgsI.imm a));
  t ← new_temp I64;
  bin op I64 t src imm ;;
  gen_set_gpr_sx32 d (ArgsI.rd a) t ;;
  mret true.

(** [let t = ir.new_temp(I32); ir.gen_extrl_i64_i32(t, s)]. *)
Definition low32 (s : N) : Ir N :=
  t ← new_temp I32;
  gen_extrl_i64_i32 t s ;;
  mret t.

Definition gen_shiftw d (a : ArgsR.t) (op : BinOp) : Ir bool :=
  s1 ← gpr_or_zero d (ArgsR.rs1 a);
  s2 ← gpr_or_zero d (ArgsR.rs2 a);
  a32 ← low32 s1;
  b32 ← low32 s2;
  d32 ← new_temp I32;
  bin op I32 d32 a32 b32 ;;
  gen_set_gpr_sx32 d (ArgsR.rd a) d32 ;;
  mret true.

Definition gen_shift_imm_w d (a : ArgsShift.t) (op : BinOp) : Ir bool :=
  src ← gpr_or_zero d (ArgsShift.rs1 a);
  s32 ← low32 src;
  sh ← new_const I32 (u64 (ArgsShift.shamt a));
  d32 ← new_temp I32;
  bin op I32 d32 s32 sh ;;
  gen_set_gpr_sx32 d (ArgsShift.rd a) d32 ;;
  mret true.

(** [let c = ir.new_const(I64, v); ir.gen_mov(I64, self.pc, c)]. *)
Definition set_pc d (v : Z) : Ir unit :=
  c ← new_const I64 v;
  un gen_mov I64 (pc d) c ;; mret tt.

(** [self.base.pc_next + self.cur_insn_len as u64]. *)
Definition next_pc d : Z := u64 (pc_next d + cur_insn_len d).

(** [(self.base.pc_next as i64 + imm) as u64]. *)
Definition pc_rel d (imm : Z) : Z := u64 (pc_next d + imm).

Definition gen_branch d (a : ArgsB.t) (cond : Cond.Cond) : Ir Dis :=
  src1 ← gpr_or_zero d (ArgsB.rs1 a);
  src2 ← gpr_or_zero d (ArgsB.rs2 a);
  taken ← new_label;
  gen_brcond I64 src1 src2 cond taken ;;
  set_pc d (next_pc d) ;;
  gen_goto_tb 0 ;;
  gen_exit_tb TB_EXIT_IDX0 ;;
  gen_set_label taken ;;
  set_pc d (pc_rel d (ArgsB.imm a)) ;;
  gen_goto_tb 1 ;;
  gen_exit_tb TB_EXIT_IDX1 ;;
  mret (set_is_jmp NoReturn d).

(** ** Multiplication and division ([gen_rvm.rs]) *)

(** A helper call with two register operands. *)
Definition gen_call2 d (a : ArgsR.t) (h : Helper) : Ir bool :=
  s1 ← gpr_or_zero d (ArgsR.rs1 a);
  s2 ← gpr_or_zero d (ArgsR.rs2 a);
  r ← new_temp I64;
  gen_call r (addr_of h) [s1; s2] ;;
  gen_set_gpr d (ArgsR.rd a) r ;;
  mret true.

Definition gen_div_rem d (a : ArgsR.t) (want_rem : bool) : Ir bool :=
  gen_call2 d a (if want_rem then H_rems64 else H_divs64).

Definition gen_divu_remu d (a : ArgsR.t) (want_rem : bool) : Ir bool :=
  s1 ← gpr_or_zero d (ArgsR.rs1 a);
  s2 ← gpr_or_zero d (ArgsR.rs2 a);
  zero ← new_const I64 0;
  one ← new_const I64 1;
  safe ← new_temp I64;
  gen_movcond I64 safe s2 zero one s2 Cond.Eq ;;
  quot ← new_temp I64;
  rem ← new_temp I64;
  gen_divu2 I64 quot rem s1 zero safe ;;
  (if want_rem then
     r ← new_temp I64;
     gen_movcond I64 r s2 zero s1 rem Cond.Eq ;;
     gen_set_gpr d (ArgsR.rd a) r
   else
     neg1 ← new_const I64 u64_max;
     r ← new_temp I64;
     gen_movcond I64 r s2 zero neg1 quot Cond.Eq ;;
     gen_set_gpr d (ArgsR.rd a) r) ;;
  mret true.

Definition gen_div_rem_w d (a : ArgsR.t) (want_rem : bool) : Ir bool :=
  gen_call2 d a (if want_rem then H_remw64 else H_divw64).

Definition gen_divu_remu_w d (a : ArgsR.t) (want_rem : bool) : Ir bool :=
  s1 ← gpr_or_zero d (ArgsR.rs1 a);
  s2 ← gpr_or_zero d (ArgsR.rs2 a);
  a32 ← low32 s1;
  b32 ← low32 s2;
  zero ← new_const I32 0;
  one ← new_const I32 1;
  safe ← new_temp I32;
  gen_movcond I32 safe b32 zero one b32 Cond.Eq ;;
  quot ← new_temp I32;
  rem ← new_temp I32;
  gen_divu2 I32 quot rem a32 zero safe ;;
  (if want_rem then
     r ← new_temp I32;
     gen_movcond I32 r b32 zero a32 rem Cond.Eq ;;
     gen_set_gpr_sx32 d (ArgsR.rd a) r
   else
     max ← new_const I32 (2 ^ 32 - 1);
     r ← new_temp I32;
     gen_movcond I32 r b32 zero max quot Cond.Eq ;;
     gen_set_gpr_sx32 d (ArgsR.rd a) r) ;;
  mret true.

(** ** Zba ([gen_zba.rs]) *)

Definition zext32 (src : N) : Ir N :=
  lo ← low32 src;
  ext ← new_temp I64;
  gen_ext_u32_i64 ext lo ;;
  mret ext.

Definition gen_shadd d (a : ArgsR.t) (shift : Z) : Ir bool :=
  s1 ← gpr_or_zero d (ArgsR.rs1 a);
  s2 ← gpr_or_zero d (ArgsR.rs2 a);
  sh ← new_const I64 shift;
  t ← new_temp I64;
  bin gen_shl I64 t s1 sh ;;
  r ← new_temp I64;
  bin gen_add I64 r t s2 ;;
  gen_set_gpr d (ArgsR.rd a) r ;;
  mret true.

Definition gen_shadd_uw d (a : ArgsR.t) (shift : Z) : Ir bool :=
  s1 ← gpr_or_zero d (ArgsR.rs1 a);
  s2 ← gpr_or_zero d (ArgsR.rs2 a);
  zext ← zext32 s1;
  sh ← new_const I64 shift;
  t ← new_temp I64;
  bin gen_shl I64 t zext sh ;;
  r ← new_temp I64;
  bin gen_add I64 r t s2 ;;
  gen_set_gpr d (ArgsR.rd a) r ;;
  mret true.

Definition gen_add_uw d (a : ArgsR.t) : Ir bool :=
  s1 ← gpr_or_zero d (ArgsR.rs1 a);
  s2 ← gpr_or_zero d (ArgsR.rs2 a);
  zext ← zext32 s1;
  r ← new_temp I64;
  bin gen_add I64 r zext s2 ;;
  gen_set_gpr d (ArgsR.rd a) r ;;
  mret true.

Definition gen_slli_uw d (a : ArgsShift.t) : Ir bool :=
  s1 ← gpr_or_zero d (ArgsShift.rs1 a);
  zext ← zext32 s1;
  sh ← new_const I64 (u64 (ArgsShift.shamt a));
  r ← new_temp I64;
  bin gen_shl I64 r zext sh ;;
  gen_set_gpr d (ArgsShift.rd a) r ;;
  mret true.

(** ** Zbb ([gen_zbb.rs]) *)

Definition gen_orn d (a : ArgsR.t) : Ir bool :=
  s1 ← gpr_or_zero d (ArgsR.rs1 a);
  s2 ← gpr_or_zero d (ArgsR.rs2 a);
  inv ← new_temp I64;
  un gen_not I64 inv s2 ;;
  r ← new_temp I64;
  bin gen_or I64 r s1 inv ;;
  gen_set_gpr d (ArgsR.rd a) r ;;
  mret true.

Definition gen_xnor d (a : ArgsR.t) : Ir bool :=
  s1 ← gpr_or_zero d (ArgsR.rs1 a);
  s2 ← gpr_or_zero d (ArgsR.rs2 a);
  t ← new_temp I64;
  bin gen_xor I64 t s1 s2 ;;
  r ← new_temp I64;
  un gen_not I64 r t ;;
  gen_set_gpr d (ArgsR.rd a) r ;;
  mret true.

(** [gen_max], [gen_maxu], [gen_min] and [gen_minu] differ in the condition. *)
Definition gen_minmax d (a : ArgsR.t) (cond : Cond.Cond) : Ir bool :=
  s1 ← gpr_or_zero d (ArgsR.rs1 a);
  s2 ← gpr_or_zero d (ArgsR.rs2 a);
  r ← new_temp I64;
  gen_movcond I64 r s1 s2 s1 s2 cond ;;
  gen_set_gpr d (ArgsR.rd a) r ;;
  mret true.

(** [gen_clz] and [gen_ctz]. *)
Definition gen_count d (a : ArgsR2.t) (op : BinOp) : Ir bool :=
  s1 ← gpr_or_zero d (ArgsR2.rs1 a);
  fallback ← new_const I64 64;
  r ← new_temp I64;
  bin op I64 r s1 fallback ;;
  gen_set_gpr d (ArgsR2.rd a) r ;;
  mret true.

Definition gen_cpop d (a : ArgsR2.t) : Ir bool :=
  s1 ← gpr_or_zero d (ArgsR2.rs1 a);
  r ← new_temp I64;
  un gen_ctpop I64 r s1 ;;
  gen_set_gpr d (ArgsR2.rd a) r ;;
  mret true.

(** [gen_clzw] and [gen_ctzw]. *)
Definition gen_count_w d (a : ArgsR2.t) (op : BinOp) : Ir bool :=
  s1 ← gpr_or_zero d (ArgsR2.rs1 a);
  s32 ← low32 s1;
  fallback ← new_const I32 32;
  d32 ← new_temp I32;
  bin op I32 d32 s32 fallback ;;
  r ← new_temp I64;
  gen_ext_u32_i64 r d32 ;;
  gen_set_gpr d (ArgsR2.rd a) r ;;
  mret true.

Definition gen_cpopw d (a : ArgsR2.t) : Ir bool :=
  s1 ← gpr_or_zero d (ArgsR2.rs1 a);
  s32 ← low32 s1;
  d32 ← new_temp I32;
  un gen_ctpop I32 d32 s32 ;;
  r ← new_temp I64;
  gen_ext_u32_i64 r d32 ;;
  gen_set_gpr d (ArgsR2.rd a) r ;;
  mret true.

(** [gen_sext_b] and [gen_sext_h] shift by 56 and 48. *)
Definition gen_sext d (a : ArgsR2.t) (sh : Z) : Ir bool :=
  s1 ← gpr_or_zero d (ArgsR2.rs1 a);
  c ← new_const I64 sh;
  t ← new_temp I64;
  bin gen_shl I64 t s1 c ;;
  r ← new_temp I64;
  bin gen_sar I64 r t c ;;
  gen_set_gpr d (ArgsR2.rd a) r ;;
  mret true.

Definition gen_zext_h d (a : ArgsR2.t) : Ir bool :=
  s1 ← gpr_or_zero d (ArgsR2.rs1 a);
  mask ← new_const I64 0xFFFF;
  r ← new_temp I64;
  bin gen_and I64 r s1 mask ;;
  gen_set_gpr d (ArgsR2.rd a) r ;;
  mret true.

Definition gen_rev8 d (a : ArgsR2.t) : Ir bool :=
  s1 ← gpr_or_zero d (ArgsR2.rs1 a);
  r ← new_temp I64;
  gen_bswap64 I64 r s1 0 ;;
  gen_set_gpr d (ArgsR2.rd a) r ;;
  mret true.

(** A helper call with one register operand: [gen_orc_b], [gen_brev8]. *)
Definition gen_call1 d (a : ArgsR2.t) (h : Helper) : Ir bool :=
  s1 ← gpr_or_zero d (ArgsR2.rs1 a);
  r ← new_temp I64;
  gen_call r (addr_of h) [s1] ;;
  gen_set_gpr d (ArgsR2.rd a) r ;;
  mret true.

(** ** Zbs ([gen_zbs.rs]) *)

(** [gen_bclr], [gen_binv] and [gen_bset]: the bit [1 << rs2] combined by [op]. *)
Definition gen_bitop d (a : ArgsR.t) (op : BinOp) : Ir bool :=
  s1 ← gpr_or_zero d (ArgsR.rs1 a);
  s2 ← gpr_or_zero d (ArgsR.rs2 a);
  one ← new_const I64 1;
  bit ← new_temp I64;
  bin gen_shl I64 bit one s2 ;;
  r ← new_temp I64;
  bin op I64 r s1 bit ;;
  gen_set_gpr d (ArgsR.rd a) r ;;
  mret true.

(** [gen_bclri], [gen_binvi] and [gen_bseti]. *)
Definition gen_bitop_imm d (a : ArgsShift.t) (op : BinOp) : Ir bool :=
  s1 ← gpr_or_zero d (ArgsShift.rs1 a);
  sh ← new_const I64 (u64 (ArgsShift.shamt a));
  one ← new_const I64 1;
  bit ← new_temp I64;
  bin gen_shl I64 bit one sh ;;
  r ← new_temp I64;
  bin op I64 r s1 bit ;;
  gen_set_gpr d (ArgsShift.rd a) r ;;
  mret true.

Definition gen_bext d (a : ArgsR.t) : Ir bool :=
  s1 ← gpr_or_zero d (ArgsR.rs1 a);
  s2 ← gpr_or_zero d (ArgsR.rs2 a);
  t ← new_temp I64;
  bin gen_shr I64 t s1 s2 ;;
  one ← new_const I64 1;
  r ← new_temp I64;
  bin gen_and I64 r t one ;;
  gen_set_gpr d (ArgsR.rd a) r ;;
  mret true.

Definition gen_bexti d (a : ArgsShift.t) : Ir bool :=
  s1 ← gpr_or_zero d (ArgsShift.rs1 a);
  sh ← new_const I64 (u64 (ArgsShift.shamt a));
  t ← new_temp I64;
  bin gen_shr I64 t s1 sh ;;
  one ← new_const I64 1;
  r ← new_temp I64;
  bin gen_and I64 r t one ;;
  gen_set_gpr d (ArgsShift.rd a) r ;;
  mret true.

(** ** Zbkb ([gen_zbkb.rs]) *)

Definition gen_pack d (a : ArgsR.t) : Ir bool :=
  s1 ← gpr_or_zero d (ArgsR.rs1 a);
  s2 ← gpr_or_zero d (ArgsR.rs2 a);
  lo ← new_temp I64;
  mask ← new_const I64 0xffffffff;
  bin gen_and I64 lo s1 mask ;;
  c32 ← new_const I64 32;
  hi ← new_temp I64;
  bin gen_shl I64 hi s2 c32 ;;
  r ← new_temp I64;
  bin gen_or I64 r lo hi ;;
  gen_set_gpr d (ArgsR.rd a) r ;;
  mret true.

Definition gen_packh d (a : ArgsR.t) : Ir bool :=
  s1 ← gpr_or_zero d (ArgsR.rs1 a);
  s2 ← gpr_or_zero d (ArgsR.rs2 a);
  lo ← new_temp I64;
  m8 ← new_const I64 0xff;
  bin gen_and I64 lo s1 m8 ;;
  hi_byte ← new_temp I64;
  bin gen_and I64 hi_byte s2 m8 ;;
  c8 ← new_const I64 8;
  hi ← new_temp I64;
  bin gen_shl I64 hi hi_byte c8 ;;
  r ← new_temp I64;
  bin gen_or I64 r lo hi ;;
  gen_set_gpr d (ArgsR.rd a) r ;;
  mret true.

Definition gen_packw d (a : ArgsR.t) : Ir bool :=
  s1 ← gpr_or_zero d (ArgsR.rs1 a);
  s2 ← gpr_or_zero d (ArgsR.rs2 a);
  s1_32 ← low32 s1;
  s2_32 ← low32 s2;
  m16 ← new_const I32 0xffff;
  lo ← new_temp I32;
  bin gen_and I32 lo s1_32 m16 ;;
  c16 ← new_const I32 16;
  hi ← new_temp I32;
  bin gen_shl I32 hi s2_32 c16 ;;
  d32 ← new_temp I32;
  bin gen_or I32 d32 lo hi ;;
  gen_set_gpr_sx32 d (ArgsR.rd a) d32 ;;
  mret true.

(** ** Atomics ([gen_rva.rs]) *)

Definition TCG_MO_ALL : Z := 0x0F.
Definition TCG_BAR_LDAQ : Z := 0x10.
Definition TCG_BAR_STRL : Z := 0x20.

(** [if a.rl != 0 { ir.gen_mb(..) }] and the same for [a.aq]. *)
Definition barrier_rl (a : ArgsAtomic.t) : Ir unit :=
  if ArgsAtomic.rl a =? 0 then mret tt else gen_mb (Z.lor TCG_MO_ALL TCG_BAR_STRL).
Definition barrier_aq (a : ArgsAtomic.t) : Ir unit :=
  if ArgsAtomic.aq a =? 0 then mret tt else gen_mb (Z.lor TCG_MO_ALL TCG_BAR_LDAQ).

Definition gen_lr d (a : ArgsAtomic.t) (memop : Z) : Ir bool :=
  set_contains_atomic ;;
  addr ← gpr_or_zero d (ArgsAtomic.rs1 a);
  barrier_rl a ;;
  val ← new_temp I64;
  (if lr_helper d =? 0 then
     gen_qemu_ld I64 val addr memop ;;
     un gen_mov I64 (load_res d) addr ;;
     un gen_mov I64 (load_val d) val ;;
     mret tt
   else
     set_pc d (pc_next d) ;;
     size ← new_const I64 (MemOp.size_bytes memop);
     gen_call val (lr_helper d) [env d; addr; size] ;;
     mret tt) ;;
  barrier_aq a ;;
  gen_set_gpr d (ArgsAtomic.rd a) val ;;
  mret true.

Definition gen_sc d (a : ArgsAtomic.t) (memop : Z) : Ir bool :=
  set_contains_atomic ;;
  barrier_rl a ;;
  addr ← gpr_or_zero d (ArgsAtomic.rs1 a);
  src2 ← gpr_or_zero d (ArgsAtomic.rs2 a);
  set_pc d (pc_next d) ;;
  is_word ← new_const I64 (MemOp.size_bytes memop);
  r ← new_temp I64;
  gen_call r (if sc_helper d =? 0 then addr_of H_sc else sc_helper d)
    [env d; addr; src2; is_word] ;;
  barrier_aq a ;;
  gen_set_gpr d (ArgsAtomic.rd a) r ;;
  mret true.

(** [AMO_SWAP] to [AMO_MAXU]; [None] is the [unreachable!] of each method. *)
Inductive AmoKind := AMO_SWAP | AMO_ADD | AMO_XOR | AMO_AND | AMO_OR | AMO_MIN | AMO_MAX | AMO_MINU | AMO_MAXU.

Definition amo_num (k : AmoKind) : Z :=
  match k with
  | AMO_SWAP => 0 | AMO_ADD => 1 | AMO_XOR => 2 | AMO_AND => 3 | AMO_OR => 4
  | AMO_MIN => 5 | AMO_MAX => 6 | AMO_MINU => 7 | AMO_MAXU => 8
  end.

Definition gen_amo_helper d (a : ArgsAtomic.t) (addr : N) (op : AmoKind) (memop : Z) : Ir unit :=
  set_pc d (pc_next d) ;;
  src2 ← gpr_or_zero d (ArgsAtomic.rs2 a);
  size ← new_const I64 (MemOp.size_bytes memop);
  opn ← new_const I64 (amo_num op);
  old ← new_temp I64;
  gen_call old (amo_helper d) [env d; addr; src2; size; opn] ;;
  barrier_aq a ;;
  gen_set_gpr d (ArgsAtomic.rd a) old.

Definition amo_binop (op : AmoKind) : option BinOp :=
  match op with
  | AMO_ADD => Some gen_add | AMO_XOR => Some gen_xor
  | AMO_AND => Some gen_and | AMO_OR => Some gen_or
  | _ => None
  end.

Definition gen_amo d (a : ArgsAtomic.t) (op : AmoKind) (memop : Z) : Ir bool :=
  set_contains_atomic ;;
  addr ← gpr_or_zero d (ArgsAtomic.rs1 a);
  barrier_rl a ;;
  if negb (amo_helper d =? 0) then gen_amo_helper d a addr op memop ;; mret true
  else
    old ← new_temp I64;
    gen_qemu_ld I64 old addr memop ;;
    src2 ← gpr_or_zero d (ArgsAtomic.rs2 a);
    new ← new_temp I64;
    o ← expect (amo_binop op);
    bin o I64 new old src2 ;;
    gen_qemu_st I64 new addr memop ;;
    barrier_aq a ;;
    gen_set_gpr d (ArgsAtomic.rd a) old ;;
    mret true.

Definition gen_amo_swap d (a : ArgsAtomic.t) (memop : Z) : Ir bool :=
  set_contains_atomic ;;
  addr ← gpr_or_zero d (ArgsAtomic.rs1 a);
  barrier_rl a ;;
  if negb (amo_helper d =? 0) then gen_amo_helper d a addr AMO_SWAP memop ;; mret true
  else
    old ← new_temp I64;
    gen_qemu_ld I64 old addr memop ;;
    src2 ← gpr_or_zero d (ArgsAtomic.rs2 a);
    gen_qemu_st I64 src2 addr memop ;;
    barrier_aq a ;;
    gen_set_gpr d (ArgsAtomic.rd a) old ;;
    mret true.

Definition minmax_kind (cond : Cond.Cond) : option AmoKind :=
  match cond with
  | Cond.Lt => Some AMO_MIN | Cond.Gt => Some AMO_MAX
  | Cond.Ltu => Some AMO_MINU | Cond.Gtu => Some AMO_MAXU
  | _ => None
  end.

Definition gen_amo_minmax d (a : ArgsAtomic.t) (cond : Cond.Cond) (memop : Z) : Ir bool :=
  set_contains_atomic ;;
  addr ← gpr_or_zero d (ArgsAtomic.rs1 a);
  barrier_rl a ;;
  if negb (amo_helper d =? 0) then
    op ← expect (minmax_kind cond);
    gen_amo_helper d a addr op memop ;; mret true
  else
    old ← new_temp I64;
    gen_qemu_ld I64 old addr memop ;;
    src2 ← gpr_or_zero d (ArgsAtomic.rs2 a);
    let is_32 := MemOp.size_bytes memop =? 4 in
    cmp_src2 ← (if is_32 then
        t ← new_temp I64;
        t32 ← low32 src2;
        (if bool_decide (cond = Cond.Lt \/ cond = Cond.Gt)
         then gen_ext_i32_i64 t t32 else gen_ext_u32_i64 t t32)
      else mret src2);
    cmp_old ← (if is_32 && bool_decide (cond = Cond.Ltu \/ cond = Cond.Gtu) then
        t ← new_temp I64;
        t32 ← low32 old;
        gen_ext_u32_i64 t t32
      else mret old);
    new ← new_temp I64;
    gen_movcond I64 new cmp_old cmp_src2 old src2 cond ;;
    gen_qemu_st I64 new addr memop ;;
    barrier_aq a ;;
    gen_set_gpr d (ArgsAtomic.rd a) old ;;
    mret true.

(** ** Control and status registers ([gen_priv.rs]) *)

Definition gen_priv_csr_exit d : Ir Dis :=
  set_pc d (pc_next d) ;;
  gen_exit_tb EXCP_RISCV_PRIV_CSR ;;
  mret (set_is_jmp NoReturn d).

Definition gen_csr_helper d (csr : Z) (rs1_val : N) (rs1_idx funct3 rd : Z) : Ir Dis :=
  if csr =? 0x180 then gen_priv_csr_exit d
  else
    set_pc d (pc_next d) ;;
    csr_arg ← new_const I64 (u64 csr);
    rs1_arg ← new_const I64 (u64 rs1_idx);
    f3_arg ← new_const I64 funct3;
    old ← gen_helper_call (csr_helper d) [env d; csr_arg; rs1_val; rs1_arg; f3_arg];
    gen_set_gpr d rd old ;;
    set_pc d (next_pc d) ;;
    mret d.

(** Offsets in [RiscvCpu] of the fields generated code accesses. *)
Definition FFLAGS_OFFSET : Z := 544.
Definition FRM_OFFSET : Z := 552.

(** The user-level registers stored as whole words. *)
Definition ucsr_offset (csr : Z) : option Z :=
  match csr with
  | 0x000 => Some 560 | 0x004 => Some 568 | 0x005 => Some 576 | 0x040 => Some 584
  | 0x041 => Some 592 | 0x042 => Some 600 | 0x043 => Some 608 | 0x044 => Some 616
  | _ => None
  end.

(** [let v = new_temp; gen_ld(v, env, off); let mask = ..; let out = new_temp; and]. *)
Definition csr_field d (off mask : Z) : Ir N :=
  v ← new_temp I64;
  gen_ld I64 v (env d) off ;;
  m ← new_const I64 mask;
  out ← new_temp I64;
  bin gen_and I64 out v m.

Definition gen_csr_read d (csr : Z) : Ir (option N) :=
  match csr with
  | 0x001 => out ← csr_field d FFLAGS_OFFSET 0x1f; mret (Some out)
  | 0x002 => out ← csr_field d FRM_OFFSET 0x7; mret (Some out)
  | 0x003 =>
      fflags ← new_temp I64;
      gen_ld I64 fflags (env d) FFLAGS_OFFSET ;;
      fmask ← new_const I64 0x1f;
      bin gen_and I64 fflags fflags fmask ;;
      frm ← new_temp I64;
      gen_ld I64 frm (env d) FRM_OFFSET ;;
      rmask ← new_const I64 0x7;
      bin gen_and I64 frm frm rmask ;;
      shift ← new_const I64 5;
      frm_shift ← new_temp I64;
      bin gen_shl I64 frm_shift frm shift ;;
      out ← new_temp I64;
      bin gen_or I64 out fflags frm_shift ;;
      mret (Some out)
  | _ =>
      match ucsr_offset csr with
      | Some off =>
          v ← new_temp I64;
          gen_ld I64 v (env d) off ;;
          mret (Some v)
      | None => mret None
      end
  end.

Definition gen_set_fs_dirty d : Ir unit :=
  status ← new_temp I64;
  gen_ld I64 status (env d) MSTATUS_OFFSET ;;
  clear ← new_const I64 (bnot 64 0x6000);
  cleared ← new_temp I64;
  bin gen_and I64 cleared status clear ;;
  dirty ← new_const I64 0x6000;
  new_status ← new_temp I64;
  bin gen_or I64 new_status cleared dirty ;;
  gen_st I64 new_status (env d) MSTATUS_OFFSET.

Definition gen_csr_write d (csr : Z) (val : N) : Ir bool :=
  match csr with
  | 0x001 =>
      mask ← new_const I64 0x1f;
      v ← new_temp I64;
      bin gen_and I64 v val mask ;;
      gen_st I64 v (env d) FFLAGS_OFFSET ;;
      gen_set_fs_dirty d ;;
      mret true
  | 0x002 =>
      mask ← new_const I64 0x7;
      v ← new_temp I64;
      bin gen_and I64 v val mask ;;
      gen_st I64 v (env d) FRM_OFFSET ;;
      gen_set_fs_dirty d ;;
      mret true
  | 0x003 =>
      fmask ← new_const I64 0x1f;
      fflags ← new_temp I64;
      bin gen_and I64 fflags val fmask ;;
      gen_st I64 fflags (env d) FFLAGS_OFFSET ;;
      shift ← new_const I64 5;
      frm ← new_temp I64;
      bin gen_shr I64 frm val shift ;;
      rmask ← new_const I64 0x7;
      bin gen_and I64 frm frm rmask ;;
      gen_st I64 frm (env d) FRM_OFFSET ;;
      gen_set_fs_dirty d ;;
      mret true
  | _ =>
      match ucsr_offset csr with
      | Some off => gen_st I64 val (env d) off ;; mret true
      | None => mret false
      end
  end.

Definition writes_instret_counter (csr funct3 rs1_idx : Z) : bool :=
  let writes :=
    match funct3 with
    | 1 | 5 => true
    | 2 | 3 | 6 | 7 => negb (rs1_idx =? 0)
    | _ => false
    end in
  writes && ((csr =? 0xC02) || (csr =? 0xB02) || (csr =? 0xB82)).

Definition suppress_instret_write_increment d (csr funct3 rs1_idx : Z) : Ir unit :=
  if writes_instret_counter csr funct3 rs1_idx
  then set_instret_discarded (Z.min (num_insns d) (2 ^ 16 - 1)) else mret tt.

(** ** The [trans_] methods ([mod.rs]) *)

Definition Trans : Type := Ir (Dis * bool).

(** A method that leaves the translation context alone. *)
Definition plain d (m : Ir bool) : Trans := b ← m; mret (d, b).

(** [require_ext!] and [require_cfg!]: bail out when the extension is absent. *)
Definition require (ext : bool) d (m : Trans) : Trans := if ext then m else mret (d, false).

(** PC is written, then the block is left with the code. *)
Definition exit_with d (at_pc code : Z) : Trans :=
  set_pc d at_pc ;;
  gen_exit_tb code ;;
  mret (set_is_jmp NoReturn d, true).

Definition trans_jal d (a : ArgsJ.t) : Trans :=
  c ← new_const I64 (next_pc d);
  gen_set_gpr d (ArgsJ.rd a) c ;;
  set_pc d (pc_rel d (ArgsJ.imm a)) ;;
  gen_goto_tb 0 ;;
  gen_exit_tb TB_EXIT_IDX0 ;;
  mret (set_is_jmp NoReturn d, true).

Definition trans_jalr d (a : ArgsI.t) : Trans :=
  src ← gpr_or_zero d (ArgsI.rs1 a);
  imm ← new_const I64 (u64 (ArgsI.imm a));
  tmp ← new_temp I64;
  bin gen_add I64 tmp src imm ;;
  mask ← new_const I64 (bnot 64 1);
  bin gen_and I64 tmp tmp mask ;;
  c ← new_const I64 (next_pc d);
  gen_set_gpr d (ArgsI.rd a) c ;;
  un gen_mov I64 (pc d) tmp ;;
  gen_exit_tb TB_EXIT_NOCHAIN ;;
  mret (set_is_jmp NoReturn d, true).

Definition branch d (a : ArgsB.t) (cond : Cond.Cond) : Trans :=
  d' ← gen_branch d a cond; mret (d', true).

Definition trans_rv32i d (i : Rv32i) : Trans :=
  match i with
  | LUI a => plain d (c ← new_const I64 (u64 (ArgsU.imm a)); gen_set_gpr d (ArgsU.rd a) c ;; mret true)
  | AUIPC a =>
      plain d (c ← new_const I64 (pc_rel d (ArgsU.imm a)); gen_set_gpr d (ArgsU.rd a) c ;; mret true)
  | JAL a => trans_jal d a
  | JALR a => trans_jalr d a
  | BEQ a => branch d a Cond.Eq
  | BNE a => branch d a Cond.Ne
  | BLT a => branch d a Cond.Lt
  | BGE a => branch d a Cond.Ge
  | BLTU a => branch d a Cond.Ltu
  | BGEU a => branch d a Cond.Geu
  | LB a => plain d (gen_load d a MemOp.sb)
  | LH a => plain d (gen_load d a MemOp.sw)
  | LW a => plain d (gen_load d a MemOp.sl)
  | LBU a => plain d (gen_load d a MemOp.ub)
  | LHU a => plain d (gen_load d a MemOp.uw)
  | SB a => plain d (gen_store d a MemOp.ub)
  | SH a => plain d (gen_store d a MemOp.uw)
  | SW a => plain d (gen_store d a MemOp.ul)
  | ADDI a => plain d (gen_arith_imm d a gen_add)
  | SLTI a => plain d (gen_setcond_imm d a Cond.Lt)
  | SLTIU a => plain d (gen_setcond_imm d a Cond.Ltu)
  | XORI a => plain d (gen_arith_imm d a gen_xor)
  | ORI a => plain d (gen_arith_imm d a gen_or)
  | ANDI a => plain d (gen_arith_imm d a gen_and)
  | SLLI a => plain d (gen_shift_imm d a gen_shl)
  | SRLI a => plain d (gen_shift_imm d a gen_shr)
  | SRAI a => plain d (gen_shift_imm d a gen_sar)
  | ADD a => plain d (gen_arith d a gen_add)
  | SUB a => plain d (gen_arith d a gen_sub)
  | SLL a => plain d (gen_arith d a gen_shl)
  | SLT a => plain d (gen_setcond_rr d a Cond.Lt)
  | SLTU a => plain d (gen_setcond_rr d a Cond.Ltu)
  | XOR a => plain d (gen_arith d a gen_xor)
  | SRL a => plain d (gen_arith d a gen_shr)
  | SRA a => plain d (gen_arith d a gen_sar)
  | OR a => plain d (gen_arith d a gen_or)
  | AND a => plain d (gen_arith d a gen_and)
  | FENCE => mret (d, true)
  | FENCE_I => exit_with d (next_pc d) EXCP_RISCV_FENCE_I
  end.

Definition trans_rv64i d (i : Rv64i) : Ir bool :=
  match i with
  | LWU a => gen_load d a MemOp.ul
  | LD a => gen_load d a MemOp.uq
  | SD a => gen_store d a MemOp.uq
  | ADDIW a => gen_arith_imm_w d a gen_add
  | SLLIW a => gen_shift_imm_w d a gen_shl
  | SRLIW a => gen_shift_imm_w d a gen_shr
  | SRAIW a => gen_shift_imm_w d a gen_sar
  | ADDW a => gen_arith_w d a gen_add
  | SUBW a => gen_arith_w d a gen_sub
  | SLLW a => gen_shiftw d a gen_shl
  | SRLW a => gen_shiftw d a gen_shr
  | SRAW a => gen_shiftw d a gen_sar
  end.

Definition trans_priv d (i : Priv) : Trans :=
  match i with
  | ECALL => exit_with d (pc_next d) EXCP_RISCV_ECALL
  | EBREAK => exit_with d (pc_next d) EXCP_RISCV_EBREAK
  | MRET => exit_with d (next_pc d) EXCP_RISCV_MRET
  | SRET => exit_with d (next_pc d) EXCP_RISCV_SRET
  | WFI => exit_with d (next_pc d) EXCP_RISCV_WFI
  | SFENCE_VMA => exit_with d (next_pc d) EXCP_RISCV_SFENCE_VMA
  | SINVAL_VMA => require (ext_svinval (cfg d)) d (exit_with d (next_pc d) EXCP_RISCV_SFENCE_VMA)
  | TH_FENCE_SPA | MFENCE_SPA | MINVAL_SPA => mret (d, true)
  end.

(** The operand of a CSR instruction: a register, or the [rs1] field as a number. *)
Definition csr_operand d (a : ArgsCsr.t) (imm : bool) : Ir N :=
  if imm then new_const I64 (u64 (ArgsCsr.rs1 a)) else gpr_or_zero d (ArgsCsr.rs1 a).

(** The paths for registers generated code does not access itself: the helper, when
    there is one, or an exit to the dispatch loop. *)
Definition csr_slow d (a : ArgsCsr.t) (operand : Ir N) (funct3 : Z) : Trans :=
  if csr_helper d =? 0 then
    d' ← gen_priv_csr_exit d; mret (d', true)
  else
    rs1 ← operand;
    d' ← gen_csr_helper d (ArgsCsr.csr a) rs1 (ArgsCsr.rs1 a) funct3 (ArgsCsr.rd a);
    suppress_instret_write_increment d (ArgsCsr.csr a) funct3 (ArgsCsr.rs1 a) ;;
    mret (d', true).

Definition csr_done d (a : ArgsCsr.t) (old : N) (funct3 : Z) : Trans :=
  suppress_instret_write_increment d (ArgsCsr.csr a) funct3 (ArgsCsr.rs1 a) ;;
  gen_set_gpr d (ArgsCsr.rd a) old ;;
  mret (d, true).

Definition csr_write_op d (a : ArgsCsr.t) (imm : bool) (funct3 : Z) : Trans :=
  r ← gen_csr_read d (ArgsCsr.csr a);
  match r with
  | None => csr_slow d a (csr_operand d a imm) funct3
  | Some old =>
      rs1 ← csr_operand d a imm;
      ok ← gen_csr_write d (ArgsCsr.csr a) rs1;
      if ok : bool then csr_done d a old funct3 else csr_slow d a (mret rs1) funct3
  end.

Definition csr_set_op d (a : ArgsCsr.t) (imm : bool) (funct3 : Z) : Trans :=
  r ← gen_csr_read d (ArgsCsr.csr a);
  match r with
  | None => csr_slow d a (csr_operand d a imm) funct3
  | Some old =>
      if ArgsCsr.rs1 a =? 0 then csr_done d a old funct3
      else
        rs1 ← csr_operand d a imm;
        new ← new_temp I64;
        bin gen_or I64 new old rs1 ;;
        ok ← gen_csr_write d (ArgsCsr.csr a) new;
        if ok : bool then csr_done d a old funct3 else csr_slow d a (mret rs1) funct3
  end.

Definition csr_clear_op d (a : ArgsCsr.t) (imm : bool) (funct3 : Z) : Trans :=
  r ← gen_csr_read d (ArgsCsr.csr a);
  match r with
  | None => csr_slow d a (csr_operand d a imm) funct3
  | Some old =>
      if ArgsCsr.rs1 a =? 0 then csr_done d a old funct3
      else
        rs1 ← csr_operand d a imm;
        inv ← new_temp I64;
        un gen_not I64 inv rs1 ;;
        new ← new_temp I64;
        bin gen_and I64 new old inv ;;
        ok ← gen_csr_write d (ArgsCsr.csr a) new;
        if ok : bool then csr_done d a old funct3 else csr_slow d a (mret rs1) funct3
  end.

Definition trans_zicsr d (i : Zicsr) : Trans :=
  require (ext_zicsr (cfg d)) d
  match i with
  | CSRRW a => csr_write_op d a false 1
  | CSRRS a => csr_set_op d a false 2
  | CSRRC a => csr_clear_op d a false 3
  | CSRRWI a => csr_write_op d a true 5
  | CSRRSI a => csr_set_op d a true 6
  | CSRRCI a => csr_clear_op d a true 7
  end.

(** [trans_mulh] and [trans_mulhu]. *)
Definition gen_mul_high d (a : ArgsR.t) (mul : N -> N -> N -> N -> Ir unit) : Ir bool :=
  s1 ← gpr_or_zero d (ArgsR.rs1 a);
  s2 ← gpr_or_zero d (ArgsR.rs2 a);
  lo ← new_temp I64;
  hi ← new_temp I64;
  mul lo hi s1 s2 ;;
  gen_set_gpr d (ArgsR.rd a) hi ;;
  mret true.

Definition trans_mulhsu d (a : ArgsR.t) : Ir bool :=
  s1 ← gpr_or_zero d (ArgsR.rs1 a);
  s2 ← gpr_or_zero d (ArgsR.rs2 a);
  lo ← new_temp I64;
  hi ← new_temp I64;
  gen_mulu2 I64 lo hi s1 s2 ;;
  c63 ← new_const I64 63;
  sign ← new_temp I64;
  bin gen_sar I64 sign s1 c63 ;;
  adj ← new_temp I64;
  bin gen_and I64 adj sign s2 ;;
  bin gen_sub I64 hi hi adj ;;
  gen_set_gpr d (ArgsR.rd a) hi ;;
  mret true.

Definition trans_rvm d (i : Rvm) : Trans :=
  require (misa_m (cfg d)) d (plain d
  match i with
  | MUL a => gen_arith d a gen_mul
  | MULH a => gen_mul_high d a (gen_muls2 I64)
  | MULHSU a => trans_mulhsu d a
  | MULHU a => gen_mul_high d a (gen_mulu2 I64)
  | DIV a => gen_div_rem d a false
  | DIVU a => gen_divu_remu d a false
  | REM a => gen_div_rem d a true
  | REMU a => gen_divu_remu d a true
  | MULW a => gen_arith_w d a gen_mul
  | DIVW a => gen_div_rem_w d a false
  | DIVUW a => gen_divu_remu_w d a false
  | REMW a => gen_div_rem_w d a true
  | REMUW a => gen_divu_remu_w d a true
  end).

Definition trans_rva d (i : Rva) : Trans :=
  require (misa_a (cfg d)) d (plain d
  match i with
  | LR_W a => gen_lr d a MemOp.sl
  | SC_W a => gen_sc d a MemOp.ul
  | AMOSWAP_W a => gen_amo_swap d a MemOp.sl
  | AMOADD_W a => gen_amo d a AMO_ADD MemOp.sl
  | AMOXOR_W a => gen_amo d a AMO_XOR MemOp.sl
  | AMOAND_W a => gen_amo d a AMO_AND MemOp.sl
  | AMOOR_W a => gen_amo d a AMO_OR MemOp.sl
  | AMOMIN_W a => gen_amo_minmax d a Cond.Lt MemOp.sl
  | AMOMAX_W a => gen_amo_minmax d a Cond.Gt MemOp.sl
  | AMOMINU_W a => gen_amo_minmax d a Cond.Ltu MemOp.sl
  | AMOMAXU_W a => gen_amo_minmax d a Cond.Gtu MemOp.sl
  | LR_D a => gen_lr d a MemOp.uq
  | SC_D a => gen_sc d a MemOp.uq
  | AMOSWAP_D a => gen_amo_swap d a MemOp.uq
  | AMOADD_D a => gen_amo d a AMO_ADD MemOp.uq
  | AMOXOR_D a => gen_amo d a AMO_XOR MemOp.uq
  | AMOAND_D a => gen_amo d a AMO_AND MemOp.uq
  | AMOOR_D a => gen_amo d a AMO_OR MemOp.uq
  | AMOMIN_D a => gen_amo_minmax d a Cond.Lt MemOp.uq
  | AMOMAX_D a => gen_amo_minmax d a Cond.Gt MemOp.uq
  | AMOMINU_D a => gen_amo_minmax d a Cond.Ltu MemOp.uq
  | AMOMAXU_D a => gen_amo_minmax d a Cond.Gtu MemOp.uq
  end).

Definition trans_zba d (i : Zba) : Trans :=
  require (ext_zba (cfg d)) d (plain d
  match i with
  | SH1ADD a => gen_shadd d a 1
  | SH2ADD a => gen_shadd d a 2
  | SH3ADD a => gen_shadd d a 3
  | SH1ADD_UW a => gen_shadd_uw d a 1
  | SH2ADD_UW a => gen_shadd_uw d a 2
  | SH3ADD_UW a => gen_shadd_uw d a 3
  | ADD_UW a => gen_add_uw d a
  | SLLI_UW a => gen_slli_uw d a
  end).

(** The methods whose bodies are those of [gen_arith], [gen_shiftw], [gen_shift_imm] and
    [gen_shift_imm_w] with another op are written with them. *)
Definition trans_zbb d (i : Zbb) : Trans :=
  require (ext_zbb (cfg d)) d (plain d
  match i with
  | ANDN a => gen_arith d a gen_andc
  | ORN a => gen_orn d a
  | XNOR a => gen_xnor d a
  | MAX a => gen_minmax d a Cond.Ge
  | MAXU a => gen_minmax d a Cond.Geu
  | MIN a => gen_minmax d a Cond.Lt
  | MINU a => gen_minmax d a Cond.Ltu
  | ROL a => gen_arith d a gen_rotl
  | ROR a => gen_arith d a gen_rotr
  | ROLW a => gen_shiftw d a gen_rotl
  | RORW a => gen_shiftw d a gen_rotr
  | RORI a => gen_shift_imm d a gen_rotr
  | RORIW a => gen_shift_imm_w d a gen_rotr
  | CLZ a => gen_count d a gen_clz
  | CTZ a => gen_count d a gen_ctz
  | CPOP a => gen_cpop d a
  | CLZW a => gen_count_w d a gen_clz
  | CTZW a => gen_count_w d a gen_ctz
  | CPOPW a => gen_cpopw d a
  | SEXT_B a => gen_sext d a 56
  | SEXT_H a => gen_sext d a 48
  | ZEXT_H a => gen_zext_h d a
  | REV8 a => gen_rev8 d a
  | ORC_B a => gen_call1 d a H_orc_b
  end).

Definition trans_zbc d (i : Zbc) : Trans :=
  require (ext_zbc (cfg d)) d (plain d
  match i with
  | CLMUL a => gen_call2 d a H_clmul
  | CLMULH a => gen_call2 d a H_clmulh
  | CLMULR a => gen_call2 d a H_clmulr
  end).

Definition trans_zbs d (i : Zbs) : Trans :=
  require (ext_zbs (cfg d)) d (plain d
  match i with
  | BCLR a => gen_bitop d a gen_andc
  | BCLRI a => gen_bitop_imm d a gen_andc
  | BEXT a => gen_bext d a
  | BEXTI a => gen_bexti d a
  | BINV a => gen_bitop d a gen_xor
  | BINVI a => gen_bitop_imm d a gen_xor
  | BSET a => gen_bitop d a gen_or
  | BSETI a => gen_bitop_imm d a gen_or
  end).

Definition trans_zbk d (i : Zbk) : Trans :=
  match i with
  | BREV8 a => require (ext_zbkb (cfg d)) d (plain d (gen_call1 d a H_brev8))
  | PACK a => require (ext_zbkb (cfg d)) d (plain d (gen_pack d a))
  | PACKH a => require (ext_zbkb (cfg d)) d (plain d (gen_packh d a))
  | PACKW a => require (ext_zbkb (cfg d)) d (plain d (gen_packw d a))
  | XPERM4 a => require (ext_zbkx (cfg d)) d (plain d (gen_call2 d a H_xperm4))
  | XPERM8 a => require (ext_zbkx (cfg d)) d (plain d (gen_call2 d a H_xperm8))
  end.

Definition trans_zicbo d (i : Zicbo) : Trans :=
  match i with
  | CBO_INVAL | CBO_CLEAN | CBO_FLUSH => require (ext_zicbom (cfg d)) d (mret (d, true))
  | CBO_ZERO => require (ext_zicboz (cfg d)) d (mret (d, true))
  end.

Definition trans d (i : Insn) : Trans :=
  match i with
  | Rv32i_insn i => trans_rv32i d i
  | Rv64i_insn i => plain d (trans_rv64i d i)
  | Priv_insn i => trans_priv d i
  | Zicsr_insn i => trans_zicsr d i
  | Rvm_insn i => trans_rvm d i
  | Rva_insn i => trans_rva d i
  | Zba_insn i => trans_zba d i
  | Zbb_insn i => trans_zbb d i
  | Zbc_insn i => trans_zbc d i
  | Zbs_insn i => trans_zbs d i
  | Zbk_insn i => trans_zbk d i
  | Zicbo_insn i => trans_zicbo d i
  end.

(** ** The translator ([riscv/mod.rs]) *)

(** What the generated decoder does with a word: no pattern matches, it calls the
    [trans_] method of an instruction, or it matches an instruction that is not
    modelled here. *)
Inductive Decoded := NoMatch | Matched (i : Insn) | Foreign.

Variables decode32 decode16 : Z -> Decoded.
(** The instruction set of [gen_xthead.rs] and the vendor hints. *)
Variable decode_xthead : Dis -> Z -> Trans.
(** The little-endian halfword and word at a program counter, through [guest_base]. *)
Variables fetch16 fetch32 : Z -> Z.

Definition fetch_insn32 d : Z :=
  if negb (cross_page_insn d =? 0) && (pc_next d =? cross_page_pc d)
  then cross_page_insn d else fetch32 (pc_next d).

Definition dispatch d (r : Decoded) : Trans :=
  match r with
  | NoMatch => mret (d, false)
  | Matched i => trans d i
  | Foreign => fun _ => None
  end.

Definition decode_vendor_thead d (insn : Z) : Trans :=
  if has_xthead (cfg d) then decode_xthead d insn else mret (d, false).

Definition decode_insn d : Trans :=
  let half := fetch16 (pc_next d) in
  if negb (Z.land half 3 =? 3) then
    if misa_c (cfg d) then let d := set_insn half 2 d in dispatch d (decode16 half)
    else mret (d, false)
  else
    let insn := fetch_insn32 d in
    let d := set_insn insn 4 d in dispatch d (decode32 insn).

Definition insn_start d : Ir Dis :=
  gen_insn_start (pc_next d) ;;
  mret (set_counts (pc_next d) (num_insns d + 1) d).

Definition translate_insn d : Ir Dis :=
  '(d, decoded) ← decode_insn d;
  '(d, decoded) ← (if decoded : bool then mret (d, true) else decode_vendor_thead d (opcode d));
  d ← (if decoded : bool then mret d
       else set_pc d (pc_next d) ;; gen_exit_tb EXCP_UNDEF ;; mret (set_is_jmp NoReturn d));
  let d := set_counts (u64 (pc_next d + cur_insn_len d)) (num_insns d) d in
  mret (if bool_decide (is_jmp d = Next) && (page_byte_limit d <=? pc_next d)
        then set_is_jmp TooMany d else d).

Definition tb_stop d : Ir unit :=
  match is_jmp d with
  | NoReturn => mret tt
  | Next | TooMany =>
      set_pc d (pc_next d) ;;
      gen_goto_tb 0 ;;
      gen_exit_tb TB_EXIT_IDX0
  end.

(** The loop of [translator_loop]; the counter bounds the iterations and
    [max_insns] of them are enough (one, when it is zero). *)
Fixpoint translator_loop (fuel : nat) d : Ir Dis :=
  match fuel with
  | O => fun _ => None
  | S fuel' =>
      d ← insn_start d;
      d ← translate_insn d;
      if bool_decide (is_jmp d = Next) then
        if max_insns d <=? num_insns d then mret (set_is_jmp TooMany d)
        else translator_loop fuel' d
      else mret d
  end.

(** The body of [gen_code] after the fetch: translate, then end the block.  The
    result is the number of guest bytes translated. *)
Definition translate_block d : Ir Z :=
  d ← translator_loop (Z.to_nat (Z.max 1 (max_insns d))) d;
  tb_stop d ;;
  mret (u32 (pc_next d - pc_first d)).

End Front.
