(* ===== verification/RvIsa.v ===== *)
(** * Reference semantics of the RISC-V integer instructions

    What the unprivileged specification says the modelled instructions do, written on
    unbounded integers and independently of the translator: registers are 64-bit
    values, [x0] reads as zero, an instruction falls through, jumps, leaves for the
    privileged architecture or faults.  Memory is behind two functions on an abstract
    world.  The theorems of [RvTransProof] relate the generated IR to it. *)

From Stdlib Require Import ZArith Lia Bool.
From stdpp Require Import base tactics numbers list functions.
From S2P Require Import Prelude Tb RvInsn.

(** Sign extension of the low [n] bits to 64. *)
Definition sext (n v : Z) : Z := u64 (signed n (wrap n v)).

(** The number whose bit [k] is [f k], for [k < n]. *)
Fixpoint of_bits (n : nat) (f : Z -> bool) : Z :=
  match n with
  | O => 0
  | S n' => of_bits n' f + Z.b2z (f (Z.of_nat n')) * 2 ^ Z.of_nat n'
  end.

(** ** Bit manipulation *)

Definition rol (w a n : Z) : Z := wrap w (a * 2 ^ (n mod w)) + a / 2 ^ (w - n mod w).
Definition ror (w a n : Z) : Z := a / 2 ^ (n mod w) + wrap w (a * 2 ^ (w - n mod w)).
Definition clz (w a : Z) : Z := if a =? 0 then w else w - 1 - Z.log2 a.
Definition ctz (w a : Z) : Z := trailing_zeros w a.

Fixpoint cpop (w : nat) (a : Z) : Z :=
  match w with O => 0 | S n => cpop n a + Z.b2z (Z.testbit a (Z.of_nat n)) end.

(** Byte [i] of a value. *)
Definition byte_at (a i : Z) : Z := a / 2 ^ (8 * i) mod 256.

Definition rev8 (a : Z) : Z :=
  of_bits 64 (fun k => Z.testbit a (8 * (7 - k / 8) + k mod 8)).
Definition orcb (a : Z) : Z := of_bits 64 (fun k => negb (byte_at a (k / 8) =? 0)).
Definition brev8 (a : Z) : Z :=
  of_bits 64 (fun k => Z.testbit a (8 * (k / 8) + (7 - k mod 8))).
Definition xperm8 (a b : Z) : Z :=
  of_bits 64 (fun k => let i := byte_at b (k / 8) in (i <? 8) && Z.testbit a (8 * i + k mod 8)).
Definition xperm4 (a b : Z) : Z :=
  of_bits 64 (fun k => Z.testbit a (4 * (b / 2 ^ (4 * (k / 4)) mod 16) + k mod 4)).

(** Bit [k] of the product of two 64-bit polynomials over GF(2). *)
Fixpoint clmul_bit (n : nat) (a b k : Z) : bool :=
  match n with
  | O => false
  | S n' => xorb (clmul_bit n' a b k) (Z.testbit b (Z.of_nat n') && Z.testbit a (k - Z.of_nat n'))
  end.
Definition clmul (a b : Z) : Z := of_bits 64 (clmul_bit 64 a b).
Definition clmulh (a b : Z) : Z := of_bits 64 (fun k => clmul_bit 64 a b (k + 64)).
Definition clmulr (a b : Z) : Z := of_bits 64 (fun k => clmul_bit 64 a b (k + 63)).

(** ** State and outcomes *)

Notation regs := (Z -> Z) (only parsing).

Definition get (x : regs) (r : Z) : Z := if r =? 0 then 0 else x r.
Definition put (x : regs) (r v : Z) : regs := if r =? 0 then x else <[r := v]> x.

Inductive outcome (W : Type) :=
| Fall (x : regs) (w : W)
| Goto (x : regs) (w : W) (target : Z)
| Trap (x : regs) (w : W) (at_pc code : Z)
| Fault (w : W).
Arguments Fall {W} x w.
Arguments Goto {W} x w target.
Arguments Trap {W} x w at_pc code.
Arguments Fault {W} w.

Definition ltb_signed (a b : Z) : bool := signed 64 a <? signed 64 b.

(** ** Computational instructions: destination and value *)

Definition alu_rv64i (x : regs) (i : Rv64i) : option (Z * Z) :=
  let r a := (ArgsR.rd a, get x (ArgsR.rs1 a), get x (ArgsR.rs2 a)) in
  let s a := (ArgsShift.rd a, get x (ArgsShift.rs1 a), ArgsShift.shamt a) in
  match i with
  | ADDIW a => Some (ArgsI.rd a, sext 32 (get x (ArgsI.rs1 a) + ArgsI.imm a))
  | SLLIW a => let '(rd, v, n) := s a in Some (rd, sext 32 (v * 2 ^ n))
  | SRLIW a => let '(rd, v, n) := s a in Some (rd, sext 32 (wrap 32 v / 2 ^ n))
  | SRAIW a => let '(rd, v, n) := s a in Some (rd, sext 32 (signed 32 (wrap 32 v) / 2 ^ n))
  | ADDW a => let '(rd, v, u) := r a in Some (rd, sext 32 (v + u))
  | SUBW a => let '(rd, v, u) := r a in Some (rd, sext 32 (v - u))
  | SLLW a => let '(rd, v, u) := r a in Some (rd, sext 32 (v * 2 ^ (u mod 32)))
  | SRLW a => let '(rd, v, u) := r a in Some (rd, sext 32 (wrap 32 v / 2 ^ (u mod 32)))
  | SRAW a => let '(rd, v, u) := r a in Some (rd, sext 32 (signed 32 (wrap 32 v) / 2 ^ (u mod 32)))
  | LWU _ | LD _ | SD _ => None
  end.

Definition alu_rvm (x : regs) (i : Rvm) : Z * Z :=
  let r a := (ArgsR.rd a, get x (ArgsR.rs1 a), get x (ArgsR.rs2 a)) in
  match i with
  | MUL a => let '(rd, v, u) := r a in (rd, u64 (v * u))
  | MULH a => let '(rd, v, u) := r a in (rd, u64 (signed 64 v * signed 64 u / 2 ^ 64))
  | MULHSU a => let '(rd, v, u) := r a in (rd, u64 (signed 64 v * u / 2 ^ 64))
  | MULHU a => let '(rd, v, u) := r a in (rd, u64 (v * u / 2 ^ 64))
  | DIV a => let '(rd, v, u) := r a in
      (rd, if u =? 0 then u64_max else u64 (Z.quot (signed 64 v) (signed 64 u)))
  | DIVU a => let '(rd, v, u) := r a in (rd, if u =? 0 then u64_max else v / u)
  | REM a => let '(rd, v, u) := r a in
      (rd, if u =? 0 then v else u64 (Z.rem (signed 64 v) (signed 64 u)))
  | REMU a => let '(rd, v, u) := r a in (rd, if u =? 0 then v else v mod u)
  | MULW a => let '(rd, v, u) := r a in (rd, sext 32 (v * u))
  | DIVW a => let '(rd, v, u) := r a in
      let v := wrap 32 v in let u := wrap 32 u in
      (rd, if u =? 0 then u64_max else sext 32 (Z.quot (signed 32 v) (signed 32 u)))
  | DIVUW a => let '(rd, v, u) := r a in
      let v := wrap 32 v in let u := wrap 32 u in
      (rd, if u =? 0 then u64_max else sext 32 (v / u))
  | REMW a => let '(rd, v, u) := r a in
      let v := wrap 32 v in let u := wrap 32 u in
      (rd, if u =? 0 then sext 32 v else sext 32 (Z.rem (signed 32 v) (signed 32 u)))
  | REMUW a => let '(rd, v, u) := r a in
      let v := wrap 32 v in let u := wrap 32 u in
      (rd, if u =? 0 then sext 32 v else sext 32 (v mod u))
  end.

Definition alu_zba (x : regs) (i : Zba) : Z * Z :=
  let r a := (ArgsR.rd a, get x (ArgsR.rs1 a), get x (ArgsR.rs2 a)) in
  match i with
  | SH1ADD a => let '(rd, v, u) := r a in (rd, u64 (v * 2 + u))
  | SH2ADD a => let '(rd, v, u) := r a in (rd, u64 (v * 4 + u))
  | SH3ADD a => let '(rd, v, u) := r a in (rd, u64 (v * 8 + u))
  | SH1ADD_UW a => let '(rd, v, u) := r a in (rd, u64 (wrap 32 v * 2 + u))
  | SH2ADD_UW a => let '(rd, v, u) := r a in (rd, u64 (wrap 32 v * 4 + u))
  | SH3ADD_UW a => let '(rd, v, u) := r a in (rd, u64 (wrap 32 v * 8 + u))
  | ADD_UW a => let '(rd, v, u) := r a in (rd, u64 (wrap 32 v + u))
  | SLLI_UW a => (ArgsShift.rd a, u64 (wrap 32 (get x (ArgsShift.rs1 a)) * 2 ^ ArgsShift.shamt a))
  end.

Definition alu_zbb (x : regs) (i : Zbb) : Z * Z :=
  let r a := (ArgsR.rd a, get x (ArgsR.rs1 a), get x (ArgsR.rs2 a)) in
  let r2 a := (ArgsR2.rd a, get x (ArgsR2.rs1 a)) in
  match i with
  | ANDN a => let '(rd, v, u) := r a in (rd, Z.land v (bnot 64 u))
  | ORN a => let '(rd, v, u) := r a in (rd, Z.lor v (bnot 64 u))
  | XNOR a => let '(rd, v, u) := r a in (rd, bnot 64 (Z.lxor v u))
  | MAX a => let '(rd, v, u) := r a in (rd, if ltb_signed v u then u else v)
  | MAXU a => let '(rd, v, u) := r a in (rd, Z.max v u)
  | MIN a => let '(rd, v, u) := r a in (rd, if ltb_signed u v then u else v)
  | MINU a => let '(rd, v, u) := r a in (rd, Z.min v u)
  | ROL a => let '(rd, v, u) := r a in (rd, rol 64 v u)
  | ROR a => let '(rd, v, u) := r a in (rd, ror 64 v u)
  | ROLW a => let '(rd, v, u) := r a in (rd, sext 32 (rol 32 (wrap 32 v) u))
  | RORW a => let '(rd, v, u) := r a in (rd, sext 32 (ror 32 (wrap 32 v) u))
  | RORI a => (ArgsShift.rd a, ror 64 (get x (ArgsShift.rs1 a)) (ArgsShift.shamt a))
  | RORIW a =>
      (ArgsShift.rd a, sext 32 (ror 32 (wrap 32 (get x (ArgsShift.rs1 a))) (ArgsShift.shamt a)))
  | CLZ a => let '(rd, v) := r2 a in (rd, clz 64 v)
  | CTZ a => let '(rd, v) := r2 a in (rd, ctz 64 v)
  | CPOP a => let '(rd, v) := r2 a in (rd, cpop 64 v)
  | CLZW a => let '(rd, v) := r2 a in (rd, clz 32 (wrap 32 v))
  | CTZW a => let '(rd, v) := r2 a in (rd, ctz 32 (wrap 32 v))
  | CPOPW a => let '(rd, v) := r2 a in (rd, cpop 32 v)
  | SEXT_B a => let '(rd, v) := r2 a in (rd, sext 8 v)
  | SEXT_H a => let '(rd, v) := r2 a in (rd, sext 16 v)
  | ZEXT_H a => let '(rd, v) := r2 a in (rd, wrap 16 v)
  | REV8 a => let '(rd, v) := r2 a in (rd, rev8 v)
  | ORC_B a => let '(rd, v) := r2 a in (rd, orcb v)
  end.

Definition alu_zbc (x : regs) (i : Zbc) : Z * Z :=
  let r a := (ArgsR.rd a, get x (ArgsR.rs1 a), get x (ArgsR.rs2 a)) in
  match i with
  | CLMUL a => let '(rd, v, u) := r a in (rd, clmul v u)
  | CLMULH a => let '(rd, v, u) := r a in (rd, clmulh v u)
  | CLMULR a => let '(rd, v, u) := r a in (rd, clmulr v u)
  end.

Definition alu_zbs (x : regs) (i : Zbs) : Z * Z :=
  let r a := (ArgsR.rd a, get x (ArgsR.rs1 a), get x (ArgsR.rs2 a) mod 64) in
  let s a := (ArgsShift.rd a, get x (ArgsShift.rs1 a), ArgsShift.shamt a) in
  match i with
  | BCLR a => let '(rd, v, n) := r a in (rd, Z.clearbit v n)
  | BCLRI a => let '(rd, v, n) := s a in (rd, Z.clearbit v n)
  | BEXT a => let '(rd, v, n) := r a in (rd, Z.b2z (Z.testbit v n))
  | BEXTI a => let '(rd, v, n) := s a in (rd, Z.b2z (Z.testbit v n))
  | BINV a => let '(rd, v, n) := r a in (rd, Z.lxor v (2 ^ n))
  | BINVI a => let '(rd, v, n) := s a in (rd, Z.lxor v (2 ^ n))
  | BSET a => let '(rd, v, n) := r a in (rd, Z.setbit v n)
  | BSETI a => let '(rd, v, n) := s a in (rd, Z.setbit v n)
  end.

Definition alu_zbk (x : regs) (i : Zbk) : Z * Z :=
  let r a := (ArgsR.rd a, get x (ArgsR.rs1 a), get x (ArgsR.rs2 a)) in
  match i with
  | BREV8 a => (ArgsR2.rd a, brev8 (get x (ArgsR2.rs1 a)))
  | PACK a => let '(rd, v, u) := r a in (rd, wrap 32 v + 2 ^ 32 * wrap 32 u)
  | PACKH a => let '(rd, v, u) := r a in (rd, wrap 8 v + 2 ^ 8 * wrap 8 u)
  | PACKW a => let '(rd, v, u) := r a in (rd, sext 32 (wrap 16 v + 2 ^ 16 * wrap 16 u))
  | XPERM4 a => let '(rd, v, u) := r a in (rd, xperm4 v u)
  | XPERM8 a => let '(rd, v, u) := r a in (rd, xperm8 v u)
  end.

(** ** Execution *)

Section Exec.
Context {W : Type}.

(** [n] bytes at an address, or a fault recorded in the world. *)
Variable mem_load : W -> Z -> Z -> option Z * W.
Variable mem_store : W -> Z -> Z -> Z -> bool * W.

Definition exec_load (x : regs) (w : W) (a : ArgsI.t) (n : Z) (extend : Z -> Z) : outcome W :=
  match mem_load w (u64 (get x (ArgsI.rs1 a) + ArgsI.imm a)) n with
  | (Some v, w') => Fall (put x (ArgsI.rd a) (extend v)) w'
  | (None, w') => Fault w'
  end.

Definition exec_store (x : regs) (w : W) (a : ArgsS.t) (n : Z) : outcome W :=
  match mem_store w (u64 (get x (ArgsS.rs1 a) + ArgsS.imm a)) n (wrap (8 * n) (get x (ArgsS.rs2 a))) with
  | (true, w') => Fall x w'
  | (false, w') => Fault w'
  end.

Definition exec_branch (x : regs) (w : W) (pc len : Z) (a : ArgsB.t) (taken : Z -> Z -> bool)
    : outcome W :=
  Goto x w (if taken (get x (ArgsB.rs1 a)) (get x (ArgsB.rs2 a))
            then u64 (pc + ArgsB.imm a) else u64 (pc + len)).

Definition exec_rv32i (pc len : Z) (i : Rv32i) (x : regs) (w : W) : outcome W :=
  let rr a f := Fall (put x (ArgsR.rd a) (f (get x (ArgsR.rs1 a)) (get x (ArgsR.rs2 a)))) w in
  let ri a f := Fall (put x (ArgsI.rd a) (f (get x (ArgsI.rs1 a)) (ArgsI.imm a))) w in
  let rs a f := Fall (put x (ArgsShift.rd a) (f (get x (ArgsShift.rs1 a)) (ArgsShift.shamt a))) w in
  match i with
  | LUI a => Fall (put x (ArgsU.rd a) (u64 (ArgsU.imm a))) w
  | AUIPC a => Fall (put x (ArgsU.rd a) (u64 (pc + ArgsU.imm a))) w
  | JAL a => Goto (put x (ArgsJ.rd a) (u64 (pc + len))) w (u64 (pc + ArgsJ.imm a))
  | JALR a =>
      Goto (put x (ArgsI.rd a) (u64 (pc + len))) w
        (2 * (u64 (get x (ArgsI.rs1 a) + ArgsI.imm a) / 2))
  | BEQ a => exec_branch x w pc len a Z.eqb
  | BNE a => exec_branch x w pc len a (fun v u => negb (v =? u))
  | BLT a => exec_branch x w pc len a ltb_signed
  | BGE a => exec_branch x w pc len a (fun v u => negb (ltb_signed v u))
  | BLTU a => exec_branch x w pc len a Z.ltb
  | BGEU a => exec_branch x w pc len a (fun v u => negb (v <? u))
  | LB a => exec_load x w a 1 (sext 8)
  | LH a => exec_load x w a 2 (sext 16)
  | LW a => exec_load x w a 4 (sext 32)
  | LBU a => exec_load x w a 1 (wrap 8)
  | LHU a => exec_load x w a 2 (wrap 16)
  | SB a => exec_store x w a 1
  | SH a => exec_store x w a 2
  | SW a => exec_store x w a 4
  | ADDI a => ri a (fun v n => u64 (v + n))
  | SLTI a => ri a (fun v n => Z.b2z (signed 64 v <? n))
  | SLTIU a => ri a (fun v n => Z.b2z (v <? u64 n))
  | XORI a => ri a (fun v n => Z.lxor v (u64 n))
  | ORI a => ri a (fun v n => Z.lor v (u64 n))
  | ANDI a => ri a (fun v n => Z.land v (u64 n))
  | SLLI a => rs a (fun v n => u64 (v * 2 ^ n))
  | SRLI a => rs a (fun v n => v / 2 ^ n)
  | SRAI a => rs a (fun v n => u64 (signed 64 v / 2 ^ n))
  | ADD a => rr a (fun v u => u64 (v + u))
  | SUB a => rr a (fun v u => u64 (v - u))
  | SLL a => rr a (fun v u => u64 (v * 2 ^ (u mod 64)))
  | SLT a => rr a (fun v u => Z.b2z (ltb_signed v u))
  | SLTU a => rr a (fun v u => Z.b2z (v <? u))
  | XOR a => rr a Z.lxor
  | SRL a => rr a (fun v u => v / 2 ^ (u mod 64))
  | SRA a => rr a (fun v u => u64 (signed 64 v / 2 ^ (u mod 64)))
  | OR a => rr a Z.lor
  | AND a => rr a Z.land
  | FENCE => Fall x w
  | FENCE_I => Trap x w (u64 (pc + len)) EXCP_RISCV_FENCE_I
  end.

Definition exec_priv (pc len : Z) (i : Priv) (x : regs) (w : W) : outcome W :=
  match i with
  | ECALL => Trap x w pc EXCP_RISCV_ECALL
  | EBREAK => Trap x w pc EXCP_RISCV_EBREAK
  | MRET => Trap x w (u64 (pc + len)) EXCP_RISCV_MRET
  | SRET => Trap x w (u64 (pc + len)) EXCP_RISCV_SRET
  | WFI => Trap x w (u64 (pc + len)) EXCP_RISCV_WFI
  | SFENCE_VMA | SINVAL_VMA => Trap x w (u64 (pc + len)) EXCP_RISCV_SFENCE_VMA
  | TH_FENCE_SPA | MFENCE_SPA | MINVAL_SPA => Fall x w
  end.

Definition exec_rv64i (i : Rv64i) (x : regs) (w : W) : outcome W :=
  match i with
  | LWU a => exec_load x w a 4 (wrap 32)
  | LD a => exec_load x w a 8 (wrap 64)
  | SD a => exec_store x w a 8
  | _ => match alu_rv64i x i with Some (rd, v) => Fall (put x rd v) w | None => Fall x w end
  end.

Definition alu (rv : Z * Z) (x : regs) (w : W) : outcome W := Fall (put x rv.1 rv.2) w.

(** [None]: instructions whose effect is not described here, namely CSR accesses,
    atomics and [cbo.zero]. *)
Definition exec (pc len : Z) (i : Insn) (x : regs) (w : W) : option (outcome W) :=
  match i with
  | Rv32i_insn i => Some (exec_rv32i pc len i x w)
  | Rv64i_insn i => Some (exec_rv64i i x w)
  | Priv_insn i => Some (exec_priv pc len i x w)
  | Rvm_insn i => Some (alu (alu_rvm x i) x w)
  | Zba_insn i => Some (alu (alu_zba x i) x w)
  | Zbb_insn i => Some (alu (alu_zbb x i) x w)
  | Zbc_insn i => Some (alu (alu_zbc x i) x w)
  | Zbs_insn i => Some (alu (alu_zbs x i) x w)
  | Zbk_insn i => Some (alu (alu_zbk x i) x w)
  | Zicbo_insn CBO_ZERO => None
  | Zicbo_insn _ => Some (Fall x w)
  | Zicsr_insn _ | Rva_insn _ => None
  end.

End Exec.
