(* ===== verification/RvBits.v ===== *)
(** * Bit manipulation of the RISC-V front end

    The helper functions of [trans/helpers.rs] against the reference definitions of
    [RvIsa], and the arithmetic facts about shifts, counts and bytes that the proofs
    about emitted code use. *)

From Stdlib Require Import ZArith Lia Bool.
From stdpp Require Import base tactics numbers list.
From S2P Require Import Prelude IrHost RvIsa RvTrans.

(** ** Numbers given by their bits *)

Lemma of_bits_range n f : in_range (Z.of_nat n) (of_bits n f).
Proof.
  unfold in_range. induction n as [|n IH]; cbn [of_bits]; [done|].
  rewrite Nat2Z.inj_succ, Z.pow_succ_r by lia. destruct (f (Z.of_nat n)); cbn [Z.b2z]; lia.
Qed.

Lemma testbit_of_bits n f k :
  0 <= k -> Z.testbit (of_bits n f) k = (k <? Z.of_nat n) && f k.
Proof.
  intros Hk. induction n as [|n IH]; cbn [of_bits].
  { rewrite Z.bits_0. destruct (Z.ltb_spec k (Z.of_nat 0)); [lia|done]. }
  pose proof (of_bits_range n f) as Hr. rewrite Z.add_comm.
  rewrite <- lor_shiftl_add, Z.lor_spec, Z.shiftl_spec, IH by (done || lia).
  destruct (Z.lt_trichotomy k (Z.of_nat n)) as [Hlt|[->|Hgt]].
  - rewrite (Z.testbit_neg_r _ (k - _)) by lia.
    destruct (Z.ltb_spec k (Z.of_nat n)), (Z.ltb_spec k (Z.of_nat (S n))); (lia || done).
  - rewrite Z.sub_diag, Z.b2z_bit0. rewrite Z.ltb_irrefl, andb_false_l, orb_false_r.
    by destruct (Z.ltb_spec (Z.of_nat n) (Z.of_nat (S n))); [|lia].
  - destruct (Z.ltb_spec k (Z.of_nat n)), (Z.ltb_spec k (Z.of_nat (S n))); try lia. cbn [andb].
    rewrite orb_false_r. destruct (f (Z.of_nat n)); cbn [Z.b2z]; [|apply Z.bits_0].
    apply Z.bits_above_log2; [lia|]. change (Z.log2 1) with 0. lia.
Qed.

(** A word is determined by its bits below its width. *)
Lemma word_ext w a b :
  0 <= w -> in_range w a -> in_range w b ->
  (forall k, 0 <= k < w -> Z.testbit a k = Z.testbit b k) -> a = b.
Proof.
  intros Hw [_ Ha]%in_range_bits [_ Hb]%in_range_bits H; [|done..].
  apply Z.bits_inj'. intros k Hk. destruct (Z.lt_ge_cases k w); [by apply H|]. by rewrite Ha, Hb.
Qed.

(** ** Counts *)

Lemma wrap_count w n : 0 <= n <= w -> wrap w n = n.
Proof. intros Hn. apply wrap_small. pose proof (Z.pow_gt_lin_r 2 w). unfold in_range. lia. Qed.

Lemma clz_range w a : 0 < w -> in_range w a -> 0 <= clz w a <= w.
Proof.
  intros Hw [Ha Hb]. unfold clz. destruct (Z.eqb_spec a 0); [lia|].
  pose proof (Z.log2_nonneg a). assert (Z.log2 a < w) by (apply Z.log2_lt_pow2; lia). lia.
Qed.

Lemma ctz_range w a : 0 < w -> in_range w a -> 0 <= ctz w a <= w.
Proof.
  intros Hw Ha. unfold ctz. destruct (decide (a = 0)) as [->|Hne]; [cbn; lia|].
  assert (0 < a) by (unfold in_range in Ha; lia).
  destruct (trailing_zeros_spec w a) as (H0 & H1 & _); [done|]. split; [done|].
  apply in_range_bits in Ha as [_ Ha]; [|lia].
  destruct (Z.le_gt_cases (trailing_zeros w a) w); [done|]. rewrite Ha in H1; [done|lia].
Qed.

Lemma cpop_range n a : 0 <= cpop n a <= Z.of_nat n.
Proof. induction n as [|n IH]; cbn [cpop]; [lia|]. destruct (Z.testbit _ _); cbn [Z.b2z]; lia. Qed.

Lemma cpop_wrap n w a : Z.of_nat n <= w -> cpop n (wrap w a) = cpop n a.
Proof.
  induction n as [|n IH]; cbn [cpop]; intros Hn; [done|].
  rewrite IH, testbit_wrap by lia. by destruct (Z.ltb_spec (Z.of_nat n) w); [|lia].
Qed.

Lemma ctpop_cpop n a : ctpop n a = cpop n a.
Proof. induction n as [|n IH]; [done|]. cbn [ctpop cpop]. by f_equal. Qed.

Lemma ctpop64 a : wrap 64 (ctpop (Z.to_nat 64) a) = cpop 64 a.
Proof.
  etrans; [apply (f_equal (wrap 64)), ctpop_cpop|].
  apply wrap_count, (cpop_range (Z.to_nat 64)).
Qed.

Lemma ctpop32 a : wrap 32 (ctpop (Z.to_nat 32) (wrap 32 a)) = cpop 32 a.
Proof.
  etrans; [apply (f_equal (wrap 32)), ctpop_cpop|]. rewrite cpop_wrap by lia.
  apply wrap_small. pose proof (cpop_range 32 a). unfold in_range.
  change (Z.to_nat 32) with 32%nat. lia.
Qed.

(** ** Shifts *)

Lemma shl_sar v n :
  0 < n < 64 -> wrap 64 (signed 64 (wrap 64 (v * 2 ^ n)) / 2 ^ n) = sext (64 - n) v.
Proof.
  intros Hn. unfold sext. f_equal. pose proof (wrap_range 64 (v * 2 ^ n) ltac:(lia)).
  pose proof (wrap_range (64 - n) v ltac:(lia)).
  rewrite <- Z.shiftr_div_pow2 by lia. apply Z.bits_inj'. intros k Hk.
  rewrite Z.shiftr_spec, !testbit_signed, !testbit_wrap by (done || lia).
  rewrite Z.mul_pow2_bits by lia.
  replace (Z.min (k + n) (64 - 1) - n) with (Z.min k (64 - n - 1)) by lia.
  destruct (Z.ltb_spec (Z.min (k + n) (64 - 1)) 64), (Z.ltb_spec (Z.min k (64 - n - 1)) (64 - n)); (lia || done).
Qed.

Lemma bit_range n : 0 <= n < 64 -> in_range 64 (2 ^ n).
Proof. intros Hn. split; [lia|]. apply Z.pow_lt_mono_r; lia. Qed.

Lemma bit_of_shift v n :
  0 <= n -> Z.land (wrap 64 (v / 2 ^ n)) 1 = Z.b2z (Z.testbit v n).
Proof.
  intros Hn. change 1 with (Z.ones 1). rewrite Z.land_ones, Z.testbit_spec' by lia. unfold wrap.
  change (2 ^ 64) with (2 ^ 1 * 2 ^ 63). rewrite Z.rem_mul_r by lia.
  rewrite (Z.mul_comm (2 ^ 1)), Z_mod_plus_full, Z.mod_mod by lia. done.
Qed.

Lemma clear_bit0 v : in_range 64 v -> wrap 64 (Z.land v (bnot 64 1)) = 2 * (v / 2).
Proof.
  intros Hv. rewrite wrap_small by (apply land_range_l; [lia|done]).
  change 2 with (2 ^ 1) at 2. rewrite Z.mul_comm, <- Z.shiftr_div_pow2 by lia.
  change 2 with (2 ^ 1) at 1. rewrite <- Z.shiftl_mul_pow2 by lia.
  apply in_range_bits in Hv as [_ Hv]; [|lia]. change 1 with (2 ^ 0) at 1.
  apply Z.bits_inj'. intros k Hk. rewrite Z.land_spec, testbit_bnot, testbit_pow2 by lia.
  rewrite Z.shiftl_spec by lia. destruct (decide (k = 0)) as [->|Hne].
  { rewrite (Z.testbit_neg_r (Z.shiftr v 1)) by lia. cbn. by rewrite andb_false_r. }
  rewrite Z.shiftr_spec by lia. replace (k - 1 + 1) with k by lia.
  destruct (Z.ltb_spec k 64); [|by rewrite Hv].
  destruct (Z.leb_spec 0 k), (Z.eqb_spec k 0); try lia. by rewrite andb_true_r.
Qed.

(** Two fields of a word, the high one shifted into place. *)
Lemma pack_bits w n v u :
  0 <= n <= w -> Z.lor (wrap n v) (wrap w (u * 2 ^ n)) = wrap n v + 2 ^ n * wrap (w - n) u.
Proof.
  intros Hn. assert (E : wrap w (u * 2 ^ n) = wrap (w - n) u * 2 ^ n).
  { unfold wrap. replace (2 ^ w) with (2 ^ (w - n) * 2 ^ n)
      by (rewrite <- Z.pow_add_r by lia; f_equal; lia).
    apply Z.mul_mod_distr_r; apply Z.pow_nonzero; lia. }
  rewrite E, <- Z.shiftl_mul_pow2, Z.lor_comm, lor_shiftl_add by (done || lia || apply wrap_range; lia).
  lia.
Qed.

(** ** Bytes *)

(** A number from its bytes, the lowest first. *)
Lemma testbit_bytes (l : list Z) k :
  Forall (in_range 8) l -> 0 <= k ->
  Z.testbit (foldr (fun b r => r * 256 + b) 0 l) k = Z.testbit (nth (Z.to_nat (k / 8)) l 0) (k mod 8).
Proof.
  intros Hl. revert k. induction Hl as [|b l Hb Hl IH]; intros k Hk; cbn [foldr].
  { rewrite Z.bits_0. by destruct (Z.to_nat (k / 8)); rewrite Z.bits_0. }
  change 256 with (2 ^ 8). rewrite <- lor_shiftl_add, Z.lor_spec, Z.shiftl_spec by (done || lia).
  destruct (Z.lt_ge_cases k 8) as [Hlt|Hge].
  - rewrite Z.testbit_neg_r by lia. by rewrite Z.div_small, Z.mod_small by lia.
  - rewrite IH by lia. apply in_range_bits in Hb as [_ Hb]; [|lia]. rewrite (Hb k) by lia.
    rewrite orb_false_r. replace k with ((k - 8) + 1 * 8) at 3 4 by lia.
    rewrite Z.div_add, Z.mod_add by lia. rewrite Z2Nat.inj_add by (try apply Z.div_pos; lia).
    by rewrite Nat.add_1_r.
Qed.

Lemma byte_at_range a i : in_range 8 (byte_at a i).
Proof. apply Z.mod_pos_bound. lia. Qed.

Lemma testbit_byte_at a i j :
  0 <= i -> 0 <= j < 8 -> Z.testbit (byte_at a i) j = Z.testbit a (8 * i + j).
Proof.
  intros Hi Hj. unfold byte_at. change 256 with (2 ^ 8).
  rewrite Z.mod_pow2_bits_low, <- Z.shiftr_div_pow2, Z.shiftr_spec by lia. f_equal. lia.
Qed.

Lemma bswap64_rev8 a : bswap64 a = rev8 a.
Proof.
  assert (E : bswap64 a = foldr (fun b r => r * 256 + b) 0 (byte_at a <$> [7; 6; 5; 4; 3; 2; 1; 0]))
    by done.
  apply Z.bits_inj'. intros k Hk. unfold rev8. rewrite testbit_of_bits, E, testbit_bytes by
    (done || by repeat (apply Forall_cons_2 || apply Forall_nil_2 || apply byte_at_range)).
  pose proof (Z.mod_pos_bound k 8). assert (Hd : k / 8 = 0 \/ k / 8 = 1 \/ k / 8 = 2 \/ k / 8 = 3 \/
    k / 8 = 4 \/ k / 8 = 5 \/ k / 8 = 6 \/ k / 8 = 7 \/ 8 <= k / 8)
    by (pose proof (Z.div_pos k 8); lia).
  pose proof (Z.div_mod k 8).
  destruct (Z.ltb_spec k (Z.of_nat 64)) as [Hlt|Hge].
  - destruct Hd as [D|[D|[D|[D|[D|[D|[D|[D|D]]]]]]]]; [..|lia]; rewrite D;
      match goal with |- context [Z.to_nat ?z] =>
        let j := eval vm_compute in (Z.to_nat z) in change (Z.to_nat z) with j end;
      cbn [nth fmap list_fmap]; by rewrite testbit_byte_at by lia.
  - assert (Z.to_nat (k / 8) >= 8)%nat by lia. rewrite nth_overflow by (cbn; lia). apply Z.bits_0.
Qed.

(** ** Loops that assemble a word from its fields *)

Lemma for_range_ext lo hi f g r :
  (forall i r, lo <= i < hi -> f i r = g i r) -> 0 <= lo -> for_range lo hi f r = for_range lo hi g r.
Proof.
  intros H Hlo. unfold for_range.
  assert (Hl : forall i, i ∈ seq (Z.to_nat lo) (Z.to_nat (hi - lo)) -> lo <= Z.of_nat i < hi)
    by (intros i Hi%elem_of_seq; lia).
  revert r Hl. induction (seq _ _) as [|i l IH]; intros r Hl; [done|]. cbn [foldl].
  rewrite H by (apply Hl; by left). apply IH. intros j Hj. apply Hl. by right.
Qed.

Lemma for_range_S lo n f r :
  0 <= lo -> for_range lo (lo + Z.of_nat (S n)) f r
    = f (lo + Z.of_nat n) (for_range lo (lo + Z.of_nat n) f r).
Proof.
  intros Hlo. unfold for_range.
  replace (Z.to_nat (lo + Z.of_nat (S n) - lo)) with (n + 1)%nat by lia.
  replace (Z.to_nat (lo + Z.of_nat n - lo)) with n by lia.
  rewrite seq_app, foldl_app. cbn [seq foldl]. f_equal. lia.
Qed.

Lemma for_fields s (field : Z -> Z) n :
  0 < s -> (forall i, 0 <= i < Z.of_nat n -> in_range s (field i)) -> Z.of_nat n * s <= 64 ->
  let r := for_range 0 (Z.of_nat n) (fun i r => Z.lor r (shl 64 (field i) (i * s))) 0 in
  in_range (Z.of_nat n * s) r /\
  forall k, 0 <= k < Z.of_nat n * s -> Z.testbit r k = Z.testbit (field (k / s)) (k mod s).
Proof.
  intros Hs Hf Hn. induction n as [|n IH].
  { split; [done|]. intros k Hk. lia. }
  destruct IH as [IHr IHk]; [intros; apply Hf; lia|lia|].
  pose proof (for_range_S 0 n (fun i r => Z.lor r (shl 64 (field i) (i * s))) 0 ltac:(lia)) as E.
  rewrite !Z.add_0_l in E. cbv zeta. rewrite E. clear E.
  set (r := for_range 0 (Z.of_nat n) _ 0) in *.
  assert (Hfn : in_range s (field (Z.of_nat n))) by (apply Hf; lia).
  assert (Hsh : shl 64 (field (Z.of_nat n)) (Z.of_nat n * s)
    = Z.shiftl (field (Z.of_nat n)) (Z.of_nat n * s)).
  { apply wrap_small. rewrite Z.shiftl_mul_pow2 by lia. split; [unfold in_range in Hfn; nia|].
    apply Z.lt_le_trans with (2 ^ (s + Z.of_nat n * s)); [|apply Z.pow_le_mono_r; lia].
    rewrite Z.pow_add_r by lia. apply Z.mul_lt_mono_pos_r; [apply Z.pow_pos_nonneg; lia|apply Hfn]. }
  rewrite Hsh, Z.lor_comm, lor_shiftl_add by (done || lia). split.
  - unfold in_range in *. replace (Z.of_nat (S n) * s) with (s + Z.of_nat n * s) by lia.
    rewrite Z.pow_add_r by lia. nia.
  - intros k Hk. rewrite <- lor_shiftl_add, Z.lor_spec, Z.shiftl_spec by (done || lia).
    destruct (Z.lt_ge_cases k (Z.of_nat n * s)) as [Hlt|Hge].
    + rewrite Z.testbit_neg_r by lia. cbn [orb]. apply IHk. lia.
    + apply in_range_bits in IHr as [_ IHr]; [|lia]. rewrite IHr, orb_false_r by lia.
      assert (D : k / s = Z.of_nat n) by (symmetry; apply (Z.div_unique _ _ _ (k - Z.of_nat n * s)); lia).
      rewrite D. f_equal. rewrite Z.mod_eq, D by lia. lia.
Qed.

Lemma lor_shl_0 r n : Z.lor r (shl 64 0 n) = r.
Proof. unfold shl. rewrite Z.shiftl_0_l. apply Z.lor_0_r. Qed.

(** A loop over the fields of a result against the reference's bits. *)
Lemma fields_are_bits s n (field : Z -> Z) step (f : Z -> bool) :
  0 < s -> Z.of_nat n * s = 64 -> (forall i, 0 <= i < Z.of_nat n -> in_range s (field i)) ->
  (forall i r, 0 <= i < Z.of_nat n -> step i r = Z.lor r (shl 64 (field i) (i * s))) ->
  (forall k, 0 <= k < 64 -> Z.testbit (field (k / s)) (k mod s) = f k) ->
  for_range 0 (Z.of_nat n) step 0 = of_bits 64 f.
Proof.
  intros Hs Hn Hf Hstep Hbit. rewrite (for_range_ext _ _ _ _ _ Hstep) by lia.
  destruct (for_fields s field n) as [Hr Hk]; [done|done|lia|]. rewrite Hn in *.
  apply (word_ext 64); [lia|done|apply (of_bits_range 64)|]. intros k Hk'.
  rewrite Hk, Hbit, testbit_of_bits by lia. by destruct (Z.ltb_spec k (Z.of_nat 64)); [|lia].
Qed.

Lemma land_byte a i : 0 <= i -> Z.land (shr a (i * 8)) 0xFF = byte_at a i.
Proof.
  intros Hi. change 0xFF with (Z.ones 8). rewrite Z.land_ones by lia. unfold byte_at, shr.
  rewrite Z.shiftr_div_pow2 by lia. do 3 f_equal. lia.
Qed.

Lemma index_of k s : 0 < s -> 0 <= k < 64 -> 0 <= k / s /\ 0 <= k mod s < s /\ s * (k / s) <= k.
Proof.
  intros Hs Hk. pose proof (Z.mod_pos_bound k s). pose proof (Z.div_pos k s).
  pose proof (Z.mul_div_le k s). lia.
Qed.

Lemma helper_orc_b_ok a : helper_orc_b a = orcb a.
Proof.
  unfold orcb. apply (fields_are_bits 8 8 (fun i => if byte_at a i =? 0 then 0 else 0xFF));
    [lia|lia|intros i Hi; by destruct (_ =? 0)| |].
  - intros i r Hi. cbv zeta. rewrite land_byte by lia. destruct (_ =? 0); [|done].
    by rewrite lor_shl_0.
  - intros k Hk. destruct (index_of k 8) as (H1 & H2 & _); [lia|done|].
    destruct (_ =? 0); [apply Z.bits_0|]. change 255 with (Z.ones 8). rewrite testbit_ones by lia.
    destruct (Z.leb_spec 0 (k mod 8)), (Z.ltb_spec (k mod 8) 8); (lia || done).
Qed.

Lemma testbit_reverse_bits8 b j :
  0 <= j < 8 -> Z.testbit (reverse_bits8 b) j = Z.testbit b (7 - j).
Proof.
  intros Hj. assert (H : forall n, Z.of_nat n <= 8 -> Z.testbit (for_range 0 (0 + Z.of_nat n)
    (fun k r => if Z.testbit b (7 - k) then Z.lor r (shl 8 1 k) else r) 0) j
    = (j <? Z.of_nat n) && Z.testbit b (7 - j)).
  { induction n as [|n IH]; intros Hn.
    { trans (Z.testbit 0 j); [done|]. rewrite Z.bits_0.
      by destruct (Z.ltb_spec j (Z.of_nat 0)); [lia|]. }
    rewrite for_range_S, Z.add_0_l by lia. rewrite Z.add_0_l in IH. specialize (IH ltac:(lia)).
    assert (Hs : Z.testbit (shl 8 1 (Z.of_nat n)) j = (j =? Z.of_nat n)).
    { unfold shl. rewrite Z.shiftl_1_l, testbit_wrap, testbit_pow2 by lia.
      by destruct (Z.ltb_spec j 8); [|lia]. }
    destruct (Z.testbit b (7 - Z.of_nat n)) eqn:Eb; rewrite ?Z.lor_spec, IH, ?Hs;
      destruct (Z.ltb_spec j (Z.of_nat n)), (Z.ltb_spec j (Z.of_nat (S n))), (Z.eqb_spec j (Z.of_nat n));
      subst; cbn [andb]; rewrite ?orb_false_r, ?Eb; (lia || done). }
  etrans; [exact (H 8%nat ltac:(lia))|]. by destruct (Z.ltb_spec j (Z.of_nat 8)); [|lia].
Qed.

Lemma reverse_bits8_range b : in_range 8 (reverse_bits8 b).
Proof.
  unfold reverse_bits8. unfold for_range.
  generalize (seq (Z.to_nat 0) (Z.to_nat (8 - 0))). intros l.
  assert (H : forall r, in_range 8 r -> in_range 8 (foldl (fun r i =>
    if Z.testbit b (7 - Z.of_nat i) then Z.lor r (shl 8 1 (Z.of_nat i)) else r) r l)); [|by apply H].
  induction l as [|i l IH]; intros r Hr; [done|]. cbn [foldl]. apply IH.
  destruct (Z.testbit _ _); [|done]. apply lor_range; [lia|done|]. by apply shl_range.
Qed.

Lemma helper_brev8_ok a : helper_brev8 a = brev8 a.
Proof.
  unfold brev8. apply (fields_are_bits 8 8 (fun i => reverse_bits8 (byte_at a i)));
    [lia|lia|intros; apply reverse_bits8_range| |].
  - intros i r Hi. rewrite land_byte by lia. do 3 f_equal. apply wrap_small, byte_at_range.
  - intros k Hk. destruct (index_of k 8) as (H1 & H2 & _); [lia|done|].
    rewrite testbit_reverse_bits8, testbit_byte_at by lia. done.
Qed.

Lemma helper_xperm8_ok a b : helper_xperm8 a b = xperm8 a b.
Proof.
  unfold xperm8. apply (fields_are_bits 8 8 (fun i => let j := byte_at b i in
    if j <? 8 then byte_at a j else 0)); [lia|lia| | |].
  - intros i Hi. cbv zeta. destruct (_ <? 8); [apply byte_at_range|done].
  - intros i r Hi. cbv zeta. rewrite land_byte by lia. destruct (_ <? 8); [|by rewrite lor_shl_0].
    rewrite land_byte; [done|]. apply byte_at_range.
  - intros k Hk. destruct (index_of k 8) as (H1 & H2 & _); [lia|done|]. cbv zeta.
    pose proof (byte_at_range b (k / 8)) as Hb. unfold in_range in Hb.
    destruct (Z.ltb_spec (byte_at b (k / 8)) 8); cbn [andb]; [|apply Z.bits_0].
    by rewrite testbit_byte_at by lia.
Qed.

Lemma land_nibble a i : 0 <= i -> Z.land (shr a (i * 4)) 0xF = a / 2 ^ (4 * i) mod 16.
Proof.
  intros Hi. change 0xF with (Z.ones 4). rewrite Z.land_ones by lia. unfold shr.
  rewrite Z.shiftr_div_pow2 by lia. do 3 f_equal. lia.
Qed.

Lemma testbit_nibble a i j :
  0 <= i -> 0 <= j < 4 -> Z.testbit (a / 2 ^ (4 * i) mod 16) j = Z.testbit a (4 * i + j).
Proof.
  intros Hi Hj. change 16 with (2 ^ 4).
  rewrite Z.mod_pow2_bits_low, <- Z.shiftr_div_pow2, Z.shiftr_spec by lia. f_equal. lia.
Qed.

Lemma helper_xperm4_ok a b : helper_xperm4 a b = xperm4 a b.
Proof.
  unfold xperm4. set (nib v i := v / 2 ^ (4 * i) mod 16).
  assert (Hnib : forall v i, 0 <= nib v i < 16) by (intros; apply Z.mod_pos_bound; lia).
  apply (fields_are_bits 4 16 (fun i => nib a (nib b i))); [lia|lia|intros; apply Hnib| |].
  - intros i r Hi. cbv zeta. rewrite (land_nibble b) by lia. rewrite land_nibble by apply Hnib. done.
  - intros k Hk. destruct (index_of k 4) as (H1 & H2 & _); [lia|done|].
    unfold nib at 1. rewrite testbit_nibble by (apply Hnib || lia). done.
Qed.

(** ** Carry-less multiplication *)

Lemma land_bit b i : 0 <= i -> (Z.land (shr b i) 1 =? 0) = negb (Z.testbit b i).
Proof.
  intros Hi. unfold shr. rewrite <- (Z.add_0_l i) at 2. rewrite <- Z.shiftr_spec by lia.
  rewrite Z.bit0_odd. change 1 with (Z.ones 1). rewrite Z.land_ones by lia.
  change (2 ^ 1) with 2. rewrite Zmod_odd. by destruct (Z.odd _).
Qed.

(** The loops of the three helpers: [h i] is the shifted multiplicand. *)
Lemma xor_loop b (h : Z -> Z) lo n k (t : Z -> bool) :
  0 <= lo -> (forall i, lo <= i < lo + Z.of_nat n -> Z.testbit (h i) k = t i) ->
  Z.testbit (for_range lo (lo + Z.of_nat n)
    (fun i r => if Z.land (shr b i) 1 =? 0 then r else Z.lxor r (h i)) 0) k
  = foldl (fun c i => xorb c (Z.testbit b (Z.of_nat i) && t (Z.of_nat i))) false (seq (Z.to_nat lo) n).
Proof.
  intros Hlo. induction n as [|n IH]; intros Ht.
  { unfold for_range. rewrite Z.add_0_r, Z.sub_diag. apply Z.bits_0. }
  rewrite for_range_S by done. replace (seq (Z.to_nat lo) (S n)) with
    (seq (Z.to_nat lo) n ++ [(Z.to_nat lo + n)%nat]) by (by rewrite <- seq_S).
  rewrite foldl_app. cbn [foldl]. rewrite <- IH by (intros; apply Ht; lia).
  replace (Z.of_nat (Z.to_nat lo + n)) with (lo + Z.of_nat n) by lia.
  rewrite land_bit by lia. destruct (Z.testbit b _); cbn [negb andb]; [|by rewrite xorb_false_r].
  rewrite Z.lxor_spec. f_equal. apply Ht. lia.
Qed.

Lemma clmul_bit_fold n a b k :
  clmul_bit n a b k
  = foldl (fun c i => xorb c (Z.testbit b (Z.of_nat i) && Z.testbit a (k - Z.of_nat i))) false (seq 0 n).
Proof.
  induction n as [|n IH]; [done|]. rewrite seq_S, foldl_app. cbn [clmul_bit foldl]. by rewrite IH.
Qed.

Lemma for_range_fold_range lo hi f r :
  (forall i r, lo <= i < hi -> in_range 64 r -> in_range 64 (f i r)) -> 0 <= lo -> in_range 64 r ->
  in_range 64 (for_range lo hi f r).
Proof.
  intros H Hlo. unfold for_range.
  assert (Hl : forall i, i ∈ seq (Z.to_nat lo) (Z.to_nat (hi - lo)) -> lo <= Z.of_nat i < hi)
    by (intros i Hi%elem_of_seq; lia).
  revert r Hl. induction (seq _ _) as [|i l IH]; intros r Hl Hr; [done|]. cbn [foldl].
  apply IH; [intros j Hj; apply Hl; by right|]. apply H; [apply Hl; by left|done].
Qed.

Lemma helper_clmul_ok a b : in_range 64 a -> helper_clmul a b = clmul a b.
Proof.
  intros Ha. apply (word_ext 64); [lia| |apply (of_bits_range 64)|].
  - apply for_range_fold_range; [|lia|done]. intros i r Hi Hr. destruct (_ =? 0); [done|].
    apply lxor_range; [lia|done|]. by apply shl_range.
  - intros k Hk. unfold clmul. rewrite testbit_of_bits, clmul_bit_fold by lia.
    destruct (Z.ltb_spec k (Z.of_nat 64)); [|lia]. cbn [andb].
    apply (xor_loop b (fun i => shl 64 a i) 0 64 k (fun i => Z.testbit a (k - i))); [lia|].
    intros i Hi. unfold shl. rewrite testbit_wrap, Z.shiftl_spec by lia.
    by destruct (Z.ltb_spec k 64); [|lia].
Qed.

Lemma helper_clmulh_ok a b : in_range 64 a -> helper_clmulh a b = clmulh a b.
Proof.
  intros Ha. apply (word_ext 64); [lia| |apply (of_bits_range 64)|].
  - apply for_range_fold_range; [|lia|done]. intros i r Hi Hr. destruct (_ =? 0); [done|].
    apply lxor_range; [lia|done|]. apply shr_range; (lia || done).
  - intros k Hk. unfold clmulh. rewrite testbit_of_bits, clmul_bit_fold by lia.
    destruct (Z.ltb_spec k (Z.of_nat 64)); [|lia]. cbn [andb].
    etrans; [apply (xor_loop b (fun i => shr a (64 - i)) 1 63 k (fun i => Z.testbit a (k + 64 - i))); [lia|]|].
    { intros i Hi. unfold shr. rewrite Z.shiftr_spec by lia. f_equal. lia. }
    change (seq 0 64) with (0%nat :: seq 1 63). cbn [foldl]. f_equal.
    apply in_range_bits in Ha as [_ Ha]; [|lia]. rewrite (Ha (k + 64 - Z.of_nat 0)) by lia.
    by rewrite andb_false_r.
Qed.

Lemma helper_clmulr_ok a b : in_range 64 a -> helper_clmulr a b = clmulr a b.
Proof.
  intros Ha. apply (word_ext 64); [lia| |apply (of_bits_range 64)|].
  - apply for_range_fold_range; [|lia|done]. intros i r Hi Hr. destruct (_ =? 0); [done|].
    apply lxor_range; [lia|done|]. apply shr_range; (lia || done).
  - intros k Hk. unfold clmulr. rewrite testbit_of_bits, clmul_bit_fold by lia.
    destruct (Z.ltb_spec k (Z.of_nat 64)); [|lia]. cbn [andb].
    apply (xor_loop b (fun i => shr a (63 - i)) 0 64 k (fun i => Z.testbit a (k + 63 - i))); [lia|].
    intros i Hi. unfold shr. rewrite Z.shiftr_spec by lia. f_equal. lia.
Qed.

(** ** Signed division *)

Lemma signed_zero w v : 0 < w -> in_range w v -> (signed w v =? 0) = (v =? 0).
Proof.
  intros Hw [H0 H1]. unfold signed. destruct (Z.ltb_spec v (2 ^ (w - 1))); [done|].
  pose proof (Z.pow_pos_nonneg 2 (w - 1)).
  destruct (Z.eqb_spec (v - 2 ^ w) 0), (Z.eqb_spec v 0); (lia || done).
Qed.

Lemma helper_divs64_ok v u :
  in_range 64 v -> in_range 64 u ->
  helper_divs64 v u = if u =? 0 then u64_max else u64 (Z.quot (signed 64 v) (signed 64 u)).
Proof.
  intros Hv Hu. unfold helper_divs64. rewrite signed_zero by (lia || done).
  destruct (u =? 0); [done|]. destruct (Z.eqb_spec (signed 64 v) (- 2 ^ 63)) as [->|]; [|done].
  by destruct (Z.eqb_spec (signed 64 u) (-1)) as [->|].
Qed.

Lemma helper_rems64_ok v u :
  in_range 64 v -> in_range 64 u ->
  helper_rems64 v u = if u =? 0 then v else u64 (Z.rem (signed 64 v) (signed 64 u)).
Proof.
  intros Hv Hu. unfold helper_rems64. rewrite signed_zero by (lia || done).
  destruct (u =? 0). { rewrite wrap_signed by lia. by apply wrap_small. }
  destruct (Z.eqb_spec (signed 64 v) (- 2 ^ 63)) as [->|]; [|done].
  by destruct (Z.eqb_spec (signed 64 u) (-1)) as [->|].
Qed.

Lemma sext32_small q : - 2 ^ 31 <= q < 2 ^ 31 -> sext 32 q = u64 q.
Proof. intros Hq. unfold sext. by rewrite (signed_wrap 32) by lia. Qed.

Lemma quot32_range a b :
  - 2 ^ 31 <= a < 2 ^ 31 -> b <> 0 -> (a = - 2 ^ 31 -> b <> -1) ->
  - 2 ^ 31 <= Z.quot a b < 2 ^ 31.
Proof.
  intros Ha Hb Ho. pose proof (Z.quot_rem' a b) as E. pose proof (Z.rem_bound_abs a b Hb) as Hr.
  assert (Hs : 0 <= Z.rem a b * a) by (apply Z.rem_sign_mul; done).
  destruct (decide (b = 1)) as [->|]; [rewrite Z.quot_1_r; lia|].
  destruct (decide (b = -1)) as [->|].
  { assert (Z.rem a (-1) = 0) by lia. lia. }
  set (q := Z.quot a b) in *. set (r := Z.rem a b) in *. clearbody q r.
  destruct (Z.lt_ge_cases q (2 ^ 31)) as [|Hq]; [destruct (Z.lt_ge_cases q (- 2 ^ 31)); [|lia]|]; nia.
Qed.

Lemma rem32_range a b :
  - 2 ^ 31 <= b < 2 ^ 31 -> b <> 0 -> - 2 ^ 31 <= Z.rem a b < 2 ^ 31.
Proof. intros Hb Hn. pose proof (Z.rem_bound_abs a b Hn). lia. Qed.

Lemma helper_divw64_ok v u :
  helper_divw64 v u = if wrap 32 u =? 0 then u64_max
    else sext 32 (Z.quot (signed 32 (wrap 32 v)) (signed 32 (wrap 32 u))).
Proof.
  unfold helper_divw64. pose proof (wrap_range 32 v ltac:(lia)) as Hv.
  pose proof (wrap_range 32 u ltac:(lia)) as Hu.
  pose proof (signed_range 32 _ ltac:(lia) Hv) as Sv. pose proof (signed_range 32 _ ltac:(lia) Hu) as Su.
  change (32 - 1) with 31 in *. rewrite <- (signed_zero 32 (wrap 32 u)) by (lia || done).
  destruct (Z.eqb_spec (signed 32 (u32 u)) 0) as [|Hn]; [done|].
  destruct (Z.eqb_spec (signed 32 (u32 v)) (- 2 ^ 31)) as [->|Ho]; cbn [andb].
  - destruct (Z.eqb_spec (signed 32 (u32 u)) (-1)) as [->|Ho]; [done|].
    by rewrite sext32_small by (apply quot32_range; lia).
  - by rewrite sext32_small by (apply quot32_range; lia).
Qed.

Lemma helper_remw64_ok v u :
  helper_remw64 v u = if wrap 32 u =? 0 then sext 32 (wrap 32 v)
    else sext 32 (Z.rem (signed 32 (wrap 32 v)) (signed 32 (wrap 32 u))).
Proof.
  unfold helper_remw64. pose proof (wrap_range 32 v ltac:(lia)) as Hv.
  pose proof (wrap_range 32 u ltac:(lia)) as Hu.
  pose proof (signed_range 32 _ ltac:(lia) Hu) as Su.
  change (32 - 1) with 31 in *. rewrite <- (signed_zero 32 (wrap 32 u)) by (lia || done).
  destruct (Z.eqb_spec (signed 32 (u32 u)) 0) as [|Hn].
  { unfold sext. by rewrite (wrap_small 32 (wrap 32 v)) by done. }
  rewrite sext32_small by (apply rem32_range; lia).
  destruct (Z.eqb_spec (signed 32 (u32 v)) (- 2 ^ 31)) as [->|Ho]; [|done].
  by destruct (Z.eqb_spec (signed 32 (u32 u)) (-1)) as [->|].
Qed.
