(* ===== verification/RvEmit.v ===== *)
(** * Running emitted RISC-V code

    What the correctness proofs of the RISC-V front end share: where the guest registers
    live in the temporaries of a block, the emission rules of the register accesses, the
    tactics that run a builder program and then the ops it emitted, and the judgement
    [computes] for instructions that write one register. *)

From Stdlib Require Import ZArith Lia Bool.
From stdpp Require Import base tactics numbers list gmap functions.
From S2P Require Import Prelude IrTypes IrOpcode IrContext IrBuild IrSem IrHost Tb RvInsn RvIsa RvTrans.
Import Opcode.

(** ** Helper functions *)

Definition helper_fn (h : Helper) (args : list Z) : option Z :=
  match args with
  | a :: b :: _ =>
      match h with
      | H_divs64 => Some (helper_divs64 a b) | H_rems64 => Some (helper_rems64 a b)
      | H_divw64 => Some (helper_divw64 a b) | H_remw64 => Some (helper_remw64 a b)
      | H_orc_b => Some (helper_orc_b a) | H_brev8 => Some (helper_brev8 a)
      | H_xperm4 => Some (helper_xperm4 a b) | H_xperm8 => Some (helper_xperm8 a b)
      | H_clmul => Some (helper_clmul a b) | H_clmulh => Some (helper_clmulh a b)
      | H_clmulr => Some (helper_clmulr a b)
      | H_sc => None
      end
  | _ => None
  end.

Definition all_helpers : list Helper :=
  [H_divs64; H_rems64; H_divw64; H_remw64; H_orc_b; H_brev8; H_xperm4; H_xperm8;
   H_clmul; H_clmulh; H_clmulr; H_sc].

(** ** Guest registers in the store

    [gen_code] numbers the globals: the CPU pointer 0, [x0] to [x31] from 1, the program
    counter 33, the reservation 34 and 35, the fault address 36. *)

Definition nb_guest : nat := 37.

Record layout (d : Dis) : Prop := mk_layout {
  lay_env : env d = 0%N;
  lay_gpr : gpr d = N.of_nat <$> seq 1 32;
  lay_pc : pc d = 33%N;
  lay_res : load_res d = 34%N;
  lay_val : load_val d = 35%N
}.

Definition reg_temp (r : Z) : N := Z.to_N (r + 1).

Record base (E : tenv) (n : N) : Prop := mk_base {
  base_n : (37 <= n)%N;
  base_var : forall t, (t < 37)%N -> E !! t = Some (Var Ty.I64)
}.

Record guest (ts : list Temp.Temp) (σ : N -> Z) (x : Z -> Z) : Prop := mk_guest {
  guest_reg : forall r, 1 <= r < 32 -> read ts σ (reg_temp r) = x r;
  guest_range : forall t, (t < 37)%N -> in_range 64 (read ts σ t)
}.

(** A temp that holds the value of a register operand. *)
Definition holds_reg (E : tenv) (t : N) (r : Z) : Prop :=
  r = 0 /\ E !! t = Some (Cst Ty.I64 0) \/ 1 <= r < 32 /\ t = reg_temp r.

Definition is_reg (r : Z) : Prop := 0 <= r < 32.

Lemma gpr_temp_eq d r : layout d -> 1 <= r < 32 -> gpr d !! Z.to_nat r = Some (reg_temp r).
Proof.
  intros [_ Hg _ _ _] Hr. rewrite Hg, list_lookup_fmap, lookup_seq_lt by lia. cbn.
  f_equal. unfold reg_temp. lia.
Qed.

Lemma base_mono E E' n n' : base E n -> E ⊆ E' -> (n <= n')%N -> base E' n'.
Proof.
  intros [Hn Hv] Hs Hle. split; [lia|]. intros t Ht. eapply lookup_weaken; [by apply Hv|done].
Qed.

Lemma holds_reg_mono E E' t r : holds_reg E t r -> E ⊆ E' -> holds_reg E' t r.
Proof.
  intros [[-> He]|Hr] Hs; [left|by right]. split; [done|]. by eapply lookup_weaken.
Qed.

Lemma read_reg ts E σ x t r :
  typed ts E -> guest ts σ x -> holds_reg E t r -> read ts σ t = get x r.
Proof.
  intros Ht Hg [[-> He]|[Hr ->]]; [by eapply read_cst|].
  rewrite (guest_reg _ _ _ Hg r Hr). unfold get. by destruct (Z.eqb_spec r 0); [lia|].
Qed.

Lemma get_range ts σ x r : guest ts σ x -> is_reg r -> in_range 64 (get x r).
Proof.
  intros Hg Hr. unfold get. destruct (Z.eqb_spec r 0); [by split|].
  rewrite <- (guest_reg _ _ _ Hg) by (unfold is_reg in Hr; lia).
  apply (guest_range _ _ _ Hg). unfold reg_temp, is_reg in *. lia.
Qed.

Lemma wrap_get ts σ x r : guest ts σ x -> is_reg r -> wrap 64 (get x r) = get x r.
Proof. intros Hg Hr. apply wrap_small. by eapply get_range. Qed.

(** A write to a local temp does not touch the guest state. *)
Lemma guest_upd ts σ x d v σ1 : guest ts σ x -> upd ts σ d v σ1 -> (37 <= d)%N -> guest ts σ1 x.
Proof.
  intros [Hr Hg] [_ Hu] Hd. split.
  - intros r Hr'. rewrite Hu; [by apply Hr|]. unfold reg_temp. lia.
  - intros t Ht. rewrite Hu by lia. by apply Hg.
Qed.

(** A write to the temp of a register. *)
Lemma guest_put ts σ x rd v σ1 :
  guest ts σ x -> 1 <= rd < 32 -> in_range 64 v -> upd ts σ (reg_temp rd) v σ1 ->
  guest ts σ1 (put x rd v).
Proof.
  intros [Hr Hg] Hrd Hv [Hd Hu]. unfold put. destruct (Z.eqb_spec rd 0); [lia|]. split.
  - intros r Hr'. destruct (decide (r = rd)) as [->|Hne]; [by rewrite fn_lookup_insert|].
    rewrite fn_lookup_insert_ne by done. rewrite Hu by (unfold reg_temp; lia). by apply Hr.
  - intros t Ht. destruct (decide (t = reg_temp rd)) as [->|Hne]; [by rewrite Hd|].
    rewrite Hu by done. by apply Hg.
Qed.

(** A write to the program counter. *)
Lemma guest_pc ts σ x v σ1 : guest ts σ x -> upd ts σ 33 v σ1 -> in_range 64 v -> guest ts σ1 x.
Proof.
  intros [Hr Hg] [Hd Hu] Hv. split.
  - intros r Hr'. rewrite Hu; [by apply Hr|]. unfold reg_temp. lia.
  - intros t Ht. destruct (decide (t = 33%N)) as [->|Hne]; [by rewrite Hd|].
    rewrite Hu by done. by apply Hg.
Qed.

Lemma wrap_id v : in_range 64 v -> wrap 64 v = v.
Proof. apply wrap_small. Qed.

Lemma wrap64_twice v : wrap 64 (wrap 64 v) = wrap 64 v.
Proof. apply wrap_small, wrap_range. lia. Qed.

Lemma wrap32_twice v : wrap 32 (wrap 32 v) = wrap 32 v.
Proof. apply wrap_small, wrap_range. lia. Qed.

Lemma wrap64_b2z b : wrap 64 (Z.b2z b) = Z.b2z b.
Proof. apply wrap_small. destruct b; unfold in_range; cbn [Z.b2z]; lia. Qed.

Lemma wrap64_wrap32 v : wrap 64 (wrap 32 v) = wrap 32 v.
Proof. apply wrap_small, (in_range_le 32); [lia|]. apply wrap_range. lia. Qed.

(** ** Emitting register accesses *)

Lemma spec_gpr_or_zero d r E n (Φ : N -> list Op.Op -> tenv -> N -> Prop) :
  layout d -> is_reg r -> base E n ->
  (forall t E' n', E ⊆ E' -> (n <= n')%N -> (t < n')%N -> holds_reg E' t r -> Φ t [] E' n') ->
  spec (gpr_or_zero d r) E n Φ.
Proof.
  intros Hl Hr Hb H. unfold gpr_or_zero, is_reg in *. destruct (Z.eqb_spec r 0) as [->|Hr0].
  - apply spec_new_const. intros t E' n' Hs Hn Ht He. apply H; [done..|by left].
  - unfold gpr_temp. destruct (Z.ltb_spec r 0); [lia|].
    eapply spec_expect; [by apply gpr_temp_eq; [|lia]|].
    apply H; [done|lia| |right; split; [lia|done]].
    pose proof (base_n _ _ Hb). unfold reg_temp. lia.
Qed.

Inductive set_ops (opc : Opcode) (rd : Z) (t : N) : list Op.Op -> Prop :=
| set_zero : rd = 0 -> set_ops opc rd t []
| set_reg k : 1 <= rd < 32 -> set_ops opc rd t [Op.with_args k opc Ty.I64 [reg_temp rd; t]].

Lemma spec_set_reg d rd t (opc : Opcode) (gen : N -> N -> Ir N) E n
    (Φ : unit -> list Op.Op -> tenv -> N -> Prop) :
  (forall g s, gen g s = emit_unary opc Ty.I64 g s) ->
  layout d -> is_reg rd -> (forall l, set_ops opc rd t l -> Φ tt l E n) ->
  spec (if rd =? 0 then mret tt else g ← gpr_temp d rd; gen g t ;; mret tt) E n Φ.
Proof.
  intros Hg Hl Hr H. unfold is_reg in *. destruct (Z.eqb_spec rd 0) as [->|Hr0].
  { apply spec_ret, H. by constructor. }
  apply spec_bind. unfold gpr_temp. destruct (Z.ltb_spec rd 0); [lia|].
  eapply spec_expect; [by apply gpr_temp_eq; [|lia]|]. intros _ _.
  rewrite Hg. unfold emit_unary. apply spec_bind, spec_bind, spec_emit. intros k _ _.
  apply spec_ret. intros _ _. apply spec_ret. cbn [app]. apply H. constructor. lia.
Qed.

Lemma spec_set_gpr d rd t E n (Φ : unit -> list Op.Op -> tenv -> N -> Prop) :
  layout d -> is_reg rd -> (forall l, set_ops Mov rd t l -> Φ tt l E n) ->
  spec (gen_set_gpr d rd t) E n Φ.
Proof. by apply spec_set_reg. Qed.

Lemma spec_set_gpr_sx32 d rd t E n (Φ : unit -> list Op.Op -> tenv -> N -> Prop) :
  layout d -> is_reg rd -> (forall l, set_ops ExtI32I64 rd t l -> Φ tt l E n) ->
  spec (gen_set_gpr_sx32 d rd t) E n Φ.
Proof. by apply spec_set_reg. Qed.

(** [n] new temporaries of one helper each are drawn by the rules above; the tactic
    [build] runs a builder program symbolically, keeping [base] up to date. *)
Ltac build_step :=
  lazymatch goal with
  | |- spec (mret _) _ _ _ => apply spec_ret
  | |- spec (_ ≫= _) _ _ _ => apply spec_bind
  | |- spec (emit _ _ _) _ _ _ => apply spec_emit; intros ?k
  | |- spec (new_temp _) _ _ _ => apply spec_new_temp; intros ?t ?E ?Hsub ?Hfresh ?Hvar
  | |- spec new_label _ _ _ => apply spec_new_label; intros ?lab
  | |- spec (new_const _ _) _ _ _ => apply spec_new_const; intros ?t ?E ?n ?Hsub ?Hle ?Hlt ?Hcst
  | |- spec (gpr_or_zero _ _) _ _ _ =>
      apply spec_gpr_or_zero; [assumption|assumption|assumption|intros ?t ?E ?n ?Hsub ?Hle ?Hlt ?Hreg]
  | |- spec (gen_set_gpr _ _ _) _ _ _ => apply spec_set_gpr; [assumption|assumption|intros ?l ?Hset]
  | |- spec (gen_set_gpr_sx32 _ _ _) _ _ _ =>
      apply spec_set_gpr_sx32; [assumption|assumption|intros ?l ?Hset]
  | |- spec ?m _ _ _ => let h := get_head m in unfold h
  end.

Ltac build_intro :=
  lazymatch goal with
  | Hb : base ?E ?n |- _ ⊆ ?E -> _ => intros _ _
  | Hb : base ?E ?n |- ?E ⊆ _ -> _ -> _ =>
      let Hs := fresh "Hsub" in let Hn := fresh "Hle" in
      intros Hs Hn; apply (base_mono _ _ _ _ Hb Hs) in Hn; clear Hb; rename Hn into Hb
  end.

Ltac build := repeat (build_step; cbn beta; try build_intro).

(** ** Executing what was emitted *)

Definition plain_op (op : Op.Op) : Prop := Op.opc op <> SetLabel /\ Op.opc op <> InsnStart.

Lemma set_ops_plain opc rd t l :
  set_ops opc rd t l -> opc <> SetLabel -> opc <> InsnStart -> Forall plain_op l.
Proof. intros [|] ? ?; repeat constructor; done. Qed.

(** The guest registers after writes to local temporaries. *)
Ltac unchanged :=
  first [ eassumption | eapply guest_upd; [|eassumption|]; [unchanged|lia] ].

(** [upd] facts are resolved lazily: the value of a temp is the one of the last write. *)
Ltac value :=
  lazymatch goal with
  | |- read ?ts ?σ ?t = _ =>
      first
      [ eapply read_cst; [|eassumption]; eassumption
      | match goal with U : upd ts _ t _ σ |- _ => exact (proj1 U) end
      | eapply read_reg; [| |eassumption]; [eassumption|unchanged]
      | match goal with U : upd ts _ _ _ σ |- _ => rewrite (proj2 U t) by lia; value end ]
  end.

(** The context a list of ops runs in: every description on the way holds. *)
Ltac describe :=
  repeat match goal with
  | Ht : typed ?ts ?E2, Hs : ?E1 ⊆ ?E2 |- _ =>
      lazymatch goal with
      | _ : typed ts E1 |- _ => fail
      | |- _ => pose proof (typed_mono ts ts E2 E1 (reflexivity ts) Hs Ht)
      end
  end.

Section Correct.
Context {W : Type}.
Variable mem_load : W -> Z -> Z -> option Z * W.
Variable mem_store : W -> Z -> Z -> Z -> bool * W.
Variable helper_at : Z -> option (list Z -> option Z).
Variable chained : N -> W -> bool.
Variable addr_of : Helper -> Z.
Variable MSTATUS_OFFSET : Z.

Hypothesis helpers_linked : forall h,
  in_range 64 (addr_of h) /\ helper_at (addr_of h) = Some (helper_fn h).

Local Notation run ts i skip := (exec_ops mem_load mem_store helper_at chained ts nb_guest i skip).

(** Writing the destination register. *)
Lemma x_set_reg ts E n opc rd t l l' σ w i x v v' (P : option ((N -> Z) * W * stop) -> Prop) :
  typed ts E -> base E n -> set_ops opc rd t l ->
  match opc with Mov => v' = wrap 64 v | ExtI32I64 => v' = RvIsa.sext 32 v | _ => False end ->
  read ts σ t = v -> guest ts σ x ->
  (forall σ1, guest ts σ1 (put x rd v') -> (forall u, (37 <= u)%N -> read ts σ1 u = read ts σ u) ->
     P (run ts (i + length l) None l' σ1 w)) ->
  P (run ts i None (l ++ l') σ w).
Proof.
  intros Ht Hb [->|k Hr] Ho Hv Hg HP; cbn [app length].
  { rewrite Nat.add_0_r in HP. by apply HP. }
  assert (HE : E !! reg_temp rd = Some (Var Ty.I64)) by (apply Hb; unfold reg_temp; lia).
  assert (Hput : forall σ1, upd ts σ (reg_temp rd) (wrap 64 v') σ1 -> in_range 64 v' ->
    P (run ts (S i) None l' σ1 w)).
  { intros σ1 Hu Hv'. rewrite wrap_small in Hu by exact Hv'.
    replace (S i) with (i + length [Op.with_args k opc Ty.I64 [reg_temp rd; t]])%nat by (cbn; lia).
    apply HP; [by eapply guest_put|]. intros u Hu'. apply (proj2 Hu). unfold reg_temp. lia. }
  destruct opc; try contradiction; subst v'.
  - eapply x_mov; [exact Ht|exact HE|exact Hv|]. intros σ1 Hu. apply Hput; [exact Hu|].
    apply wrap_range. lia.
  - eapply x_ext; [exact Ht|done|exact HE|exact Hv|reflexivity|]. intros σ1 Hu.
    apply Hput; [exact Hu|]. apply wrap_range. lia.
Qed.

(** The run ends by falling off the list, with the world [w] and a store [Q] holds of. *)
Definition falls (w : W) (Q : (N -> Z) -> Prop) (r : option ((N -> Z) * W * stop)) : Prop :=
  exists σ', r = Some (σ', w, Fell) /\ Q σ'.

(** A computational instruction: the ops fall through and write one register. *)
Definition computes (m : Ir bool) (rd : Z) (f : (Z -> Z) -> Z) : Prop :=
  forall E n, base E n -> spec m E n (fun b l E' n' => b = true /\ Forall plain_op l /\
    forall ts σ w x i, typed ts E' -> guest ts σ x ->
      falls w (fun σ' => guest ts σ' (put x rd (f x))) (run ts i None l σ w)).

(** The end of such an instruction. *)
Lemma x_finish ts E n opc rd t l σ w i x v v' :
  typed ts E -> base E n -> set_ops opc rd t l ->
  match opc with Mov => v' = wrap 64 v | ExtI32I64 => v' = RvIsa.sext 32 v | _ => False end ->
  read ts σ t = v -> guest ts σ x ->
  falls w (fun σ' => guest ts σ' (put x rd v')) (run ts i None (l ++ []) σ w).
Proof.
  intros Ht Hb Hs Ho Hv Hg. eapply x_set_reg; try done. intros σ1 Hg1 _. by exists σ1.
Qed.

(** ** What an instruction does to the block that contains it *)

(** The block is left for the instruction at the program counter: through slot 0 or 1,
    or by an exit that may not be chained. *)
Definition goto_op (op : Op.Op) : Prop :=
  exists k, nth 0 (Op.args op) 0%N = carg k /\
    (Op.opc op = GotoTb /\ (k = 0 \/ k = 1) \/
     Op.opc op = ExitTb /\ (k = TB_EXIT_IDX0 \/ k = TB_EXIT_IDX1 \/ k = TB_EXIT_NOCHAIN)).

Definition exit_op (code : Z) (op : Op.Op) : Prop :=
  Op.opc op = ExitTb /\ nth 0 (Op.args op) 0%N = carg code.

Definition mem_op (op : Op.Op) : Prop := Op.opc op = QemuLd \/ Op.opc op = QemuSt.

(** The end of a run against the outcome of the instruction; [x] are the registers before. *)
Definition agrees (ts : list Temp.Temp) (x : Z -> Z) (o : outcome W)
    (r : option ((N -> Z) * W * stop)) : Prop :=
  match o with
  | RvIsa.Fall x' w => falls w (fun σ' => guest ts σ' x') r
  | Goto x' w target => exists σ' j op, r = Some (σ', w, LeftAt j op) /\
      guest ts σ' x' /\ read ts σ' 33 = target /\ goto_op op
  | Trap x' w at_pc code => exists σ' j op, r = Some (σ', w, LeftAt j op) /\
      guest ts σ' x' /\ read ts σ' 33 = at_pc /\ exit_op code op
  | Fault w => exists σ' j op, r = Some (σ', w, LeftAt j op) /\ guest ts σ' x /\ mem_op op
  end.

(** The ops an instruction emits: no instruction boundary, and no label unless it ends
    the block. *)
Definition shape (ends : bool) (l : list Op.Op) : Prop :=
  Forall (fun op => Op.opc op <> InsnStart) l /\
  if ends then labels_once l else Forall (fun op => label_of op = None) l.

(** [m] translates an instruction with outcome [o]. *)
Definition translates (d : Dis) (m : Trans) (ends : bool) (o : (Z -> Z) -> W -> outcome W) : Prop :=
  forall E n, base E n -> spec m E n (fun db l E' n' =>
    db = (if ends then set_is_jmp NoReturn d else d, true) /\ shape ends l /\
    forall ts σ w x i, typed ts E' -> guest ts σ x -> agrees ts x (o x w) (run ts i None l σ w)).

Definition regs_ok (x : Z -> Z) : Prop := forall r, is_reg r -> in_range 64 (get x r).

Lemma guest_ok ts σ x : guest ts σ x -> regs_ok x.
Proof. intros Hg r Hr. by eapply get_range. Qed.

Lemma translates_ext d m ends o o' :
  translates d m ends o -> (forall x w, regs_ok x -> o x w = o' x w) -> translates d m ends o'.
Proof.
  intros H Ho E n Hb. eapply spec_mono; [by apply H|]. intros db l E' n' _ _ (-> & Hl & Hr).
  split; [done|]. split; [done|]. intros ts σ w x i Ht Hg. rewrite <- Ho by by eapply guest_ok.
  by apply Hr.
Qed.

Lemma plain_shape l : Forall plain_op l -> shape false l.
Proof.
  intros Hl. split; eapply Forall_impl; try exact Hl; intros op [H1 H2]; [done|].
  unfold label_of. by destruct (decide _).
Qed.

(** Instructions that do not end the block. *)
Lemma translates_plain d m o :
  (forall E n, base E n -> spec m E n (fun b l E' n' => b = true /\ Forall plain_op l /\
    forall ts σ w x i, typed ts E' -> guest ts σ x -> agrees ts x (o x w) (run ts i None l σ w))) ->
  translates d (plain d m) false o.
Proof.
  intros H E n Hb. apply spec_bind. eapply spec_mono; [by apply H|].
  intros b l E' n' Hs Hn (-> & Hl & Hr) _ _. apply spec_ret. rewrite app_nil_r.
  split; [done|]. split; [by apply plain_shape|done].
Qed.

Lemma translates_computes d m rd f o :
  computes m rd f -> (forall x w, regs_ok x -> o x w = RvIsa.Fall (put x rd (f x)) w) ->
  translates d (plain d m) false o.
Proof.
  intros Hm Ho. apply translates_plain. intros E n Hb.
  eapply spec_mono; [by apply Hm|]. intros b l E' n' Hs Hn (-> & Hl & Hr).
  split; [done|]. split; [done|]. intros ts σ w x i Ht Hg.
  rewrite Ho by (by eapply guest_ok). by apply Hr.
Qed.

Lemma no_labels_once (l : list Op.Op) : Forall (fun op => label_of op = None) l -> labels_once l.
Proof.
  intros Hl i j a b lab Hi _ Ha. rewrite Forall_lookup in Hl. by rewrite (Hl i a Hi) in Ha.
Qed.

Lemma plain_shape_end l : Forall plain_op l -> shape true l.
Proof. intros [H1 H2]%plain_shape. split; [done|]. by apply no_labels_once. Qed.

Lemma translates_nop d o :
  (forall x w, o x w = RvIsa.Fall x w) -> translates d (mret (d, true)) false o.
Proof.
  intros Ho E n Hb. apply spec_ret. split; [done|]. split; [by split; constructor|].
  intros ts σ w x i Ht Hg. rewrite Ho. by exists σ.
Qed.

End Correct.

Ltac plain_ops :=
  cbn [app];
  repeat first
    [ apply Forall_nil_2
    | apply Forall_cons_2; [first [by split | match goal with o : BinOp |- _ => by destruct o end]|]
    | apply Forall_app_2
    | eapply set_ops_plain; [eassumption|done|done] ].

(** A temp that was already known in an earlier description. *)
Ltac earlier := first [ eassumption | eapply lookup_weaken; [eassumption|eassumption] ].

(** One op of the list, by the rule for its opcode. *)
Ltac x_op :=
  lazymatch goal with
  | |- _ (exec_ops _ _ _ _ _ _ _ _ (Op.with_args _ ?opc _ _ :: _) _ _) =>
      lazymatch opc with
      | Mov => eapply x_mov; [|eassumption|value|intros ?σ ?U]; [eassumption|]
      | Not => eapply x_not; [|eassumption|value|intros ?σ ?U]; [eassumption|]
      | SetCond => eapply x_setcond; [|eassumption|value|value|intros ?σ ?U]; [eassumption|]
      | MovCond =>
          eapply x_movcond; [|eassumption|value|value|value|value|intros ?σ ?U]; [eassumption|]
      | Clz => eapply x_clz; [|eassumption|value|value|intros ?σ ?U]; [eassumption|]
      | Ctz => eapply x_ctz; [|eassumption|value|value|intros ?σ ?U]; [eassumption|]
      | CtPop => eapply x_ctpop; [|eassumption|value|intros ?σ ?U]; [eassumption|]
      | Bswap64 => eapply x_bswap64; [|eassumption|value|intros ?σ ?U]; [eassumption|]
      | MulS2 =>
          eapply x_muls2; [| |eassumption|value|value|intros ?σ ?σ ?p ?U ?U]; [|earlier|]; [eassumption|]
      | MulU2 =>
          eapply x_mulu2; [| |eassumption|value|value|intros ?σ ?σ ?p ?U ?U]; [|earlier|]; [eassumption|]
      | DivU2 =>
          eapply x_divu2; [| |eassumption|value|value|value| |intros ?σ ?σ ?U ?U];
            [|earlier| |]; [eassumption| |]
      | ExtI32I64 => eapply x_ext; [|done|eassumption|value|reflexivity|intros ?σ ?U]; [eassumption|]
      | ExtUI32I64 => eapply x_ext; [|done|eassumption|value|reflexivity|intros ?σ ?U]; [eassumption|]
      | ExtrlI64I32 => eapply x_ext; [|done|eassumption|value|reflexivity|intros ?σ ?U]; [eassumption|]
      | _ => eapply x_bin; [|done|eassumption|value|value| |intros ?σ ?U];
             [eassumption|try reflexivity|]
      end
  end.

Ltac split_emitted :=
  split; [done|]; split; [plain_ops|cbn [app fmap list_fmap seq nth bin_opcode un_opcode]; intros ts σ w x i Ht Hg; describe].

(** Emit, then look at the run of the ops of an instruction that computes. *)
Ltac emitted :=
  let E := fresh "E" in let n := fresh "n" in let Hbase := fresh "Hbase" in
  intros E n Hbase; pose proof (base_n E n Hbase); build; split_emitted.

Ltac done_with :=
  eapply x_finish; [|eassumption|eassumption| |value|unchanged]; [eassumption|].

(** Values known to be in range are not changed by [wrap]. *)
Ltac small :=
  cbn [ty_bits] in *;
  repeat match goal with
  | |- context [wrap ?w ?v] => rewrite (wrap_small w v) by assumption
  | G : guest _ _ ?x, R : is_reg ?r |- context [wrap 64 (get ?x ?r)] => rewrite (wrap_get _ _ _ _ G R)
  | U : upd _ _ _ ?e _ |- _ =>
      match e with context [wrap ?w ?v] => rewrite (wrap_small w v) in U by assumption end
  end.

(** [small], and nested [wrap]s are merged. *)
Ltac merge_wraps :=
  small; repeat first [rewrite wrap64_twice | rewrite wrap32_twice | rewrite wrap64_wrap32].
