(* ===== verification/RvTransProof.v ===== *)
(** * Correctness of the RISC-V front end

    The IR the translator emits for an instruction, run by the semantics of [IrSem] with
    the host meaning of [IrHost], does what [RvIsa] says the instruction does. *)

From Stdlib Require Import ZArith Lia Bool.
From stdpp Require Import base tactics numbers list gmap functions.
From S2P Require Import Prelude IrTypes IrOpcode IrContext IrBuild IrSem IrHost Tb RvInsn RvIsa RvTrans RvBits RvEmit.
Import Opcode.

Section Gen.
Context {W : Type}.
Variable mem_load : W -> Z -> Z -> option Z * W.
Variable mem_store : W -> Z -> Z -> Z -> bool * W.
Variable helper_at : Z -> option (list Z -> option Z).
Variable chained : N -> W -> bool.
Variable addr_of : Helper -> Z.
Variable MSTATUS_OFFSET : Z.

Hypothesis helpers_linked : forall h,
  in_range 64 (addr_of h) /\ helper_at (addr_of h) = Some (helper_fn h).

Variable d : Dis.
Hypothesis Hd : layout d.

Local Notation translates := (translates mem_load mem_store helper_at chained).
Local Notation computes := (computes mem_load mem_store helper_at chained).
Local Notation run ts i skip := (exec_ops mem_load mem_store helper_at chained ts nb_guest i skip).

(** [op] on two [w]-bit operands computes [F]. *)
Definition op_is (op : BinOp) (w : Z) (F : Z -> Z -> Z) : Prop :=
  is_bin (bin_opcode op) = true /\
  forall v u, in_range w v -> in_range w u -> exists r,
    sem_binary (bin_opcode op) w v u = Some r /\ wrap w r = F v u.

Lemma gen_arith_ok a op F :
  op_is op 64 F -> is_reg (ArgsR.rd a) -> is_reg (ArgsR.rs1 a) -> is_reg (ArgsR.rs2 a) ->
  computes (gen_arith d a op) (ArgsR.rd a) (fun x => F (get x (ArgsR.rs1 a)) (get x (ArgsR.rs2 a))).
Proof.
  intros [Hb HF] Hrd H1 H2. emitted.
  destruct (HF (get x (ArgsR.rs1 a)) (get x (ArgsR.rs2 a))) as (r & Hr & Hw); [by eapply get_range..|].
  x_op. { small. exact Hr. } done_with. cbn [ty_bits]. by rewrite wrap64_twice, Hw.
Qed.

Lemma gen_const_ok rd v :
  is_reg rd -> in_range 64 v ->
  computes (c ← new_const Ty.I64 v; gen_set_gpr d rd c ;; mret true) rd (fun _ => v).
Proof. intros Hrd Hv. emitted. done_with. by rewrite wrap_small. Qed.

Lemma gen_setcond_rr_ok a cc :
  is_reg (ArgsR.rd a) -> is_reg (ArgsR.rs1 a) -> is_reg (ArgsR.rs2 a) ->
  computes (gen_setcond_rr d a cc) (ArgsR.rd a)
    (fun x => Z.b2z (Cond.holds 64 cc (get x (ArgsR.rs1 a)) (get x (ArgsR.rs2 a)))).
Proof.
  intros Hrd H1 H2. emitted. x_op. done_with. small. by rewrite wrap64_twice, wrap64_b2z.
Qed.

Lemma gen_arith_imm_ok a op F :
  op_is op 64 F -> is_reg (ArgsI.rd a) -> is_reg (ArgsI.rs1 a) ->
  computes (gen_arith_imm d a op) (ArgsI.rd a) (fun x => F (get x (ArgsI.rs1 a)) (u64 (ArgsI.imm a))).
Proof.
  intros [Hb HF] Hrd H1. emitted.
  destruct (HF (get x (ArgsI.rs1 a)) (u64 (ArgsI.imm a))) as (r & Hr & Hw);
    [by eapply get_range|by apply wrap_range|].
  x_op. { small. rewrite wrap64_twice. exact Hr. } done_with. cbn [ty_bits]. by rewrite wrap64_twice, Hw.
Qed.

Lemma gen_setcond_imm_ok a cc :
  is_reg (ArgsI.rd a) -> is_reg (ArgsI.rs1 a) ->
  computes (gen_setcond_imm d a cc) (ArgsI.rd a)
    (fun x => Z.b2z (Cond.holds 64 cc (get x (ArgsI.rs1 a)) (u64 (ArgsI.imm a)))).
Proof.
  intros Hrd H1. emitted. x_op. done_with. small. by rewrite !wrap64_twice, wrap64_b2z.
Qed.

Lemma gen_shift_imm_ok a op F :
  op_is op 64 F -> is_reg (ArgsShift.rd a) -> is_reg (ArgsShift.rs1 a) ->
  computes (gen_shift_imm d a op) (ArgsShift.rd a)
    (fun x => F (get x (ArgsShift.rs1 a)) (u64 (ArgsShift.shamt a))).
Proof.
  intros [Hb HF] Hrd H1. emitted.
  destruct (HF (get x (ArgsShift.rs1 a)) (u64 (ArgsShift.shamt a))) as (r & Hr & Hw);
    [by eapply get_range|by apply wrap_range|].
  x_op. { small. rewrite wrap64_twice. exact Hr. } done_with. cbn [ty_bits]. by rewrite wrap64_twice, Hw.
Qed.

Lemma gen_arith_w_ok a op F :
  op_is op 64 F -> is_reg (ArgsR.rd a) -> is_reg (ArgsR.rs1 a) -> is_reg (ArgsR.rs2 a) ->
  computes (gen_arith_w d a op) (ArgsR.rd a)
    (fun x => sext 32 (F (get x (ArgsR.rs1 a)) (get x (ArgsR.rs2 a)))).
Proof.
  intros [Hb HF] Hrd H1 H2. emitted.
  destruct (HF (get x (ArgsR.rs1 a)) (get x (ArgsR.rs2 a))) as (r & Hr & Hw); [by eapply get_range..|].
  x_op. { small. exact Hr. } done_with. cbn [ty_bits]. by rewrite Hw.
Qed.

Lemma gen_arith_imm_w_ok a op F :
  op_is op 64 F -> is_reg (ArgsI.rd a) -> is_reg (ArgsI.rs1 a) ->
  computes (gen_arith_imm_w d a op) (ArgsI.rd a)
    (fun x => sext 32 (F (get x (ArgsI.rs1 a)) (u64 (ArgsI.imm a)))).
Proof.
  intros [Hb HF] Hrd H1. emitted.
  destruct (HF (get x (ArgsI.rs1 a)) (u64 (ArgsI.imm a))) as (r & Hr & Hw);
    [by eapply get_range|by apply wrap_range|].
  x_op. { small. rewrite wrap64_twice. exact Hr. } done_with. cbn [ty_bits]. by rewrite Hw.
Qed.

Lemma gen_shiftw_ok a op F :
  op_is op 32 F -> is_reg (ArgsR.rd a) -> is_reg (ArgsR.rs1 a) -> is_reg (ArgsR.rs2 a) ->
  computes (gen_shiftw d a op) (ArgsR.rd a)
    (fun x => sext 32 (F (wrap 32 (get x (ArgsR.rs1 a))) (wrap 32 (get x (ArgsR.rs2 a))))).
Proof.
  intros [Hb HF] Hrd H1 H2. emitted.
  destruct (HF (wrap 32 (get x (ArgsR.rs1 a))) (wrap 32 (get x (ArgsR.rs2 a)))) as (r & Hr & Hw);
    [by apply wrap_range..|].
  do 2 x_op. x_op. { cbn [ty_bits]. rewrite !wrap32_twice. exact Hr. }
  done_with. cbn [ty_bits]. by rewrite Hw.
Qed.

Lemma gen_shift_imm_w_ok a op F :
  op_is op 32 F -> is_reg (ArgsShift.rd a) -> is_reg (ArgsShift.rs1 a) ->
  computes (gen_shift_imm_w d a op) (ArgsShift.rd a)
    (fun x => sext 32 (F (wrap 32 (get x (ArgsShift.rs1 a))) (wrap 32 (u64 (ArgsShift.shamt a))))).
Proof.
  intros [Hb HF] Hrd H1. emitted.
  destruct (HF (wrap 32 (get x (ArgsShift.rs1 a))) (wrap 32 (u64 (ArgsShift.shamt a)))) as (r & Hr & Hw);
    [by apply wrap_range..|].
  x_op. x_op. { cbn [ty_bits]. rewrite !wrap32_twice. exact Hr. }
  done_with. cbn [ty_bits]. by rewrite Hw.
Qed.

(** ** Helper calls *)

Lemma carg_halves v : in_range 64 v -> Z.of_N (carg v) + 2 ^ 32 * Z.of_N (carg (shr v 32)) = v.
Proof.
  intros Hv. unfold carg, shr. unfold in_range in Hv.
  rewrite !Z2N.id by (apply wrap_range; lia). rewrite Z.shiftr_div_pow2 by lia. unfold wrap.
  rewrite (Z.mod_small (v / 2 ^ 32)).
  - pose proof (Z.div_mod v (2 ^ 32)). lia.
  - split; [apply Z.div_pos; lia|]. apply Z.div_lt_upper_bound; lia.
Qed.

Lemma x_helper ts E n k t a1 a2 a3 a4 a5 a6 h v l σ w i x (P : option ((N -> Z) * W * stop) -> Prop) :
  typed ts E -> base E n -> E !! t = Some (Var Ty.I64) -> guest ts σ x ->
  helper_fn h (read ts σ <$> [a1; a2; a3; a4; a5; a6]) = Some v ->
  (forall σ1, upd ts σ t (wrap 64 v) σ1 -> P (run ts (S i) None l σ1 w)) ->
  P (run ts i None (Op.with_args k Call Ty.I64
    [t; a1; a2; a3; a4; a5; a6; carg (addr_of h); carg (shr (addr_of h) 32)] :: l) σ w).
Proof.
  intros Ht Hb Hv Hg Hf HP. destruct (helpers_linked h) as [Hr Hh].
  eapply (x_call _ _ _ _ ts E nb_guest Ht i P); [done|done|done|done| | |exact Hf|exact HP].
  - intros u Hu. split; [by apply Hb|by apply Hg].
  - by rewrite carg_halves.
Qed.

Lemma gen_call2_ok a h F :
  (forall v u r, helper_fn h (v :: u :: r) = Some (F v u)) ->
  is_reg (ArgsR.rd a) -> is_reg (ArgsR.rs1 a) -> is_reg (ArgsR.rs2 a) ->
  computes (gen_call2 addr_of d a h) (ArgsR.rd a)
    (fun x => wrap 64 (F (get x (ArgsR.rs1 a)) (get x (ArgsR.rs2 a)))).
Proof.
  intros HF Hrd H1 H2. emitted.
  eapply x_helper; [exact Ht|exact Hbase|by eapply lookup_weaken|exact Hg|apply HF|intros σ1 U].
  done_with. rewrite wrap64_twice. f_equal. f_equal; symmetry; value.
Qed.

Lemma gen_call1_ok a h F :
  (forall v u r, helper_fn h (v :: u :: r) = Some (F v)) ->
  is_reg (ArgsR2.rd a) -> is_reg (ArgsR2.rs1 a) ->
  computes (gen_call1 addr_of d a h) (ArgsR2.rd a) (fun x => wrap 64 (F (get x (ArgsR2.rs1 a)))).
Proof.
  intros HF Hrd H1. emitted.
  eapply x_helper; [exact Ht|exact Hbase|by eapply lookup_weaken|exact Hg|apply HF|intros σ1 U].
  done_with. rewrite wrap64_twice. f_equal. f_equal; symmetry; value.
Qed.

(** ** Division and multiplication *)

(** The selection [gen_movcond .. Cond.Eq] against zero. *)
Lemma select_zero w u A B :
  0 < w -> in_range w u -> in_range w A -> in_range w B ->
  wrap w (if Cond.holds w Cond.Eq (wrap w u) (wrap w 0) then wrap w A else wrap w B)
  = if u =? 0 then A else B.
Proof.
  intros Hw Hu HA HB. assert (H0 : in_range w 0) by (unfold in_range; lia).
  rewrite !(wrap_small w u), !(wrap_small w 0), !(wrap_small w A), !(wrap_small w B) by done.
  change (Cond.holds w Cond.Eq u 0) with (u =? 0). destruct (u =? 0); by apply wrap_small.
Qed.

Lemma safe_divisor w u v :
  0 < w -> in_range w u -> in_range w v ->
  in_range w (if u =? 0 then 1 else u) /\ 0 < (if u =? 0 then 1 else u) /\
  in_range w (v / (if u =? 0 then 1 else u)) /\ in_range w (v mod (if u =? 0 then 1 else u)).
Proof.
  intros Hw Hu Hv. unfold in_range in *. pose proof (Z.pow_gt_1 2 w).
  assert (Hs : 0 < (if u =? 0 then 1 else u) < 2 ^ w) by (destruct (Z.eqb_spec u 0); lia).
  generalize dependent (if u =? 0 then 1 else u). intros s Hs.
  split; [lia|]. split; [lia|]. split.
  - split; [apply Z.div_pos; lia|]. apply Z.div_lt_upper_bound; nia.
  - pose proof (Z.mod_pos_bound v s). lia.
Qed.

Lemma gen_divu_remu_ok a want_rem :
  is_reg (ArgsR.rd a) -> is_reg (ArgsR.rs1 a) -> is_reg (ArgsR.rs2 a) ->
  computes (gen_divu_remu d a want_rem) (ArgsR.rd a) (fun x =>
    let v := get x (ArgsR.rs1 a) in let u := get x (ArgsR.rs2 a) in
    if want_rem then if u =? 0 then v else v mod u else if u =? 0 then u64_max else v / u).
Proof.
  intros Hrd H1 H2. unfold RvEmit.computes. destruct want_rem; emitted;
    pose proof (get_range _ _ _ _ Hg H1) as Hv; pose proof (get_range _ _ _ _ Hg H2) as Hu;
    destruct (safe_divisor 64 _ _ eq_refl Hu Hv) as (Hs & Hs0 & Hq & Hm);
    (x_op; cbn [ty_bits] in *; rewrite (select_zero 64) in U by done);
    (x_op; [by small|]); small; x_op; done_with; cbn [ty_bits]; rewrite select_zero by done;
    revert Hq Hm; destruct (_ =? 0); intros; by rewrite wrap_small.
Qed.

Lemma gen_divu_remu_w_ok a want_rem :
  is_reg (ArgsR.rd a) -> is_reg (ArgsR.rs1 a) -> is_reg (ArgsR.rs2 a) ->
  computes (gen_divu_remu_w d a want_rem) (ArgsR.rd a) (fun x =>
    let v := wrap 32 (get x (ArgsR.rs1 a)) in let u := wrap 32 (get x (ArgsR.rs2 a)) in
    sext 32 (if want_rem then if u =? 0 then v else v mod u
             else if u =? 0 then 2 ^ 32 - 1 else v / u)).
Proof.
  intros Hrd H1 H2. unfold RvEmit.computes. destruct want_rem; emitted;
    pose proof (wrap_range 32 (get x (ArgsR.rs1 a)) ltac:(lia)) as Hv;
    pose proof (wrap_range 32 (get x (ArgsR.rs2 a)) ltac:(lia)) as Hu;
    destruct (safe_divisor 32 _ _ eq_refl Hu Hv) as (Hs & Hs0 & Hq & Hm);
    x_op; x_op; small; (x_op; cbn [ty_bits] in *; rewrite (select_zero 32) in U1 by done);
    (x_op; [by small|]); small; x_op; done_with; cbn [ty_bits]; rewrite select_zero by done;
    by destruct (_ =? 0).
Qed.

Lemma gen_mulh_ok a :
  is_reg (ArgsR.rd a) -> is_reg (ArgsR.rs1 a) -> is_reg (ArgsR.rs2 a) ->
  computes (gen_mul_high d a (gen_muls2 Ty.I64)) (ArgsR.rd a)
    (fun x => u64 (signed 64 (get x (ArgsR.rs1 a)) * signed 64 (get x (ArgsR.rs2 a)) / 2 ^ 64)).
Proof. intros Hrd H1 H2. emitted. x_op. done_with. subst p. small. by rewrite !wrap64_twice. Qed.

Lemma gen_mulhu_ok a :
  is_reg (ArgsR.rd a) -> is_reg (ArgsR.rs1 a) -> is_reg (ArgsR.rs2 a) ->
  computes (gen_mul_high d a (gen_mulu2 Ty.I64)) (ArgsR.rd a)
    (fun x => u64 (get x (ArgsR.rs1 a) * get x (ArgsR.rs2 a) / 2 ^ 64)).
Proof. intros Hrd H1 H2. emitted. x_op. done_with. subst p. small. by rewrite !wrap64_twice. Qed.

(** The signed-unsigned product from the unsigned one. *)
Lemma mulhsu_adjust v u :
  in_range 64 v -> in_range 64 u ->
  wrap 64 (wrap 64 (v * u / 2 ^ 64) - Z.land (wrap 64 (signed 64 v / 2 ^ 63)) u)
  = u64 (signed 64 v * u / 2 ^ 64).
Proof.
  intros Hv Hu. pose proof Hu as Hu'. unfold in_range in Hv, Hu'.
  assert (Hs : exists b : bool, signed 64 v = v - (if b then 2 ^ 64 else 0) /\
    wrap 64 (signed 64 v / 2 ^ 63) = if b then Z.ones 64 else 0).
  { unfold signed. change (64 - 1) with 63. destruct (Z.ltb_spec v (2 ^ 63)).
    - exists false. split; [lia|]. by rewrite Z.div_small by lia.
    - exists true. split; [lia|].
      replace ((v - 2 ^ 64) / 2 ^ 63) with (-1); [done|].
      apply (Z.div_unique _ _ _ (v - 2 ^ 63)); lia. }
  destruct Hs as ([|] & -> & ->).
  - rewrite Z.land_comm, land_ones_wrap, (wrap_small 64 u) by (done || lia).
    replace ((v - 2 ^ 64) * u) with (v * u + (- u) * 2 ^ 64) by lia.
    rewrite Z_div_plus_full by lia. unfold wrap. rewrite Zminus_mod_idemp_l. f_equal.
  - rewrite Z.land_0_l, !Z.sub_0_r. by rewrite wrap64_twice.
Qed.

Lemma trans_mulhsu_ok a :
  is_reg (ArgsR.rd a) -> is_reg (ArgsR.rs1 a) -> is_reg (ArgsR.rs2 a) ->
  computes (trans_mulhsu d a) (ArgsR.rd a)
    (fun x => u64 (signed 64 (get x (ArgsR.rs1 a)) * get x (ArgsR.rs2 a) / 2 ^ 64)).
Proof.
  intros Hrd H1 H2. emitted. do 4 x_op. done_with. subst p. merge_wraps.
  rewrite <- mulhsu_adjust, (wrap_small 64 63) by (done || by eapply get_range). f_equal. f_equal.
  symmetry. apply wrap_small, land_range_l; [lia|]. by apply wrap_range.
Qed.

(** ** Zba *)

Lemma wrap_add_l w a b : wrap w (wrap w a + b) = wrap w (a + b).
Proof. apply Zplus_mod_idemp_l. Qed.

Lemma wrap_add w a b : wrap w (wrap w a + wrap w b) = wrap w (a + b).
Proof. unfold wrap. by rewrite <- Zplus_mod. Qed.

Lemma wrap_shl_small w v n : 0 <= n < w -> wrap w (v * 2 ^ (n mod w)) = wrap w (v * 2 ^ n).
Proof. intros Hn. by rewrite Z.mod_small. Qed.

Lemma gen_shadd_ok a n :
  0 <= n < 64 -> is_reg (ArgsR.rd a) -> is_reg (ArgsR.rs1 a) -> is_reg (ArgsR.rs2 a) ->
  computes (gen_shadd d a n) (ArgsR.rd a)
    (fun x => u64 (get x (ArgsR.rs1 a) * 2 ^ n + get x (ArgsR.rs2 a))).
Proof.
  intros Hn Hrd H1 H2. assert (Hn' : in_range 64 n) by (unfold in_range; lia).
  emitted. do 2 x_op. done_with. small. rewrite !wrap64_twice, wrap_shl_small by done.
  by rewrite wrap_add_l.
Qed.

Lemma gen_shadd_uw_ok a n :
  0 <= n < 64 -> is_reg (ArgsR.rd a) -> is_reg (ArgsR.rs1 a) -> is_reg (ArgsR.rs2 a) ->
  computes (gen_shadd_uw d a n) (ArgsR.rd a)
    (fun x => u64 (wrap 32 (get x (ArgsR.rs1 a)) * 2 ^ n + get x (ArgsR.rs2 a))).
Proof.
  intros Hn Hrd H1 H2. assert (Hn' : in_range 64 n) by (unfold in_range; lia).
  emitted. do 4 x_op. done_with. merge_wraps. by rewrite wrap_shl_small, wrap_add_l by done.
Qed.

Lemma gen_add_uw_ok a :
  is_reg (ArgsR.rd a) -> is_reg (ArgsR.rs1 a) -> is_reg (ArgsR.rs2 a) ->
  computes (gen_add_uw d a) (ArgsR.rd a)
    (fun x => u64 (wrap 32 (get x (ArgsR.rs1 a)) + get x (ArgsR.rs2 a))).
Proof. intros Hrd H1 H2. emitted. do 3 x_op. done_with. by merge_wraps. Qed.

Lemma gen_slli_uw_ok a :
  0 <= ArgsShift.shamt a < 64 -> is_reg (ArgsShift.rd a) -> is_reg (ArgsShift.rs1 a) ->
  computes (gen_slli_uw d a) (ArgsShift.rd a)
    (fun x => u64 (wrap 32 (get x (ArgsShift.rs1 a)) * 2 ^ ArgsShift.shamt a)).
Proof.
  intros Hn Hrd H1. assert (Hn' : in_range 64 (ArgsShift.shamt a)) by (unfold in_range; lia).
  emitted. do 3 x_op. done_with. merge_wraps. by rewrite wrap_shl_small by done.
Qed.

(** ** Zbb *)

Lemma gen_orn_ok a :
  is_reg (ArgsR.rd a) -> is_reg (ArgsR.rs1 a) -> is_reg (ArgsR.rs2 a) ->
  computes (gen_orn d a) (ArgsR.rd a)
    (fun x => Z.lor (get x (ArgsR.rs1 a)) (bnot 64 (get x (ArgsR.rs2 a)))).
Proof.
  intros Hrd H1 H2. emitted. do 2 x_op. done_with. merge_wraps.
  rewrite (wrap_small 64 (bnot 64 _)) by by apply bnot_range.
  symmetry. apply wrap_small, lor_range; [lia|by eapply get_range|by apply bnot_range].
Qed.

Lemma gen_xnor_ok a :
  is_reg (ArgsR.rd a) -> is_reg (ArgsR.rs1 a) -> is_reg (ArgsR.rs2 a) ->
  computes (gen_xnor d a) (ArgsR.rd a)
    (fun x => bnot 64 (Z.lxor (get x (ArgsR.rs1 a)) (get x (ArgsR.rs2 a)))).
Proof.
  intros Hrd H1 H2. emitted. do 2 x_op. done_with. merge_wraps.
  rewrite (wrap_small 64 (Z.lxor _ _)) by (apply lxor_range; [lia|by eapply get_range..]).
  symmetry. by apply wrap_small, bnot_range.
Qed.

Lemma gen_minmax_ok a cc :
  is_reg (ArgsR.rd a) -> is_reg (ArgsR.rs1 a) -> is_reg (ArgsR.rs2 a) ->
  computes (gen_minmax d a cc) (ArgsR.rd a) (fun x =>
    let v := get x (ArgsR.rs1 a) in let u := get x (ArgsR.rs2 a) in
    if Cond.holds 64 cc v u then v else u).
Proof.
  intros Hrd H1 H2. emitted. x_op. done_with. merge_wraps.
  case_if; symmetry; by eapply wrap_get.
Qed.

Lemma gen_clz_ok a :
  is_reg (ArgsR2.rd a) -> is_reg (ArgsR2.rs1 a) ->
  computes (gen_count d a gen_clz) (ArgsR2.rd a) (fun x => clz 64 (get x (ArgsR2.rs1 a))).
Proof.
  intros Hrd H1. emitted. x_op. done_with. merge_wraps. symmetry. apply wrap_count.
  by eapply clz_range, get_range.
Qed.

Lemma gen_ctz_ok a :
  is_reg (ArgsR2.rd a) -> is_reg (ArgsR2.rs1 a) ->
  computes (gen_count d a gen_ctz) (ArgsR2.rd a) (fun x => ctz 64 (get x (ArgsR2.rs1 a))).
Proof.
  intros Hrd H1. emitted. x_op. done_with. merge_wraps.
  pose proof (ctz_range 64 _ ltac:(lia) (get_range _ _ _ _ Hg H1)) as Hr.
  unfold ctz in *. destruct (Z.eqb_spec (get x (ArgsR2.rs1 a)) 0) as [->|]; [done|].
  symmetry. by apply wrap_count.
Qed.

Lemma gen_cpop_ok a :
  is_reg (ArgsR2.rd a) -> is_reg (ArgsR2.rs1 a) ->
  computes (gen_cpop d a) (ArgsR2.rd a) (fun x => cpop 64 (get x (ArgsR2.rs1 a))).
Proof.
  intros Hrd H1. emitted. x_op. done_with. merge_wraps.
  symmetry. apply ctpop64.
Qed.

Lemma gen_clzw_ok a :
  is_reg (ArgsR2.rd a) -> is_reg (ArgsR2.rs1 a) ->
  computes (gen_count_w d a gen_clz) (ArgsR2.rd a) (fun x => clz 32 (wrap 32 (get x (ArgsR2.rs1 a)))).
Proof.
  intros Hrd H1. emitted. do 3 x_op. done_with. merge_wraps. symmetry.
  change (wrap 32 32) with 32. apply wrap_count, clz_range; [done|]. by apply wrap_range.
Qed.

Lemma gen_ctzw_ok a :
  is_reg (ArgsR2.rd a) -> is_reg (ArgsR2.rs1 a) ->
  computes (gen_count_w d a gen_ctz) (ArgsR2.rd a) (fun x => ctz 32 (wrap 32 (get x (ArgsR2.rs1 a)))).
Proof.
  intros Hrd H1. emitted. do 3 x_op. done_with. merge_wraps.
  pose proof (ctz_range 32 _ ltac:(lia) (wrap_range 32 (get x (ArgsR2.rs1 a)) ltac:(lia))) as Hr.
  unfold ctz in *. destruct (Z.eqb_spec (wrap 32 (get x (ArgsR2.rs1 a))) 0) as [->|]; [done|].
  symmetry. by apply wrap_count.
Qed.

Lemma gen_cpopw_ok a :
  is_reg (ArgsR2.rd a) -> is_reg (ArgsR2.rs1 a) ->
  computes (gen_cpopw d a) (ArgsR2.rd a) (fun x => cpop 32 (get x (ArgsR2.rs1 a))).
Proof.
  intros Hrd H1. emitted. do 3 x_op. done_with. merge_wraps.
  symmetry. apply ctpop32.
Qed.

Lemma gen_sext_ok a sh :
  0 < sh < 64 -> is_reg (ArgsR2.rd a) -> is_reg (ArgsR2.rs1 a) ->
  computes (gen_sext d a sh) (ArgsR2.rd a) (fun x => sext (64 - sh) (get x (ArgsR2.rs1 a))).
Proof.
  intros Hs Hrd H1. assert (Hs' : in_range 64 sh) by (unfold in_range; lia).
  emitted. do 2 x_op. done_with. merge_wraps. rewrite (Z.mod_small sh 64) by lia.
  by rewrite shl_sar.
Qed.

Lemma gen_zext_h_ok a :
  is_reg (ArgsR2.rd a) -> is_reg (ArgsR2.rs1 a) ->
  computes (gen_zext_h d a) (ArgsR2.rd a) (fun x => wrap 16 (get x (ArgsR2.rs1 a))).
Proof.
  intros Hrd H1. emitted. x_op. done_with. merge_wraps. rewrite (wrap_small 64 0xFFFF) by done.
  rewrite (land_ones_wrap 16) by lia. symmetry. apply wrap_small, (in_range_le 16); [lia|].
  by apply wrap_range.
Qed.

Lemma gen_rev8_ok a :
  is_reg (ArgsR2.rd a) -> is_reg (ArgsR2.rs1 a) ->
  computes (gen_rev8 d a) (ArgsR2.rd a) (fun x => rev8 (get x (ArgsR2.rs1 a))).
Proof.
  intros Hrd H1. emitted. x_op. done_with. merge_wraps. rewrite bswap64_rev8.
  symmetry. apply wrap_small, (of_bits_range 64).
Qed.

(** ** Zbs *)

Lemma gen_bitop_ok a op F :
  op_is op 64 F -> is_reg (ArgsR.rd a) -> is_reg (ArgsR.rs1 a) -> is_reg (ArgsR.rs2 a) ->
  computes (gen_bitop d a op) (ArgsR.rd a)
    (fun x => F (get x (ArgsR.rs1 a)) (2 ^ (get x (ArgsR.rs2 a) mod 64))).
Proof.
  intros [Hb HF] Hrd H1 H2. emitted. pose proof (get_range _ _ _ _ Hg H2) as Hr2.
  pose proof (bit_range (get x (ArgsR.rs2 a) mod 64) ltac:(apply Z.mod_pos_bound; lia)) as Hbit.
  destruct (HF (get x (ArgsR.rs1 a)) (2 ^ (get x (ArgsR.rs2 a) mod 64))) as (r & Hr & Hw);
    [by eapply get_range|done|].
  x_op. small. rewrite (wrap_small 64 1), Z.mul_1_l in U by done. small. x_op. { small. exact Hr. }
  done_with. merge_wraps. by rewrite Hw.
Qed.

Lemma gen_bitop_imm_ok a op F :
  op_is op 64 F -> 0 <= ArgsShift.shamt a < 64 -> is_reg (ArgsShift.rd a) -> is_reg (ArgsShift.rs1 a) ->
  computes (gen_bitop_imm d a op) (ArgsShift.rd a)
    (fun x => F (get x (ArgsShift.rs1 a)) (2 ^ ArgsShift.shamt a)).
Proof.
  intros [Hb HF] Hs Hrd H1. assert (Hs' : in_range 64 (ArgsShift.shamt a)) by (unfold in_range; lia).
  emitted. pose proof (bit_range _ Hs) as Hbit.
  destruct (HF (get x (ArgsShift.rs1 a)) (2 ^ ArgsShift.shamt a)) as (r & Hr & Hw);
    [by eapply get_range|done|].
  x_op. small. rewrite (wrap_small 64 1), Z.mul_1_l, (Z.mod_small _ 64) in U by (lia || done).
  small. x_op. { small. exact Hr. } done_with. merge_wraps. by rewrite Hw.
Qed.

Lemma gen_bext_ok a :
  is_reg (ArgsR.rd a) -> is_reg (ArgsR.rs1 a) -> is_reg (ArgsR.rs2 a) ->
  computes (gen_bext d a) (ArgsR.rd a)
    (fun x => Z.b2z (Z.testbit (get x (ArgsR.rs1 a)) (get x (ArgsR.rs2 a) mod 64))).
Proof.
  intros Hrd H1 H2. emitted. do 2 x_op. done_with. merge_wraps.
  rewrite (wrap_small 64 1), bit_of_shift by (done || by eapply get_range || apply Z.mod_pos_bound; lia).
  by rewrite wrap64_b2z.
Qed.

Lemma gen_bexti_ok a :
  0 <= ArgsShift.shamt a < 64 -> is_reg (ArgsShift.rd a) -> is_reg (ArgsShift.rs1 a) ->
  computes (gen_bexti d a) (ArgsShift.rd a)
    (fun x => Z.b2z (Z.testbit (get x (ArgsShift.rs1 a)) (ArgsShift.shamt a))).
Proof.
  intros Hs Hrd H1. assert (Hs' : in_range 64 (ArgsShift.shamt a)) by (unfold in_range; lia).
  emitted. do 2 x_op. done_with. merge_wraps. rewrite (Z.mod_small _ 64) by lia.
  rewrite (wrap_small 64 1), bit_of_shift by (done || by eapply get_range || lia).
  by rewrite wrap64_b2z.
Qed.

(** ** Zbkb *)

Lemma gen_pack_ok a :
  is_reg (ArgsR.rd a) -> is_reg (ArgsR.rs1 a) -> is_reg (ArgsR.rs2 a) ->
  computes (gen_pack d a) (ArgsR.rd a)
    (fun x => wrap 32 (get x (ArgsR.rs1 a)) + 2 ^ 32 * wrap 32 (get x (ArgsR.rs2 a))).
Proof.
  intros Hrd H1 H2. emitted. do 3 x_op. done_with. merge_wraps.
  rewrite (wrap_small 64 4294967295), (land_ones_wrap 32), (wrap_small 64 32) by done.
  rewrite wrap64_wrap32, (pack_bits 64 32) by lia. symmetry. apply wrap_small.
  pose proof (wrap_range 32 (get x (ArgsR.rs1 a)) ltac:(lia)).
  pose proof (wrap_range 32 (get x (ArgsR.rs2 a)) ltac:(lia)). unfold in_range in *. lia.
Qed.

Lemma gen_packh_ok a :
  is_reg (ArgsR.rd a) -> is_reg (ArgsR.rs1 a) -> is_reg (ArgsR.rs2 a) ->
  computes (gen_packh d a) (ArgsR.rd a)
    (fun x => wrap 8 (get x (ArgsR.rs1 a)) + 2 ^ 8 * wrap 8 (get x (ArgsR.rs2 a))).
Proof.
  intros Hrd H1 H2. emitted. do 4 x_op. done_with. merge_wraps.
  rewrite (wrap_small 64 255), !(land_ones_wrap 8), (wrap_small 64 8) by done.
  rewrite !(wrap_wrap_lt 8 64), (pack_bits 64 8), (wrap_wrap_lt 8) by lia. symmetry. apply wrap_small.
  pose proof (wrap_range 8 (get x (ArgsR.rs1 a)) ltac:(lia)).
  pose proof (wrap_range 8 (get x (ArgsR.rs2 a)) ltac:(lia)). unfold in_range in *. lia.
Qed.

Lemma gen_packw_ok a :
  is_reg (ArgsR.rd a) -> is_reg (ArgsR.rs1 a) -> is_reg (ArgsR.rs2 a) ->
  computes (gen_packw d a) (ArgsR.rd a)
    (fun x => sext 32 (wrap 16 (get x (ArgsR.rs1 a)) + 2 ^ 16 * wrap 16 (get x (ArgsR.rs2 a)))).
Proof.
  intros Hrd H1 H2. emitted. do 5 x_op. done_with. merge_wraps. f_equal.
  rewrite (wrap_small 32 65535), (land_ones_wrap 16), (wrap_small 32 16) by done.
  change (16 mod 32) with 16. rewrite (wrap_wrap 16 32), (wrap_wrap_lt 16 32) by lia.
  rewrite (pack_bits 32 16), (wrap_wrap 16 32) by lia. symmetry. apply wrap_small.
  pose proof (wrap_range 16 (get x (ArgsR.rs1 a)) ltac:(lia)).
  pose proof (wrap_range 16 (get x (ArgsR.rs2 a)) ltac:(lia)). unfold in_range in *. lia.
Qed.


(** ** Loads and stores *)

Lemma x_load ts E n k t0 t m rd l σ w x i va ext :
  typed ts E -> base E n -> E !! t0 = Some (Var Ty.I64) -> (37 <= t0)%N -> guest ts σ x ->
  read ts σ t = va -> set_ops Mov rd t0 l -> 0 <= m -> u32 m = m ->
  (forall v, wrap 64 (mem_extend m v) = ext v) ->
  agrees ts x
    (match mem_load w va (MemOp.size_bytes m) with
     | (Some v, w') => RvIsa.Fall (put x rd (ext v)) w' | (None, w') => Fault w' end)
    (run ts i None (Op.with_args k QemuLd Ty.I64 [t0; t; carg m] :: l ++ []) σ w).
Proof.
  intros Ht Hb Hv Hlt Hg Hva Hs Hm Hm32 Hext.
  destruct (mem_load w va (MemOp.size_bytes m)) as [[v|] w'] eqn:El.
  - eapply x_ld; [exact Ht|done|done|done| |exact Hm|exact Hv|exact Hva|exact El|intros σ1 U].
    { unfold carg. by rewrite Hm32. }
    rewrite <- (Hext v). apply (x_finish _ _ _ _ ts E n Mov rd t0 l σ1 w' (S i) x
      (wrap 64 (mem_extend m v))); [done..|by rewrite wrap64_twice|exact (proj1 U)|].
    by eapply guest_upd.
  - eapply x_ld_fault; [done|done| |exact Hm|exact Hva|exact El|].
    { unfold carg. by rewrite Hm32. }
    do 3 eexists. split; [reflexivity|]. split; [done|by left].
Qed.

Lemma gen_load_ok a m ext :
  is_reg (ArgsI.rd a) -> is_reg (ArgsI.rs1 a) -> 0 <= m -> u32 m = m ->
  (forall v, wrap 64 (mem_extend m v) = ext v) ->
  translates d (plain d (gen_load d a m)) false
    (fun x w => exec_load mem_load x w a (MemOp.size_bytes m) ext).
Proof.
  intros Hrd H1 Hm Hm32 Hext. apply translates_plain. intros E n0 Hbase.
  pose proof (base_n _ _ Hbase). unfold gen_load, addr_with_imm.
  destruct (Z.eqb_spec (ArgsI.imm a) 0) as [Hz|Hz]; build; split_emitted; unfold exec_load.
  - rewrite Hz, Z.add_0_r, (wrap_get _ _ _ _ Hg H1).
    eapply x_load; [exact Ht|exact Hbase|earlier|lia|unchanged|value|done..].
  - x_op. cbn [ty_bits] in U. rewrite !wrap64_twice, wrap_add in U.
    eapply x_load; [exact Ht|exact Hbase|earlier|lia|unchanged|value|done..].
Qed.

Lemma x_store ts k t2 t m σ w x i va v :
  guest ts σ x -> read ts σ t = va -> read ts σ t2 = v -> 0 <= m -> u32 m = m ->
  agrees ts x
    (match mem_store w va (MemOp.size_bytes m) (wrap (8 * MemOp.size_bytes m) v) with
     | (true, w') => RvIsa.Fall x w' | (false, w') => Fault w' end)
    (run ts i None [Op.with_args k QemuSt Ty.I64 [t2; t; carg m]] σ w).
Proof.
  intros Hg Hva Hv Hm Hm32.
  destruct (mem_store w va _ _) as [ok w'] eqn:Es.
  eapply x_st; [done|done|done| |exact Hm|exact Hv|exact Hva|exact Es|].
  { unfold carg. by rewrite Hm32. }
  destruct ok; [by exists σ|]. do 3 eexists. split; [reflexivity|]. split; [done|by right].
Qed.

Lemma gen_store_ok a m :
  is_reg (ArgsS.rs1 a) -> is_reg (ArgsS.rs2 a) -> 0 <= m -> u32 m = m ->
  translates d (plain d (gen_store d a m)) false
    (fun x w => exec_store mem_store x w a (MemOp.size_bytes m)).
Proof.
  intros H1 H2 Hm Hm32. apply translates_plain. intros E n0 Hbase.
  pose proof (base_n _ _ Hbase). unfold gen_store, addr_with_imm.
  destruct (Z.eqb_spec (ArgsS.imm a) 0) as [Hz|Hz]; build; split_emitted; unfold exec_store.
  - rewrite Hz, Z.add_0_r, (wrap_get _ _ _ _ Hg H1). eapply x_store; [unchanged|value|value|done..].
  - x_op. cbn [ty_bits] in U. rewrite !wrap64_twice, wrap_add in U.
    eapply x_store; [unchanged|value|value|done..].
Qed.

(** ** Leaving the block *)

Lemma x_pc ts E n k c v l σ w x i (P : option ((N -> Z) * W * stop) -> Prop) :
  typed ts E -> base E n -> read ts σ c = v -> in_range 64 v -> guest ts σ x ->
  (forall σ1, guest ts σ1 x -> read ts σ1 33 = v -> P (run ts (S i) None l σ1 w)) ->
  P (run ts i None (Op.with_args k Mov Ty.I64 [pc d; c] :: l) σ w).
Proof.
  intros Ht Hb Hc Hv Hg HP. rewrite (lay_pc _ Hd).
  eapply x_mov; [exact Ht|by apply (base_var _ _ Hb 33)|exact Hc|intros σ1 U].
  cbn [ty_bits] in U. rewrite wrap64_twice, (wrap_small 64 v) in U by done. apply HP; [|exact (proj1 U)].
  by eapply guest_pc.
Qed.

Lemma x_leave k k' i idx target x0 x ts σ w l :
  0 <= idx <= 1 -> guest ts σ x -> read ts σ 33 = target ->
  agrees ts x0 (Goto x w target) (run ts i None
    (Op.with_args k GotoTb Ty.I64 [carg idx] :: Op.with_args k' ExitTb Ty.I64 [carg idx] :: l) σ w).
Proof.
  intros Hi Hg Hp. apply x_goto; [|apply x_exit]; do 3 eexists; (split; [reflexivity|]);
    split_and!; try done; exists idx; (split; [reflexivity|]); [left|right]; (split; [done|]);
    unfold TB_EXIT_IDX0, TB_EXIT_IDX1; lia.
Qed.

Lemma exit_with_ok at_pc code :
  in_range 64 at_pc -> translates d (exit_with d at_pc code) true (fun x w => Trap x w at_pc code).
Proof.
  intros Hp E n Hbase. pose proof (base_n _ _ Hbase). build.
  split; [done|]. split; [apply plain_shape_end; plain_ops|]. cbn [app un_opcode].
  intros ts σ w x i Ht Hg. eapply x_pc; [exact Ht|exact Hbase|value|done|exact Hg|].
  intros σ1 Hg1 Hpc. apply x_exit. do 3 eexists. split; [reflexivity|]. done.
Qed.

Lemma trans_jal_ok a :
  is_reg (ArgsJ.rd a) ->
  translates d (trans_jal d a) true (fun x w =>
    Goto (put x (ArgsJ.rd a) (next_pc d)) w (pc_rel d (ArgsJ.imm a))).
Proof.
  intros Hr E n Hbase. pose proof (base_n _ _ Hbase). build.
  split; [done|]. split; [apply plain_shape_end; plain_ops|]. cbn [app un_opcode].
  intros ts σ w x i Ht Hg. describe.
  eapply (x_set_reg _ _ _ _ ts _ _ Mov); [exact Ht|exact Hbase|exact Hset|reflexivity|value|exact Hg|].
  intros σ1 Hg1 _. unfold next_pc in *. rewrite wrap64_twice in Hg1.
  eapply x_pc; [exact Ht|exact Hbase|value|by apply wrap_range|exact Hg1|]. intros σ2 Hg2 Hpc.
  by apply (x_leave _ _ _ 0).
Qed.

Lemma trans_jalr_ok a :
  is_reg (ArgsI.rd a) -> is_reg (ArgsI.rs1 a) ->
  translates d (trans_jalr d a) true (fun x w =>
    Goto (put x (ArgsI.rd a) (next_pc d)) w (2 * (u64 (get x (ArgsI.rs1 a) + ArgsI.imm a) / 2))).
Proof.
  intros Hr H1 E n Hbase. pose proof (base_n _ _ Hbase). build.
  split; [done|]. split; [apply plain_shape_end; plain_ops|]. cbn [app bin_opcode un_opcode].
  intros ts σ w x i Ht Hg. describe. x_op. cbn [ty_bits] in U. rewrite !wrap64_twice, wrap_add in U.
  x_op. cbn [ty_bits] in U0. rewrite wrap64_twice, (wrap_small 64 (bnot 64 1)) in U0 by done.
  pose proof (wrap_range 64 (get x (ArgsI.rs1 a) + ArgsI.imm a) ltac:(lia)) as Hr0.
  rewrite clear_bit0 in U0 by done.
  eapply (x_set_reg _ _ _ _ ts _ _ Mov); [exact Ht|exact Hbase|exact Hset|reflexivity|value|unchanged|].
  intros σ1' Hg1 Hsame. unfold next_pc in *. rewrite wrap64_twice in Hg1.
  eapply x_pc; [exact Ht|exact Hbase| | |exact Hg1|].
  { rewrite Hsame by lia. exact (proj1 U0). }
  { unfold in_range in *. pose proof (Z.mul_div_le (u64 (get x (ArgsI.rs1 a) + ArgsI.imm a)) 2).
    pose proof (Z.div_pos (u64 (get x (ArgsI.rs1 a) + ArgsI.imm a)) 2). lia. }
  intros σ2 Hg2 Hpc. apply x_exit. do 3 eexists. split; [reflexivity|]. split; [done|]. split; [done|].
  exists TB_EXIT_NOCHAIN. split; [done|]. right. split; [done|]. by right; right.
Qed.

Lemma branch_ok a cc :
  is_reg (ArgsB.rs1 a) -> is_reg (ArgsB.rs2 a) ->
  translates d (branch d a cc) true (fun x w =>
    Goto x w (if Cond.holds 64 cc (get x (ArgsB.rs1 a)) (get x (ArgsB.rs2 a))
              then pc_rel d (ArgsB.imm a) else next_pc d)).
Proof.
  intros H1 H2 E n Hbase. pose proof (base_n _ _ Hbase). build. cbn [app un_opcode].
  split; [done|]. split.
  { split; [by repeat constructor|].
    match goal with |- labels_once [?a; ?b; ?c; ?e; ?s; ?f; ?g; ?h] =>
      apply (labels_once_mid [a; b; c; e] [f; g; h] s) end; by repeat constructor. }
  intros ts σ w x i Ht Hg. describe. eapply x_brcond; [value|value|]. small.
  destruct (Cond.holds 64 cc _ _).
  - do 3 (apply x_skip; [done|]). apply x_land.
    eapply x_pc; [exact Ht|exact Hbase|value|by apply wrap_range|exact Hg|]. intros σ1 Hg1 Hpc.
    by apply (x_leave _ _ _ 1).
  - eapply x_pc; [exact Ht|exact Hbase|value|by apply wrap_range|exact Hg|]. intros σ1 Hg1 Hpc.
    by apply (x_leave _ _ _ 0).
Qed.
End Gen.
