(* ===== verification/RvTransOk.v ===== *)
(** * Every modelled instruction is translated correctly

    [trans_ok]: for an instruction with in-range fields whose extension is enabled, the
    emitted ops do what [RvIsa.exec] says, and the translator ends the block exactly
    after the instructions that change the flow of control. *)

From Stdlib Require Import ZArith Lia Bool.
From stdpp Require Import base tactics numbers list gmap functions.
From S2P Require Import Prelude IrTypes IrOpcode IrContext IrBuild IrSem IrHost Tb RvInsn RvIsa RvTrans RvBits RvEmit RvTransProof.
Import Opcode.

(** ** Instructions as the decoder produces them *)

Definition is_imm (v : Z) : Prop := - 2 ^ 63 <= v < 2 ^ 63.
Definition okR (a : ArgsR.t) : Prop := is_reg (ArgsR.rd a) /\ is_reg (ArgsR.rs1 a) /\ is_reg (ArgsR.rs2 a).
Definition okR2 (a : ArgsR2.t) : Prop := is_reg (ArgsR2.rd a) /\ is_reg (ArgsR2.rs1 a).
Definition okI (a : ArgsI.t) : Prop := is_reg (ArgsI.rd a) /\ is_reg (ArgsI.rs1 a) /\ is_imm (ArgsI.imm a).
Definition okS (a : ArgsS.t) : Prop := is_reg (ArgsS.rs1 a) /\ is_reg (ArgsS.rs2 a).
Definition okB (a : ArgsB.t) : Prop := is_reg (ArgsB.rs1 a) /\ is_reg (ArgsB.rs2 a).
Definition okSh (n : Z) (a : ArgsShift.t) : Prop :=
  is_reg (ArgsShift.rd a) /\ is_reg (ArgsShift.rs1 a) /\ 0 <= ArgsShift.shamt a < n.

Definition okA (a : ArgsAtomic.t) : Prop :=
  is_reg (ArgsAtomic.rd a) /\ is_reg (ArgsAtomic.rs1 a) /\ is_reg (ArgsAtomic.rs2 a).
Definition okC (a : ArgsCsr.t) : Prop := is_reg (ArgsCsr.rd a) /\ is_reg (ArgsCsr.rs1 a).

Definition ok_rv32i (i : Rv32i) : Prop :=
  match i with
  | LUI a | AUIPC a => is_reg (ArgsU.rd a)
  | JAL a => is_reg (ArgsJ.rd a)
  | BEQ a | BNE a | BLT a | BGE a | BLTU a | BGEU a => okB a
  | JALR a | LB a | LH a | LW a | LBU a | LHU a
  | ADDI a | SLTI a | SLTIU a | XORI a | ORI a | ANDI a => okI a
  | SB a | SH a | SW a => okS a
  | SLLI a | SRLI a | SRAI a => okSh 64 a
  | ADD a | SUB a | SLL a | SLT a | SLTU a | XOR a | SRL a | SRA a | OR a | AND a => okR a
  | FENCE | FENCE_I => True
  end.

Definition ok_rv64i (i : Rv64i) : Prop :=
  match i with
  | LWU a | LD a | ADDIW a => okI a
  | SD a => okS a
  | SLLIW a | SRLIW a | SRAIW a => okSh 32 a
  | ADDW a | SUBW a | SLLW a | SRLW a | SRAW a => okR a
  end.

Definition ok_rvm (i : Rvm) : Prop :=
  match i with
  | MUL a | MULH a | MULHSU a | MULHU a | DIV a | DIVU a | REM a | REMU a
  | MULW a | DIVW a | DIVUW a | REMW a | REMUW a => okR a
  end.

Definition ok_zba (i : Zba) : Prop :=
  match i with
  | SH1ADD a | SH2ADD a | SH3ADD a | SH1ADD_UW a | SH2ADD_UW a | SH3ADD_UW a | ADD_UW a => okR a
  | SLLI_UW a => okSh 64 a
  end.

Definition ok_zbb (i : Zbb) : Prop :=
  match i with
  | ANDN a | ORN a | XNOR a | MAX a | MAXU a | MIN a | MINU a | ROL a | ROR a | ROLW a | RORW a => okR a
  | RORI a => okSh 64 a
  | RORIW a => okSh 32 a
  | CLZ a | CTZ a | CPOP a | CLZW a | CTZW a | CPOPW a
  | SEXT_B a | SEXT_H a | ZEXT_H a | REV8 a | ORC_B a => okR2 a
  end.

Definition ok_zbs (i : Zbs) : Prop :=
  match i with
  | BCLR a | BEXT a | BINV a | BSET a => okR a
  | BCLRI a | BEXTI a | BINVI a | BSETI a => okSh 64 a
  end.

Definition ok_zbk (i : Zbk) : Prop :=
  match i with
  | BREV8 a => okR2 a
  | PACK a | PACKH a | PACKW a | XPERM4 a | XPERM8 a => okR a
  end.

Definition csr_args (i : Zicsr) : ArgsCsr.t :=
  match i with CSRRW a | CSRRS a | CSRRC a | CSRRWI a | CSRRSI a | CSRRCI a => a end.

Definition atomic_args (i : Rva) : ArgsAtomic.t :=
  match i with
  | LR_W a | SC_W a | AMOSWAP_W a | AMOADD_W a | AMOXOR_W a | AMOAND_W a | AMOOR_W a
  | AMOMIN_W a | AMOMAX_W a | AMOMINU_W a | AMOMAXU_W a
  | LR_D a | SC_D a | AMOSWAP_D a | AMOADD_D a | AMOXOR_D a | AMOAND_D a | AMOOR_D a
  | AMOMIN_D a | AMOMAX_D a | AMOMINU_D a | AMOMAXU_D a => a
  end.

Definition insn_ok (i : Insn) : Prop :=
  match i with
  | Rv32i_insn i => ok_rv32i i
  | Rv64i_insn i => ok_rv64i i
  | Rvm_insn i => ok_rvm i
  | Zba_insn i => ok_zba i
  | Zbb_insn i => ok_zbb i
  | Zbc_insn (CLMUL a | CLMULH a | CLMULR a) => okR a
  | Zbs_insn i => ok_zbs i
  | Zbk_insn i => ok_zbk i
  | Zicsr_insn i => okC (csr_args i)
  | Rva_insn i => okA (atomic_args i)
  | Priv_insn _ | Zicbo_insn _ => True
  end.

(** The extension an instruction belongs to is there. *)
Definition enabled (c : RiscvCfg) (i : Insn) : bool :=
  match i with
  | Rv32i_insn _ | Rv64i_insn _ => true
  | Priv_insn SINVAL_VMA => ext_svinval c
  | Priv_insn _ => true
  | Zicsr_insn _ => ext_zicsr c
  | Rvm_insn _ => misa_m c
  | Rva_insn _ => misa_a c
  | Zba_insn _ => ext_zba c
  | Zbb_insn _ => ext_zbb c
  | Zbc_insn _ => ext_zbc c
  | Zbs_insn _ => ext_zbs c
  | Zbk_insn (XPERM4 _ | XPERM8 _) => ext_zbkx c
  | Zbk_insn _ => ext_zbkb c
  | Zicbo_insn CBO_ZERO => ext_zicboz c
  | Zicbo_insn _ => ext_zicbom c
  end.

(** The instructions [RvIsa.exec] describes: not CSR accesses, atomics and [cbo.zero]. *)
Definition described (i : Insn) : bool :=
  match i with
  | Zicsr_insn _ | Rva_insn _ | Zicbo_insn CBO_ZERO => false
  | _ => true
  end.

(** Instructions after which the next one is not the following one. *)
Definition ends_block (i : Insn) : bool :=
  match i with
  | Rv32i_insn (JAL _ | JALR _ | BEQ _ | BNE _ | BLT _ | BGE _ | BLTU _ | BGEU _ | FENCE_I) => true
  | Priv_insn (TH_FENCE_SPA | MFENCE_SPA | MINVAL_SPA) => false
  | Priv_insn _ => true
  | _ => false
  end.

(** ** What the ops compute *)

Lemma rol_range w a n : 0 < w -> in_range w a -> in_range w (rol w a n).
Proof.
  intros Hw Ha. unfold rol. pose proof (Z.mod_pos_bound n w ltac:(lia)) as Hm.
  set (k := n mod w) in *. clearbody k. unfold in_range in *.
  assert (E : 2 ^ w = 2 ^ (w - k) * 2 ^ k) by (rewrite <- Z.pow_add_r by lia; f_equal; lia).
  pose proof (Z.pow_pos_nonneg 2 k). pose proof (Z.pow_pos_nonneg 2 (w - k)).
  unfold wrap. rewrite E, Z.mul_mod_distr_r by lia.
  pose proof (Z.mod_pos_bound a (2 ^ (w - k))). pose proof (Z.div_pos a (2 ^ (w - k))).
  assert (a / 2 ^ (w - k) < 2 ^ k) by (apply Z.div_lt_upper_bound; lia). nia.
Qed.

Lemma ror_rol w a n : 0 < w -> n mod w <> 0 -> ror w a n = rol w a (w - n mod w).
Proof.
  intros Hw Hn. unfold ror, rol. pose proof (Z.mod_pos_bound n w ltac:(lia)).
  rewrite (Z.mod_small (w - n mod w)) by lia. replace (w - (w - n mod w)) with (n mod w) by lia. lia.
Qed.

Lemma ror_range w a n : 0 < w -> in_range w a -> in_range w (ror w a n).
Proof.
  intros Hw Ha. destruct (decide (n mod w = 0)) as [E|E]; [|rewrite ror_rol by done; by apply rol_range].
  unfold ror. rewrite E, Z.sub_0_r. change (2 ^ 0) with 1. rewrite Z.div_1_r.
  unfold wrap. rewrite Z.mod_mul by (apply Z.pow_nonzero; lia). by rewrite Z.add_0_r.
Qed.

Lemma div_pow_range w v n : in_range w v -> 0 <= n -> in_range w (v / 2 ^ n).
Proof.
  intros Hv Hn. unfold in_range in *. pose proof (Z.pow_pos_nonneg 2 n).
  split; [apply Z.div_pos; lia|]. apply Z.div_lt_upper_bound; nia.
Qed.

(** The meaning of each opcode at width [w]. *)
Lemma op_is_of op w F :
  is_bin (bin_opcode op) = true ->
  (forall v u, in_range w v -> in_range w u ->
     sem_binary (bin_opcode op) w v u = Some (F v u) /\ in_range w (F v u)) -> op_is op w F.
Proof.
  intros Hb H. split; [done|]. intros v u Hv Hu. destruct (H v u Hv Hu) as [E R].
  exists (F v u). split; [done|]. by apply wrap_small.
Qed.

Ltac op_is_tac := intros Hw; apply op_is_of; [done|]; intros v u Hv Hu; split; [reflexivity|].

Lemma op_add w : 0 < w -> op_is gen_add w (fun v u => wrap w (v + u)).
Proof. op_is_tac. apply wrap_range. lia. Qed.
Lemma op_sub w : 0 < w -> op_is gen_sub w (fun v u => wrap w (v - u)).
Proof. op_is_tac. apply wrap_range. lia. Qed.
Lemma op_mul w : 0 < w -> op_is gen_mul w (fun v u => wrap w (v * u)).
Proof. op_is_tac. apply wrap_range. lia. Qed.
Lemma op_and w : 0 < w -> op_is gen_and w Z.land.
Proof. op_is_tac. apply land_range_l; [lia|done]. Qed.
Lemma op_or w : 0 < w -> op_is gen_or w Z.lor.
Proof. op_is_tac. apply lor_range; [lia|done|done]. Qed.
Lemma op_xor w : 0 < w -> op_is gen_xor w Z.lxor.
Proof. op_is_tac. apply lxor_range; [lia|done|done]. Qed.
Lemma op_andc w : 0 < w -> op_is gen_andc w Z.ldiff.
Proof. op_is_tac. apply ldiff_range; [lia|done]. Qed.
Lemma op_shl w : 0 < w -> op_is gen_shl w (fun v u => wrap w (v * 2 ^ (u mod w))).
Proof. op_is_tac. apply wrap_range. lia. Qed.
Lemma op_shr w : 0 < w -> op_is gen_shr w (fun v u => v / 2 ^ (u mod w)).
Proof. op_is_tac. apply div_pow_range; [done|]. apply Z.mod_pos_bound. lia. Qed.
Lemma op_sar w : 0 < w -> op_is gen_sar w (fun v u => wrap w (signed w v / 2 ^ (u mod w))).
Proof. op_is_tac. apply wrap_range. lia. Qed.
Lemma op_rotl w : 0 < w -> op_is gen_rotl w (rol w).
Proof. op_is_tac. by apply rol_range. Qed.
Lemma op_rotr w : 0 < w -> op_is gen_rotr w (ror w).
Proof. op_is_tac. by apply ror_range. Qed.

Section Trans.
Context {W : Type}.
Variable mem_load : W -> Z -> Z -> option Z * W.
Variable mem_store : W -> Z -> Z -> Z -> bool * W.
Variable helper_at : Z -> option (list Z -> option Z).
Variable chained : N -> W -> bool.
Variable addr_of : Helper -> Z.
Variable MSTATUS_OFFSET : Z.

Hypothesis helpers_linked : forall h,
  in_range 64 (addr_of h) /\ helper_at (addr_of h) = Some (helper_fn h).

Variable d : Dis.
Hypothesis Hd : layout d.

Local Notation translates := (translates mem_load mem_store helper_at chained d).
Local Notation computes := (computes mem_load mem_store helper_at chained).

(** Any builder that computes the right value will do. *)
Lemma by_value m rd f g :
  computes m rd f -> (forall x, regs_ok x -> f x = g x) ->
  translates (plain d m) false (fun x w => RvIsa.Fall (put x rd (g x)) w).
Proof.
  intros Hm Hfg. eapply translates_computes; [exact Hm|]. intros x w Hx. by rewrite Hfg.
Qed.

Lemma holds_lt_imm v n : is_imm n -> Cond.holds 64 Cond.Lt v (u64 n) = (signed 64 v <? n).
Proof. intros Hn. unfold Cond.holds. by rewrite (signed_wrap 64) by (unfold is_imm in Hn; lia). Qed.

Ltac fields :=
  unfold okR, okR2, okI, okS, okB, okSh in *;
  repeat match goal with H : _ /\ _ |- _ => destruct H end.

Lemma sext32_wrap n q : 32 <= n -> sext 32 (wrap n q) = sext 32 q.
Proof. intros Hn. unfold sext. by rewrite wrap_wrap by lia. Qed.

Lemma wrap32_mod32 v : wrap 32 v mod 32 = v mod 32.
Proof. exact (wrap_wrap 5 32 v ltac:(lia)). Qed.

Lemma wrap_add_r w a b : wrap w (a + wrap w b) = wrap w (a + b).
Proof. apply Zplus_mod_idemp_r. Qed.

Lemma wrap_mul_l w a b : wrap w (wrap w a * b) = wrap w (a * b).
Proof. apply Zmult_mod_idemp_l. Qed.

Lemma shamt_mod n w : 0 <= n < w -> 0 < w <= 64 -> u64 n mod w = n.
Proof. intros Hn Hw. rewrite (wrap_small 64) by (unfold in_range; lia). apply Z.mod_small. lia. Qed.

(** Register values are in range; shift amounts and immediates read back. *)
Ltac values :=
  let x := fresh "x" in let Hx := fresh "Hx" in
  intros x Hx; cbn beta; unfold is_imm in *;
  rewrite ?wrap32_mod32, ?shamt_mod by lia; try done.

(** An instruction that writes a register, by the lemma on its builder. *)
Tactic Notation "alu" uconstr(g) "by" uconstr(o) :=
  eapply by_value; [eapply g; [done|by apply o|done..]|values].
Tactic Notation "alu" uconstr(g) :=
  eapply by_value; [eapply g; (done || lia)|values].

Ltac regs := match goal with H : regs_ok _ |- in_range 64 (get _ _) => by apply H end.

(** A helper call with two operands. *)
Tactic Notation "call2" uconstr(h) uconstr(F) :=
  eapply by_value;
  [by eapply (gen_call2_ok _ _ _ _ addr_of helpers_linked d Hd _ h F (fun _ _ _ => eq_refl))|values].

Tactic Notation "call1" uconstr(h) uconstr(F) :=
  eapply by_value;
  [by eapply (gen_call1_ok _ _ _ _ addr_of helpers_linked d Hd _ h F (fun _ _ _ => eq_refl))|values].

Lemma ldiff_bnot v u : in_range 64 v -> Z.ldiff v u = Z.land v (bnot 64 u).
Proof.
  intros [_ Hv]%in_range_bits; [|lia]. zbits. destruct (Z.ltb_spec i 64).
  - by destruct (Z.leb_spec 0 i); [|lia].
  - by rewrite Hv.
Qed.

Lemma min_signed v u :
  in_range 64 v -> in_range 64 u ->
  (if Cond.holds 64 Cond.Lt v u then v else u) = if ltb_signed u v then u else v.
Proof.
  intros Hv Hu. unfold Cond.holds, ltb_signed.
  destruct (Z.ltb_spec (signed 64 v) (signed 64 u)), (Z.ltb_spec (signed 64 u) (signed 64 v)); try (lia || done).
  assert (E : signed 64 u = signed 64 v) by lia. apply (f_equal (wrap 64)) in E.
  by rewrite !wrap_signed, !wrap_small in E by (lia || done).
Qed.

Lemma trans_rv32i_ok i :
  ok_rv32i i -> translates (trans_rv32i d i) (ends_block (Rv32i_insn i))
    (exec_rv32i mem_load mem_store (pc_next d) (cur_insn_len d) i).
Proof.
  destruct i as [a|a|a|a|a|a|a|a|a|a|a|a|a|a|a|a|a|a|a|a|a|a|a|a|a|a|a|a|a|a|a|a|a|a|a|a|a| |];
    cbn [ok_rv32i ends_block trans_rv32i]; intros Hok; fields.
  - (* LUI *) apply (by_value _ _ _ _ (gen_const_ok _ _ _ _ d Hd _ _ Hok ltac:(by apply wrap_range))). done.
  - (* AUIPC *) apply (by_value _ _ _ _ (gen_const_ok _ _ _ _ d Hd _ _ Hok ltac:(by apply wrap_range))). done.
  - (* JAL *) by apply trans_jal_ok.
  - (* JALR *) by apply trans_jalr_ok.
  - by apply (branch_ok _ _ _ _ d Hd a Cond.Eq).
  - by apply (branch_ok _ _ _ _ d Hd a Cond.Ne).
  - by apply (branch_ok _ _ _ _ d Hd a Cond.Lt).
  - eapply translates_ext; [by apply (branch_ok _ _ _ _ d Hd a Cond.Ge)|]. intros x w _.
    unfold exec_rv32i, exec_branch, ltb_signed, Cond.holds. by rewrite Z.leb_antisym.
  - by apply (branch_ok _ _ _ _ d Hd a Cond.Ltu).
  - eapply translates_ext; [by apply (branch_ok _ _ _ _ d Hd a Cond.Geu)|]. intros x w _.
    unfold exec_rv32i, exec_branch, Cond.holds. by rewrite Z.leb_antisym.
  - by apply (gen_load_ok _ _ _ _ d Hd a MemOp.sb (sext 8)); [..|intros v; apply wrap64_twice].
  - by apply (gen_load_ok _ _ _ _ d Hd a MemOp.sw (sext 16)); [..|intros v; apply wrap64_twice].
  - by apply (gen_load_ok _ _ _ _ d Hd a MemOp.sl (sext 32)); [..|intros v; apply wrap64_twice].
  - by apply (gen_load_ok _ _ _ _ d Hd a MemOp.ub (wrap 8)); [..|intros v; apply (wrap_wrap_lt 8 64)].
  - by apply (gen_load_ok _ _ _ _ d Hd a MemOp.uw (wrap 16)); [..|intros v; apply (wrap_wrap_lt 16 64)].
  - by apply (gen_store_ok _ _ _ _ d Hd a MemOp.ub).
  - by apply (gen_store_ok _ _ _ _ d Hd a MemOp.uw).
  - by apply (gen_store_ok _ _ _ _ d Hd a MemOp.ul).
  - alu gen_arith_imm_ok by op_add. apply wrap_add_r.
  - alu gen_setcond_imm_ok. by rewrite holds_lt_imm.
  - alu gen_setcond_imm_ok.
  - alu gen_arith_imm_ok by op_xor.
  - alu gen_arith_imm_ok by op_or.
  - alu gen_arith_imm_ok by op_and.
  - alu gen_shift_imm_ok by op_shl.
  - alu gen_shift_imm_ok by op_shr.
  - alu gen_shift_imm_ok by op_sar.
  - alu gen_arith_ok by op_add.
  - alu gen_arith_ok by op_sub.
  - alu gen_arith_ok by op_shl.
  - alu gen_setcond_rr_ok.
  - alu gen_setcond_rr_ok.
  - alu gen_arith_ok by op_xor.
  - alu gen_arith_ok by op_shr.
  - alu gen_arith_ok by op_sar.
  - alu gen_arith_ok by op_or.
  - alu gen_arith_ok by op_and.
  - by apply translates_nop.
  - apply exit_with_ok; [done|]. by apply wrap_range.
Qed.

Lemma trans_rv64i_ok i :
  ok_rv64i i -> translates (plain d (trans_rv64i d i)) false (exec_rv64i mem_load mem_store i).
Proof.
  destruct i; cbn [ok_rv64i trans_rv64i]; intros Hok; fields.
  - by apply (gen_load_ok _ _ _ _ d Hd a MemOp.ul (wrap 32)); [..|intros v; apply (wrap_wrap_lt 32 64)].
  - by apply (gen_load_ok _ _ _ _ d Hd a MemOp.uq (wrap 64)); [..|intros v; apply wrap64_twice].
  - by apply (gen_store_ok _ _ _ _ d Hd a MemOp.uq).
  - alu gen_arith_imm_w_ok by op_add. by rewrite wrap_add_r, sext32_wrap by lia.
  - alu gen_shift_imm_w_ok by op_shl.
    by rewrite wrap_mul_l, sext32_wrap by lia.
  - alu gen_shift_imm_w_ok by op_shr.
  - alu gen_shift_imm_w_ok by op_sar. by rewrite sext32_wrap by lia.
  - alu gen_arith_w_ok by op_add. by rewrite sext32_wrap by lia.
  - alu gen_arith_w_ok by op_sub. by rewrite sext32_wrap by lia.
  - alu gen_shiftw_ok by op_shl. by rewrite wrap_mul_l, sext32_wrap by lia.
  - alu gen_shiftw_ok by op_shr.
  - alu gen_shiftw_ok by op_sar. by rewrite sext32_wrap by lia.
Qed.

Lemma trans_rvm_ok i :
  ok_rvm i -> misa_m (cfg d) = true ->
  translates (trans_rvm addr_of d i) false (fun x w => alu (alu_rvm x i) x w).
Proof.
  unfold trans_rvm. intros Hok ->. cbn [require].
  destruct i; cbn [ok_rvm] in Hok; fields; unfold alu; cbn [alu_rvm fst snd].
  - alu gen_arith_ok by op_mul.
  - alu gen_mulh_ok.
  - alu trans_mulhsu_ok.
  - alu gen_mulhu_ok.
  - call2 H_divs64 helper_divs64. rewrite helper_divs64_ok by regs.
    case_if; [done|]. apply wrap64_twice.
  - eapply by_value; [by eapply (gen_divu_remu_ok _ _ _ _ d Hd a false)|]. by values.
  - call2 H_rems64 helper_rems64. rewrite helper_rems64_ok by regs.
    case_if; [|apply wrap64_twice]. apply wrap_small. regs.
  - eapply by_value; [by eapply (gen_divu_remu_ok _ _ _ _ d Hd a true)|]. by values.
  - alu gen_arith_w_ok by op_mul. by rewrite sext32_wrap by lia.
  - call2 H_divw64 helper_divw64. rewrite helper_divw64_ok. case_if; [done|]. apply wrap64_twice.
  - eapply by_value; [by eapply (gen_divu_remu_w_ok _ _ _ _ d Hd a false)|]. values. by case_if.
  - call2 H_remw64 helper_remw64. rewrite helper_remw64_ok. case_if; apply wrap64_twice.
  - eapply by_value; [by eapply (gen_divu_remu_w_ok _ _ _ _ d Hd a true)|]. values. by case_if.
Qed.

Lemma trans_zba_ok i :
  ok_zba i -> ext_zba (cfg d) = true ->
  translates (trans_zba d i) false (fun x w => alu (alu_zba x i) x w).
Proof.
  unfold trans_zba. intros Hok ->. cbn [require].
  destruct i; cbn [ok_zba] in Hok; fields; unfold alu; cbn [alu_zba fst snd].
  - by alu gen_shadd_ok.
  - by alu gen_shadd_ok.
  - by alu gen_shadd_ok.
  - by alu gen_shadd_uw_ok.
  - by alu gen_shadd_uw_ok.
  - by alu gen_shadd_uw_ok.
  - by alu gen_add_uw_ok.
  - by alu gen_slli_uw_ok.
Qed.

Lemma trans_zbb_ok i :
  ok_zbb i -> ext_zbb (cfg d) = true ->
  translates (trans_zbb addr_of d i) false (fun x w => alu (alu_zbb x i) x w).
Proof.
  unfold trans_zbb. intros Hok ->. cbn [require].
  destruct i; cbn [ok_zbb] in Hok; fields; unfold alu; cbn [alu_zbb fst snd].
  - alu gen_arith_ok by op_andc. apply ldiff_bnot. regs.
  - alu gen_orn_ok.
  - alu gen_xnor_ok.
  - eapply by_value; [by eapply (gen_minmax_ok _ _ _ _ d Hd a Cond.Ge)|]. values.
    unfold Cond.holds, ltb_signed. rewrite Z.leb_antisym. by destruct (_ <? _).
  - eapply by_value; [by eapply (gen_minmax_ok _ _ _ _ d Hd a Cond.Geu)|]. values.
    unfold Cond.holds. destruct (Z.leb_spec (get x (ArgsR.rs2 a)) (get x (ArgsR.rs1 a))); lia.
  - eapply by_value; [by eapply (gen_minmax_ok _ _ _ _ d Hd a Cond.Lt)|]. values.
    apply min_signed; regs.
  - eapply by_value; [by eapply (gen_minmax_ok _ _ _ _ d Hd a Cond.Ltu)|]. values.
    unfold Cond.holds. destruct (Z.ltb_spec (get x (ArgsR.rs1 a)) (get x (ArgsR.rs2 a))); lia.
  - alu gen_arith_ok by op_rotl.
  - alu gen_arith_ok by op_rotr.
  - alu gen_shiftw_ok by op_rotl. unfold rol. by rewrite wrap32_mod32.
  - alu gen_shiftw_ok by op_rotr. unfold ror. by rewrite wrap32_mod32.
  - alu gen_shift_imm_ok by op_rotr. unfold ror. by rewrite shamt_mod, Z.mod_small by lia.
  - alu gen_shift_imm_w_ok by op_rotr.
    unfold ror. by rewrite wrap32_mod32, shamt_mod, Z.mod_small by lia.
  - alu gen_clz_ok.
  - alu gen_ctz_ok.
  - alu gen_cpop_ok.
  - alu gen_clzw_ok.
  - alu gen_ctzw_ok.
  - alu gen_cpopw_ok.
  - alu gen_sext_ok.
  - alu gen_sext_ok.
  - alu gen_zext_h_ok.
  - alu gen_rev8_ok.
  - call1 H_orc_b helper_orc_b. rewrite helper_orc_b_ok. apply wrap_small, (of_bits_range 64).
Qed.

Lemma trans_zbc_ok i :
  insn_ok (Zbc_insn i) -> ext_zbc (cfg d) = true ->
  translates (trans_zbc addr_of d i) false (fun x w => alu (alu_zbc x i) x w).
Proof.
  unfold trans_zbc. intros Hok ->. cbn [require].
  destruct i; cbn [insn_ok] in Hok; fields; unfold alu; cbn [alu_zbc fst snd].
  - call2 H_clmul helper_clmul. rewrite helper_clmul_ok by regs. apply wrap_small, (of_bits_range 64).
  - call2 H_clmulh helper_clmulh. rewrite helper_clmulh_ok by regs. apply wrap_small, (of_bits_range 64).
  - call2 H_clmulr helper_clmulr. rewrite helper_clmulr_ok by regs. apply wrap_small, (of_bits_range 64).
Qed.

Lemma trans_zbs_ok i :
  ok_zbs i -> ext_zbs (cfg d) = true ->
  translates (trans_zbs d i) false (fun x w => alu (alu_zbs x i) x w).
Proof.
  unfold trans_zbs. intros Hok ->. cbn [require].
  destruct i; cbn [ok_zbs] in Hok; fields; unfold alu; cbn [alu_zbs fst snd].
  - alu gen_bitop_ok by op_andc. by rewrite Z.clearbit_spec'.
  - alu gen_bitop_imm_ok by op_andc. by rewrite Z.clearbit_spec'.
  - alu gen_bext_ok.
  - alu gen_bexti_ok.
  - alu gen_bitop_ok by op_xor.
  - alu gen_bitop_imm_ok by op_xor.
  - alu gen_bitop_ok by op_or. by rewrite Z.setbit_spec'.
  - alu gen_bitop_imm_ok by op_or. by rewrite Z.setbit_spec'.
Qed.

Lemma trans_zbk_ok i :
  ok_zbk i -> enabled (cfg d) (Zbk_insn i) = true ->
  translates (trans_zbk addr_of d i) false (fun x w => alu (alu_zbk x i) x w).
Proof.
  destruct i; cbn [ok_zbk enabled]; intros Hok He; unfold trans_zbk; rewrite He; cbn [require];
    fields; unfold alu; cbn [alu_zbk fst snd].
  - call1 H_brev8 helper_brev8. rewrite helper_brev8_ok. apply wrap_small, (of_bits_range 64).
  - alu gen_pack_ok.
  - alu gen_packh_ok.
  - alu gen_packw_ok.
  - call2 H_xperm4 helper_xperm4. rewrite helper_xperm4_ok. apply wrap_small, (of_bits_range 64).
  - call2 H_xperm8 helper_xperm8. rewrite helper_xperm8_ok. apply wrap_small, (of_bits_range 64).
Qed.

Lemma trans_priv_ok i :
  enabled (cfg d) (Priv_insn i) = true -> in_range 64 (pc_next d) ->
  translates (trans_priv d i) (ends_block (Priv_insn i)) (exec_priv (pc_next d) (cur_insn_len d) i).
Proof.
  intros He Hp. assert (Hn : in_range 64 (next_pc d)) by by apply wrap_range.
  destruct i; cbn [enabled ends_block trans_priv] in *; rewrite ?He; cbn [require];
    first [by apply translates_nop | by apply exit_with_ok].
Qed.

Lemma trans_zicbo_ok i :
  enabled (cfg d) (Zicbo_insn i) = true ->
  translates (trans_zicbo d i) false (fun x w => RvIsa.Fall x w).
Proof.
  intros He. destruct i; cbn [enabled trans_zicbo] in *; rewrite He; by apply translates_nop.
Qed.

(** The outcome of a described instruction. *)
Definition outcome_of (i : Insn) (x : Z -> Z) (w : W) : outcome W :=
  default (RvIsa.Fall x w) (exec mem_load mem_store (pc_next d) (cur_insn_len d) i x w).

(** Every instruction whose meaning [RvIsa] gives. *)
Lemma trans_ok i :
  insn_ok i -> enabled (cfg d) i = true -> described i = true -> in_range 64 (pc_next d) ->
  translates (trans addr_of MSTATUS_OFFSET d i) (ends_block i) (outcome_of i).
Proof.
  intros Hok He Hs Hp. destruct i as [i|i|i|i|i|i|i|i|i|i|i|i]; cbn [insn_ok enabled] in *.
  - by apply trans_rv32i_ok.
  - by apply trans_rv64i_ok.
  - by apply trans_priv_ok.
  - done.
  - by apply trans_rvm_ok.
  - done.
  - by apply trans_zba_ok.
  - by apply trans_zbb_ok.
  - by apply trans_zbc_ok.
  - by apply trans_zbs_ok.
  - by apply trans_zbk_ok.
  - destruct i; [by apply trans_zicbo_ok..|done].
Qed.

End Trans.
