(* ===== verification/RvBlock.v ===== *)
(** * Correctness of translated blocks

    The generic translator loop with the RISC-V translator: a block translated from
    guest code, run from its first op, follows the reference semantics [RvIsa]
    instruction by instruction and leaves where, how and with the registers the
    reference says. *)

From Stdlib Require Import ZArith Lia Bool.
From stdpp Require Import base tactics numbers list gmap functions.
From S2P Require Import Prelude IrTypes IrOpcode IrContext IrBuild IrSem IrHost Tb RvInsn RvIsa RvTrans RvBits RvEmit RvTransProof RvTransOk.
Import Opcode.

(** The guest program counter the ops record last: generated code stores it in
    [fault_pc] when it passes an [InsnStart]. *)
Definition start_of (op : Op.Op) : option Z :=
  match Op.opc op, Op.args op with
  | InsnStart, lo :: hi :: _ => Some (Z.of_N lo + 2 ^ 32 * Z.of_N hi)
  | _, _ => None
  end.

Fixpoint last_start (l : list Op.Op) : option Z :=
  match l with
  | [] => None
  | op :: rest => match last_start rest with Some pc => Some pc | None => start_of op end
  end.

Lemma last_start_app l1 l2 pc : last_start l2 = Some pc -> last_start (l1 ++ l2) = Some pc.
Proof. intros H. induction l1 as [|op l1 IH]; [done|]. cbn [app last_start]. by rewrite IH. Qed.

Lemma last_start_none l : Forall (fun op => Op.opc op <> InsnStart) l -> last_start l = None.
Proof.
  induction 1 as [|op l Ho _ IH]; [done|]. cbn [last_start]. rewrite IH. unfold start_of.
  by destruct (Op.opc op).
Qed.

Section Block.
Context {W : Type}.
Variable mem_load : W -> Z -> Z -> option Z * W.
Variable mem_store : W -> Z -> Z -> Z -> bool * W.
Variable helper_at : Z -> option (list Z -> option Z).
Variable chained : N -> W -> bool.
Variable addr_of : Helper -> Z.
Variable MSTATUS_OFFSET : Z.
Variables decode32 decode16 : Z -> Decoded.
Variable decode_xthead : Dis -> Z -> Trans.
Variables fetch16 fetch32 : Z -> Z.

(** The translation context at the start of the block. *)
Variable d0 : Dis.

(** ** The reference: one instruction at a program counter *)

(** The word at [pc]; the one that straddles the page was fetched beforehand. *)
Definition word_at (pc : Z) : Z :=
  if negb (cross_page_insn d0 =? 0) && (pc =? cross_page_pc d0)
  then cross_page_insn d0 else fetch32 pc.

(** The instruction at [pc] and its length. *)
Definition insn_at (pc : Z) : Decoded * Z :=
  let half := fetch16 pc in
  if negb (Z.land half 3 =? 3) then (if misa_c (cfg d0) then decode16 half else NoMatch, 2)
  else (decode32 (word_at pc), 4).

(** What it does; an undefined or absent instruction traps. *)
Definition step_at (pc : Z) (x : Z -> Z) (w : W) : option (outcome W) :=
  match insn_at pc with
  | (NoMatch, _) => Some (Trap x w pc EXCP_UNDEF)
  | (Foreign, _) => None
  | (Matched i, len) =>
      if enabled (cfg d0) i then exec mem_load mem_store pc len i x w
      else Some (Trap x w pc EXCP_UNDEF)
  end.

(** [n] instructions that fall through. *)
Inductive path : nat -> Z -> (Z -> Z) -> W -> Z -> (Z -> Z) -> W -> Prop :=
| path_nil pc x w : path 0 pc x w pc x w
| path_cons n pc x w x1 w1 pc' x' w' :
    step_at pc x w = Some (RvIsa.Fall x1 w1) ->
    path n (u64 (pc + (insn_at pc).2)) x1 w1 pc' x' w' ->
    path (S n) pc x w pc' x' w'.

(** The instructions of up to [n] steps of straight-line code are ones [RvIsa] describes. *)
Fixpoint code_ok (n : nat) (pc : Z) : Prop :=
  match n with
  | O => True
  | S n' =>
      match insn_at pc with
      | (NoMatch, _) => True
      | (Foreign, _) => False
      | (Matched i, len) => insn_ok i /\ (enabled (cfg d0) i = true ->
          described i = true /\ (ends_block i = false -> code_ok n' (u64 (pc + len))))
      end
  end.

Hypothesis helpers_linked : forall h,
  in_range 64 (addr_of h) /\ helper_at (addr_of h) = Some (helper_fn h).
Hypothesis no_vendor : has_xthead (cfg d0) = false.

Local Notation run ts i skip := (exec_ops mem_load mem_store helper_at chained ts nb_guest i skip).
Local Notation translates := (translates mem_load mem_store helper_at chained).
Local Notation trans := (trans addr_of MSTATUS_OFFSET).
Local Notation decode_insn := (decode_insn addr_of MSTATUS_OFFSET decode32 decode16 fetch16 fetch32).
Local Notation translate_insn :=
  (translate_insn addr_of MSTATUS_OFFSET decode32 decode16 decode_xthead fetch16 fetch32).
Local Notation translator_loop :=
  (translator_loop addr_of MSTATUS_OFFSET decode32 decode16 decode_xthead fetch16 fetch32).

(** ** Translating one instruction *)

(** What stays the same during the translation of a block. *)
Record same (d : Dis) : Prop := mk_same {
  same_layout : layout d;
  same_cfg : cfg d = cfg d0;
  same_insn : cross_page_insn d = cross_page_insn d0;
  same_pc : cross_page_pc d = cross_page_pc d0;
  same_max : max_insns d = max_insns d0;
  same_limit : page_byte_limit d = page_byte_limit d0
}.

Lemma same_set_insn d op len : same d -> same (set_insn op len d).
Proof. intros [[]]; by split; [split|..]. Qed.
Lemma same_set_is_jmp d j : same d -> same (set_is_jmp j d).
Proof. intros [[]]; by split; [split|..]. Qed.
Lemma same_set_counts d p n : same d -> same (set_counts p n d).
Proof. intros [[]]; by split; [split|..]. Qed.

Lemma trans_disabled d i :
  enabled (cfg d) i = false -> trans d i = mret (d, false).
Proof.
  intros He. destruct i as [i|i|[]|i|i|i|i|i|i|i|[]|[]]; cbn [enabled] in He; try done;
    unfold trans, RvTrans.trans, trans_zicsr, trans_rvm, trans_rva, trans_zba, trans_zbb, trans_zbc,
      trans_zbs, trans_zbk, trans_zicbo, trans_priv; by rewrite He.
Qed.

(** The decoder finds the instruction of the reference. *)
Lemma decode_insn_eq d :
  same d ->
  match insn_at (pc_next d) with
  | (NoMatch, len) =>
      exists d', (d' = d \/ exists op, d' = set_insn op len d) /\ decode_insn d = mret (d', false)
  | (Matched i, len) => exists op, decode_insn d = trans (set_insn op len d) i
  | (Foreign, _) => True
  end.
Proof.
  intros [Hl Hc Hi Hp _ _]. unfold insn_at, RvTrans.decode_insn, fetch_insn32, word_at. rewrite Hc, Hi, Hp.
  destruct (negb (Z.land _ 3 =? 3)).
  - destruct (misa_c (cfg d0)); [|by exists d; split; [left|]].
    destruct (decode16 _); cbn [dispatch]; [|by eexists|done]. eexists. split; [right; by eexists|done].
  - destruct (decode32 _); cbn [dispatch]; [|by eexists|done]. eexists. split; [right; by eexists|done].
Qed.

(** Outcomes after which the block does not go on. *)
Definition leaves (o : outcome W) : Prop :=
  match o with Goto _ _ _ | Trap _ _ _ _ => True | _ => False end.

Lemma exec_leaves pc len i x w :
  described i = true -> exists o, exec mem_load mem_store pc len i x w = Some o /\
    (if ends_block i then leaves o else ~ leaves o).
Proof.
  assert (Hld : forall x w a n e, ~ leaves (exec_load mem_load x w a n e))
    by (intros; unfold exec_load; by destruct (mem_load _ _ _) as [[|] ?]; intros []).
  assert (Hst : forall x w a n, ~ leaves (exec_store mem_store x w a n))
    by (intros; unfold exec_store; by destruct (mem_store _ _ _ _) as [[|] ?]; intros []).
  intros Hs. destruct i as [[]|[]|[]|i|i|i|i|i|i|i|i|[]]; try done;
    (eexists; split; [reflexivity|]); cbn [ends_block];
    first [done | apply Hld | apply Hst | intros []].
Qed.

(** The ops of one instruction: its program counter is recorded first. *)
Definition insn_ops (pc : Z) (l : list Op.Op) : Prop :=
  exists k l', l = Op.with_args k InsnStart Ty.I64 [carg pc; carg (shr pc 32)] :: l' /\
    Forall (fun op => Op.opc op <> InsnStart) l'.

Record stepped (d : Dis) (n : nat) (d' : Dis) (l : list Op.Op) (E : tenv) : Prop := mk_stepped {
  sp_same : same d';
  sp_count : num_insns d' = num_insns d + 1;
  sp_first : pc_first d' = pc_first d;
  sp_ops : insn_ops (pc_next d) l;
  sp_once : labels_once l;
  sp_labels : is_jmp d' <> NoReturn -> Forall (fun op => label_of op = None) l;
  sp_next : is_jmp d' <> NoReturn -> pc_next d' = u64 (pc_next d + (insn_at (pc_next d)).2);
  sp_code : is_jmp d' <> NoReturn -> code_ok n (pc_next d');
  sp_run : forall ts σ w x i, typed ts E -> guest ts σ x -> exists o,
    step_at (pc_next d) x w = Some o /\ agrees ts x o (run ts i None l σ w) /\
    (leaves o <-> is_jmp d' = NoReturn)
}.

(** An instruction that cannot be decoded. *)
Lemma undef_ok d E n :
  layout d -> base E n -> in_range 64 (pc_next d) ->
  spec (set_pc d (pc_next d) ;; gen_exit_tb EXCP_UNDEF ;; mret (set_is_jmp NoReturn d)) E n
    (fun d' l E' n' => d' = set_is_jmp NoReturn d /\ Forall plain_op l /\
      forall ts σ w x i, typed ts E' -> guest ts σ x ->
        agrees ts x (Trap x w (pc_next d) EXCP_UNDEF) (run ts i None l σ w)).
Proof.
  intros Hl Hbase Hp. pose proof (base_n _ _ Hbase). build. split; [done|]. split; [plain_ops|].
  cbn [app un_opcode]. intros ts σ w x i Ht Hg.
  eapply x_pc; [exact Hl|exact Ht|exact Hbase|value|done|exact Hg|].
  intros σ1 Hg1 Hpc. apply x_exit. do 3 eexists. by split; [reflexivity|].
Qed.

(** The end of [translate_insn]. *)
Lemma stepped_finish d d2 n E k l :
  let d' := set_counts (u64 (pc_next d2 + cur_insn_len d2)) (num_insns d2) d2 in
  same d2 -> num_insns d2 = num_insns d + 1 -> pc_first d2 = pc_first d ->
  (is_jmp d2 <> NoReturn -> pc_next d2 = pc_next d /\ cur_insn_len d2 = (insn_at (pc_next d)).2 /\
     code_ok n (u64 (pc_next d + (insn_at (pc_next d)).2))) ->
  shape (bool_decide (is_jmp d2 = NoReturn)) l ->
  (forall ts σ w x i, typed ts E -> guest ts σ x -> exists o, step_at (pc_next d) x w = Some o /\
     agrees ts x o (run ts i None l σ w) /\ (leaves o <-> is_jmp d2 = NoReturn)) ->
  stepped d n
    (if bool_decide (is_jmp d' = Next) && (page_byte_limit d' <=? pc_next d')
     then set_is_jmp TooMany d' else d')
    (Op.with_args k InsnStart Ty.I64 [carg (pc_next d); carg (shr (pc_next d) 32)] :: l) E.
Proof.
  intros d' Hs Hn Hf Hnext [Hl1 Hl2] Hrun.
  assert (Hj : is_jmp d' = is_jmp d2) by done.
  set (d3 := if _ : bool then _ else _).
  assert (Hj3 : is_jmp d3 = NoReturn <-> is_jmp d2 = NoReturn).
  { subst d3. destruct (bool_decide_reflect (is_jmp d' = Next)) as [E1|E1]; cbn [andb]; [|done].
    destruct (_ <=? _); cbn [is_jmp set_is_jmp]; [|done]. rewrite <- Hj, E1. split; done. }
  assert (Hp3 : pc_next d3 = u64 (pc_next d2 + cur_insn_len d2)).
  { subst d3. by destruct (_ && _). }
  assert (Hnone : Forall (fun op => label_of op = None) l \/ is_jmp d2 = NoReturn).
  { destruct (bool_decide_reflect (is_jmp d2 = NoReturn)); [by right|by left]. }
  split.
  - subst d3. destruct (_ && _); [apply same_set_is_jmp|]; by apply same_set_counts.
  - subst d3. by destruct (_ && _).
  - subst d3. by destruct (_ && _).
  - by exists k, l.
  - destruct (bool_decide_reflect (is_jmp d2 = NoReturn)).
    + intros [|i] [|j] a b lab Ha Hb La Lb; cbn in Ha, Hb; simplify_eq; try done.
      f_equal. by eapply Hl2.
    + apply no_labels_once. by constructor.
  - intros Hne. destruct Hnone as [Hnone|]; [by constructor|]. tauto.
  - intros Hne. rewrite Hp3. destruct Hnext as (-> & -> & _); [tauto|done].
  - intros Hne. rewrite Hp3. destruct Hnext as (-> & -> & H); [tauto|done].
  - intros ts σ w x i Ht Hg. destruct (Hrun ts σ w x (S i) Ht Hg) as (o & Ho & Ha & Hlv).
    exists o. split; [done|]. split; [by apply x_start|]. tauto.
Qed.

(** [translate_insn] after the decoder. *)
Definition after_decode (r : Dis * bool) : Ir Dis :=
  '(d, decoded) ← (if r.2 then mret (r.1, true) else decode_vendor_thead decode_xthead r.1 (opcode r.1));
  d ← (if decoded : bool then mret d
       else set_pc d (pc_next d) ;; gen_exit_tb EXCP_UNDEF ;; mret (set_is_jmp NoReturn d));
  let d := set_counts (u64 (pc_next d + cur_insn_len d)) (num_insns d) d in
  mret (if bool_decide (is_jmp d = Next) && (page_byte_limit d <=? pc_next d)
        then set_is_jmp TooMany d else d).

Lemma after_decode_eq d c :
  translate_insn d c = (decode_insn d ≫= after_decode) c.
Proof.
  unfold RvTrans.translate_insn, mbind, ir_bind. destruct (decode_insn d c) as [[[d' b] c']|]; done.
Qed.

Lemma undecoded_ok d d' n E m k :
  same d' -> pc_next d' = pc_next d -> num_insns d' = num_insns d + 1 -> pc_first d' = pc_first d ->
  in_range 64 (pc_next d) -> base E m ->
  (forall x w, step_at (pc_next d) x w = Some (Trap x w (pc_next d) EXCP_UNDEF)) ->
  spec (after_decode (d', false)) E m (fun d2 l E' _ => stepped d n d2
    (Op.with_args k InsnStart Ty.I64 [carg (pc_next d); carg (shr (pc_next d) 32)] :: l) E').
Proof.
  intros Hs Hpc Hn Hf Hp Hb Hstep. unfold after_decode, decode_vendor_thead. cbn [fst snd].
  rewrite (same_cfg _ Hs), no_vendor. apply spec_bind, spec_ret. intros _ _. apply spec_bind.
  eapply spec_mono; [apply undef_ok; [by apply Hs|done|by rewrite Hpc]|].
  intros d2 l E' m' _ _ (-> & Hl & Hrun) _ _. apply spec_ret. rewrite app_nil_r. cbn [app].
  apply stepped_finish; [by apply same_set_is_jmp|done|done|done|by apply plain_shape_end|].
  intros ts σ w x i Ht Hg. eexists. split; [apply Hstep|]. rewrite <- Hpc at 1. by split; [apply Hrun|].
Qed.

Lemma translate_insn_ok d n E m :
  same d -> base E m -> in_range 64 (pc_next d) -> is_jmp d = Next -> code_ok (S n) (pc_next d) ->
  spec (insn_start d ≫= translate_insn) E m (fun d' l E' _ => stepped d n d' l E').
Proof.
  intros Hs Hb Hp Hj Hcode. apply spec_bind. unfold insn_start, gen_insn_start.
  apply spec_bind, spec_emit. intros k _ _. apply spec_ret. intros _ _. cbn [app].
  set (d1 := set_counts (pc_next d) (num_insns d + 1) d).
  assert (Hs1 : same d1) by by apply same_set_counts.
  pose proof (decode_insn_eq d1 Hs1) as Hdec. change (pc_next d1) with (pc_next d) in Hdec.
  intros c Hc. rewrite after_decode_eq. revert c Hc. cbn [code_ok] in Hcode.
  assert (Hat : step_at (pc_next d) = step_at (pc_next d)) by done. unfold step_at in Hat at 2.
  destruct (insn_at (pc_next d)) as [[|i|] len] eqn:Ei; [| |done].
  - destruct Hdec as (d' & Hd' & ->). apply spec_bind, spec_ret. intros _ _.
    assert (Hs' : same d') by (destruct Hd' as [->|[? ->]]; [done|by apply same_set_insn]).
    apply undecoded_ok; try done; [by destruct Hd' as [->|[? ->]]..|]. by rewrite Hat.
  - destruct Hdec as (op & ->). set (d2 := set_insn op len d1).
    assert (Hs2 : same d2) by by apply same_set_insn.
    destruct (enabled (cfg d0) i) eqn:En.
    + destruct Hcode as [Hok [Hd Hnext]]; [done|]. apply spec_bind.
      eapply spec_mono; [eapply (trans_ok mem_load mem_store helper_at chained addr_of); try done;
        [apply Hs2|by rewrite (same_cfg _ Hs2)]|].
      intros db l E' m' _ _ (-> & Hsh & Hrun) _ _. apply spec_ret. rewrite app_nil_r. cbn [fst].
      apply stepped_finish; try by destruct (ends_block i).
      * destruct (ends_block i); [by apply same_set_is_jmp|done].
      * rewrite Ei. destruct (ends_block i); [done|]. by intros _; split_and!; [..|apply Hnext].
      * cbn [is_jmp]. destruct (ends_block i); [done|]. by rewrite bool_decide_eq_false_2 by (cbn; congruence).
      * intros ts σ w x j Ht Hg. rewrite Hat. specialize (Hrun ts σ w x j Ht Hg).
        destruct (exec_leaves (pc_next d) len i x w Hd) as (o & Ho & Hlv).
        unfold outcome_of in Hrun. change (pc_next d2) with (pc_next d) in Hrun.
        change (cur_insn_len d2) with len in Hrun. rewrite Ho in *. exists o. split; [done|].
        split; [done|]. destruct (ends_block i); [done|]. cbn. rewrite Hj. split; [tauto|done].
    + rewrite trans_disabled by by rewrite (same_cfg _ Hs2). apply spec_bind, spec_ret. intros _ _.
      apply undecoded_ok; try done. by rewrite Hat.
Qed.

(** ** The loop *)

(** The program counter recorded when the run [r] of the ops [l] leaves. *)
Definition recorded (pc : Z) (i : nat) (l : list Op.Op) (r : option ((N -> Z) * W * stop)) : Prop :=
  forall σ' w' j op, r = Some (σ', w', LeftAt j op) -> last_start (take (j - i) l) = Some pc.

Lemma recorded_head pc i l1 l2 ts σ w :
  in_range 64 pc -> insn_ops pc l1 ->
  (exists σ' w' j op, run ts i None l1 σ w = Some (σ', w', LeftAt j op)) ->
  recorded pc i (l1 ++ l2) (run ts i None (l1 ++ l2) σ w).
Proof.
  intros Hp (k & l' & -> & Hl') (σ1 & w1 & j1 & o1 & E1) σ' w' j op Er.
  rewrite (exec_ops_left _ _ _ _ _ _ _ _ _ _ _ _ _ _ _ _ E1) in Er. injection Er as -> -> -> ->.
  destruct (exec_ops_at mem_load mem_store helper_at chained ts nb_guest (S i) None l' σ w _ _ _ _ E1)
    as [Hle Hat]. apply lookup_lt_Some in Hat.
  destruct (j - i)%nat as [|m] eqn:Em; [lia|]. cbn [app take last_start].
  rewrite take_app_le by lia. rewrite last_start_none by by apply Forall_take.
  unfold start_of. cbn. by rewrite carg_halves.
Qed.

Lemma recorded_tail pc i l1 l2 r :
  recorded pc (i + length l1) l2 r ->
  (forall σ' w' j op, r = Some (σ', w', LeftAt j op) -> (i + length l1 <= j)%nat) ->
  recorded pc i (l1 ++ l2) r.
Proof.
  intros H Hj σ' w' j op Er. rewrite take_app_ge by (apply Hj in Er; lia).
  apply last_start_app. replace (j - i - length l1)%nat with (j - (i + length l1))%nat by lia.
  by eapply H.
Qed.

(** A run that has left is not changed by further ops. *)
Lemma agrees_app ts x o i l1 l2 σ w :
  (forall x1 w1, o <> RvIsa.Fall x1 w1) -> agrees ts x o (run ts i None l1 σ w) ->
  agrees ts x o (run ts i None (l1 ++ l2) σ w) /\
  exists σ' w' j op, run ts i None l1 σ w = Some (σ', w', LeftAt j op).
Proof.
  intros Hne Ha. destruct o as [x1 w1| | |]; [by destruct (Hne x1 w1)|..];
    destruct Ha as (σ' & j & op & E & Hrest); (split; [|by eauto 6]);
    exists σ', j, op; (split; [|done]); by apply exec_ops_left.
Qed.

Lemma fall_or (o : outcome W) :
  (exists x1 w1, o = RvIsa.Fall x1 w1) \/ (forall x1 w1, o <> RvIsa.Fall x1 w1).
Proof. destruct o; [left; by eauto|by right..]. Qed.

Record looped (d d' : Dis) (l : list Op.Op) (E : tenv) : Prop := mk_looped {
  lo_same : same d';
  lo_first : pc_first d' = pc_first d;
  lo_done : is_jmp d' = TooMany \/ is_jmp d' = NoReturn;
  lo_once : labels_once l;
  lo_labels : is_jmp d' = TooMany -> Forall (fun op => label_of op = None) l;
  lo_range : is_jmp d' = TooMany -> in_range 64 (pc_next d');
  lo_run : forall ts σ w x i, typed ts E -> guest ts σ x ->
    exists k pc' x' w', path k (pc_next d) x w pc' x' w' /\
      ((is_jmp d' = TooMany /\ pc' = pc_next d' /\ (1 <= k)%nat /\
        falls w' (fun σ' => guest ts σ' x') (run ts i None l σ w)) \/
       (exists o, step_at pc' x' w' = Some o /\ (forall x1 w1, o <> RvIsa.Fall x1 w1) /\
        agrees ts x' o (run ts i None l σ w) /\ recorded pc' i l (run ts i None l σ w)))
}.

(** The loop stops after this instruction. *)
Lemma looped_stop d d1 d' n l E :
  in_range 64 (pc_next d) -> stepped d n d1 l E -> is_jmp d' <> Next ->
  same d' -> pc_first d' = pc_first d1 -> pc_next d' = pc_next d1 ->
  (is_jmp d' = NoReturn <-> is_jmp d1 = NoReturn) -> looped d d' l E.
Proof.
  intros Hp [Hs Hn Hf Hops Honce Hlab Hnext Hcode Hrun] Hj Hs' Hf' Hpc Hnr.
  assert (Hdone : is_jmp d' = TooMany \/ is_jmp d' = NoReturn) by (destruct (is_jmp d'); auto; done).
  assert (Htm : is_jmp d' = TooMany -> is_jmp d1 <> NoReturn) by (intros E1 E2; apply Hnr in E2; congruence).
  split; [done|congruence|done|done|by intros ?%Htm; apply Hlab| |].
  { intros ?%Htm. rewrite Hpc, Hnext by done. by apply wrap_range. }
  intros ts σ w x i Ht Hg. destruct (Hrun ts σ w x i Ht Hg) as (o & Ho & Ha & Hlv).
  destruct (fall_or o) as [(x1 & w1 & ->)|Hnf].
  - assert (Hd1 : is_jmp d1 <> NoReturn) by (intros E1; by apply Hlv in E1).
    exists 1%nat, (pc_next d'), x1, w1. split.
    { rewrite Hpc, Hnext by done. eapply path_cons; [exact Ho|constructor]. }
    left. split; [destruct Hdone as [|E1]; [done|by apply Hnr in E1]|]. split; [done|]. split; [lia|done].
  - exists 0%nat, (pc_next d), x, w. split; [constructor|]. right. exists o. split; [done|]. split; [done|].
    split; [done|]. destruct (agrees_app ts x o i l [] σ w Hnf Ha) as [_ Hleft].
    pose proof (recorded_head _ _ _ [] _ _ _ Hp Hops Hleft) as Hr. by rewrite !app_nil_r in Hr.
Qed.

Lemma labels_once_app (l1 l2 : list Op.Op) :
  Forall (fun op => label_of op = None) l1 -> labels_once l2 -> labels_once (l1 ++ l2).
Proof.
  intros H1 H2. assert (Hi : forall i a lab, (l1 ++ l2) !! i = Some a -> label_of a = Some lab ->
    (length l1 <= i)%nat /\ l2 !! (i - length l1)%nat = Some a).
  { intros i a lab Ha Hl. apply lookup_app_Some in Ha as [Ha|Ha]; [|done].
    rewrite Forall_lookup in H1. by rewrite (H1 i a Ha) in Hl. }
  intros i j a b lab Ha Hb La Lb. destruct (Hi i a lab Ha La) as [Hi1 Hi2].
  destruct (Hi j b lab Hb Lb) as [Hj1 Hj2]. pose proof (H2 _ _ _ _ _ Hi2 Hj2 La Lb). lia.
Qed.

(** The loop goes on with the next instruction. *)
Lemma looped_cons d d1 d' n l1 l2 E1 E2 :
  in_range 64 (pc_next d) -> stepped d n d1 l1 E1 -> E1 ⊆ E2 -> is_jmp d1 = Next ->
  looped d1 d' l2 E2 -> looped d d' (l1 ++ l2) E2.
Proof.
  intros Hp [Hs Hn Hf Hops Honce Hlab Hnext Hcode Hrun] HE Hj [Hs' Hf' Hdone Honce' Hlab' Hrg Hrun'].
  assert (Hd1 : is_jmp d1 <> NoReturn) by congruence. specialize (Hlab Hd1). specialize (Hnext Hd1).
  split; [done|congruence|done| |intros; by apply Forall_app_2; auto|done|].
  - apply labels_once_app; done.
  - intros ts σ w x i Ht Hg.
    destruct (Hrun ts σ w x i (typed_mono _ _ _ _ (reflexivity ts) HE Ht) Hg) as (o & Ho & Ha & Hlv).
    destruct (fall_or o) as [(x1 & w1 & ->)|Hnf].
    + destruct Ha as (σ1 & E & Hg1). rewrite (exec_ops_app _ _ _ _ _ _ _ _ _ l2 _ _ _ _ E).
      destruct (Hrun' ts σ1 w1 x1 (i + length l1)%nat Ht Hg1) as (k & pc' & x' & w' & Hpath & Hend).
      exists (S k), pc', x', w'. split; [eapply path_cons; [exact Ho|]; by rewrite <- Hnext|].
      destruct Hend as [(H1 & H2 & H3 & H4)|(o & H1 & H2 & H3 & H4)]; [left|right].
      { split; [done|]. split; [done|]. split; [lia|done]. }
      exists o. split; [done|]. split; [done|]. split; [done|]. apply recorded_tail; [done|].
      intros σ' w2 j op Er. by apply exec_ops_at in Er as [Hle _].
    + destruct (agrees_app ts x o i l1 l2 σ w Hnf Ha) as [Ha' Hleft].
      exists 0%nat, (pc_next d), x, w. split; [constructor|]. right. exists o. split; [done|]. split; [done|].
      split; [done|]. by apply recorded_head.
Qed.

Lemma bind_assoc {A B C} (m : Ir A) (f : A -> Ir B) (g : B -> Ir C) c :
  (m ≫= (fun a => f a ≫= g)) c = ((m ≫= f) ≫= g) c.
Proof. unfold mbind, ir_bind. by destruct (m c) as [[a c1]|]. Qed.

(** The loop terminates within its fuel and the block it emits follows the reference. *)
Lemma translator_loop_ok fuel d E m :
  same d -> base E m -> in_range 64 (pc_next d) -> is_jmp d = Next ->
  (0 < fuel)%nat -> max_insns d0 - num_insns d <= Z.of_nat fuel -> code_ok fuel (pc_next d) ->
  spec (translator_loop fuel d) E m (fun d' l E' _ => looped d d' l E').
Proof.
  revert d E m. induction fuel as [|fuel IH]; intros d E m Hs Hb Hp Hj Hf Hmax Hcode; [lia|].
  cbn [RvTrans.translator_loop]. intros c Hc. rewrite bind_assoc. revert c Hc.
  apply spec_bind. eapply spec_mono; [by apply (translate_insn_ok d fuel)|].
  intros d1 l E1 m1 HE Hm Hst _ _. destruct (decide (is_jmp d1 = Next)) as [Hj1|Hj1].
  - rewrite bool_decide_eq_true_2 by done. rewrite (same_max _ (sp_same _ _ _ _ _ Hst)).
    destruct (Z.leb_spec (max_insns d0) (num_insns d1)) as [Hle|Hgt].
    + apply spec_ret. rewrite app_nil_r. eapply looped_stop; [done|exact Hst|done| |done|done|].
      * apply same_set_is_jmp, Hst.
      * cbn. rewrite Hj1. done.
    + assert (Hn1 : is_jmp d1 <> NoReturn) by congruence. pose proof Hst as [Hs1 Hn _ _ _ _ Hnext Hcode1 _].
      eapply spec_mono; [apply IH; try done|].
      * by eapply base_mono.
      * rewrite Hnext by done. by apply wrap_range.
      * lia.
      * lia.
      * by apply Hcode1.
      * intros d' l2 E2 m2 HE2 _ Hlo. by eapply looped_cons; [|exact Hst| | |exact Hlo].
  - rewrite bool_decide_eq_false_2 by done. apply spec_ret. rewrite app_nil_r.
    eapply looped_stop; [done|exact Hst|done|apply Hst|done..].
Qed.

(** ** The whole block *)

(** How a block ends: at an instruction boundary, or by what an instruction does. *)
Definition block_end (pc : Z) (x : Z -> Z) (w : W) (k : nat) (ts : list Temp.Temp)
    (ops : list Op.Op) (j : nat) (σ' : N -> Z) (w' : W) : Prop :=
  exists op, ops !! j = Some op /\
  ((1 <= k)%nat /\ w' = w /\ guest ts σ' x /\ read ts σ' 33 = pc /\ goto_op op \/
   exists o, step_at pc x w = Some o /\
     match o with
     | RvIsa.Fall _ _ => False
     | Goto x' w1 target => w' = w1 /\ guest ts σ' x' /\ read ts σ' 33 = target /\ goto_op op
     | Trap x' w1 at_pc code => w' = w1 /\ guest ts σ' x' /\ read ts σ' 33 = at_pc /\ exit_op code op
     | Fault w1 => w' = w1 /\ guest ts σ' x /\ mem_op op /\ last_start (take j ops) = Some pc
     end).

(** A context with the guest globals and no ops yet. *)
Record fresh_context (c : Context.Context) : Prop := mk_fresh {
  fr_wf : Context.wf c;
  fr_ops : Context.ops c = [];
  fr_globals : Context.nb_globals c = nb_guest;
  fr_types : forall i t, (i < nb_guest)%nat -> Context.temps c !! i = Some t -> Temp.ty t = Ty.I64
}.

Lemma fresh_static c :
  fresh_context c -> exists E n, static c E n /\ base E n.
Proof.
  intros [Hw _ Hn Hty].
  set (E := gset_to_gmap (Var Ty.I64) (list_to_set (N.of_nat <$> seq 0 nb_guest)) : gmap N ent).
  assert (HE : forall t e, E !! t = Some e <-> (t < 37)%N /\ e = Var Ty.I64).
  { intros t e. unfold E. rewrite lookup_gset_to_gmap_Some, elem_of_list_to_set, list_elem_of_fmap.
    split; [intros [(k & -> & Hk%elem_of_seq) <-]; unfold nb_guest in Hk; split; [lia|done]|].
    intros [Ht ->]. split; [|done]. exists (N.to_nat t). rewrite elem_of_seq. unfold nb_guest. lia. }
  pose proof (Context.wf_nb _ Hw) as Hlen. rewrite Hn in Hlen. unfold nb_guest in *.
  exists E, (N.of_nat (length (Context.temps c))). split.
  - split; [done|done| |].
    + intros t e [Ht ->]%HE. destruct (lookup_lt_is_Some_2 (Context.temps c) (N.to_nat t)) as [x Hx]; [lia|].
      exists x. split; [done|]. split; [eapply Hty; [|exact Hx]; lia|].
      pose proof (proj1 (Context.wf_globals _ Hw _ _ Hx) ltac:(lia)) as Hg.
      unfold Temp.is_global_or_fixed, Temp.is_const in *. by destruct (Temp.kind x).
    + intros t e [Ht _]%HE. lia.
  - split; [lia|]. intros t Ht. by apply HE.
Qed.

Lemma tb_stop_ok d E n :
  layout d -> base E n -> is_jmp d = TooMany -> in_range 64 (pc_next d) ->
  spec (tb_stop d) E n (fun _ l E' n' => Forall plain_op l /\
    forall ts σ w x i, typed ts E' -> guest ts σ x ->
      agrees ts x (Goto x w (pc_next d)) (run ts i None l σ w)).
Proof.
  intros Hl Hbase Hj Hp. unfold tb_stop. rewrite Hj. pose proof (base_n _ _ Hbase). build.
  split; [plain_ops|]. cbn [app un_opcode]. intros ts σ w x i Ht Hg.
  eapply x_pc; [exact Hl|exact Ht|exact Hbase|value|done|exact Hg|]. intros σ1 Hg1 Hpc.
  by apply (x_leave _ _ _ _ _ _ _ 0).
Qed.

(** The block ends here: the run of all its ops. *)
Definition ran_to_end (E : tenv) (l : list Op.Op) : Prop :=
  forall ts σ w x, typed ts E -> guest ts σ x ->
    exists k pc' x' w1 j σ' w' op, path k (pc_next d0) x w pc' x' w1 /\
      run ts 0 None l σ w = Some (σ', w', LeftAt j op) /\ block_end pc' x' w1 k ts l j σ' w'.

Lemma looped_end d l1 l2 E1 E2 :
  looped d0 d l1 E1 -> E1 ⊆ E2 ->
  (is_jmp d = TooMany -> forall ts σ w x i, typed ts E2 -> guest ts σ x ->
     agrees ts x (Goto x w (pc_next d)) (run ts i None l2 σ w)) ->
  ran_to_end E2 (l1 ++ l2).
Proof.
  intros [_ _ Hdone _ _ _ Hrun] HE Hstop ts σ w x Ht Hg.
  destruct (Hrun ts σ w x 0%nat (typed_mono _ _ _ _ (reflexivity ts) HE Ht) Hg)
    as (k & pc' & x' & w1 & Hpath & [(Hj & -> & Hk & σ1 & Er & Hg1)|(o & Ho & Hnf & Ha & Hrec)]).
  - destruct (Hstop Hj ts σ1 w1 x' (0 + length l1)%nat Ht Hg1) as (σ' & j & op & Er2 & Hg2 & Hpc & Hop).
    rewrite <- (exec_ops_app _ _ _ _ _ _ _ _ _ l2 _ _ _ _ Er) in Er2.
    exists k, (pc_next d), x', w1, j, σ', w1, op. split; [done|]. split; [done|].
    destruct (exec_ops_at _ _ _ _ _ _ _ _ _ _ _ _ _ _ _ Er2) as [_ Hat]. rewrite Nat.sub_0_r in Hat.
    exists op. split; [done|]. left. done.
  - destruct (agrees_app ts x' o 0 l1 l2 σ w Hnf Ha) as [Ha' (σ' & w' & j & op & Er)].
    pose proof (exec_ops_left _ _ _ _ _ _ _ _ l1 l2 _ _ _ _ _ _ Er) as Er'. rewrite Er' in Ha'.
    destruct (exec_ops_at _ _ _ _ _ _ _ _ _ _ _ _ _ _ _ Er) as [_ Hat]. rewrite Nat.sub_0_r in Hat.
    exists k, pc', x', w1, j, σ', w', op. split; [done|]. split; [done|].
    exists op. split; [by apply lookup_app_l_Some|]. right. exists o. split; [done|].
    destruct o as [x1 w2| | |w2]; [by destruct (Hnf x1 w2)|..];
      destruct Ha' as (σ2 & j2 & op2 & E & Hrest); injection E as -> -> <- <-; [by destruct Hrest..|].
    destruct Hrest as [Hg' Hm]. split; [done|]. split; [done|]. split; [done|].
    rewrite take_app_le by (apply lookup_lt_Some in Hat; lia).
    rewrite Er in Hrec. specialize (Hrec _ _ _ _ eq_refl). by rewrite Nat.sub_0_r in Hrec.
Qed.

Local Notation translate_block :=
  (translate_block addr_of MSTATUS_OFFSET decode32 decode16 decode_xthead fetch16 fetch32).

(** The context is set up for the block. *)
Record ready : Prop := mk_ready {
  rd_layout : layout d0;
  rd_jmp : is_jmp d0 = Next;
  rd_count : num_insns d0 = 0;
  rd_pc : in_range 64 (pc_next d0)
}.

Lemma translate_block_spec E n :
  ready -> base E n -> code_ok (Z.to_nat (Z.max 1 (max_insns d0))) (pc_next d0) ->
  spec (translate_block d0) E n (fun _ l E' _ => labels_once l /\ ran_to_end E' l).
Proof.
  intros [Hl Hj Hn Hp] Hb Hcode. unfold RvTrans.translate_block. apply spec_bind.
  eapply spec_mono; [apply translator_loop_ok; try done; lia|].
  intros d l1 E1 m1 HE Hm Hlo _ _. pose proof Hlo as [[Hl1 _ _ _ _ _] _ Hdone Honce Hlab Hrg _].
  apply spec_bind. destruct Hdone as [Hd|Hd].
  - eapply spec_mono; [apply tb_stop_ok; auto; by eapply base_mono|].
    intros [] l2 E2 m2 HE2 Hm2 [Hpl Hstop] _ _. apply spec_ret. rewrite app_nil_r. split.
    + apply labels_once_app; [by apply Hlab|]. apply no_labels_once. by apply plain_shape in Hpl as [_ ?].
    + eapply looped_end; [exact Hlo|done|]. intros _. apply Hstop.
  - unfold tb_stop. rewrite Hd. apply spec_ret. intros _ _. apply spec_ret. rewrite !app_nil_r. split; [done|].
    rewrite <- (app_nil_r l1). eapply looped_end; [exact Hlo|done|]. congruence.
Qed.

(** A block translated from guest code: translation succeeds within its fuel, and from
    every state of the guest registers the generated IR runs to an exit, after executing
    the same instructions as the reference semantics. *)
Lemma translate_block_run c :
  ready -> fresh_context c -> code_ok (Z.to_nat (Z.max 1 (max_insns d0))) (pc_next d0) ->
  exists size c', translate_block d0 c = Some (size, c') /\
  forall σ w x, guest (Context.temps c') σ x ->
    exists k pc' x' w1 steps j σ' w',
      path k (pc_next d0) x w pc' x' w1 /\
      IrSem.run (host_ext mem_load mem_store) (host_call helper_at) chained c' steps (Running 0 σ w)
        = Some (Left j σ' w') /\
      block_end pc' x' w1 k (Context.temps c') (Context.ops c') j σ' w'.
Proof.
  intros Hr Hf Hcode. destruct (fresh_static c Hf) as (E & n & Hs & Hb).
  destruct (translate_block_spec E n Hr Hb Hcode c Hs)
    as (size & c' & l & E' & n' & Et & [Ho _ Hg] & [_ _ Hty _] & _ & _ & Honce & Hran).
  rewrite (fr_ops _ Hf) in Ho. cbn [app] in Ho. rewrite (fr_globals _ Hf) in Hg.
  exists size, c'. split; [done|]. intros σ w x Hx.
  destruct (Hran _ σ w x Hty Hx) as (k & pc' & x' & w1 & j & σ' & w' & op & Hpath & Er & Hend).
  destruct (exec_ops_run mem_load mem_store helper_at chained c' 0 None l σ w σ' w' j op)
    as (p & steps & -> & Hrun); [by rewrite <- Ho|by rewrite Ho|by rewrite Hg|].
  exists k, pc', x', w1, steps, j, σ', w'. by rewrite Ho.
Qed.

End Block.
