(* ===== verification/RvTyped.v ===== *)
(** * The RISC-V front end emits well-typed IR

    For every instruction of [RvInsn], CSR accesses and atomics included, the builder
    does not panic, and the context it leaves satisfies what the passes over the IR
    require ([OptimizeProof.well_typed]): operands that exist, results in variables wide
    enough for them, constants that fit their type. *)

From Stdlib Require Import ZArith Lia Bool.
From stdpp Require Import base tactics numbers list gmap.
From S2P Require Import Prelude IrTypes IrOpcode IrContext IrBuild Optimize IrSem OptimizeProof IrHost Tb.
From S2P Require Import RvInsn RvTrans RvEmit RvTransOk RvBlock.
Import Opcode.

(** ** The judgement

    [gives m E n Φ]: from a well-typed context described by [E] the builder succeeds,
    keeps the context well typed and extends the description. *)

Definition gives {A} (m : Ir A) (E : tenv) (n : N) (Φ : A -> tenv -> N -> Prop) : Prop :=
  forall c, static c E n -> well_typed c = true ->
    exists a c' E' n', m c = Some (a, c') /\ static c' E' n' /\ well_typed c' = true /\
      E ⊆ E' /\ (n <= n')%N /\ Φ a E' n'.

Lemma gives_ret {A} (a : A) E n (Φ : A -> tenv -> N -> Prop) : Φ a E n -> gives (mret a) E n Φ.
Proof. intros H c Hs Hw. by exists a, c, E, n. Qed.

Lemma gives_bind {A B} (m : Ir A) (f : A -> Ir B) E n (Φ : B -> tenv -> N -> Prop) :
  gives m E n (fun a E1 n1 => E ⊆ E1 -> (n <= n1)%N -> gives (f a) E1 n1 Φ) -> gives (m ≫= f) E n Φ.
Proof.
  intros H c Hs Hw. destruct (H c Hs Hw) as (a & c1 & E1 & n1 & Em & Hs1 & Hw1 & HE & Hn & Hf).
  destruct (Hf HE Hn c1 Hs1 Hw1) as (b & c2 & E2 & n2 & Em2 & Hs2 & Hw2 & HE2 & Hn2 & HΦ).
  exists b, c2, E2, n2. split_and!; try done; [|by etrans|lia]. unfold mbind, ir_bind. by rewrite Em.
Qed.

Lemma gives_mono {A} (m : Ir A) E n (Φ Ψ : A -> tenv -> N -> Prop) :
  gives m E n Φ -> (forall a E' n', E ⊆ E' -> (n <= n')%N -> Φ a E' n' -> Ψ a E' n') -> gives m E n Ψ.
Proof.
  intros H Hi c Hs Hw. destruct (H c Hs Hw) as (a & c' & E' & n' & ? & ? & ? & ? & ? & ?).
  exists a, c', E', n'. split_and!; try done. by apply Hi.
Qed.

Lemma gives_expect {A} (o : option A) (a : A) E n (Φ : A -> tenv -> N -> Prop) :
  o = Some a -> Φ a E n -> gives (expect o) E n Φ.
Proof. intros -> H. exact (gives_ret a E n Φ H). Qed.

(** An op that is well typed in every context the description fits. *)
Definition wt_at (E : tenv) (n : N) (opc : Opcode) (ty : Ty.Ty) (args : list N) : Prop :=
  forall ts i, typed ts E -> N.of_nat (length ts) = n -> wt_op ts (Op.with_args i opc ty args) = true.

Lemma well_typed_emit c op :
  well_typed c = true -> wt_op (Context.temps c) op = true ->
  well_typed (Context.emit_op c op).2 = true.
Proof.
  unfold well_typed. intros [H1 H2]%andb_true_iff Ho. apply andb_true_iff. split; [|done].
  cbn [Context.emit_op snd Context.temps Context.ops Context.set_ops]. rewrite forallb_app, H1. cbn.
  by rewrite Ho.
Qed.

Lemma gives_emit opc ty args E n (Φ : unit -> tenv -> N -> Prop) :
  wt_at E n opc ty args -> Φ tt E n -> gives (emit opc ty args) E n Φ.
Proof.
  intros Hw HΦ c Hs Hc. eexists _, _, E, n. split; [reflexivity|].
  split; [by apply static_emit|]. split; [|by split_and!; [|lia|]].
  apply well_typed_emit; [done|]. apply Hw; [apply Hs|]. by destruct Hs.
Qed.

(** More temporaries, the same ops. *)
Lemma well_typed_grow c c' :
  well_typed c = true -> Context.ops c' = Context.ops c ->
  Context.temps c `prefix_of` Context.temps c' ->
  forallb const_fits (Context.temps c') = true -> well_typed c' = true.
Proof.
  intros [H1 _]%well_typed_inv Ho Hp Hf. unfold well_typed. rewrite Ho, Hf, andb_true_r.
  apply forallb_forall. intros op Hop. eapply wt_op_prefix; [exact Hp|by apply H1].
Qed.

Lemma gives_new_temp ty E n (Φ : N -> tenv -> N -> Prop) :
  (forall d E', E ⊆ E' -> d = n -> E' !! d = Some (Var ty) -> Φ d E' (n + 1)%N) ->
  gives (new_temp ty) E n Φ.
Proof.
  intros H c Hs Hw.
  destruct (spec_new_temp ty E n (fun d l E' n' => n' = (n + 1)%N /\ l = [] /\ Φ d E' n'))
    with (c := c) as (a & c' & l & E' & n' & Em & [Ho Hp _] & Hs' & HE & Hn & -> & -> & HΦ);
    [intros; by split_and!; [..|apply H]|done|].
  exists a, c', E', (n + 1)%N. split_and!; try done. rewrite app_nil_r in Ho.
  apply (well_typed_grow c); [done|done|done|]. apply well_typed_inv in Hw as [_ Hf].
  unfold new_temp, total, Context.new_temp in Em. injection Em as _ <-.
  cbn [Context.set_temps Context.temps]. rewrite forallb_app, Hf. done.
Qed.

Lemma gives_new_const ty v E n (Φ : N -> tenv -> N -> Prop) :
  in_range (ty_bits ty) v ->
  (forall t E' n', E ⊆ E' -> (n <= n')%N -> (t < n')%N -> E' !! t = Some (Cst ty v) -> Φ t E' n') ->
  gives (new_const ty v) E n Φ.
Proof.
  intros Hv H c Hs Hw.
  destruct (spec_new_const ty v E n (fun d l E' n' => l = [] /\ Φ d E' n'))
    with (c := c) as (a & c' & l & E' & n' & Em & [Ho Hp _] & Hs' & HE & Hn & -> & HΦ);
    [intros t E1 n1 ????; split; [done|by apply H]|done|].
  exists a, c', E', n'. split_and!; try done. rewrite app_nil_r in Ho.
  apply (well_typed_grow c); [done|done|done|]. apply well_typed_inv in Hw as [_ Hf].
  unfold new_const, total, Context.new_const in Em.
  destruct (Context.const_lookup c ty v); injection Em as _ <-; [done|].
  cbn. rewrite forallb_app, Hf. cbn [forallb andb]. rewrite andb_true_r. exact (const_fits_new ty v Hv).
Qed.

(** Changes of fields the passes do not look at. *)
Lemma gives_field (f : Context.Context -> Context.Context) E n (Φ : unit -> tenv -> N -> Prop) :
  (forall c, Context.temps (f c) = Context.temps c /\ Context.ops (f c) = Context.ops c /\
     Context.nb_globals (f c) = Context.nb_globals c /\ Context.const_table (f c) = Context.const_table c) ->
  Φ tt E n -> gives (fun c => Some (tt, f c)) E n Φ.
Proof.
  intros Hf HΦ c [Hw Hl Ht Hd] Hc. destruct (Hf c) as (E1 & E2 & E3 & E4).
  exists tt, (f c), E, n. split; [done|]. split.
  - split; rewrite ?E1; try done. by eapply Context.wf_ext.
  - split_and!; try done. unfold well_typed in *. by rewrite E1, E2.
Qed.

Lemma gives_new_label E n (Φ : N -> tenv -> N -> Prop) :
  (forall lab, Φ lab E n) -> gives new_label E n Φ.
Proof.
  intros H c Hs Hc. destruct (spec_new_label E n (fun lab l E' n' => l = [] /\ E' = E /\ n' = n))
    with (c := c) as (a & c' & l & E' & n' & Em & [Ho Hp _] & Hs' & HE & Hn & -> & -> & ->); [done|done|].
  exists a, c', E, n. split_and!; try done. rewrite app_nil_r in Ho.
  unfold new_label, total, Context.new_label in Em. injection Em as _ <-. done.
Qed.

(** ** Well-typed ops *)

(** The result type [ty'] fits a pure op of type [ty]. *)
Definition result_fits (opc : Opcode) (ty ty' : Ty.Ty) : Prop :=
  match opc with
  | ExtI32I64 => ty_bits ty = 64 /\ ty_bits ty' = 64
  | ExtUI32I64 | ExtrlI64I32 | ExtrhI64I32 => True
  | Mov => ty_bits ty = 64 /\ ty_bits ty' = 64
  | _ => int_ty ty = true /\ ty_bits ty <= ty_bits ty'
  end.

Lemma wt_at_pure E n opc ty d rest ty' :
  is_pure opc = true -> E !! d = Some (Var ty') -> result_fits opc ty ty' ->
  Forall (fun t => (t < n)%N) (Op.oargs (Op.with_args 0 opc ty (d :: rest)) ++
    Op.iargs (Op.with_args 0 opc ty (d :: rest))) ->
  wt_at E n opc ty (d :: rest).
Proof.
  intros Hp Hd Hf Hall ts i Ht Hn. unfold wt_op. rewrite Op.length_with_args. cbn [Nat.eqb andb].
  change (Op.opc (Op.with_args i opc ty (d :: rest))) with opc. rewrite Hp.
  apply andb_true_iff. split.
  - apply forallb_forall. intros t Hin. rewrite Forall_forall in Hall.
    apply Nat.ltb_lt. specialize (Hall t). rewrite list_elem_of_In in Hall. specialize (Hall Hin). lia.
  - destruct (Ht d _ Hd) as (x & Hx & Hty & Hc). unfold wt_pure.
    change (arg (Op.args (Op.with_args i opc ty (d :: rest))) 0) with d.
    change (Op.op_type (Op.with_args i opc ty (d :: rest))) with ty.
    change (Op.opc (Op.with_args i opc ty (d :: rest))) with opc.
    unfold const_temp, temp_bits. rewrite Hx, Hc, Hty. cbn [negb andb]. unfold result_fits in Hf.
    assert (Hle : forall y : option Temp.Temp, match y with Some x => ty_bits (Temp.ty x) | None => 64 end <= 64).
    { intros [y|]; [|lia]. pose proof (ty_bits_pos (Temp.ty y)). lia. }
    destruct opc; try discriminate Hp; try done; destruct Hf as [H1 H2];
      rewrite ?H1, ?H2; cbn [andb]; rewrite ?Z.eqb_refl, ?Z.leb_refl; cbn [andb]; try apply Z.leb_le; auto.
Qed.

Lemma wt_at_other E n opc ty args :
  is_pure opc = false ->
  Forall (fun t => (t < n)%N) (Op.oargs (Op.with_args 0 opc ty args) ++
    Op.iargs (Op.with_args 0 opc ty args)) ->
  wt_at E n opc ty args.
Proof.
  intros Hp Hall ts i Ht Hn. unfold wt_op. rewrite Op.length_with_args. cbn [Nat.eqb andb].
  change (Op.opc (Op.with_args i opc ty args)) with opc. rewrite Hp, andb_true_r.
  apply forallb_forall. intros t Hin. rewrite Forall_forall in Hall.
  apply Nat.ltb_lt. specialize (Hall t). rewrite list_elem_of_In in Hall. specialize (Hall Hin). lia.
Qed.

(** A variable known in an earlier description. *)
Ltac chain := first [ eassumption | etrans; [eassumption|]; chain ].
Ltac known :=
  first [ eassumption
        | match goal with H : ?E !! ?t = Some _ |- _ !! ?t = Some _ =>
            eapply lookup_weaken; [exact H|chain] end
        | match goal with Hb : base ?E ?n |- ?E !! _ = Some _ => apply (base_var _ _ Hb); lia end ].

(** The ops the front end passes to the generic helpers. *)
Definition simple (op : BinOp) : bool :=
  match op with
  | gen_add | gen_sub | gen_mul | gen_and | gen_or | gen_xor | gen_shl | gen_shr | gen_sar
  | gen_rotl | gen_rotr | gen_andc | gen_clz | gen_ctz => true
  | _ => false
  end.

Lemma wt_simple E n op ty d a b :
  simple op = true -> int_ty ty = true -> E !! d = Some (Var ty) ->
  (d < n)%N -> (a < n)%N -> (b < n)%N -> wt_at E n (bin_opcode op) ty [d; a; b].
Proof.
  intros Ho Hty Hd H1 H2 H3. destruct op; try discriminate Ho;
    first [ eapply wt_at_pure; [reflexivity|exact Hd|done|repeat constructor; done]
          | apply wt_at_other; [reflexivity|repeat constructor; done] ].
Qed.

Ltac in_context := cbn; repeat (apply Forall_cons_2; [lia|]); apply Forall_nil_2.

Ltac wt :=
  lazymatch goal with
  | |- wt_at _ _ ?opc _ _ =>
      lazymatch eval vm_compute in (is_pure opc) with
      | true => eapply wt_at_pure; [reflexivity|known|split; first [reflexivity|done]|in_context]
      | false => apply wt_at_other; [reflexivity|in_context]
      | _ => apply wt_simple; [assumption|reflexivity|known|lia|lia|lia]
      end
  end.

Lemma gives_gpr_or_zero d r E n (Φ : N -> tenv -> N -> Prop) :
  layout d -> is_reg r -> base E n ->
  (forall t E' n', E ⊆ E' -> (n <= n')%N -> (t < n')%N -> Φ t E' n') ->
  gives (gpr_or_zero d r) E n Φ.
Proof.
  intros Hl Hr Hb H. unfold gpr_or_zero, is_reg in *. destruct (Z.eqb_spec r 0) as [->|Hr0].
  - apply gives_new_const; [done|]. intros t E' n' Hs Hn Ht He. by apply H.
  - unfold gpr_temp. destruct (Z.ltb_spec r 0); [lia|].
    eapply gives_expect; [by apply gpr_temp_eq; [|lia]|].
    apply H; [done|lia|]. pose proof (base_n _ _ Hb). unfold reg_temp. lia.
Qed.

Lemma gives_set_reg d rd t (opc : Opcode) (gen : N -> N -> Ir N) E n (Φ : unit -> tenv -> N -> Prop) :
  (forall g s, gen g s = emit_unary opc Ty.I64 g s) -> (opc = Mov \/ opc = ExtI32I64) ->
  layout d -> is_reg rd -> base E n -> (t < n)%N -> Φ tt E n ->
  gives (if rd =? 0 then mret tt else g ← gpr_temp d rd; gen g t ;; mret tt) E n Φ.
Proof.
  intros Hg Ho Hl Hr Hb Ht H. unfold is_reg in *. destruct (Z.eqb_spec rd 0) as [->|Hr0].
  { by apply gives_ret. }
  apply gives_bind. unfold gpr_temp. destruct (Z.ltb_spec rd 0); [lia|].
  eapply gives_expect; [by apply gpr_temp_eq; [|lia]|]. intros _ _.
  rewrite Hg. unfold emit_unary. apply gives_bind, gives_bind. pose proof (base_n _ _ Hb).
  assert (Hv : E !! reg_temp rd = Some (Var Ty.I64)) by (apply Hb; unfold reg_temp; lia).
  apply gives_emit; [|intros _ _; apply gives_ret; intros _ _; by apply gives_ret].
  assert ((reg_temp rd < n)%N) by (unfold reg_temp; lia).
  destruct Ho as [-> | ->]; eapply wt_at_pure; [reflexivity|exact Hv|done|by repeat constructor..].
Qed.

(** Constants of the front end fit their type. *)
Ltac fits :=
  cbn [ty_bits];
  first [ assumption | by apply wrap_range | by auto | unfold in_range; lia | by split; vm_compute ].

(** [typing] follows a builder as [build] does. *)
Ltac typing_step :=
  lazymatch goal with
  | |- gives (mret _) _ _ _ => apply gives_ret
  | |- gives (_ ≫= _) _ _ _ => apply gives_bind
  | |- gives (emit _ _ _) _ _ _ => apply gives_emit; [wt|]
  | |- gives (new_temp _) _ _ _ => apply gives_new_temp; intros ?t ?E ?Hsub ?Hfresh ?Hvar
  | |- gives new_label _ _ _ => apply gives_new_label; intros ?lab
  | |- gives (new_const _ _) _ _ _ =>
      apply gives_new_const; [fits|intros ?t ?E ?n ?Hsub ?Hle ?Hlt ?Hcst]
  | |- gives (gpr_or_zero _ _) _ _ _ =>
      apply gives_gpr_or_zero; [assumption|assumption|assumption|intros ?t ?E ?n ?Hsub ?Hle ?Hlt]
  | |- gives (gen_set_gpr _ _ _) _ _ _ =>
      apply (gives_set_reg _ _ _ Mov); [done|by left|assumption|assumption|assumption|lia|]
  | |- gives (gen_set_gpr_sx32 _ _ _) _ _ _ =>
      apply (gives_set_reg _ _ _ ExtI32I64); [done|by right|assumption|assumption|assumption|lia|]
  | |- gives set_contains_atomic _ _ _ => apply gives_field; [done|]
  | |- gives (set_instret_discarded _) _ _ _ => apply gives_field; [done|]
  | |- gives (expect (Some _)) _ _ _ => eapply gives_expect; [reflexivity|]
  | |- gives (if ?b then _ else _) _ _ _ => destruct b
  | |- gives ?m _ _ _ => let h := get_head m in unfold h
  end.

Ltac typing_intro :=
  lazymatch goal with
  | Hb : base ?E ?n |- _ ⊆ ?E -> _ => intros _ _
  | Hb : base ?E ?n |- ?E ⊆ _ -> _ -> _ =>
      let Hs := fresh "Hsub" in let Hn := fresh "Hle" in
      intros Hs Hn; apply (base_mono _ _ _ _ Hb Hs) in Hn; clear Hb; rename Hn into Hb
  end.

Ltac typing := repeat (typing_step; cbn beta; try typing_intro).

(** A builder that always succeeds and keeps the context well typed. *)
Definition safe {A} (m : Ir A) : Prop :=
  forall E n, base E n -> gives m E n (fun _ _ _ => True).

Ltac safely :=
  let E := fresh "E" in let n := fresh "n" in let Hb := fresh "Hbase" in
  intros E n Hb; pose proof (base_n E n Hb); typing; try exact I.

Section Gen.
Variable addr_of : Helper -> Z.
Variable MSTATUS_OFFSET : Z.
Variable d : Dis.
Hypothesis Hd : layout d.

Lemma gen_load_safe a m : is_reg (ArgsI.rd a) -> is_reg (ArgsI.rs1 a) -> safe (gen_load d a m).
Proof. intros ??. unfold safe, gen_load, addr_with_imm. destruct (_ =? 0); safely. Qed.

Lemma gen_store_safe a m : is_reg (ArgsS.rs1 a) -> is_reg (ArgsS.rs2 a) -> safe (gen_store d a m).
Proof. intros ??. unfold safe, gen_store, addr_with_imm. destruct (_ =? 0); safely. Qed.


(** ** Atomics *)

Hypothesis Hpc : in_range 64 (pc_next d).

Lemma size_bytes_range m : in_range 64 (MemOp.size_bytes m).
Proof. unfold in_range. destruct (MemOp.size_bytes_cases m) as [->|[->|[->| ->]]]; lia. Qed.

Lemma amo_num_range k : in_range 64 (amo_num k).
Proof. by destruct k. Qed.

(** Where the translation context's own temporaries are. *)
Ltac own_temps :=
  pose proof (lay_env _ Hd); pose proof (lay_pc _ Hd);
  pose proof (lay_res _ Hd); pose proof (lay_val _ Hd).

Ltac atomically :=
  intros (? & ? & ?); own_temps; pose proof size_bytes_range; pose proof amo_num_range; safely.

Lemma gen_lr_safe a m : okA a -> safe (gen_lr d a m).
Proof. pose proof (size_bytes_range m). atomically. Qed.
Lemma gen_sc_safe a m : okA a -> safe (gen_sc addr_of d a m).
Proof. pose proof (size_bytes_range m). atomically. Qed.
Lemma gen_amo_swap_safe a m : okA a -> safe (gen_amo_swap d a m).
Proof. pose proof (size_bytes_range m). pose proof (amo_num_range AMO_SWAP). atomically. Qed.

Lemma gen_amo_safe a k op m :
  okA a -> amo_binop k = Some op -> safe (gen_amo d a k m).
Proof.
  intros Ha Hk. revert Ha. pose proof (size_bytes_range m). pose proof (amo_num_range k).
  assert (Hs : simple op = true) by (destruct k; cbn in Hk; simplify_eq; done).
  unfold safe, gen_amo. rewrite Hk. atomically.
Qed.

Lemma gen_amo_minmax_safe a cc k m :
  okA a -> minmax_kind cc = Some k -> safe (gen_amo_minmax d a cc m).
Proof.
  intros Ha Hk. revert Ha. pose proof (size_bytes_range m). pose proof (amo_num_range k).
  unfold safe, gen_amo_minmax. rewrite Hk. atomically.
Qed.

(** ** CSR accesses and the flow of control *)

(** The translation context after an instruction: unchanged, or the block has ended. *)
Definition ended (d' : Dis) : Prop := d' = d \/ d' = set_is_jmp NoReturn d.

Definition tsafe (m : Trans) : Prop :=
  forall E n, base E n -> gives m E n (fun r _ _ => ended r.1).

Lemma plain_tsafe m : safe m -> tsafe (plain d m).
Proof.
  intros H E n Hb. apply gives_bind. eapply gives_mono; [by apply H|].
  intros b E' n' _ _ _ _ _. apply gives_ret. by left.
Qed.

Ltac tsafely :=
  own_temps; intros E n Hbase; pose proof (base_n E n Hbase); typing; try (by left); try (by right).

Lemma exit_with_tsafe p code : in_range 64 p -> tsafe (exit_with d p code).
Proof. intros Hp. tsafely. Qed.

Lemma next_pc_range : in_range 64 (next_pc d).
Proof. by apply wrap_range. Qed.

Lemma trans_jal_tsafe a : is_reg (ArgsJ.rd a) -> tsafe (trans_jal d a).
Proof. intros H. tsafely. Qed.

Lemma trans_jalr_tsafe a : okI a -> tsafe (trans_jalr d a).
Proof. intros (H1 & H2 & H3). tsafely. Qed.

Lemma branch_tsafe a cc : okB a -> tsafe (branch d a cc).
Proof. intros (H1 & H2). tsafely. Qed.

Lemma gen_csr_read_gives csr E n :
  base E n -> gives (gen_csr_read d csr) E n (fun o E' n' =>
    match o with Some t => (t < n')%N | None => True end).
Proof.
  intros Hbase. own_temps. pose proof (base_n E n Hbase). unfold gen_csr_read, csr_field.
  repeat case_match; typing; lia.
Qed.

Lemma gen_csr_write_safe csr t E n :
  base E n -> (t < n)%N -> gives (gen_csr_write MSTATUS_OFFSET d csr t) E n (fun _ _ _ => True).
Proof.
  intros Hbase Ht. own_temps. pose proof (base_n E n Hbase). unfold gen_csr_write, gen_set_fs_dirty.
  repeat case_match; typing; exact I.
Qed.

(** A builder of an operand. *)
Definition operand_safe (m : Ir N) (E : tenv) (n : N) : Prop :=
  gives m E n (fun t _ n' => (t < n')%N).

Lemma csr_operand_safe a imm E n : okC a -> base E n -> operand_safe (csr_operand d a imm) E n.
Proof. intros (H1 & H2) Hbase. unfold operand_safe, csr_operand. destruct imm; typing; lia. Qed.

Lemma gen_csr_helper_gives csr t idx f rd E n :
  is_reg rd -> in_range 64 f -> base E n -> (t < n)%N ->
  gives (gen_csr_helper d csr t idx f rd) E n (fun d' _ _ => ended d').
Proof.
  intros Hr Hf Hbase Ht. own_temps. pose proof (base_n E n Hbase). unfold gen_csr_helper.
  destruct (_ =? _); typing; first [by left | by right].
Qed.

Lemma csr_slow_gives a operand f E n :
  okC a -> in_range 64 f -> base E n -> operand_safe operand E n ->
  gives (csr_slow d a operand f) E n (fun r _ _ => ended r.1).
Proof.
  intros (H1 & H2) Hf Hbase Hop. own_temps. pose proof (base_n E n Hbase). unfold csr_slow.
  destruct (_ =? 0); [typing; by right|]. apply gives_bind. eapply gives_mono; [exact Hop|].
  intros t E1 n1 HE Hn Ht _ _. pose proof (base_mono _ _ _ _ Hbase HE Hn) as Hb1. apply gives_bind.
  eapply gives_mono; [by apply gen_csr_helper_gives|]. intros d' E2 n2 HE2 Hn2 Hd' _ _.
  unfold suppress_instret_write_increment. apply gives_bind.
  destruct (writes_instret_counter _ _ _); [apply gives_field; [done|]|apply gives_ret];
    intros _ _; by apply gives_ret.
Qed.

Lemma csr_done_gives a t f E n :
  okC a -> base E n -> (t < n)%N -> gives (csr_done d a t f) E n (fun r _ _ => ended r.1).
Proof.
  intros (H1 & H2) Hbase Ht. pose proof (base_n E n Hbase).
  unfold csr_done, suppress_instret_write_increment. typing; by left.
Qed.

(** What the three operations have in common after the old value was read. *)
Lemma csr_write_back_gives a (f : Z) csr new old rs1 E n :
  okC a -> in_range 64 f -> base E n -> (new < n)%N -> (old < n)%N -> (rs1 < n)%N ->
  gives (ok ← gen_csr_write MSTATUS_OFFSET d csr new;
         if ok : bool then csr_done d a old f else csr_slow d a (mret rs1) f) E n
    (fun r _ _ => ended r.1).
Proof.
  intros Ha Hf Hbase H1 H2 H3. apply gives_bind. eapply gives_mono; [by apply gen_csr_write_safe|].
  intros b E1 n1 HE Hn _ _ _. pose proof (base_mono _ _ _ _ Hbase HE Hn).
  destruct b; [apply csr_done_gives; (done || lia)|apply csr_slow_gives; try done].
  apply gives_ret. lia.
Qed.

(** ... and before: the register is not one generated code accesses, or its value is [t]. *)
Lemma csr_read_gives a imm f (k : N -> Trans) :
  okC a -> in_range 64 f ->
  (forall t E n, base E n -> (t < n)%N -> gives (k t) E n (fun r _ _ => ended r.1)) ->
  tsafe (r ← gen_csr_read d (ArgsCsr.csr a);
         match r with None => csr_slow d a (csr_operand d a imm) f | Some old => k old end).
Proof.
  intros Ha Hf Hk E n Hbase. apply gives_bind. eapply gives_mono; [by apply gen_csr_read_gives|].
  intros o E1 n1 HE Hn Ho _ _. pose proof (base_mono _ _ _ _ Hbase HE Hn) as Hb1.
  destruct o as [t|]; [by apply Hk|]. apply csr_slow_gives; try done. by apply csr_operand_safe.
Qed.

Lemma csr_op_tsafe a imm f :
  okC a -> in_range 64 f ->
  tsafe (csr_write_op MSTATUS_OFFSET d a imm f) /\ tsafe (csr_set_op MSTATUS_OFFSET d a imm f) /\
  tsafe (csr_clear_op MSTATUS_OFFSET d a imm f).
Proof.
  intros Ha Hf. split_and!; apply csr_read_gives; try done; intros t E n Hbase Ht;
    pose proof (base_n E n Hbase).
  1: { apply gives_bind. eapply gives_mono; [by apply csr_operand_safe|].
       intros u E1 n1 HE Hn Hu _ _. pose proof (base_mono _ _ _ _ Hbase HE Hn).
       apply csr_write_back_gives; (done || lia). }
  all: destruct (_ =? 0); [by apply csr_done_gives|]; apply gives_bind;
    (eapply gives_mono; [by apply csr_operand_safe|]); intros u E1 n1 HE Hn Hu _ _;
    cbn beta in Hu; pose proof (base_mono _ _ _ _ Hbase HE Hn) as Hb1; clear Hbase; pose proof (base_n E1 n1 Hb1).
  all: repeat lazymatch goal with
    | |- gives (gen_csr_write _ _ _ _ ≫= _) _ _ _ => apply csr_write_back_gives; (done || lia)
    | |- _ => typing_step; cbn beta; try typing_intro
    end.
Qed.

(** ** Every instruction *)

Lemma require_tsafe b m : tsafe m -> tsafe (require b d m).
Proof. intros H. destruct b; [done|]. intros E n _. apply gives_ret. by left. Qed.

Lemma keep_tsafe b : tsafe (mret (d, b)).
Proof. intros E n _. apply gives_ret. by left. Qed.

Lemma upper_safe rd v : is_reg rd -> in_range 64 v ->
  safe (c ← new_const Ty.I64 v; gen_set_gpr d rd c ;; mret true).
Proof. intros Hr Hv. safely. Qed.

(** An instruction whose builder is followed op by op. *)
Ltac insn_tsafe :=
  unfold okR, okR2, okI, okS, okB, okSh in *;
  repeat match goal with H : _ /\ _ |- _ => destruct H end;
  lazymatch goal with
  | |- tsafe (plain _ (gen_load _ _ _)) => apply plain_tsafe; by apply gen_load_safe
  | |- tsafe (plain _ (gen_store _ _ _)) => apply plain_tsafe; by apply gen_store_safe
  | |- tsafe (plain _ _) => apply plain_tsafe; safely
  | |- tsafe (mret _) => apply keep_tsafe
  | |- _ => tsafely
  end.

Lemma trans_rv32i_tsafe i : ok_rv32i i -> tsafe (trans_rv32i d i).
Proof.
  pose proof next_pc_range. intros Hi; destruct i; cbn [ok_rv32i] in Hi; cbn [trans_rv32i]; insn_tsafe.
Qed.

(** The shift amount of the 32-bit forms is a 32-bit constant. *)
Lemma shamt_range v : 0 <= v < 32 -> in_range 32 (u64 v).
Proof. intros H. rewrite wrap_small; unfold in_range; lia. Qed.

Lemma trans_rv64i_tsafe i : ok_rv64i i -> tsafe (plain d (trans_rv64i d i)).
Proof.
  pose proof shamt_range. intros Hi; destruct i; cbn [ok_rv64i] in Hi; cbn [trans_rv64i]; insn_tsafe.
Qed.

Lemma trans_priv_tsafe i : tsafe (trans_priv d i).
Proof.
  pose proof next_pc_range. destruct i; cbn [trans_priv];
    first [ by apply exit_with_tsafe | by apply require_tsafe, exit_with_tsafe | apply keep_tsafe ].
Qed.

Lemma trans_rvm_tsafe i : ok_rvm i -> tsafe (trans_rvm addr_of d i).
Proof. intros Hi. apply require_tsafe. destruct i; cbn [ok_rvm] in Hi; insn_tsafe. Qed.

Lemma trans_rva_tsafe i : okA (atomic_args i) -> tsafe (trans_rva addr_of d i).
Proof.
  intros Hi. apply require_tsafe, plain_tsafe. destruct i; cbn [atomic_args] in Hi;
    lazymatch goal with
    | |- safe (gen_lr _ _ _) => by apply gen_lr_safe
    | |- safe (gen_sc _ _ _ _) => by apply gen_sc_safe
    | |- safe (gen_amo_swap _ _ _) => by apply gen_amo_swap_safe
    | |- safe (gen_amo _ _ _ _) => by eapply gen_amo_safe
    | |- safe (gen_amo_minmax _ _ _ _) => by eapply gen_amo_minmax_safe
    end.
Qed.

Lemma trans_zba_tsafe i : ok_zba i -> tsafe (trans_zba d i).
Proof. intros Hi. apply require_tsafe. destruct i; cbn [ok_zba] in Hi; insn_tsafe. Qed.

Lemma trans_zbb_tsafe i : ok_zbb i -> tsafe (trans_zbb addr_of d i).
Proof.
  pose proof shamt_range. intros Hi. apply require_tsafe. destruct i; cbn [ok_zbb] in Hi; insn_tsafe.
Qed.

Lemma trans_zbs_tsafe i : ok_zbs i -> tsafe (trans_zbs d i).
Proof. intros Hi. apply require_tsafe. destruct i; cbn [ok_zbs] in Hi; insn_tsafe. Qed.

Lemma trans_zbk_tsafe i : ok_zbk i -> tsafe (trans_zbk addr_of d i).
Proof. intros Hi. destruct i; apply require_tsafe; cbn [ok_zbk] in Hi; insn_tsafe. Qed.

Lemma trans_zbc_tsafe i : insn_ok (Zbc_insn i) -> tsafe (trans_zbc addr_of d i).
Proof. intros Hi. apply require_tsafe. destruct i; cbn [insn_ok] in Hi; insn_tsafe. Qed.

(** For every instruction with in-range fields, whether its extension is there or not. *)
Lemma trans_tsafe i : insn_ok i -> tsafe (trans addr_of MSTATUS_OFFSET d i).
Proof.
  intros Hi. destruct i as [i|i|i|i|i|i|i|i|i|i|i|i]; cbn [trans].
  - by apply trans_rv32i_tsafe.
  - by apply trans_rv64i_tsafe.
  - apply trans_priv_tsafe.
  - apply require_tsafe. destruct i; by apply csr_op_tsafe.
  - by apply trans_rvm_tsafe.
  - by apply trans_rva_tsafe.
  - by apply trans_zba_tsafe.
  - by apply trans_zbb_tsafe.
  - by apply trans_zbc_tsafe.
  - by apply trans_zbs_tsafe.
  - by apply trans_zbk_tsafe.
  - destruct i; apply require_tsafe, keep_tsafe.
Qed.
End Gen.

(** ** Blocks *)

Section Block.
Variable addr_of : Helper -> Z.
Variable MSTATUS_OFFSET : Z.
Variables decode32 decode16 : Z -> Decoded.
Variable decode_xthead : Dis -> Z -> Trans.
Variables fetch16 fetch32 : Z -> Z.
Variable d0 : Dis.
Hypothesis no_vendor : has_xthead (cfg d0) = false.

Local Notation insn_at := (insn_at decode32 decode16 fetch16 fetch32 d0).
Local Notation same := (same d0).
Local Notation decode_insn := (decode_insn addr_of MSTATUS_OFFSET decode32 decode16 fetch16 fetch32).
Local Notation translate_insn :=
  (translate_insn addr_of MSTATUS_OFFSET decode32 decode16 decode_xthead fetch16 fetch32).
Local Notation translator_loop :=
  (translator_loop addr_of MSTATUS_OFFSET decode32 decode16 decode_xthead fetch16 fetch32).
Local Notation translate_block :=
  (translate_block addr_of MSTATUS_OFFSET decode32 decode16 decode_xthead fetch16 fetch32).

(** Up to [n] instructions of straight-line code, CSR accesses and atomics included. *)
Fixpoint decodable (n : nat) (pc : Z) : Prop :=
  match n with
  | O => True
  | S n' =>
      match insn_at pc with
      | (NoMatch, _) => True
      | (Foreign, _) => False
      | (Matched i, len) => insn_ok i /\
          (enabled (cfg d0) i = true -> ends_block i = false -> decodable n' (u64 (pc + len)))
      end
  end.

Lemma layout_ended d d' : layout d -> ended d d' -> layout d'.
Proof. by intros [] [->| ->]. Qed.

Lemma same_ended d d' : same d -> ended d d' -> same d'.
Proof. intros Hs [->| ->]; [done|by apply same_set_is_jmp]. Qed.

(** Every result of a builder satisfies [P]. *)
Definition returns {A} (P : A -> Prop) (m : Ir A) : Prop :=
  forall c a c', m c = Some (a, c') -> P a.

Lemma returns_ret {A} (P : A -> Prop) a : P a -> returns P (mret a).
Proof. intros H c b c' E. by injection E as <- _. Qed.

Lemma returns_bind {A B} (Q : A -> Prop) (P : B -> Prop) (m : Ir A) (f : A -> Ir B) :
  returns Q m -> (forall a, Q a -> returns P (f a)) -> returns P (m ≫= f).
Proof.
  intros Hm H c b c' E. unfold mbind, ir_bind in E. destruct (m c) as [[a c1]|] eqn:Em; [|done].
  eapply H; [by eapply Hm|done].
Qed.

Ltac returning := repeat (apply (returns_bind (fun _ => True)); [done|intros ? _]); by apply returns_ret.

(** The block ends after a jump, a branch and what the dispatch loop handles. *)
Lemma trans_ends d i :
  enabled (cfg d) i = true -> ends_block i = true ->
  returns (fun r : Dis * bool => is_jmp r.1 = NoReturn) (trans addr_of MSTATUS_OFFSET d i).
Proof.
  intros He Hb. destruct i as [[]|i|[]|i|i|i|i|i|i|i|i|i]; try discriminate Hb; cbn [enabled] in He;
    cbn [trans trans_rv32i trans_priv];
    lazymatch goal with
    | |- returns _ (branch _ _ _) =>
        apply (returns_bind (fun d' => is_jmp d' = NoReturn)); [unfold gen_branch; returning|];
        intros d' Hd'; by apply returns_ret
    | |- _ => unfold trans_jal, trans_jalr, exit_with, require; try rewrite He; returning
    end.
Qed.

Lemma gives_returns {A} (m : Ir A) E n (Φ : A -> tenv -> N -> Prop) (P : A -> Prop) :
  returns P m -> gives m E n Φ -> gives m E n (fun a E' n' => P a /\ Φ a E' n').
Proof.
  intros Hr Hg c Hs Hw. destruct (Hg c Hs Hw) as (a & c' & E' & n' & Em & ? & ? & ? & ? & ?).
  exists a, c', E', n'. split_and!; try done. by eapply Hr.
Qed.

(** A step of the translator that keeps what the loop relies on. *)
Record stepped_on (n : nat) (d d' : Dis) : Prop := mk_stepped_on {
  so_same : same d';
  so_count : num_insns d' = num_insns d + 1;
  so_code : is_jmp d' = Next -> decodable n (pc_next d');
  so_range : in_range 64 (pc_next d')
}.

Lemma after_decode_gives n d r E m :
  same r.1 -> base E m -> in_range 64 (pc_next r.1) -> num_insns r.1 = num_insns d + 1 ->
  (is_jmp r.1 = Next -> r.2 = true -> decodable n (u64 (pc_next r.1 + cur_insn_len r.1))) ->
  gives (after_decode decode_xthead r) E m (fun d' _ _ => stepped_on n d d').
Proof.
  intros Hs Hb Hp Hn Hc. destruct r as [d1 ok]. cbn [fst snd] in *.
  assert (Hfin : forall d2, same d2 -> num_insns d2 = num_insns d + 1 ->
    (is_jmp d2 = Next -> decodable n (u64 (pc_next d2 + cur_insn_len d2))) ->
    stepped_on n d (let d := set_counts (u64 (pc_next d2 + cur_insn_len d2)) (num_insns d2) d2 in
      if bool_decide (is_jmp d = Next) && (page_byte_limit d <=? pc_next d)
      then set_is_jmp TooMany d else d)).
  { intros d2 Hs2 Hn2 Hc2. cbn zeta. case_if; split; try done.
    - by apply same_set_is_jmp, same_set_counts.
    - by apply wrap_range.
    - by apply same_set_counts.
    - by apply wrap_range. }
  unfold after_decode, decode_vendor_thead. cbn [fst snd]. destruct ok.
  - repeat (apply gives_bind, gives_ret; intros _ _). apply gives_ret. apply Hfin; auto.
  - rewrite (same_cfg _ _ Hs), no_vendor. apply gives_bind, gives_ret. intros _ _. apply gives_bind.
    pose proof (lay_pc _ (same_layout _ _ Hs)). pose proof (base_n _ _ Hb). rename Hb into Hbase.
    typing. by apply Hfin; [apply same_set_is_jmp|..].
Qed.

Lemma gives_ext {A} (m m' : Ir A) E n (Φ : A -> tenv -> N -> Prop) :
  (forall c, m c = m' c) -> gives m' E n Φ -> gives m E n Φ.
Proof.
  intros H Hg c Hs Hw. destruct (Hg c Hs Hw) as (a & c' & E' & n' & Em & Hrest).
  exists a, c', E', n'. by rewrite H.
Qed.

Lemma translate_insn_gives n d E m :
  same d -> base E m -> in_range 64 (pc_next d) -> is_jmp d = Next -> decodable (S n) (pc_next d) ->
  gives (insn_start d ≫= translate_insn) E m (fun d' _ _ => stepped_on n d d').
Proof.
  intros Hs Hb Hp Hj Hcode. apply gives_bind. unfold insn_start, gen_insn_start. apply gives_bind.
  apply gives_emit; [apply wt_at_other; [reflexivity|in_context]|]. intros _ _. apply gives_ret. intros _ _.
  set (d1 := set_counts (pc_next d) (num_insns d + 1) d).
  assert (Hs1 : same d1) by by apply same_set_counts.
  pose proof (decode_insn_eq addr_of MSTATUS_OFFSET decode32 decode16 fetch16 fetch32 d0 d1 Hs1) as Hdec.
  change (pc_next d1) with (pc_next d) in Hdec. cbn [decodable] in Hcode.
  eapply gives_ext; [apply after_decode_eq|].
  destruct (insn_at (pc_next d)) as [[|i|] len] eqn:Ei; [| |done].
  - destruct Hdec as (d' & Hd' & ->). apply gives_bind, gives_ret. intros _ _.
    assert (Hs' : same d') by (destruct Hd' as [->|[? ->]]; [done|by apply same_set_insn]).
    apply after_decode_gives; try done; by destruct Hd' as [->|[? ->]].
  - destruct Hdec as (op & ->). set (d2 := set_insn op len d1).
    assert (Hs2 : same d2) by by apply same_set_insn. destruct Hcode as [Hf Hnext]. apply gives_bind.
    eapply gives_mono; [eapply (gives_returns _ _ _ _ (fun r : Dis * bool =>
      is_jmp r.1 = Next -> r.2 = true -> enabled (cfg d0) i = true /\ ends_block i = false))|].
    + intros c [d' ok] c' Et. cbn [fst snd]. intros Hj' ->. destruct (enabled (cfg d0) i) eqn:En.
      * split; [done|]. destruct (ends_block i) eqn:Eb; [|done].
        apply trans_ends in Et; [cbn in Et; congruence|by rewrite (same_cfg _ _ Hs2)|done].
      * rewrite trans_disabled in Et by by rewrite (same_cfg _ _ Hs2). by injection Et.
    + apply trans_tsafe; [apply Hs2|done|done|done].
    + intros [d' ok] E' m' HE Hm [Hret Hend] _ _. cbn [fst snd] in *.
      assert (H' : pc_next d' = pc_next d /\ cur_insn_len d' = len /\ num_insns d' = num_insns d + 1)
        by by destruct Hend as [->| ->].
      destruct H' as (E1 & E2 & E3). apply after_decode_gives; cbn [fst snd]; rewrite ?E1, ?E2; try done.
      * by eapply same_ended.
      * by eapply base_mono.
      * intros Hj' Hok. apply Hnext; by apply Hret.
Qed.

Lemma translator_loop_gives fuel d E m :
  same d -> base E m -> in_range 64 (pc_next d) -> is_jmp d = Next ->
  (0 < fuel)%nat -> max_insns d0 - num_insns d <= Z.of_nat fuel -> decodable fuel (pc_next d) ->
  gives (translator_loop fuel d) E m (fun d' _ _ => same d' /\ in_range 64 (pc_next d')).
Proof.
  revert d E m. induction fuel as [|fuel IH]; intros d E m Hs Hb Hp Hj Hf Hmax Hcode; [lia|].
  cbn [RvTrans.translator_loop]. eapply gives_ext; [apply bind_assoc|].
  apply gives_bind. eapply gives_mono; [by apply (translate_insn_gives fuel)|].
  intros d1 E1 m1 HE Hm [Hs1 Hn Hc1 Hr1] _ _. case_bool_decide as Hj1; [|by apply gives_ret].
  destruct (Z.leb_spec (max_insns d1) (num_insns d1)) as [Hle|Hgt].
  - apply gives_ret. split; [by apply same_set_is_jmp|done].
  - rewrite (same_max _ _ Hs1) in Hgt. apply IH; auto; [by eapply base_mono|lia|lia].
Qed.

Lemma tb_stop_gives d E n :
  layout d -> base E n -> in_range 64 (pc_next d) -> gives (tb_stop d) E n (fun _ _ _ => True).
Proof.
  intros Hl Hbase Hp. pose proof (lay_pc _ Hl). pose proof (base_n _ _ Hbase).
  unfold tb_stop. destruct (is_jmp d); typing; done.
Qed.

Lemma translate_block_gives E n :
  ready d0 -> base E n -> decodable (Z.to_nat (Z.max 1 (max_insns d0))) (pc_next d0) ->
  gives (translate_block d0) E n (fun _ _ _ => True).
Proof.
  intros [Hl Hj Hn Hp] Hb Hcode. unfold RvTrans.translate_block. apply gives_bind.
  eapply gives_mono; [apply translator_loop_gives; try done; lia|].
  intros d E1 n1 HE Hm [Hs1 Hr] _ _. apply gives_bind.
  eapply gives_mono; [apply tb_stop_gives; [apply Hs1|by eapply base_mono|done]|].
  intros [] E2 n2 _ _ _ _ _. by apply gives_ret.
Qed.

(** C4: The translator never panics and its output is well typed: for guest code of any
    of the modelled instructions, CSR accesses and atomics included, whether or not their
    extensions are enabled, translating a block succeeds and leaves a well-formed context
    in which every op refers to existing variables, writes variables wide enough for its
    result and uses constants that fit their type. *)
Theorem translate_block_typed c :
  ready d0 -> fresh_context c -> well_typed c = true ->
  decodable (Z.to_nat (Z.max 1 (max_insns d0))) (pc_next d0) ->
  exists size c', translate_block d0 c = Some (size, c') /\
    Context.wf c' /\ well_typed c' = true.
Proof.
  intros Hr Hf Hw Hcode. destruct (fresh_static c Hf) as (E & n & Hs & Hb).
  destruct (translate_block_gives E n Hr Hb Hcode c Hs Hw) as (size & c' & E' & n' & Et & Hs' & Hw' & _).
  exists size, c'. split_and!; try done. by apply Hs'.
Qed.
End Block.
