(* ===== verification/RvTidy.v ===== *)
(** * The optimizer is right about the front end's output

    The IR of the computational, memory and control-flow instructions is tidy
    ([OptimizeTidy]): an instruction computes in fresh temporaries, then moves its
    results to guest registers, and reads only constants after a label.  Together with
    [RvTyped] and [RvBlock] this gives the correctness of translated and optimized
    blocks. *)

From Stdlib Require Import ZArith Lia Bool.
From stdpp Require Import base tactics numbers list gmap.
From S2P Require Import Prelude IrTypes IrOpcode IrContext IrBuild Optimize IrSem OptimizeProof OptimizeTidy.
From S2P Require Import IrHost Tb RvInsn RvTrans RvEmit RvTransOk RvBlock RvTyped.
Import Opcode.

(** ** The ops of one instruction *)

(** An op that computes in temporaries from [n] on. *)
Definition body_op (n : N) (op : Op.Op) : Prop :=
  branch_ok op = true /\ Op.opc op <> SetLabel /\ Op.opc op <> Mov /\
  (is_pure (Op.opc op) = true -> (n <= arg (Op.args op) 0)%N).

(** An op that assigns a guest register, or does not assign. *)
Definition move_op (ts : list Temp.Temp) (n n' : N) (op : Op.Op) : Prop :=
  Op.opc op <> BrCond /\ Op.opc op <> SetLabel /\
  (is_pure (Op.opc op) = true -> (arg (Op.args op) 0 < 37)%N) /\
  (Op.opc op = Mov -> const_temp ts (arg (Op.args op) 1) = true \/ (n <= arg (Op.args op) 1 < n')%N).

Inductive frag (ts : list Temp.Temp) (n n' : N) : bool -> list Op.Op -> Prop :=
| frag_nil b : frag ts n n' b []
| frag_body op l : body_op n op -> frag ts n n' false l -> frag ts n n' false (op :: l)
| frag_move b op l : move_op ts n n' op -> frag ts n n' true l -> frag ts n n' b (op :: l).

(** The sources of the moves before the instruction whose temporaries start at [n]:
    constants and earlier temporaries, never guest registers. *)
Definition sources (ts : list Temp.Temp) (n : N) (S : list N) : Prop :=
  forall s, s ∈ S -> const_temp ts s = true \/ (37 <= s < n)%N.

Definition dst_var (ts : list Temp.Temp) (op : Op.Op) : Prop :=
  is_pure (Op.opc op) = true -> const_temp ts (arg (Op.args op) 0) = false.

Lemma wt_dst_var ts op : wt_op ts op = true -> dst_var ts op.
Proof.
  intros Hw Hp. unfold wt_op in Hw. apply andb_true_iff in Hw as [_ Hw]. rewrite Hp in Hw.
  unfold wt_pure in Hw. apply andb_true_iff in Hw as [Hw _]. by apply negb_true_iff.
Qed.

Lemma sources_mono ts n n' S : sources ts n S -> (n <= n')%N -> sources ts n' S.
Proof. intros H Hn s Hs. destruct (H s Hs); [by left|right; lia]. Qed.

Lemma frag_tidy ts n n' mv l rest : (37 <= n <= n')%N ->
  frag ts n n' mv l -> Forall (dst_var ts) l -> forall S,
  sources ts (if mv then n' else n) S ->
  (forall S', sources ts n' S' -> tidy ts S' false rest) -> tidy ts S false (l ++ rest).
Proof.
  intros Hn Hf. induction Hf as [b|op l (Hb & Hl & Hm & Hd) Hf IH|b op l (Hb & Hl & Hd & Hm) Hf IH];
    intros Hv S HS Hrest; cbn [app].
  - apply Hrest. eapply sources_mono; [exact HS|]. destruct b; lia.
  - apply Forall_cons in Hv as [Hv1 Hv]. cbn [tidy]. split; [done|]. split.
    + intros Hp Hin. destruct (HS _ Hin) as [Hc|Hr]; [by rewrite Hv1 in Hc|]. specialize (Hd Hp). lia.
    + rewrite decide_False, bool_decide_eq_false_2 by done. by apply IH.
  - apply Forall_cons in Hv as [Hv1 Hv]. cbn [tidy]. split; [unfold branch_ok; by destruct (Op.opc op)|]. split.
    + intros Hp Hin. specialize (Hd Hp). destruct (HS _ Hin) as [Hc|Hr]; [by rewrite Hv1 in Hc|].
      destruct b; lia.
    + rewrite (bool_decide_eq_false_2 (_ = SetLabel)) by done. apply IH; [done| |done].
      intros s Hs. assert (HS' : s ∈ S -> const_temp ts s = true \/ (37 <= s < n')%N).
      { intros [H|H]%HS; [by left|right; destruct b; lia]. }
      destruct (decide (Op.opc op = Mov)) as [Ho|Ho]; [|by apply HS'].
      apply elem_of_cons in Hs as [->|Hs]; [|by apply HS']. destruct (Hm Ho); [by left|right; lia].
Qed.

Lemma const_temp_cst ts E t ty v : typed ts E -> E !! t = Some (Cst ty v) -> const_temp ts t = true.
Proof. intros Ht (x & Hx & _ & Hc & _)%Ht. unfold const_temp. by rewrite Hx. Qed.

Lemma frag_moving ts n n' b l : frag ts n n' true l -> frag ts n n' b l.
Proof. inversion 1; by constructor. Qed.

(** The move of a result to a register. *)
Lemma frag_set ts n n' b opc rd t l l' :
  set_ops opc rd t l -> (opc = Mov \/ opc = ExtI32I64) ->
  const_temp ts t = true \/ (n <= t < n')%N ->
  frag ts n n' true l' -> frag ts n n' b (l ++ l').
Proof.
  intros Hs Ho Ht Hl. destruct Hs as [_|k Hr]; cbn [app]; [by apply frag_moving|].
  apply frag_move; [|done].
  split; [by destruct Ho as [-> | ->]|]. split; [by destruct Ho as [-> | ->]|]. split; [|done].
  intros _. cbn. unfold reg_temp. lia.
Qed.

(** A builder whose ops are such a fragment. *)
Definition frags {A} (m : Ir A) : Prop :=
  forall E n, base E n -> spec m E n (fun _ l E' n' => forall ts, typed ts E' -> frag ts n n' false l).

Lemma frag_simple ts n n' k op ty d a b l :
  simple op = true -> (n <= d)%N -> frag ts n n' false l ->
  frag ts n n' false (Op.with_args k (bin_opcode op) ty [d; a; b] :: l).
Proof.
  intros Ho Hd. apply frag_body. destruct op; try discriminate Ho; split_and!; try done; by intros _.
Qed.

(** The source of a move. *)
Ltac source :=
  first [ right; lia | left; eapply const_temp_cst; [eassumption|known] ].

(** One op of a fragment. *)
Ltac frag_step :=
  lazymatch goal with
  | |- frag _ _ _ _ [] => apply frag_nil
  | Hs : set_ops _ _ _ ?l |- frag _ _ _ _ (?l ++ _) =>
      eapply frag_set; [exact Hs|first [by left | by right]|source|]
  | |- frag _ _ _ _ (Op.with_args _ (bin_opcode ?op) _ _ :: _) =>
      first [ is_var op; apply frag_simple; [assumption|lia|]
            | apply frag_body; [split_and!; try done; intros _; cbn; lia|] ]
  | |- frag _ _ _ _ (Op.with_args _ (un_opcode gen_mov) _ _ :: _) =>
      apply frag_move; [split_and!; [done|done|intros _; cbn; lia|intros _; cbn; source]|]
  | |- frag _ _ _ _ (Op.with_args _ Mov _ _ :: _) =>
      apply frag_move; [split_and!; [done|done|intros _; cbn; lia|intros _; cbn; source]|]
  | |- frag _ _ _ false (_ :: _) =>
      apply frag_body; [split_and!; try done; intros _; cbn; lia|]
  | |- frag _ _ _ true (_ :: _) => apply frag_move; [by split_and!|]
  end.

Ltac fragments :=
  let E := fresh "E" in let n := fresh "n" in
  intros E n Hbase; pose proof (base_n E n Hbase); build; cbn [app]; intros ts Ht; rewrite <- ?app_assoc;
  cbn [app]; repeat frag_step.

Section Gen.
Variable addr_of : Helper -> Z.
Variable d : Dis.
Hypothesis Hd : layout d.

Lemma gen_load_frags a m : is_reg (ArgsI.rd a) -> is_reg (ArgsI.rs1 a) -> frags (gen_load d a m).
Proof. intros ??. unfold frags, gen_load, addr_with_imm. destruct (_ =? 0); fragments. Qed.

Lemma gen_store_frags a m : is_reg (ArgsS.rs1 a) -> is_reg (ArgsS.rs2 a) -> frags (gen_store d a m).
Proof. intros ??. unfold frags, gen_store, addr_with_imm. destruct (_ =? 0); fragments. Qed.

Lemma plain_frags m : frags m -> frags (plain d m).
Proof.
  intros H E n Hb. apply spec_bind. eapply spec_mono; [by apply H|].
  intros b l E' n' _ _ Hf _ _. apply spec_ret. by rewrite app_nil_r.
Qed.

Lemma exit_with_frags p code : frags (exit_with d p code).
Proof. pose proof (lay_pc _ Hd) as Hpc. fragments. Qed.

Lemma trans_jal_frags a : is_reg (ArgsJ.rd a) -> frags (trans_jal d a).
Proof. pose proof (lay_pc _ Hd) as Hpc. intros H. fragments. Qed.

Lemma trans_jalr_frags a : okI a -> frags (trans_jalr d a).
Proof. pose proof (lay_pc _ Hd) as Hpc. intros (H1 & H2 & H3). fragments. Qed.

Lemma require_frags b m : frags m -> frags (require b d m).
Proof.
  intros H. destruct b; [done|]. intros E n Hb. apply spec_ret. intros ts _. apply frag_nil.
Qed.

(** An instruction that does not end the block. *)
Ltac fields := repeat match goal with H : _ /\ _ |- _ => destruct H end.

Ltac insn_frags :=
  unfold okR, okR2, okI, okS, okB, okSh in *; fields;
  lazymatch goal with
  | |- frags (plain _ (gen_load _ _ _)) => apply plain_frags; by apply gen_load_frags
  | |- frags (plain _ (gen_store _ _ _)) => apply plain_frags; by apply gen_store_frags
  | |- _ => fragments
  end.

Lemma trans_rv32i_frags i :
  ok_rv32i i -> ends_block (Rv32i_insn i) = false -> frags (trans_rv32i d i).
Proof. intros Hi He. destruct i; try discriminate He; cbn [ok_rv32i] in Hi; cbn [trans_rv32i]; insn_frags. Qed.

Lemma trans_rv64i_frags i : ok_rv64i i -> frags (plain d (trans_rv64i d i)).
Proof. intros Hi. destruct i; cbn [ok_rv64i] in Hi; cbn [trans_rv64i]; insn_frags. Qed.

Lemma trans_rvm_frags i : ok_rvm i -> frags (trans_rvm addr_of d i).
Proof. intros Hi. apply require_frags. destruct i; cbn [ok_rvm] in Hi; insn_frags. Qed.

Lemma trans_zba_frags i : ok_zba i -> frags (trans_zba d i).
Proof. intros Hi. apply require_frags. destruct i; cbn [ok_zba] in Hi; insn_frags. Qed.

Lemma trans_zbb_frags i : ok_zbb i -> frags (trans_zbb addr_of d i).
Proof. intros Hi. apply require_frags. destruct i; cbn [ok_zbb] in Hi; insn_frags. Qed.

Lemma trans_zbs_frags i : ok_zbs i -> frags (trans_zbs d i).
Proof. intros Hi. apply require_frags. destruct i; cbn [ok_zbs] in Hi; insn_frags. Qed.

Lemma trans_zbk_frags i : ok_zbk i -> frags (trans_zbk addr_of d i).
Proof. intros Hi. destruct i; apply require_frags; cbn [ok_zbk] in Hi; insn_frags. Qed.

Lemma trans_zbc_frags i : insn_ok (Zbc_insn i) -> frags (trans_zbc addr_of d i).
Proof. intros Hi. apply require_frags. destruct i; cbn [insn_ok] in Hi; insn_frags. Qed.

Lemma keep_frags (b : bool) : frags (mret (d, b) : Trans).
Proof. intros E n _. apply spec_ret. intros ts _. apply frag_nil. Qed.

Lemma trans_priv_frags i : frags (trans_priv d i).
Proof.
  destruct i; cbn [trans_priv];
    first [ by apply exit_with_frags | by apply require_frags, exit_with_frags | apply keep_frags ].
Qed.

(** The ops of an instruction: a fragment, or with a label the last ones of the block. *)
Definition insn_tidy (ts : list Temp.Temp) (n n' : N) (l : list Op.Op) : Prop :=
  frag ts n n' false l \/
  Exists (fun op => label_of op <> None) l /\
  forall S, sources ts n S -> Forall (dst_var ts) l -> tidy ts S false l.

Definition tidies {A} (m : Ir A) : Prop :=
  forall E n, base E n -> spec m E n (fun _ l E' n' => forall ts, typed ts E' -> insn_tidy ts n n' l).

Lemma frags_tidies {A} (m : Ir A) : frags m -> tidies m.
Proof.
  intros H E n Hb. eapply spec_mono; [by apply H|]. intros a l E' n' _ _ Hf ts Ht. left. by apply Hf.
Qed.

(** A branch: an assignment of the program counter on each side of the label. *)
Lemma branch_tidies a cc : okB a -> tidies (branch d a cc).
Proof.
  intros (H1 & H2) E n Hbase. pose proof (lay_pc _ Hd) as Hpc. pose proof (base_n _ _ Hbase). build.
  cbn [app un_opcode]. intros ts Ht. right. split.
  { do 4 apply Exists_cons_tl. by apply Exists_cons_hd. }
  intros S HS Hv. rewrite Hpc in *. assert (Hn : (37 <= n <= n3)%N) by lia.
  match goal with |- tidy _ _ _ [?a; ?b; ?c; ?e; ?s; ?f; ?g; ?h] =>
    assert (Hlast : forall S', tidy ts S' false [s; f; g; h]);
    [|apply (frag_tidy ts n n3 false [a; b; c; e] [s; f; g; h] Hn)] end.
  - intros S'. cbn [tidy]. split_and!; try done; [by right; constructor; [eapply const_temp_cst|]|by left..].
  - repeat frag_step.
  - by apply (Forall_app _ [_; _; _; _]) in Hv as [? _].
  - done.
  - intros S' _. apply Hlast.
Qed.

(** Every described instruction. *)
Lemma trans_tidies MSTATUS_OFFSET i :
  insn_ok i -> described i = true -> tidies (trans addr_of MSTATUS_OFFSET d i).
Proof.
  intros Hi Hs. destruct i as [i|i|i|i|i|i|i|i|i|i|i|i]; try discriminate Hs; cbn [trans].
  - destruct (ends_block (Rv32i_insn i)) eqn:Ee; [|by apply frags_tidies, trans_rv32i_frags].
    destruct i; try discriminate Ee; cbn [trans_rv32i];
      lazymatch goal with
      | |- tidies (branch _ _ _) => by apply branch_tidies
      | |- tidies (trans_jal _ _) => by apply frags_tidies, trans_jal_frags
      | |- tidies (trans_jalr _ _) => by apply frags_tidies, trans_jalr_frags
      | |- tidies (exit_with _ _ _) => by apply frags_tidies, exit_with_frags
      end.
  - by apply frags_tidies, trans_rv64i_frags.
  - apply frags_tidies, trans_priv_frags.
  - by apply frags_tidies, trans_rvm_frags.
  - by apply frags_tidies, trans_zba_frags.
  - by apply frags_tidies, trans_zbb_frags.
  - by apply frags_tidies, trans_zbc_frags.
  - by apply frags_tidies, trans_zbs_frags.
  - by apply frags_tidies, trans_zbk_frags.
  - apply frags_tidies. destruct i; apply require_frags, keep_frags.
Qed.
End Gen.

(** ** Blocks *)

(** What a builder does to one context. *)
Definition emits {A} (m : Ir A) (c : Context.Context)
    (Q : A -> Context.Context -> list Op.Op -> Prop) : Prop :=
  exists a c' l, m c = Some (a, c') /\ extends c c' l /\ Q a c' l.

Lemma spec_emits {A} (m : Ir A) E n (Φ : A -> list Op.Op -> tenv -> N -> Prop) c :
  spec m E n Φ -> static c E n -> emits m c (fun a c' l =>
    exists E' n', static c' E' n' /\ E ⊆ E' /\ (n <= n')%N /\ Φ a l E' n').
Proof.
  intros H Hs. destruct (H c Hs) as (a & c' & l & E' & n' & Em & Hx & Hs' & HE & Hn & HΦ).
  exists a, c', l. split_and!; try done. by exists E', n'.
Qed.

Lemma emits_and {A} (m : Ir A) c (P Q : A -> Context.Context -> list Op.Op -> Prop) :
  emits m c P -> emits m c Q -> emits m c (fun a c' l => P a c' l /\ Q a c' l).
Proof.
  intros (a & c' & l & Em & Hx & HP) (a2 & c2 & l2 & Em2 & Hx2 & HQ). rewrite Em in Em2.
  injection Em2 as <- <-. exists a, c', l. split_and!; try done.
  pose proof (ex_ops _ _ _ Hx) as E1. rewrite (ex_ops _ _ _ Hx2) in E1.
  by apply app_inv_head in E1 as ->.
Qed.

Lemma emits_mono {A} (m : Ir A) c (P Q : A -> Context.Context -> list Op.Op -> Prop) :
  emits m c P -> (forall a c' l, extends c c' l -> P a c' l -> Q a c' l) -> emits m c Q.
Proof. intros (a & c' & l & Em & Hx & HP) H. exists a, c', l. auto. Qed.

Lemma emits_ret {A} (a : A) c (Q : A -> Context.Context -> list Op.Op -> Prop) :
  Q a c [] -> emits (mret a) c Q.
Proof. intros H. exists a, c, []. split; [done|]. split; [|done]. split; [by rewrite app_nil_r|done|done]. Qed.

Lemma emits_bind {A B} (m : Ir A) (f : A -> Ir B) c (Q : B -> Context.Context -> list Op.Op -> Prop) :
  emits m c (fun a c1 l1 => emits (f a) c1 (fun b c2 l2 => Q b c2 (l1 ++ l2))) -> emits (m ≫= f) c Q.
Proof.
  intros (a & c1 & l1 & Em & Hx1 & b & c2 & l2 & Ef & Hx2 & HQ). exists b, c2, (l1 ++ l2).
  split; [unfold mbind, ir_bind; by rewrite Em|]. split; [by eapply extends_trans|done].
Qed.

(** The temporaries of a context, as a count. *)
Definition count (c : Context.Context) : N := N.of_nat (length (Context.temps c)).

(** The block so far, in every later context: it is tidy with whatever tidy ops follow,
    or, when nothing follows, by itself. *)
Definition tidy_so_far (n : N) (last : bool) (c' : Context.Context) (l : list Op.Op) : Prop :=
  forall ts, Context.temps c' `prefix_of` ts -> Forall (dst_var ts) l -> forall S, sources ts n S ->
  forall rest, (if last then rest = [] else forall S', sources ts (count c') S' -> tidy ts S' false rest) ->
  tidy ts S false (l ++ rest).

Lemma tidy_so_far_app n last c1 c2 l1 l2 :
  tidy_so_far n false c1 l1 -> tidy_so_far (count c1) last c2 l2 -> extends c1 c2 l2 ->
  tidy_so_far n last c2 (l1 ++ l2).
Proof.
  intros H1 H2 Hx ts Hp [Hv1 Hv2]%Forall_app S HS rest Hr. rewrite <- app_assoc.
  apply H1; [etrans; [apply Hx|done]|done|done|]. intros S' HS'. by apply H2.
Qed.

Lemma insn_tidy_so_far n last c' l :
  (forall ts, Context.temps c' `prefix_of` ts -> insn_tidy ts n (count c') l) ->
  (37 <= n <= count c')%N -> (last = false -> Forall (fun op => label_of op = None) l) ->
  tidy_so_far n last c' l.
Proof.
  intros H Hn Hl ts Hp Hv S HS rest Hr. destruct (H ts Hp) as [Hf|[Hlab Ht]].
  - apply (frag_tidy ts n (count c') false); try done. intros S' HS'.
    destruct last; [by subst|by apply Hr].
  - destruct last; [subst; rewrite app_nil_r; by apply Ht|].
    apply Exists_exists in Hlab as (op & Hin & Hne). specialize (Hl eq_refl).
    rewrite Forall_forall in Hl. by destruct Hne; apply Hl.
Qed.

(** The mark of the instruction comes first. *)
Lemma insn_tidy_start ts n n' k args l :
  insn_tidy ts n n' l -> insn_tidy ts n n' (Op.with_args k InsnStart Ty.I64 args :: l).
Proof.
  intros [Hf|[Hlab Ht]]; [left; by apply frag_body; [split_and!|]|right].
  split; [by apply Exists_cons_tl|]. intros S HS [_ Hv]%Forall_cons. cbn [tidy].
  split; [done|]. split; [done|]. by apply Ht.
Qed.

Section Block.
Context {W : Type}.
Variable mem_load : W -> Z -> Z -> option Z * W.
Variable mem_store : W -> Z -> Z -> Z -> bool * W.
Variable helper_at : Z -> option (list Z -> option Z).
Variable chained : N -> W -> bool.
Variable addr_of : Helper -> Z.
Variable MSTATUS_OFFSET : Z.
Variables decode32 decode16 : Z -> Decoded.
Variable decode_xthead : Dis -> Z -> Trans.
Variables fetch16 fetch32 : Z -> Z.
Variable d0 : Dis.
Hypothesis helpers_linked : forall h,
  in_range 64 (addr_of h) /\ helper_at (addr_of h) = Some (helper_fn h).
Hypothesis no_vendor : has_xthead (cfg d0) = false.

Local Notation insn_at := (insn_at decode32 decode16 fetch16 fetch32 d0).
Local Notation code_ok := (code_ok decode32 decode16 fetch16 fetch32 d0).
Local Notation same := (same d0).
Local Notation decode_insn := (decode_insn addr_of MSTATUS_OFFSET decode32 decode16 fetch16 fetch32).
Local Notation translate_insn :=
  (translate_insn addr_of MSTATUS_OFFSET decode32 decode16 decode_xthead fetch16 fetch32).
Local Notation translator_loop :=
  (translator_loop addr_of MSTATUS_OFFSET decode32 decode16 decode_xthead fetch16 fetch32).
Local Notation translate_block :=
  (translate_block addr_of MSTATUS_OFFSET decode32 decode16 decode_xthead fetch16 fetch32).

Lemma undecoded_frags d : same d -> frags (after_decode decode_xthead (d, false)).
Proof.
  intros Hs E n Hbase. unfold after_decode, decode_vendor_thead. cbn [fst snd].
  rewrite (same_cfg _ _ Hs), no_vendor. pose proof (lay_pc _ (same_layout _ _ Hs)) as Hpc.
  pose proof (base_n E n Hbase). build. cbn [app]. intros ts Ht. repeat frag_step.
Qed.

(** A translated instruction is decoded. *)
Lemma trans_decoded d i c E n r c' :
  layout d -> insn_ok i -> enabled (cfg d) i = true -> described i = true ->
  in_range 64 (pc_next d) -> base E n -> static c E n ->
  trans addr_of MSTATUS_OFFSET d i c = Some (r, c') -> r.2 = true.
Proof.
  intros Hl Hi He Hs Hp Hb Hc Et.
  destruct (trans_ok mem_load mem_store helper_at chained addr_of MSTATUS_OFFSET helpers_linked
    d Hl i Hi He Hs Hp E n Hb c Hc) as (r2 & c2 & l & E' & n' & Et2 & _ & _ & _ & _ & -> & _).
  rewrite Et in Et2. by injection Et2 as -> _.
Qed.

Lemma translate_insn_tidies n d :
  same d -> in_range 64 (pc_next d) -> code_ok (S n) (pc_next d) ->
  tidies (insn_start d ≫= translate_insn).
Proof.
  intros Hs Hp Hcode E m Hb. apply spec_bind. unfold insn_start, gen_insn_start.
  apply spec_bind, spec_emit. intros k _ _. apply spec_ret. intros _ _. cbn [app].
  set (d1 := set_counts (pc_next d) (num_insns d + 1) d).
  assert (Hs1 : same d1) by by apply same_set_counts.
  pose proof (decode_insn_eq addr_of MSTATUS_OFFSET decode32 decode16 fetch16 fetch32 d0 d1 Hs1) as Hdec.
  change (pc_next d1) with (pc_next d) in Hdec. cbn [RvBlock.code_ok] in Hcode.
  assert (Hun : forall d2, same d2 -> spec (after_decode decode_xthead (d2, false)) E m
    (fun _ l E2 n2 => forall ts, typed ts E2 ->
      insn_tidy ts m n2 (Op.with_args k InsnStart Ty.I64 [carg (pc_next d); carg (shr (pc_next d) 32)] :: l))).
  { intros d2 Hs2. eapply spec_mono; [by apply undecoded_frags|].
    intros a l E2 n2 _ _ Hf ts Ht. apply insn_tidy_start. left. by apply Hf. }
  intros c Hc. rewrite after_decode_eq. revert c Hc.
  destruct (insn_at (pc_next d)) as [[|i|] len] eqn:Ei; [| |done].
  - destruct Hdec as (d' & Hd' & ->). apply spec_bind, spec_ret. intros _ _. apply Hun.
    destruct Hd' as [->|[? ->]]; [done|by apply same_set_insn].
  - destruct Hdec as (op & ->). set (d2 := set_insn op len d1).
    assert (Hs2 : same d2) by by apply same_set_insn. destruct Hcode as [Hok Hnext].
    destruct (enabled (cfg d0) i) eqn:En.
    + destruct (Hnext eq_refl) as [Hds _]. intros c Hc. pose proof (same_layout _ _ Hs2) as Hl2.
      destruct (trans_tidies addr_of d2 Hl2 MSTATUS_OFFSET i Hok Hds E m Hb c Hc)
        as ([d' ok] & c' & l & E' & n' & Et & Hx & Hs' & HE & Hm & Ht).
      assert (ok = true) as ->.
      { apply (trans_decoded d2 i c E m (d', ok) c'); try done. by rewrite (same_cfg _ _ Hs2). }
      eexists _, c', l, E', n'. split_and!; try done.
      { unfold mbind, ir_bind. rewrite Et. unfold after_decode. cbn. reflexivity. }
      intros ts Hts. apply insn_tidy_start. by apply Ht.
    + rewrite trans_disabled by by rewrite (same_cfg _ _ Hs2). apply spec_bind, spec_ret. intros _ _.
      by apply Hun.
Qed.

Lemma typed_prefix c E n ts : static c E n -> Context.temps c `prefix_of` ts -> typed ts E.
Proof. intros Hs Hp. by eapply typed_mono; [exact Hp| |apply Hs]. Qed.

(** One instruction: what [RvBlock] needs of it, and that it is tidy. *)
Lemma translate_insn_emits n d c E m :
  same d -> static c E m -> base E m -> in_range 64 (pc_next d) -> is_jmp d = Next ->
  code_ok (S n) (pc_next d) ->
  emits (insn_start d ≫= translate_insn) c (fun d' c' l =>
    tidy_so_far (count c) (bool_decide (is_jmp d' = NoReturn)) c' l /\
    (exists E' m', static c' E' m' /\ base E' m') /\
    same d' /\ num_insns d' = num_insns d + 1 /\
    (is_jmp d' <> NoReturn -> code_ok n (pc_next d') /\ in_range 64 (pc_next d'))).
Proof.
  intros Hs Hc Hb Hp Hj Hcode.
  pose proof (translate_insn_ok mem_load mem_store helper_at chained addr_of MSTATUS_OFFSET decode32
    decode16 decode_xthead fetch16 fetch32 d0 helpers_linked no_vendor d n E m Hs Hb Hp Hj Hcode) as H1.
  pose proof (translate_insn_tidies n d Hs Hp Hcode E m Hb) as H2.
  eapply emits_mono; [apply emits_and; [exact (spec_emits _ _ _ _ c H1 Hc)|exact (spec_emits _ _ _ _ c H2 Hc)]|].
  intros d' c' l Hx [(E1 & n1 & Hs1 & HE1 & Hn1 & Hst) (E2 & n2 & Hs2 & HE2 & Hn2 & Ht)].
  pose proof (st_len _ _ _ Hs2) as Hlen2. pose proof (st_len _ _ _ Hc) as Hlen. fold (count c) in Hlen.
  fold (count c') in Hlen2. destruct Hst as [Hsame Hn _ _ _ Hlab Hnext Hcd _]. split_and!; try done.
  - apply insn_tidy_so_far.
    + intros ts Hpre. rewrite Hlen, Hlen2. apply Ht. by eapply typed_prefix.
    + pose proof (base_n _ _ Hb). lia.
    + intros Hl%bool_decide_eq_false. by apply Hlab.
  - exists E1, n1. split; [done|by eapply base_mono].
  - intros Hne. split; [by apply Hcd|]. rewrite Hnext by done. by apply wrap_range.
Qed.

Lemma translator_loop_tidy fuel d c E m :
  same d -> static c E m -> base E m -> in_range 64 (pc_next d) -> is_jmp d = Next ->
  (0 < fuel)%nat -> max_insns d0 - num_insns d <= Z.of_nat fuel -> code_ok fuel (pc_next d) ->
  emits (translator_loop fuel d) c (fun d' c' l =>
    tidy_so_far (count c) (bool_decide (is_jmp d' = NoReturn)) c' l /\
    (exists E' m', static c' E' m' /\ base E' m') /\ same d').
Proof.
  revert d c E m. induction fuel as [|fuel IH]; intros d c E m Hs Hc Hb Hp Hj Hf Hmax Hcode; [lia|].
  cbn [RvTrans.translator_loop].
  assert (Hassoc : forall Q, emits ((insn_start d ≫= translate_insn) ≫= (fun d =>
    if bool_decide (is_jmp d = Next) then
      if max_insns d <=? num_insns d then mret (set_is_jmp TooMany d) else translator_loop fuel d
    else mret d)) c Q -> emits (insn_start d ≫= (fun d => translate_insn d ≫= (fun d =>
    if bool_decide (is_jmp d = Next) then
      if max_insns d <=? num_insns d then mret (set_is_jmp TooMany d) else translator_loop fuel d
    else mret d))) c Q).
  { intros Q (a & c' & l & Em & Hrest). exists a, c', l. by rewrite bind_assoc. }
  apply Hassoc, emits_bind. clear Hassoc.
  eapply emits_mono; [by eapply (translate_insn_emits fuel)|].
  intros d1 c1 l1 Hx1 (Ht1 & (E1 & m1 & Hc1 & Hb1) & Hs1 & Hn1 & Hcd1).
  destruct (bool_decide_reflect (is_jmp d1 = Next)) as [Hj1|Hj1];
    [destruct (Z.leb_spec (max_insns d1) (num_insns d1)) as [Hle|Hgt]|].
  - apply emits_ret. rewrite app_nil_r. split_and!; [|by eauto|by apply same_set_is_jmp].
    by rewrite bool_decide_eq_false_2 in * by (cbn; congruence).
  - destruct Hcd1 as [Hcd1 Hr1]; [congruence|]. rewrite (same_max _ _ Hs1) in Hgt.
    rewrite bool_decide_eq_false_2 in Ht1 by congruence.
    eapply emits_mono; [eapply (IH d1 c1 E1 m1); (done || lia)|].
    intros d2 c2 l2 Hx2 (Ht2 & Hex & Hs2). split_and!; [|done|done]. by eapply tidy_so_far_app.
  - apply emits_ret. rewrite app_nil_r. split_and!; [done|by eauto|done].
Qed.

Lemma tb_stop_frags d : layout d -> frags (tb_stop d).
Proof.
  intros Hl E n Hbase. pose proof (lay_pc _ Hl) as Hpc. pose proof (base_n E n Hbase).
  unfold tb_stop. destruct (is_jmp d); build; cbn [app]; intros ts Ht; repeat frag_step.
Qed.

Lemma tb_stop_nothing d c : is_jmp d = NoReturn -> tb_stop d c = Some (tt, c).
Proof. unfold tb_stop. by intros ->. Qed.

(** The ops of a block are tidy. *)
Lemma translate_block_tidy c size c' :
  ready d0 -> fresh_context c -> code_ok (Z.to_nat (Z.max 1 (max_insns d0))) (pc_next d0) ->
  translate_block d0 c = Some (size, c') -> well_typed c' = true ->
  tidy (Context.temps c') [] false (Context.ops c').
Proof.
  intros [Hl Hj Hn Hp] Hf Hcode Et Hw. destruct (fresh_static c Hf) as (E & n & Hs & Hb).
  assert (Hsame : same d0) by by split.
  destruct (translator_loop_tidy (Z.to_nat (Z.max 1 (max_insns d0))) d0 c E n)
    as (d & c1 & l & El & Hx & Ht & (E1 & n1 & Hs1 & Hb1) & Hsd); try (done || lia).
  unfold RvTrans.translate_block, mbind, ir_bind in Et. rewrite El in Et.
  assert (Hend : exists l2, extends c1 c' l2 /\ tidy_so_far (count c) true c' (l ++ l2)).
  { destruct (bool_decide_reflect (is_jmp d = NoReturn)) as [Hd|Hd].
    - rewrite tb_stop_nothing in Et by done. injection Et as _ <-. exists [].
      rewrite app_nil_r. split; [|done]. split; [by rewrite app_nil_r|done|done].
    - destruct (spec_emits _ _ _ _ c1 (tb_stop_frags d (same_layout _ _ Hsd) E1 n1 Hb1) Hs1)
        as ([] & c2 & l2 & Es & Hx2 & E2 & n2 & Hs2 & _ & Hn2 & Hfr).
      rewrite Es in Et. injection Et as _ <-. exists l2. split; [done|].
      eapply tidy_so_far_app; [done| |done]. apply insn_tidy_so_far; [|split|done].
      + intros ts Hpre. left. unfold count. rewrite (st_len _ _ _ Hs1), (st_len _ _ _ Hs2).
        apply Hfr. by eapply typed_prefix.
      + unfold count. rewrite (st_len _ _ _ Hs1). apply (base_n _ _ Hb1).
      + unfold count. by rewrite (st_len _ _ _ Hs1), (st_len _ _ _ Hs2). }
  destruct Hend as (l2 & Hx2 & Htidy).
  assert (Ho : Context.ops c' = l ++ l2).
  { rewrite (ex_ops _ _ _ Hx2), (ex_ops _ _ _ Hx), (fr_ops _ Hf). done. }
  rewrite Ho. rewrite <- (app_nil_r (l ++ l2)). apply Htidy; try done.
  - apply well_typed_inv in Hw as [Hw _]. rewrite Ho in Hw. apply Forall_forall. intros op Hop.
    apply wt_dst_var, Hw. by apply list_elem_of_In.
  - intros s Hs'. by apply not_elem_of_nil in Hs'.
Qed.

Lemma code_ok_decodable n pc :
  code_ok n pc -> decodable decode32 decode16 fetch16 fetch32 d0 n pc.
Proof.
  revert pc. induction n as [|n IH]; intros pc; [done|]. cbn [RvBlock.code_ok decodable].
  destruct (insn_at pc) as [[|i|] len]; [done| |done]. intros [Hi Hn]. split; [done|].
  intros He Hb. apply IH. by apply Hn.
Qed.

(** The exit of a block is the same in the optimized one. *)
Lemma last_start_same l l' : Forall2 same_flow l l' -> last_start l = last_start l'.
Proof.
  induction 1 as [|op op' l l' [H1 H2] _ IH]; [done|]. cbn [last_start]. rewrite IH.
  destruct (last_start l'); [done|]. unfold start_of.
  destruct (decide (Op.opc op = InsnStart)) as [Ho|Hne]; [by rewrite H2 by by rewrite Ho|].
  destruct (decide (Op.opc op' = InsnStart)) as [Ho'|Hne']; [by rewrite H1 by by rewrite Ho'|].
  by destruct (Op.opc op), (Op.opc op').
Qed.

Lemma guest_prefix ts ts' σ x :
  ts `prefix_of` ts' -> (nb_guest <= length ts)%nat -> guest ts σ x <-> guest ts' σ x.
Proof.
  intros Hp Hl. unfold nb_guest in Hl.
  assert (Hread : forall t, (t < 37)%N -> read ts σ t = read ts' σ t) by (intros; apply read_prefix; [done|lia]).
  split; intros [Hr Hg]; (split; intros; [|rewrite Hread in * || rewrite <- Hread; auto]).
  - rewrite <- Hread; auto. unfold reg_temp. lia.
  - rewrite Hread; auto. unfold reg_temp. lia.
Qed.

Lemma store_ok_shorter ts ts' σ : ts `prefix_of` ts' -> store_ok ts' σ -> store_ok ts σ.
Proof.
  intros Hp Hs i x Hx. pose proof (lookup_lt_Some _ _ _ Hx). rewrite (read_prefix ts ts') by (done || lia).
  apply Hs. by eapply prefix_lookup_Some.
Qed.

Local Notation block_end := (block_end mem_load mem_store decode32 decode16 fetch16 fetch32 d0).

Lemma block_end_optimized pc x w k c c' j σ' w' :
  grows c c' -> (nb_guest <= length (Context.temps c))%nat ->
  Forall2 same_flow (Context.ops c) (Context.ops c') ->
  block_end pc x w k (Context.temps c) (Context.ops c) j σ' w' ->
  block_end pc x w k (Context.temps c') (Context.ops c') j σ' w'.
Proof.
  intros Hg Hl Hf (op & Hop & Hend). pose proof (gr_temps _ _ Hg) as Hp.
  destruct (Forall2_lookup_l _ _ _ _ _ Hf Hop) as (op' & Hop' & [_ Hsame]).
  assert (Hpc : read (Context.temps c') σ' 33 = read (Context.temps c) σ' 33)
    by (symmetry; apply read_prefix; [done|unfold nb_guest in Hl; lia]).
  assert (Hlast : last_start (take j (Context.ops c')) = last_start (take j (Context.ops c)))
    by (symmetry; apply last_start_same; by apply Forall2_take).
  assert (Hgo : goto_op op -> op' = op) by (intros (? & _ & [[Ho _]|[Ho _]]); apply Hsame; by rewrite Ho).
  assert (Hex : forall code, exit_op code op -> op' = op) by (intros ? [Ho _]; apply Hsame; by rewrite Ho).
  assert (Hme : mem_op op -> op' = op) by (intros [Ho|Ho]; apply Hsame; by rewrite Ho).
  pose proof (fun y => proj1 (guest_prefix _ _ σ' y Hp Hl)) as Hgy.
  exists op'. split; [done|]. rewrite Hpc, Hlast.
  destruct Hend as [(H1 & H2 & H3 & H4 & H5)|(o & Ho & Hend)].
  - left. rewrite (Hgo H5). auto.
  - right. exists o. split; [done|]. destruct o; [done|..].
    + destruct Hend as (H1 & H2 & H3 & H4). rewrite (Hgo H4). auto.
    + destruct Hend as (H1 & H2 & H3 & H4). rewrite (Hex _ H4). auto.
    + destruct Hend as (H1 & H2 & H3 & H4). rewrite (Hme H3). auto.
Qed.

(** Translated, then optimized. *)
Lemma translate_optimize_run c :
  ready d0 -> fresh_context c -> well_typed c = true ->
  code_ok (Z.to_nat (Z.max 1 (max_insns d0))) (pc_next d0) ->
  exists size c1 c2, translate_block d0 c = Some (size, c1) /\ optimize c1 = Some c2 /\
  Context.wf c2 /\ Context.nb_globals c2 = Context.nb_globals c /\
  Context.temps c `prefix_of` Context.temps c2 /\
  forall σ w x, store_ok (Context.temps c2) σ -> guest (Context.temps c2) σ x ->
    exists k pc' x' w1 steps j σ' w',
      path mem_load mem_store decode32 decode16 fetch16 fetch32 d0 k (pc_next d0) x w pc' x' w1 /\
      IrSem.run (host_ext mem_load mem_store) (host_call helper_at) chained c2 steps (Running 0 σ w)
        = Some (Left j σ' w') /\
      block_end pc' x' w1 k (Context.temps c2) (Context.ops c2) j σ' w'.
Proof.
  intros Hr Hf Hw Hcode. destruct (fresh_static c Hf) as (E & n & Hs & Hb).
  destruct (translate_block_gives addr_of MSTATUS_OFFSET decode32 decode16 decode_xthead fetch16 fetch32
    d0 no_vendor E n Hr Hb (code_ok_decodable _ _ Hcode) c Hs Hw)
    as (size & c1 & E1 & n1 & Et & Hs1 & Hw1 & _ & Hn1 & _).
  destruct (optimize_ok c1 (st_wf _ _ _ Hs1) Hw1) as (c2 & info & Eo & Hok & Hg & Hflow).
  destruct (translate_block_run mem_load mem_store helper_at chained addr_of MSTATUS_OFFSET decode32 decode16
    decode_xthead fetch16 fetch32 d0 helpers_linked no_vendor c Hr Hf Hcode) as (size' & c1' & Et' & Hrun).
  rewrite Et in Et'. injection Et' as <- <-. pose proof (gr_temps _ _ Hg) as Hp.
  assert (Hl : (nb_guest <= length (Context.temps c1))%nat).
  { pose proof (base_n _ _ Hb). pose proof (st_len _ _ _ Hs1). unfold nb_guest. lia. }
  destruct (translate_block_spec mem_load mem_store helper_at chained addr_of MSTATUS_OFFSET decode32
    decode16 decode_xthead fetch16 fetch32 d0 helpers_linked no_vendor E n Hr Hb Hcode c Hs)
    as (? & ? & l & ? & ? & Et' & [_ Hpre Hnb] & _). rewrite Et in Et'. injection Et' as <- <-.
  exists size, c1, c2. split; [done|]. split; [done|]. split; [by apply Hok|].
  split; [by rewrite (gr_nb _ _ Hg)|]. split; [by etrans|]. intros σ w x Hst Hx.
  destruct (Hrun σ w x) as (k & pc' & x' & w1 & steps & j & σ' & w' & Hpath & Hr1 & Hend).
  { by apply (guest_prefix _ (Context.temps c2)). }
  exists k, pc', x', w1, steps, j, σ', w'. split; [done|]. split; [|by eapply block_end_optimized].
  eapply (optimize_run _ _ _ true c1 c2); [|by apply Hs1|done| |done| |done].
  - intros _ cs ins gs w0 outs gs' w0'. unfold host_call.
    destruct cs as [|lo [|hi [|? ?]]]; try done. destruct (helper_at _) as [f|]; [|done].
    cbn. destruct (f ins); [|done]. by intros [= _ <- _].
  - apply tidy_audit; [by apply Hs1|done|]. by eapply translate_block_tidy.
  - by eapply store_ok_shorter.
Qed.
End Block.
