(* ===== verification/RvDecode.v ===== *)
(** * The RISC-V decoders

    The two decoders [guest/riscv/build.rs] generates from [insn32.decode] with
    [xthead.decode] appended and from [insn16.decode], all in [guest/riscv/src/riscv]:
    the files as they are, parsed by the generator of [Decode], and the [trans_] methods
    their patterns name as constructors of [RvInsn.Insn]. *)

From Stdlib Require Import ZArith Lia Bool String Ascii.
From stdpp Require Import base tactics numbers list.
From S2P Require Import Prelude Decode RvInsn RvTrans.

Local Open Scope string_scope.
Local Open Scope Z_scope.

(** ** The files *)

Definition insn32_decode_1 : string := "#
# RISC-V RV64I Base + M Extension decode patterns.
#
# Extracted from QEMU target/riscv/insn32.decode for tcg-rs.
# Original copyright:
#   Copyright (c) 2018 Peer Adelt, peer.adelt@hni.uni-paderborn.de
#                      Bastian Koppelmann, kbastian@mail.uni-paderborn.de
#   Licensed under GPL-2.0-or-later.
#

# Fields:
%rs3       27:5
%rs2       20:5
%rs1       15:5
%rd        7:5
%sh5       20:5
%sh7       20:7
%csr       20:12
%rm        12:3

# Immediates:
%imm_i    20:s12
%imm_s    25:s7 7:5
%imm_b    31:s1 7:1 25:6 8:4     !function=ex_shift_1
%imm_j    31:s1 12:8 20:1 21:10  !function=ex_shift_1
%imm_u    12:s20                  !function=ex_shift_12

# Argument sets:
&empty
&b    imm rs2 rs1
&i    imm rs1 rd
&j    imm rd
&r    rd rs1 rs2
&r2   rd rs1
&r2_rm rd rs1 rm
&r_rm rd rs1 rs2 rm
&r4_rm rd rs1 rs2 rs3 rm
&s    imm rs1 rs2
&u    imm rd
&shift     shamt rs1 rd
&atomic    aq rl rs2 rs1 rd
&csr  csr rs1 rd

# Formats 32:
@r       .......   ..... ..... ... ..... ....... &r                %rs2 %rs1 %rd
@i       ............    ..... ... ..... ....... &i      imm=%imm_i     %rs1 %rd
@b       .......   ..... ..... ... ..... ....... &b      imm=%imm_b %rs2 %rs1
@s       .......   ..... ..... ... ..... ....... &s      imm=%imm_s %rs2 %rs1
@u       ....................      ..... ....... &u      imm=%imm_u          %rd
@j       ....................      ..... ....... &j      imm=%imm_j          %rd
@sh      ......  ...... .....  ... ..... ....... &shift  shamt=%sh7     %rs1 %rd
@csr     ............   .....  ... ..... ....... &csr    %csr     %rs1 %rd

# Formats 64:
@sh5     .......  ..... .....  ... ..... ....... &shift  shamt=%sh5      %rs1 %rd

# Formats atomic:
@atom_ld ..... aq:1 rl:1 ..... ........ ..... ....... &atomic rs2=0     %rs1 %rd
@atom_st ..... aq:1 rl:1 ..... ........ ..... ....... &atomic %rs2      %rs1 %rd

@r4_rm   ..... ..  ..... ..... ... ..... ....... &r4_rm  %rs3 %rs2 %rs1 %rm %rd
@r_rm    .......   ..... ..... ... ..... ....... &r_rm   %rs2 %rs1 %rm %rd
@r2_rm   .......   ..... ..... ... ..... ....... &r2_rm  %rs1 %rm %rd
@r2      .......   ..... ..... ... ..... ....... &r2     %rs1 %rd

# *** Privileged Instructions ***
ecall       000000000000     00000 000 00000 1110011
ebreak      000000000001     00000 000 00000 1110011
sret        000100000010     00000 000 00000 1110011
mret        001100000010     00000 000 00000 1110011
wfi         000100000101     00000 000 00000 1110011
sfence_vma  0001001  ..... ..... 000 00000 1110011 @r
sinval_vma  0001011  ..... ..... 000 00000 1110011 @r
csrrw       ............     ..... 001 ..... 1110011 @csr
csrrs       ............     ..... 010 ..... 1110011 @csr
csrrc       ............     ..... 011 ..... 1110011 @csr
csrrwi      ............     ..... 101 ..... 1110011 @csr
csrrsi      ............     ..... 110 ..... 1110011 @csr
csrrci      ............     ..... 111 ..... 1110011 @csr

# *** RV32I Base Instruction Set ***
lui      ....................       ..... 0110111 @u
auipc    ....................       ..... 0010111 @u
jal      ....................       ..... 1101111 @j
jalr     ............     ..... 000 ..... 1100111 @i
beq      ....... .....    ..... 000 ..... 1100011 @b
bne      ....... .....    ..... 001 ..... 1100011 @b
blt      ....... .....    ..... 100 ..... 1100011 @b
bge      ....... .....    ..... 101 ..... 1100011 @b
bltu     ....... .....    ..... 110 ..... 1100011 @b
bgeu     ....... .....    ..... 111 ..... 1100011 @b
lb       ............     ..... 000 ..... 0000011 @i
lh       ............     ..... 001 ..... 0000011 @i
lw       ............     ..... 010 ..... 0000011 @i
lbu      ............     ..... 100 ..... 0000011 @i
lhu      ............     ..... 101 ..... 0000011 @i
sb       .......  .....   ..... 000 ..... 0100011 @s
sh       .......  .....   ..... 001 ..... 0100011 @s
sw       .......  .....   ..... 010 ..... 0100011 @s
addi     ............     ..... 000 ..... 0010011 @i
slti     ............     ..... 010 ..... 0010011 @i
sltiu    ............     ..... 011 ..... 0010011 @i
xori     ............     ..... 100 ..... 0010011 @i
ori      ............     ..... 110 ..... 0010011 @i
andi     ............     ..... 111 ..... 0010011 @i
slli     00000. ......    ..... 001 ..... 0010011 @sh
srli     00000. ......    ..... 101 ..... 0010011 @sh
srai     01000. ......    ..... 101 ..... 0010011 @sh
add      0000000 .....    ..... 000 ..... 0110011 @r
sub      0100000 .....    ..... 000 ..... 0110011 @r
sll      0000000 .....    ..... 001 ..... 0110011 @r
slt      0000000 .....    ..... 010 ..... 0110011 @r
sltu     0000000 .....    ..... 011 ..... 0110011 @r
xor      0000000 .....    ..... 100 ..... 0110011 @r
srl      0000000 .....    ..... 101 ..... 0110011 @r
sra      0100000 .....    ..... 101 ..... 0110011 @r
or       0000000 .....    ..... 110 ..... 0110011 @r
and      0000000 .....    ..... 111 ..... 0110011 @r
fence    ---- pred:4 succ:4 ----- 000 ----- 0001111
fence_i  0000 0000 0000 00000 001 00000 0001111

# *** RV64I Base Instruction Set ***
".

Definition insn32_decode_2 : string := "lwu      ............   ..... 110 ..... 0000011 @i
ld       ............   ..... 011 ..... 0000011 @i
sd       ....... .....  ..... 011 ..... 0100011 @s
addiw    ............   ..... 000 ..... 0011011 @i
slliw    0000000 .....  ..... 001 ..... 0011011 @sh5
srliw    0000000 .....  ..... 101 ..... 0011011 @sh5
sraiw    0100000 .....  ..... 101 ..... 0011011 @sh5
addw     0000000 .....  ..... 000 ..... 0111011 @r
subw     0100000 .....  ..... 000 ..... 0111011 @r
sllw     0000000 .....  ..... 001 ..... 0111011 @r
srlw     0000000 .....  ..... 101 ..... 0111011 @r
sraw     0100000 .....  ..... 101 ..... 0111011 @r

# *** RV32M Standard Extension ***
mul      0000001 .....  ..... 000 ..... 0110011 @r
mulh     0000001 .....  ..... 001 ..... 0110011 @r
mulhsu   0000001 .....  ..... 010 ..... 0110011 @r
mulhu    0000001 .....  ..... 011 ..... 0110011 @r
div      0000001 .....  ..... 100 ..... 0110011 @r
divu     0000001 .....  ..... 101 ..... 0110011 @r
rem      0000001 .....  ..... 110 ..... 0110011 @r
remu     0000001 .....  ..... 111 ..... 0110011 @r

# *** RV64M Standard Extension ***
mulw     0000001 .....  ..... 000 ..... 0111011 @r
divw     0000001 .....  ..... 100 ..... 0111011 @r
divuw    0000001 .....  ..... 101 ..... 0111011 @r
remw     0000001 .....  ..... 110 ..... 0111011 @r
remuw    0000001 .....  ..... 111 ..... 0111011 @r

# *** RV32F Standard Extension ***
flw        ............   ..... 010 ..... 0000111 @i
fsw        .......  ..... ..... 010 ..... 0100111 @s
fmadd_s    ..... 00 ..... ..... ... ..... 1000011 @r4_rm
fmsub_s    ..... 00 ..... ..... ... ..... 1000111 @r4_rm
fnmsub_s   ..... 00 ..... ..... ... ..... 1001011 @r4_rm
fnmadd_s   ..... 00 ..... ..... ... ..... 1001111 @r4_rm
fadd_s     0000000  ..... ..... ... ..... 1010011 @r_rm
fsub_s     0000100  ..... ..... ... ..... 1010011 @r_rm
fmul_s     0001000  ..... ..... ... ..... 1010011 @r_rm
fdiv_s     0001100  ..... ..... ... ..... 1010011 @r_rm
fsqrt_s    0101100  00000 ..... ... ..... 1010011 @r2_rm
fsgnj_s    0010000  ..... ..... 000 ..... 1010011 @r
fsgnjn_s   0010000  ..... ..... 001 ..... 1010011 @r
fsgnjx_s   0010000  ..... ..... 010 ..... 1010011 @r
fmin_s     0010100  ..... ..... 000 ..... 1010011 @r
fmax_s     0010100  ..... ..... 001 ..... 1010011 @r
fcvt_w_s   1100000  00000 ..... ... ..... 1010011 @r2_rm
fcvt_wu_s  1100000  00001 ..... ... ..... 1010011 @r2_rm
fmv_x_w    1110000  00000 ..... 000 ..... 1010011 @r2
feq_s      1010000  ..... ..... 010 ..... 1010011 @r
flt_s      1010000  ..... ..... 001 ..... 1010011 @r
fle_s      1010000  ..... ..... 000 ..... 1010011 @r
fclass_s   1110000  00000 ..... 001 ..... 1010011 @r2
fcvt_s_w   1101000  00000 ..... ... ..... 1010011 @r2_rm
fcvt_s_wu  1101000  00001 ..... ... ..... 1010011 @r2_rm
fmv_w_x    1111000  00000 ..... 000 ..... 1010011 @r2

# *** RV64F Standard Extension (in addition to RV32F) ***
fcvt_l_s   1100000  00010 ..... ... ..... 1010011 @r2_rm
fcvt_lu_s  1100000  00011 ..... ... ..... 1010011 @r2_rm
fcvt_s_l   1101000  00010 ..... ... ..... 1010011 @r2_rm
fcvt_s_lu  1101000  00011 ..... ... ..... 1010011 @r2_rm

# *** RV32D Standard Extension ***
fld        ............   ..... 011 ..... 0000111 @i
fsd        ....... .....  ..... 011 ..... 0100111 @s
fmadd_d    ..... 01 ..... ..... ... ..... 1000011 @r4_rm
fmsub_d    ..... 01 ..... ..... ... ..... 1000111 @r4_rm
fnmsub_d   ..... 01 ..... ..... ... ..... 1001011 @r4_rm
fnmadd_d   ..... 01 ..... ..... ... ..... 1001111 @r4_rm
fadd_d     0000001  ..... ..... ... ..... 1010011 @r_rm
fsub_d     0000101  ..... ..... ... ..... 1010011 @r_rm
fmul_d     0001001  ..... ..... ... ..... 1010011 @r_rm
fdiv_d     0001101  ..... ..... ... ..... 1010011 @r_rm
fsqrt_d    0101101  00000 ..... ... ..... 1010011 @r2_rm
fsgnj_d    0010001  ..... ..... 000 ..... 1010011 @r
fsgnjn_d   0010001  ..... ..... 001 ..... 1010011 @r
fsgnjx_d   0010001  ..... ..... 010 ..... 1010011 @r
fmin_d     0010101  ..... ..... 000 ..... 1010011 @r
fmax_d     0010101  ..... ..... 001 ..... 1010011 @r
fcvt_s_d   0100000  00001 ..... ... ..... 1010011 @r2_rm
fcvt_d_s   0100001  00000 ..... ... ..... 1010011 @r2_rm
feq_d      1010001  ..... ..... 010 ..... 1010011 @r
flt_d      1010001  ..... ..... 001 ..... 1010011 @r
fle_d      1010001  ..... ..... 000 ..... 1010011 @r
fclass_d   1110001  00000 ..... 001 ..... 1010011 @r2
fcvt_w_d   1100001  00000 ..... ... ..... 1010011 @r2_rm
fcvt_wu_d  1100001  00001 ..... ... ..... 1010011 @r2_rm
fcvt_d_w   1101001  00000 ..... ... ..... 1010011 @r2_rm
fcvt_d_wu  1101001  00001 ..... ... ..... 1010011 @r2_rm

# *** RV64D Standard Extension (in addition to RV32D) ***
fcvt_l_d   1100001  00010 ..... ... ..... 1010011 @r2_rm
fcvt_lu_d  1100001  00011 ..... ... ..... 1010011 @r2_rm
fmv_x_d    1110001  00000 ..... 000 ..... 1010011 @r2
fcvt_d_l   1101001  00010 ..... ... ..... 1010011 @r2_rm
fcvt_d_lu  1101001  00011 ..... ... ..... 1010011 @r2_rm
fmv_d_x    1111001  00000 ..... 000 ..... 1010011 @r2

# *** RV32A Standard Extension ***
lr_w       00010 . . 00000 ..... 010 ..... 0101111 @atom_ld
sc_w       00011 . . ..... ..... 010 ..... 0101111 @atom_st
amoswap_w  00001 . . ..... ..... 010 ..... 0101111 @atom_st
amoadd_w   00000 . . ..... ..... 010 ..... 0101111 @atom_st
amoxor_w   00100 . . ..... ..... 010 ..... 0101111 @atom_st
amoand_w   01100 . . ..... ..... 010 ..... 0101111 @atom_st
amoor_w    01000 . . ..... ..... 010 ..... 0101111 @atom_st
amomin_w   10000 . . ..... ..... 010 ..... 0101111 @atom_st
amomax_w   10100 . . ..... ..... 010 ..... 0101111 @atom_st
amominu_w  11000 . . ..... ..... 010 ..... 0101111 @atom_st
amomaxu_w  11100 . . ..... ..... 010 ..... 0101111 @atom_st

# *** Zba — Address Computation ***
sh1add    0010000 .....  ..... 010 ..... 0110011 @r
sh2add    0010000 .....  ..... 100 ..... 0110011 @r
sh3add    0010000 .....  ..... 110 ..... 0110011 @r
sh1add_uw 0010000 .....  ..... 010 ..... 0111011 @r
sh2add_uw 0010000 .....  ..... 100 ..... 0111011 @r
sh3add_uw 0010000 .....  ..... 110 ..... 0111011 @r
add_uw    0000100 .....  ..... 000 ..... 0111011 @r
slli_uw   00001. ......  ..... 001 ..... 0011011 @sh
".

Definition insn32_decode_3 : string := "
# *** Zbb — Basic Bit Manipulation ***
# Logical with NOT (R-type, OP)
andn     0100000 .....  ..... 111 ..... 0110011 @r
orn      0100000 .....  ..... 110 ..... 0110011 @r
xnor     0100000 .....  ..... 100 ..... 0110011 @r

# Min/Max (R-type, OP)
max      0000101 .....  ..... 110 ..... 0110011 @r
maxu     0000101 .....  ..... 111 ..... 0110011 @r
min      0000101 .....  ..... 100 ..... 0110011 @r
minu     0000101 .....  ..... 101 ..... 0110011 @r

# Rotate (R-type)
rol      0110000 .....  ..... 001 ..... 0110011 @r
ror      0110000 .....  ..... 101 ..... 0110011 @r
rolw     0110000 .....  ..... 001 ..... 0111011 @r
rorw     0110000 .....  ..... 101 ..... 0111011 @r

# Rotate immediate
rori     01100. ......  ..... 101 ..... 0010011 @sh
roriw    0110000 .....  ..... 101 ..... 0011011 @sh5

# Count / sign-extend (unary, OP-IMM)
clz      0110000 00000  ..... 001 ..... 0010011 @r2
ctz      0110000 00001  ..... 001 ..... 0010011 @r2
cpop     0110000 00010  ..... 001 ..... 0010011 @r2
sext_b   0110000 00100  ..... 001 ..... 0010011 @r2
sext_h   0110000 00101  ..... 001 ..... 0010011 @r2

# Count W-suffix (OP-IMM-32)
clzw     0110000 00000  ..... 001 ..... 0011011 @r2
ctzw     0110000 00001  ..... 001 ..... 0011011 @r2
cpopw    0110000 00010  ..... 001 ..... 0011011 @r2

# zext.h (R-type, OP-32)
zext_h   0000100 00000  ..... 100 ..... 0111011 @r2

# Byte-reverse / OR-combine
rev8     011010 111000  ..... 101 ..... 0010011 @r2
orc_b    001010 000111  ..... 101 ..... 0010011 @r2

# *** Zbc — Carry-less Multiplication ***
clmul    0000101 .....  ..... 001 ..... 0110011 @r
clmulh   0000101 .....  ..... 011 ..... 0110011 @r
clmulr   0000101 .....  ..... 010 ..... 0110011 @r

# *** Zbs — Single-Bit Operations ***
bclr     0100100 .....  ..... 001 ..... 0110011 @r
bext     0100100 .....  ..... 101 ..... 0110011 @r
binv     0110100 .....  ..... 001 ..... 0110011 @r
bset     0010100 .....  ..... 001 ..... 0110011 @r
bclri    01001. ......  ..... 001 ..... 0010011 @sh
bexti    01001. ......  ..... 101 ..... 0010011 @sh
binvi    01101. ......  ..... 001 ..... 0010011 @sh
bseti    00101. ......  ..... 001 ..... 0010011 @sh

# *** Zbkb — Crypto Bit Manipulation (RV64 subset) ***
brev8    0110100 00111  ..... 101 ..... 0010011 @r2
pack     0000100 .....  ..... 100 ..... 0110011 @r
packh    0000100 .....  ..... 111 ..... 0110011 @r
packw    0000100 .....  ..... 100 ..... 0111011 @r

# *** Zbkx — Crypto Crossbar Permutation ***
xperm4   0010100 .....  ..... 010 ..... 0110011 @r
xperm8   0010100 .....  ..... 100 ..... 0110011 @r

# *** Zfh — Half-Precision Floating-Point ***
flh        ............   ..... 001 ..... 0000111 @i
fsh        .......  ..... ..... 001 ..... 0100111 @s
fmadd_h    ..... 10 ..... ..... ... ..... 1000011 @r4_rm
fmsub_h    ..... 10 ..... ..... ... ..... 1000111 @r4_rm
fnmsub_h   ..... 10 ..... ..... ... ..... 1001011 @r4_rm
fnmadd_h   ..... 10 ..... ..... ... ..... 1001111 @r4_rm
fadd_h     0000010  ..... ..... ... ..... 1010011 @r_rm
fsub_h     0000110  ..... ..... ... ..... 1010011 @r_rm
fmul_h     0001010  ..... ..... ... ..... 1010011 @r_rm
fdiv_h     0001110  ..... ..... ... ..... 1010011 @r_rm
fsqrt_h    0101110  00000 ..... ... ..... 1010011 @r2_rm
fsgnj_h    0010010  ..... ..... 000 ..... 1010011 @r
fsgnjn_h   0010010  ..... ..... 001 ..... 1010011 @r
fsgnjx_h   0010010  ..... ..... 010 ..... 1010011 @r
fmin_h     0010110  ..... ..... 000 ..... 1010011 @r
fmax_h     0010110  ..... ..... 001 ..... 1010011 @r
fcvt_h_s   0100010  00000 ..... ... ..... 1010011 @r2_rm
fcvt_s_h   0100000  00010 ..... ... ..... 1010011 @r2_rm
fcvt_h_d   0100010  00001 ..... ... ..... 1010011 @r2_rm
fcvt_d_h   0100001  00010 ..... ... ..... 1010011 @r2_rm
fcvt_w_h   1100010  00000 ..... ... ..... 1010011 @r2_rm
fcvt_wu_h  1100010  00001 ..... ... ..... 1010011 @r2_rm
fcvt_h_w   1101010  00000 ..... ... ..... 1010011 @r2_rm
fcvt_h_wu  1101010  00001 ..... ... ..... 1010011 @r2_rm
fmv_x_h    1110010  00000 ..... 000 ..... 1010011 @r2
feq_h      1010010  ..... ..... 010 ..... 1010011 @r
flt_h      1010010  ..... ..... 001 ..... 1010011 @r
fle_h      1010010  ..... ..... 000 ..... 1010011 @r
fclass_h   1110010  00000 ..... 001 ..... 1010011 @r2
fcvt_l_h   1100010  00010 ..... ... ..... 1010011 @r2_rm
fcvt_lu_h  1100010  00011 ..... ... ..... 1010011 @r2_rm
fcvt_h_l   1101010  00010 ..... ... ..... 1010011 @r2_rm
fcvt_h_lu  1101010  00011 ..... ... ..... 1010011 @r2_rm
fmv_h_x    1111010  00000 ..... 000 ..... 1010011 @r2

# *** Zicbom / Zicboz — Cache Block Operations (NOP) ***
cbo_inval  000000000000 ..... 010 00000 0001111
cbo_clean  000000000001 ..... 010 00000 0001111
cbo_flush  000000000010 ..... 010 00000 0001111
cbo_zero   000000000100 ..... 010 00000 0001111

# *** RV64A Standard Extension ***
lr_d       00010 . . 00000 ..... 011 ..... 0101111 @atom_ld
sc_d       00011 . . ..... ..... 011 ..... 0101111 @atom_st
amoswap_d  00001 . . ..... ..... 011 ..... 0101111 @atom_st
amoadd_d   00000 . . ..... ..... 011 ..... 0101111 @atom_st
amoxor_d   00100 . . ..... ..... 011 ..... 0101111 @atom_st
amoand_d   01100 . . ..... ..... 011 ..... 0101111 @atom_st
amoor_d    01000 . . ..... ..... 011 ..... 0101111 @atom_st
amomin_d   10000 . . ..... ..... 011 ..... 0101111 @atom_st
amomax_d   10100 . . ..... ..... 011 ..... 0101111 @atom_st
amominu_d  11000 . . ..... ..... 011 ..... 0101111 @atom_st
amomaxu_d  11100 . . ..... ..... 011 ..... 0101111 @atom_st
".

Definition insn32_decode : string := insn32_decode_1 ++ insn32_decode_2 ++ insn32_decode_3.

Definition xthead_decode : string := "#
# T-HEAD XThead vendor-specific privileged instructions.
#
# These use the SYSTEM opcode (0x73) with custom funct7 values
# not defined in the standard RISC-V privileged spec.
# Formats and argument sets are shared with insn32.decode.

th_fence_spa 0001010  ..... ..... 000 00000 1110011 @r
mfence_spa   0001101  ..... ..... 000 00000 1110011 @r
minval_spa   0001110  ..... ..... 000 00000 1110011 @r
".

Definition insn16_decode : string := "#
# RISC-V RV64C Standard Extension (16-bit compressed) decode patterns.
#
# Ported from QEMU target/riscv/insn16.decode for tcg-rs.
# Original copyright:
#   Copyright (c) 2018 Peer Adelt, peer.adelt@hni.uni-paderborn.de
#                      Bastian Koppelmann, kbastian@mail.uni-paderborn.de
#   Licensed under GPL-2.0-or-later.
#
# Subset: RV64C only.  Excludes Zcb, Zcmp, Zcmt, Zclsd, Zcmops,
# RV128 (lq/sq).

# Fields:
%rd        7:5
%rs1_3     7:3                !function=ex_rvc_register
%rs2_3     2:3                !function=ex_rvc_register
%rs2_5     2:5

# Immediates:
%imm_ci        12:s1 2:5
%nzuimm_ciw    7:4 11:2 5:1 6:1   !function=ex_shift_2
%uimm_cl_d     5:2 10:3           !function=ex_shift_3
%uimm_cl_w     5:1 10:3 6:1       !function=ex_shift_2
%imm_cb        12:s1 5:2 2:1 10:2 3:2 !function=ex_shift_1
%imm_cj        12:s1 8:1 9:2 6:1 7:1 2:1 11:1 3:3 !function=ex_shift_1

%shlimm_6bit  12:1 2:5               !function=ex_rvc_shiftli
%shrimm_6bit  12:1 2:5               !function=ex_rvc_shiftri
%uimm_6bit_ld 2:3 12:1 5:2           !function=ex_shift_3
%uimm_6bit_lw 2:2 12:1 4:3           !function=ex_shift_2
%uimm_6bit_sd 7:3 10:3               !function=ex_shift_3
%uimm_6bit_sw 7:2 9:4                !function=ex_shift_2

%imm_addi16sp  12:s1 3:2 5:1 2:1 6:1 !function=ex_shift_4
%imm_lui       12:s1 2:5             !function=ex_shift_12

# Argument sets imported from insn32.decode:
&empty                  !extern
&b    imm rs2 rs1       !extern
&i    imm rs1 rd        !extern
&j    imm rd            !extern
&r    rd rs1 rs2        !extern
&s    imm rs1 rs2       !extern
&u    imm rd            !extern
&shift     shamt rs1 rd !extern

# Formats 16:
@cr        ....  ..... .....  .. &r      rs2=%rs2_5       rs1=%rd     %rd
@ci        ... . ..... .....  .. &i      imm=%imm_ci      rs1=%rd     %rd
@cl_d      ... ... ... .. ... .. &i      imm=%uimm_cl_d   rs1=%rs1_3  rd=%rs2_3
@cl_w      ... ... ... .. ... .. &i      imm=%uimm_cl_w   rs1=%rs1_3  rd=%rs2_3
@cs_2      ... ... ... .. ... .. &r      rs2=%rs2_3       rs1=%rs1_3  rd=%rs1_3
@cs_d      ... ... ... .. ... .. &s      imm=%uimm_cl_d   rs1=%rs1_3  rs2=%rs2_3
@cs_w      ... ... ... .. ... .. &s      imm=%uimm_cl_w   rs1=%rs1_3  rs2=%rs2_3
@cj        ...    ........... .. &j      imm=%imm_cj
@cb_z      ... ... ... .. ... .. &b      imm=%imm_cb      rs1=%rs1_3  rs2=0

@c_ldsp    ... . .....  ..... .. &i      imm=%uimm_6bit_ld rs1=2 %rd
@c_lwsp    ... . .....  ..... .. &i      imm=%uimm_6bit_lw rs1=2 %rd
@c_sdsp    ... . .....  ..... .. &s      imm=%uimm_6bit_sd rs1=2 rs2=%rs2_5
@c_swsp    ... . .....  ..... .. &s      imm=%uimm_6bit_sw rs1=2 rs2=%rs2_5
@c_li      ... . .....  ..... .. &i      imm=%imm_ci rs1=0 %rd
@c_lui     ... . .....  ..... .. &u      imm=%imm_lui %rd
@c_jalr    ... . .....  ..... .. &i      imm=0 rs1=%rd
@c_mv      ... . ..... .....  .. &i      imm=0 rs1=%rs2_5 %rd

@c_addi4spn     ... .  ..... ..... .. &i imm=%nzuimm_ciw rs1=2 rd=%rs2_3
@c_addi16sp     ... .  ..... ..... .. &i imm=%imm_addi16sp rs1=2 rd=2

@c_shift        ... . .. ... ..... .. \
                &shift rd=%rs1_3 rs1=%rs1_3 shamt=%shrimm_6bit
@c_shift2       ... . .. ... ..... .. \
                &shift rd=%rd rs1=%rd shamt=%shlimm_6bit

@c_andi         ... . .. ... ..... .. &i imm=%imm_ci rs1=%rs1_3 rd=%rs1_3

# *** RV32/64C Standard Extension (Quadrant 0) ***
{
  illegal         000  000 000 00 --- 00
  addi            000  ... ... .. ... 00 @c_addi4spn
}
{
  c_fld           001  ... ... .. ... 00 @cl_d
}
lw                010  ... ... .. ... 00 @cl_w
{
  ld              011  ... ... .. ... 00 @cl_d
  c_flw           011  ... ... .. ... 00 @cl_w
}
{
  c_fsd           101  ... ... .. ... 00 @cs_d
}
sw                110  ... ... .. ... 00 @cs_w
{
  sd              111  ... ... .. ... 00 @cs_d
  c_fsw           111  ... ... .. ... 00 @cs_w
}

# *** RV32/64C Standard Extension (Quadrant 1) ***
addi              000 .  .....  ..... 01 @ci
addi              010 .  .....  ..... 01 @c_li
{
  illegal         011 0  -----  00000 01
  addi            011 .  00010  ..... 01 @c_addi16sp
  lui             011 .  .....  ..... 01 @c_lui
}
srli              100 . 00 ...  ..... 01 @c_shift
srai              100 . 01 ...  ..... 01 @c_shift
andi              100 . 10 ...  ..... 01 @c_andi
sub               100 0 11 ... 00 ... 01 @cs_2
xor               100 0 11 ... 01 ... 01 @cs_2
or                100 0 11 ... 10 ... 01 @cs_2
and               100 0 11 ... 11 ... 01 @cs_2
jal               101     ........... 01 @cj    rd=0
beq               110  ... ...  ..... 01 @cb_z
bne               111  ... ...  ..... 01 @cb_z

# *** RV64C specific (Quadrant 1) ***
{
  c64_illegal     001 -  00000  ----- 01
  addiw           001 .  .....  ..... 01 @ci
}
subw              100 1 11 ... 00 ... 01 @cs_2
addw              100 1 11 ... 01 ... 01 @cs_2

# *** RV32/64C Standard Extension (Quadrant 2) ***
slli              000 .  .....  ..... 10 @c_shift2
{
  c_fld           001 .  .....  ..... 10 @c_ldsp
}
{
  illegal         010 -  00000  ----- 10
  lw              010 .  .....  ..... 10 @c_lwsp
}
{
  illegal         100 0  00000  00000 10
  jalr            100 0  .....  00000 10 @c_jalr rd=0
  addi            100 0  .....  ..... 10 @c_mv
}
{
  ebreak          100 1  00000  00000 10
  jalr            100 1  .....  00000 10 @c_jalr rd=1
  add             100 1  .....  ..... 10 @cr
}
sw                110 .  .....  ..... 10 @c_swsp
{
  c_fsd           101   ......  ..... 10 @c_sdsp
}

# *** RV64C specific (Quadrant 2) ***
{
  c64_illegal     011 -  00000  ----- 10
  ld              011 .  .....  ..... 10 @c_ldsp
}
sd                111 .  .....  ..... 10 @c_sdsp
".

(** [build.rs]: [format!("{input32}\n{xthead}")]. *)
Definition combined32 : string := insn32_decode ++ String Text.newline xthead_decode.

Definition no_patterns : Parsed := mk_Parsed [] [] [].

Definition generated (input : string) (width : Z) : Parsed :=
  match parse_with_width input width with Ok p => p | Err _ => no_patterns end.

Definition parsed32 : Parsed := Eval vm_compute in generated combined32 32.
Definition parsed16 : Parsed := Eval vm_compute in generated insn16_decode 16.

(** ** The [trans_] methods *)

Definition field (k : string) (l : list (string * Z)) : Z := default 0 (BTreeMap.get k l).

Definition argsB (l : list (string * Z)) : ArgsB.t :=
  ArgsB.mk (field "imm" l) (field "rs2" l) (field "rs1" l).
Definition argsI (l : list (string * Z)) : ArgsI.t :=
  ArgsI.mk (field "imm" l) (field "rs1" l) (field "rd" l).
Definition argsJ (l : list (string * Z)) : ArgsJ.t := ArgsJ.mk (field "imm" l) (field "rd" l).
Definition argsR (l : list (string * Z)) : ArgsR.t :=
  ArgsR.mk (field "rd" l) (field "rs1" l) (field "rs2" l).
Definition argsR2 (l : list (string * Z)) : ArgsR2.t := ArgsR2.mk (field "rd" l) (field "rs1" l).
Definition argsS (l : list (string * Z)) : ArgsS.t :=
  ArgsS.mk (field "imm" l) (field "rs1" l) (field "rs2" l).
Definition argsU (l : list (string * Z)) : ArgsU.t := ArgsU.mk (field "imm" l) (field "rd" l).
Definition argsShift (l : list (string * Z)) : ArgsShift.t :=
  ArgsShift.mk (field "shamt" l) (field "rs1" l) (field "rd" l).
Definition argsAtomic (l : list (string * Z)) : ArgsAtomic.t :=
  ArgsAtomic.mk (field "aq" l) (field "rl" l) (field "rs2" l) (field "rs1" l) (field "rd" l).
Definition argsCsr (l : list (string * Z)) : ArgsCsr.t :=
  ArgsCsr.mk (field "csr" l) (field "rs1" l) (field "rd" l).

Definition Methods : Type := list (string * (list (string * Z) -> Insn)).

Definition methods_rv32i : Methods := [
  ("lui", fun l => Rv32i_insn (LUI (argsU l)));
  ("auipc", fun l => Rv32i_insn (AUIPC (argsU l)));
  ("jal", fun l => Rv32i_insn (JAL (argsJ l)));
  ("jalr", fun l => Rv32i_insn (JALR (argsI l)));
  ("beq", fun l => Rv32i_insn (BEQ (argsB l)));
  ("bne", fun l => Rv32i_insn (BNE (argsB l)));
  ("blt", fun l => Rv32i_insn (BLT (argsB l)));
  ("bge", fun l => Rv32i_insn (BGE (argsB l)));
  ("bltu", fun l => Rv32i_insn (BLTU (argsB l)));
  ("bgeu", fun l => Rv32i_insn (BGEU (argsB l)));
  ("lb", fun l => Rv32i_insn (LB (argsI l)));
  ("lh", fun l => Rv32i_insn (LH (argsI l)));
  ("lw", fun l => Rv32i_insn (LW (argsI l)));
  ("lbu", fun l => Rv32i_insn (LBU (argsI l)));
  ("lhu", fun l => Rv32i_insn (LHU (argsI l)));
  ("sb", fun l => Rv32i_insn (SB (argsS l)));
  ("sh", fun l => Rv32i_insn (SH (argsS l)));
  ("sw", fun l => Rv32i_insn (SW (argsS l)));
  ("addi", fun l => Rv32i_insn (ADDI (argsI l)));
  ("slti", fun l => Rv32i_insn (SLTI (argsI l)));
  ("sltiu", fun l => Rv32i_insn (SLTIU (argsI l)));
  ("xori", fun l => Rv32i_insn (XORI (argsI l)));
  ("ori", fun l => Rv32i_insn (ORI (argsI l)));
  ("andi", fun l => Rv32i_insn (ANDI (argsI l)));
  ("slli", fun l => Rv32i_insn (SLLI (argsShift l)));
  ("srli", fun l => Rv32i_insn (SRLI (argsShift l)));
  ("srai", fun l => Rv32i_insn (SRAI (argsShift l)));
  ("add", fun l => Rv32i_insn (ADD (argsR l)));
  ("sub", fun l => Rv32i_insn (SUB (argsR l)));
  ("sll", fun l => Rv32i_insn (SLL (argsR l)));
  ("slt", fun l => Rv32i_insn (SLT (argsR l)));
  ("sltu", fun l => Rv32i_insn (SLTU (argsR l)));
  ("xor", fun l => Rv32i_insn (XOR (argsR l)));
  ("srl", fun l => Rv32i_insn (SRL (argsR l)));
  ("sra", fun l => Rv32i_insn (SRA (argsR l)));
  ("or", fun l => Rv32i_insn (OR (argsR l)));
  ("and", fun l => Rv32i_insn (AND (argsR l)));
  ("fence", fun _ => Rv32i_insn FENCE);
  ("fence_i", fun _ => Rv32i_insn FENCE_I)].

Definition methods_rv64i : Methods := [
  ("lwu", fun l => Rv64i_insn (LWU (argsI l)));
  ("ld", fun l => Rv64i_insn (LD (argsI l)));
  ("sd", fun l => Rv64i_insn (SD (argsS l)));
  ("addiw", fun l => Rv64i_insn (ADDIW (argsI l)));
  ("slliw", fun l => Rv64i_insn (SLLIW (argsShift l)));
  ("srliw", fun l => Rv64i_insn (SRLIW (argsShift l)));
  ("sraiw", fun l => Rv64i_insn (SRAIW (argsShift l)));
  ("addw", fun l => Rv64i_insn (ADDW (argsR l)));
  ("subw", fun l => Rv64i_insn (SUBW (argsR l)));
  ("sllw", fun l => Rv64i_insn (SLLW (argsR l)));
  ("srlw", fun l => Rv64i_insn (SRLW (argsR l)));
  ("sraw", fun l => Rv64i_insn (SRAW (argsR l)))].

Definition methods_priv : Methods := [
  ("ecall", fun _ => Priv_insn ECALL);
  ("ebreak", fun _ => Priv_insn EBREAK);
  ("mret", fun _ => Priv_insn MRET);
  ("sret", fun _ => Priv_insn SRET);
  ("wfi", fun _ => Priv_insn WFI);
  ("sfence_vma", fun _ => Priv_insn SFENCE_VMA);
  ("sinval_vma", fun _ => Priv_insn SINVAL_VMA);
  ("th_fence_spa", fun _ => Priv_insn TH_FENCE_SPA);
  ("mfence_spa", fun _ => Priv_insn MFENCE_SPA);
  ("minval_spa", fun _ => Priv_insn MINVAL_SPA)].

Definition methods_zicsr : Methods := [
  ("csrrw", fun l => Zicsr_insn (CSRRW (argsCsr l)));
  ("csrrs", fun l => Zicsr_insn (CSRRS (argsCsr l)));
  ("csrrc", fun l => Zicsr_insn (CSRRC (argsCsr l)));
  ("csrrwi", fun l => Zicsr_insn (CSRRWI (argsCsr l)));
  ("csrrsi", fun l => Zicsr_insn (CSRRSI (argsCsr l)));
  ("csrrci", fun l => Zicsr_insn (CSRRCI (argsCsr l)))].

Definition methods_rvm : Methods := [
  ("mul", fun l => Rvm_insn (MUL (argsR l)));
  ("mulh", fun l => Rvm_insn (MULH (argsR l)));
  ("mulhsu", fun l => Rvm_insn (MULHSU (argsR l)));
  ("mulhu", fun l => Rvm_insn (MULHU (argsR l)));
  ("div", fun l => Rvm_insn (DIV (argsR l)));
  ("divu", fun l => Rvm_insn (DIVU (argsR l)));
  ("rem", fun l => Rvm_insn (REM (argsR l)));
  ("remu", fun l => Rvm_insn (REMU (argsR l)));
  ("mulw", fun l => Rvm_insn (MULW (argsR l)));
  ("divw", fun l => Rvm_insn (DIVW (argsR l)));
  ("divuw", fun l => Rvm_insn (DIVUW (argsR l)));
  ("remw", fun l => Rvm_insn (REMW (argsR l)));
  ("remuw", fun l => Rvm_insn (REMUW (argsR l)))].

Definition methods_rva : Methods := [
  ("lr_w", fun l => Rva_insn (LR_W (argsAtomic l)));
  ("sc_w", fun l => Rva_insn (SC_W (argsAtomic l)));
  ("amoswap_w", fun l => Rva_insn (AMOSWAP_W (argsAtomic l)));
  ("amoadd_w", fun l => Rva_insn (AMOADD_W (argsAtomic l)));
  ("amoxor_w", fun l => Rva_insn (AMOXOR_W (argsAtomic l)));
  ("amoand_w", fun l => Rva_insn (AMOAND_W (argsAtomic l)));
  ("amoor_w", fun l => Rva_insn (AMOOR_W (argsAtomic l)));
  ("amomin_w", fun l => Rva_insn (AMOMIN_W (argsAtomic l)));
  ("amomax_w", fun l => Rva_insn (AMOMAX_W (argsAtomic l)));
  ("amominu_w", fun l => Rva_insn (AMOMINU_W (argsAtomic l)));
  ("amomaxu_w", fun l => Rva_insn (AMOMAXU_W (argsAtomic l)));
  ("lr_d", fun l => Rva_insn (LR_D (argsAtomic l)));
  ("sc_d", fun l => Rva_insn (SC_D (argsAtomic l)));
  ("amoswap_d", fun l => Rva_insn (AMOSWAP_D (argsAtomic l)));
  ("amoadd_d", fun l => Rva_insn (AMOADD_D (argsAtomic l)));
  ("amoxor_d", fun l => Rva_insn (AMOXOR_D (argsAtomic l)));
  ("amoand_d", fun l => Rva_insn (AMOAND_D (argsAtomic l)));
  ("amoor_d", fun l => Rva_insn (AMOOR_D (argsAtomic l)));
  ("amomin_d", fun l => Rva_insn (AMOMIN_D (argsAtomic l)));
  ("amomax_d", fun l => Rva_insn (AMOMAX_D (argsAtomic l)));
  ("amominu_d", fun l => Rva_insn (AMOMINU_D (argsAtomic l)));
  ("amomaxu_d", fun l => Rva_insn (AMOMAXU_D (argsAtomic l)))].

Definition methods_zba : Methods := [
  ("sh1add", fun l => Zba_insn (SH1ADD (argsR l)));
  ("sh2add", fun l => Zba_insn (SH2ADD (argsR l)));
  ("sh3add", fun l => Zba_insn (SH3ADD (argsR l)));
  ("sh1add_uw", fun l => Zba_insn (SH1ADD_UW (argsR l)));
  ("sh2add_uw", fun l => Zba_insn (SH2ADD_UW (argsR l)));
  ("sh3add_uw", fun l => Zba_insn (SH3ADD_UW (argsR l)));
  ("add_uw", fun l => Zba_insn (ADD_UW (argsR l)));
  ("slli_uw", fun l => Zba_insn (SLLI_UW (argsShift l)))].

Definition methods_zbb : Methods := [
  ("andn", fun l => Zbb_insn (ANDN (argsR l)));
  ("orn", fun l => Zbb_insn (ORN (argsR l)));
  ("xnor", fun l => Zbb_insn (XNOR (argsR l)));
  ("max", fun l => Zbb_insn (MAX (argsR l)));
  ("maxu", fun l => Zbb_insn (MAXU (argsR l)));
  ("min", fun l => Zbb_insn (MIN (argsR l)));
  ("minu", fun l => Zbb_insn (MINU (argsR l)));
  ("rol", fun l => Zbb_insn (ROL (argsR l)));
  ("ror", fun l => Zbb_insn (ROR (argsR l)));
  ("rolw", fun l => Zbb_insn (ROLW (argsR l)));
  ("rorw", fun l => Zbb_insn (RORW (argsR l)));
  ("rori", fun l => Zbb_insn (RORI (argsShift l)));
  ("roriw", fun l => Zbb_insn (RORIW (argsShift l)));
  ("clz", fun l => Zbb_insn (CLZ (argsR2 l)));
  ("ctz", fun l => Zbb_insn (CTZ (argsR2 l)));
  ("cpop", fun l => Zbb_insn (CPOP (argsR2 l)));
  ("clzw", fun l => Zbb_insn (CLZW (argsR2 l)));
  ("ctzw", fun l => Zbb_insn (CTZW (argsR2 l)));
  ("cpopw", fun l => Zbb_insn (CPOPW (argsR2 l)));
  ("sext_b", fun l => Zbb_insn (SEXT_B (argsR2 l)));
  ("sext_h", fun l => Zbb_insn (SEXT_H (argsR2 l)));
  ("zext_h", fun l => Zbb_insn (ZEXT_H (argsR2 l)));
  ("rev8", fun l => Zbb_insn (REV8 (argsR2 l)));
  ("orc_b", fun l => Zbb_insn (ORC_B (argsR2 l)))].

Definition methods_zbc : Methods := [
  ("clmul", fun l => Zbc_insn (CLMUL (argsR l)));
  ("clmulh", fun l => Zbc_insn (CLMULH (argsR l)));
  ("clmulr", fun l => Zbc_insn (CLMULR (argsR l)))].

Definition methods_zbs : Methods := [
  ("bclr", fun l => Zbs_insn (BCLR (argsR l)));
  ("bclri", fun l => Zbs_insn (BCLRI (argsShift l)));
  ("bext", fun l => Zbs_insn (BEXT (argsR l)));
  ("bexti", fun l => Zbs_insn (BEXTI (argsShift l)));
  ("binv", fun l => Zbs_insn (BINV (argsR l)));
  ("binvi", fun l => Zbs_insn (BINVI (argsShift l)));
  ("bset", fun l => Zbs_insn (BSET (argsR l)));
  ("bseti", fun l => Zbs_insn (BSETI (argsShift l)))].

Definition methods_zbk : Methods := [
  ("brev8", fun l => Zbk_insn (BREV8 (argsR2 l)));
  ("pack", fun l => Zbk_insn (PACK (argsR l)));
  ("packh", fun l => Zbk_insn (PACKH (argsR l)));
  ("packw", fun l => Zbk_insn (PACKW (argsR l)));
  ("xperm4", fun l => Zbk_insn (XPERM4 (argsR l)));
  ("xperm8", fun l => Zbk_insn (XPERM8 (argsR l)))].

Definition methods_zicbo : Methods := [
  ("cbo_inval", fun _ => Zicbo_insn CBO_INVAL);
  ("cbo_clean", fun _ => Zicbo_insn CBO_CLEAN);
  ("cbo_flush", fun _ => Zicbo_insn CBO_FLUSH);
  ("cbo_zero", fun _ => Zicbo_insn CBO_ZERO)].

Definition methods : Methods :=
  (methods_rv32i ++ methods_rv64i ++ methods_priv ++ methods_zicsr ++ methods_rvm ++ methods_rva ++ methods_zba ++ methods_zbb ++ methods_zbc ++ methods_zbs ++ methods_zbk ++ methods_zicbo)%list.

(** The methods that return [false] at once. *)
Definition refused (nm : string) : bool := String.eqb nm "illegal" || String.eqb nm "c64_illegal".

Definition dispatch_method (r : option (option (string * list (string * Z)))) : Decoded :=
  match r with
  | Some (Some (nm, l)) =>
      match BTreeMap.get nm methods with
      | Some mk => Matched (mk l)
      | None => if refused nm then NoMatch else Foreign
      end
  | Some None => NoMatch
  | None => Foreign
  end.

Definition decode32 (insn : Z) : Decoded := dispatch_method (decode_fn 32 parsed32 insn).
Definition decode16 (insn : Z) : Decoded := dispatch_method (decode_fn 16 parsed16 insn).
