(* ===== verification/RvDecodeProof.v ===== *)
(** * The decoders decode the RISC-V encodings

    The encodings of the unprivileged and privileged manuals as a function [encode] on
    instructions, and the theorem that the generated decoder inverts it. *)

From Stdlib Require Import ZArith Lia Bool String Ascii.
From stdpp Require Import base tactics numbers list.
From S2P Require Import Prelude Decode RvInsn RvTrans RvEmit RvTransOk RvDecode.

Local Open Scope string_scope.
Local Open Scope Z_scope.

(** ** Encodings *)

Definition r_type (f7 f3 op rd rs1 rs2 : Z) : Z :=
  op + 2 ^ 7 * rd + 2 ^ 12 * f3 + 2 ^ 15 * rs1 + 2 ^ 20 * rs2 + 2 ^ 25 * f7.

Definition i_type (f3 op rd rs1 imm : Z) : Z :=
  op + 2 ^ 7 * rd + 2 ^ 12 * f3 + 2 ^ 15 * rs1 + 2 ^ 20 * wrap 12 imm.

Definition s_type (f3 op rs1 rs2 imm : Z) : Z :=
  let u := wrap 12 imm in
  op + 2 ^ 7 * (u mod 2 ^ 5) + 2 ^ 12 * f3 + 2 ^ 15 * rs1 + 2 ^ 20 * rs2 + 2 ^ 25 * (u / 2 ^ 5).

Definition b_type (f3 op rs1 rs2 imm : Z) : Z :=
  let u := wrap 13 imm in
  op + 2 ^ 7 * ((u / 2 ^ 11) mod 2) + 2 ^ 8 * ((u / 2) mod 2 ^ 4) + 2 ^ 12 * f3 + 2 ^ 15 * rs1
  + 2 ^ 20 * rs2 + 2 ^ 25 * ((u / 2 ^ 5) mod 2 ^ 6) + 2 ^ 31 * (u / 2 ^ 12).

Definition u_type (op rd imm : Z) : Z := op + 2 ^ 7 * rd + 2 ^ 12 * wrap 20 (imm / 2 ^ 12).

Definition j_type (op rd imm : Z) : Z :=
  let u := wrap 21 imm in
  op + 2 ^ 7 * rd + 2 ^ 12 * ((u / 2 ^ 12) mod 2 ^ 8) + 2 ^ 20 * ((u / 2 ^ 11) mod 2)
  + 2 ^ 21 * ((u / 2) mod 2 ^ 10) + 2 ^ 31 * (u / 2 ^ 20).

(** Shifts by six bits, system instructions with a CSR number, and atomics. *)
Definition sh_type (f6 f3 op rd rs1 shamt : Z) : Z :=
  op + 2 ^ 7 * rd + 2 ^ 12 * f3 + 2 ^ 15 * rs1 + 2 ^ 20 * shamt + 2 ^ 26 * f6.

Definition csr_type (f3 rd rs1 csr : Z) : Z :=
  0x73 + 2 ^ 7 * rd + 2 ^ 12 * f3 + 2 ^ 15 * rs1 + 2 ^ 20 * csr.

Definition a_type (f5 f3 : Z) (a : ArgsAtomic.t) : Z :=
  0x2f + 2 ^ 7 * ArgsAtomic.rd a + 2 ^ 12 * f3 + 2 ^ 15 * ArgsAtomic.rs1 a + 2 ^ 20 * ArgsAtomic.rs2 a
  + 2 ^ 25 * ArgsAtomic.rl a + 2 ^ 26 * ArgsAtomic.aq a + 2 ^ 27 * f5.

Definition enc_r (f7 f3 op : Z) (a : ArgsR.t) : Z :=
  r_type f7 f3 op (ArgsR.rd a) (ArgsR.rs1 a) (ArgsR.rs2 a).
Definition enc_r2 (f7 f3 op n : Z) (a : ArgsR2.t) : Z :=
  r_type f7 f3 op (ArgsR2.rd a) (ArgsR2.rs1 a) n.
Definition enc_i (f3 op : Z) (a : ArgsI.t) : Z :=
  i_type f3 op (ArgsI.rd a) (ArgsI.rs1 a) (ArgsI.imm a).
Definition enc_s (f3 op : Z) (a : ArgsS.t) : Z :=
  s_type f3 op (ArgsS.rs1 a) (ArgsS.rs2 a) (ArgsS.imm a).
Definition enc_b (f3 : Z) (a : ArgsB.t) : Z :=
  b_type f3 0x63 (ArgsB.rs1 a) (ArgsB.rs2 a) (ArgsB.imm a).
Definition enc_u (op : Z) (a : ArgsU.t) : Z := u_type op (ArgsU.rd a) (ArgsU.imm a).
Definition enc_j (op : Z) (a : ArgsJ.t) : Z := j_type op (ArgsJ.rd a) (ArgsJ.imm a).
Definition enc_sh (f6 f3 op : Z) (a : ArgsShift.t) : Z :=
  sh_type f6 f3 op (ArgsShift.rd a) (ArgsShift.rs1 a) (ArgsShift.shamt a).
Definition enc_csr (f3 : Z) (a : ArgsCsr.t) : Z :=
  csr_type f3 (ArgsCsr.rd a) (ArgsCsr.rs1 a) (ArgsCsr.csr a).

Definition encode_rv32i (i : Rv32i) : Z :=
  match i with
  | LUI a => enc_u 0x37 a | AUIPC a => enc_u 0x17 a
  | JAL a => enc_j 0x6f a | JALR a => enc_i 0 0x67 a
  | BEQ a => enc_b 0 a | BNE a => enc_b 1 a | BLT a => enc_b 4 a
  | BGE a => enc_b 5 a | BLTU a => enc_b 6 a | BGEU a => enc_b 7 a
  | LB a => enc_i 0 0x03 a | LH a => enc_i 1 0x03 a | LW a => enc_i 2 0x03 a
  | LBU a => enc_i 4 0x03 a | LHU a => enc_i 5 0x03 a
  | SB a => enc_s 0 0x23 a | SH a => enc_s 1 0x23 a | SW a => enc_s 2 0x23 a
  | ADDI a => enc_i 0 0x13 a | SLTI a => enc_i 2 0x13 a | SLTIU a => enc_i 3 0x13 a
  | XORI a => enc_i 4 0x13 a | ORI a => enc_i 6 0x13 a | ANDI a => enc_i 7 0x13 a
  | SLLI a => enc_sh 0 1 0x13 a | SRLI a => enc_sh 0 5 0x13 a | SRAI a => enc_sh 0x10 5 0x13 a
  | ADD a => enc_r 0 0 0x33 a | SUB a => enc_r 0x20 0 0x33 a | SLL a => enc_r 0 1 0x33 a
  | SLT a => enc_r 0 2 0x33 a | SLTU a => enc_r 0 3 0x33 a | XOR a => enc_r 0 4 0x33 a
  | SRL a => enc_r 0 5 0x33 a | SRA a => enc_r 0x20 5 0x33 a
  | OR a => enc_r 0 6 0x33 a | AND a => enc_r 0 7 0x33 a
  | FENCE => 0x0ff0000f | FENCE_I => 0x0000100f
  end.

Definition encode_rv64i (i : Rv64i) : Z :=
  match i with
  | LWU a => enc_i 6 0x03 a | LD a => enc_i 3 0x03 a | SD a => enc_s 3 0x23 a
  | ADDIW a => enc_i 0 0x1b a
  | SLLIW a => enc_sh 0 1 0x1b a | SRLIW a => enc_sh 0 5 0x1b a | SRAIW a => enc_sh 0x10 5 0x1b a
  | ADDW a => enc_r 0 0 0x3b a | SUBW a => enc_r 0x20 0 0x3b a | SLLW a => enc_r 0 1 0x3b a
  | SRLW a => enc_r 0 5 0x3b a | SRAW a => enc_r 0x20 5 0x3b a
  end.

Definition encode_priv (i : Priv) : Z :=
  match i with
  | ECALL => 0x00000073 | EBREAK => 0x00100073 | MRET => 0x30200073 | SRET => 0x10200073
  | WFI => 0x10500073
  | SFENCE_VMA => r_type 0x09 0 0x73 0 0 0 | SINVAL_VMA => r_type 0x0b 0 0x73 0 0 0
  | TH_FENCE_SPA => r_type 0x0a 0 0x73 0 0 0 | MFENCE_SPA => r_type 0x0d 0 0x73 0 0 0
  | MINVAL_SPA => r_type 0x0e 0 0x73 0 0 0
  end.

Definition encode_zicsr (i : Zicsr) : Z :=
  match i with
  | CSRRW a => enc_csr 1 a | CSRRS a => enc_csr 2 a | CSRRC a => enc_csr 3 a
  | CSRRWI a => enc_csr 5 a | CSRRSI a => enc_csr 6 a | CSRRCI a => enc_csr 7 a
  end.

Definition encode_rvm (i : Rvm) : Z :=
  match i with
  | MUL a => enc_r 1 0 0x33 a | MULH a => enc_r 1 1 0x33 a | MULHSU a => enc_r 1 2 0x33 a
  | MULHU a => enc_r 1 3 0x33 a | DIV a => enc_r 1 4 0x33 a | DIVU a => enc_r 1 5 0x33 a
  | REM a => enc_r 1 6 0x33 a | REMU a => enc_r 1 7 0x33 a
  | MULW a => enc_r 1 0 0x3b a | DIVW a => enc_r 1 4 0x3b a | DIVUW a => enc_r 1 5 0x3b a
  | REMW a => enc_r 1 6 0x3b a | REMUW a => enc_r 1 7 0x3b a
  end.

Definition encode_rva (i : Rva) : Z :=
  match i with
  | LR_W a => a_type 0x02 2 a | SC_W a => a_type 0x03 2 a | AMOSWAP_W a => a_type 0x01 2 a
  | AMOADD_W a => a_type 0x00 2 a | AMOXOR_W a => a_type 0x04 2 a | AMOAND_W a => a_type 0x0c 2 a
  | AMOOR_W a => a_type 0x08 2 a | AMOMIN_W a => a_type 0x10 2 a | AMOMAX_W a => a_type 0x14 2 a
  | AMOMINU_W a => a_type 0x18 2 a | AMOMAXU_W a => a_type 0x1c 2 a
  | LR_D a => a_type 0x02 3 a | SC_D a => a_type 0x03 3 a | AMOSWAP_D a => a_type 0x01 3 a
  | AMOADD_D a => a_type 0x00 3 a | AMOXOR_D a => a_type 0x04 3 a | AMOAND_D a => a_type 0x0c 3 a
  | AMOOR_D a => a_type 0x08 3 a | AMOMIN_D a => a_type 0x10 3 a | AMOMAX_D a => a_type 0x14 3 a
  | AMOMINU_D a => a_type 0x18 3 a | AMOMAXU_D a => a_type 0x1c 3 a
  end.

Definition encode_zba (i : Zba) : Z :=
  match i with
  | SH1ADD a => enc_r 0x10 2 0x33 a | SH2ADD a => enc_r 0x10 4 0x33 a | SH3ADD a => enc_r 0x10 6 0x33 a
  | SH1ADD_UW a => enc_r 0x10 2 0x3b a | SH2ADD_UW a => enc_r 0x10 4 0x3b a
  | SH3ADD_UW a => enc_r 0x10 6 0x3b a | ADD_UW a => enc_r 0x04 0 0x3b a
  | SLLI_UW a => enc_sh 0x02 1 0x1b a
  end.

Definition encode_zbb (i : Zbb) : Z :=
  match i with
  | ANDN a => enc_r 0x20 7 0x33 a | ORN a => enc_r 0x20 6 0x33 a | XNOR a => enc_r 0x20 4 0x33 a
  | MAX a => enc_r 0x05 6 0x33 a | MAXU a => enc_r 0x05 7 0x33 a
  | MIN a => enc_r 0x05 4 0x33 a | MINU a => enc_r 0x05 5 0x33 a
  | ROL a => enc_r 0x30 1 0x33 a | ROR a => enc_r 0x30 5 0x33 a
  | ROLW a => enc_r 0x30 1 0x3b a | RORW a => enc_r 0x30 5 0x3b a
  | RORI a => enc_sh 0x18 5 0x13 a | RORIW a => enc_sh 0x18 5 0x1b a
  | CLZ a => enc_r2 0x30 1 0x13 0 a | CTZ a => enc_r2 0x30 1 0x13 1 a | CPOP a => enc_r2 0x30 1 0x13 2 a
  | CLZW a => enc_r2 0x30 1 0x1b 0 a | CTZW a => enc_r2 0x30 1 0x1b 1 a
  | CPOPW a => enc_r2 0x30 1 0x1b 2 a
  | SEXT_B a => enc_r2 0x30 1 0x13 4 a | SEXT_H a => enc_r2 0x30 1 0x13 5 a
  | ZEXT_H a => enc_r2 0x04 4 0x3b 0 a
  | REV8 a => enc_r2 0x35 5 0x13 0x18 a | ORC_B a => enc_r2 0x14 5 0x13 0x07 a
  end.

Definition encode_zbc (i : Zbc) : Z :=
  match i with
  | CLMUL a => enc_r 0x05 1 0x33 a | CLMULH a => enc_r 0x05 3 0x33 a | CLMULR a => enc_r 0x05 2 0x33 a
  end.

Definition encode_zbs (i : Zbs) : Z :=
  match i with
  | BCLR a => enc_r 0x24 1 0x33 a | BCLRI a => enc_sh 0x12 1 0x13 a
  | BEXT a => enc_r 0x24 5 0x33 a | BEXTI a => enc_sh 0x12 5 0x13 a
  | BINV a => enc_r 0x34 1 0x33 a | BINVI a => enc_sh 0x1a 1 0x13 a
  | BSET a => enc_r 0x14 1 0x33 a | BSETI a => enc_sh 0x0a 1 0x13 a
  end.

Definition encode_zbk (i : Zbk) : Z :=
  match i with
  | BREV8 a => enc_r2 0x34 5 0x13 0x07 a
  | PACK a => enc_r 0x04 4 0x33 a | PACKH a => enc_r 0x04 7 0x33 a | PACKW a => enc_r 0x04 4 0x3b a
  | XPERM4 a => enc_r 0x14 2 0x33 a | XPERM8 a => enc_r 0x14 4 0x33 a
  end.

Definition encode_zicbo (i : Zicbo) : Z :=
  match i with
  | CBO_INVAL => i_type 2 0x0f 0 0 0 | CBO_CLEAN => i_type 2 0x0f 0 0 1
  | CBO_FLUSH => i_type 2 0x0f 0 0 2 | CBO_ZERO => i_type 2 0x0f 0 0 4
  end.

Definition encode (i : Insn) : Z :=
  match i with
  | Rv32i_insn i => encode_rv32i i | Rv64i_insn i => encode_rv64i i
  | Priv_insn i => encode_priv i | Zicsr_insn i => encode_zicsr i
  | Rvm_insn i => encode_rvm i | Rva_insn i => encode_rva i
  | Zba_insn i => encode_zba i | Zbb_insn i => encode_zbb i | Zbc_insn i => encode_zbc i
  | Zbs_insn i => encode_zbs i | Zbk_insn i => encode_zbk i | Zicbo_insn i => encode_zicbo i
  end.

(** ** Patterns of the file *)

#[global] Instance FieldMapping_eq_dec : EqDecision FieldMapping.
Proof. solve_decision. Defined.

Definition find_pattern (nm : string) : option nat :=
  fst <$> list_find (fun p => name p = nm) (patterns parsed32).

Definition bits (w p l : Z) : Z := (w / 2 ^ p) mod 2 ^ l.

(** The pattern at position [k]: it fixes no bit outside [segs], and no pattern before it
    matches its words. *)
Definition pattern_at (k : nat) (nm : string) (b : Z) (segs : list (Z * Z)) (args : string)
    (fm : list (string * FieldMapping)) : bool :=
  match patterns parsed32 !! k with
  | Some p =>
      String.eqb (name p) nm && (fixedbits p =? b)
      && String.eqb (args_name p) args && bool_decide (field_map p = fm)
      && forallb (fun s => (0 <=? s.1) && (0 <=? s.2)) segs
      && (0 <=? fixedmask p) && (fixedmask p <? 2 ^ 32) && (Z.land b (fixedmask p) =? b)
      && covers (fixedmask p) segs
      && forallb (incompatible p) (take k (patterns parsed32))
  | None => false
  end.

Lemma decode32_at k nm b segs args fm w l :
  pattern_at k nm b segs args fm = true -> in_range 32 w ->
  Forall (fun s => bits w s.1 s.2 = bits b s.1 s.2) segs ->
  (forall mask, build_args 32 parsed32 (mk_Pattern nm b mask args fm) w = Some l) ->
  decode32 w = dispatch_method (Some (Some (nm, l))).
Proof.
  unfold pattern_at. destruct (patterns parsed32 !! k) as [p|] eqn:Ek; [|done].
  rewrite !andb_true_iff, !Z.eqb_eq, !String.eqb_eq, bool_decide_eq_true, Z.leb_le, Z.ltb_lt.
  intros [[[[[[[[[E1 E2] E4] E5] Hs] Hm0] Hm1] Hm] Hc] Hk] Hw Hb Hl.
  destruct p as [a b' c d e]; cbn in E1, E2, E4, E5, Hm0, Hm1, Hm, Hc. subst.
  unfold decode32, decode_fn. rewrite <- (take_drop_middle _ _ _ Ek).
  rewrite decode_patterns_at; [by rewrite Hl|by right|done|done|].
  rewrite matches_land by first [by right | done]. cbn. apply Z.eqb_eq.
  apply (land_covered _ _ segs); [done..|].
  rewrite Forall_forall in *. rewrite forallb_forall in Hs. intros s Hin.
  specialize (Hs s ltac:(by apply list_elem_of_In)). rewrite andb_true_iff, !Z.leb_le in Hs.
  split_and!; [lia..|]. by apply Hb.
Qed.

(** ** Formats *)

Lemma zext_bits_at p l w v : 0 <= p -> 0 <= l -> bits w p l = v -> zext_bits p l w = v.
Proof. intros Hp Hl <-. by apply zext_bits_div. Qed.

Lemma sext_bits_at lsh rsh w v :
  0 <= lsh -> lsh <= rsh < 32 -> bits w (rsh - lsh) (32 - rsh) = v ->
  sext_bits 32 lsh rsh w = signed (32 - rsh) v.
Proof.
  intros Hl Hr <-. unfold bits. rewrite <- (sext_bits_signed 32) by lia. f_equal; lia.
Qed.

Ltac powers :=
  repeat match goal with
  | |- context [2 ^ ?n] => let v := eval vm_compute in (2 ^ n) in change (2 ^ n) with v
  | H : context [2 ^ ?n] |- _ => let v := eval vm_compute in (2 ^ n) in change (2 ^ n) with v in H
  end.

(** Arithmetic on the fields of a word. *)
Ltac word :=
  unfold bits, r_type, i_type, s_type, b_type, u_type, j_type, sh_type, csr_type, a_type,
    in_range, is_reg, wrap, signed in *;
  cbn [fst snd ArgsAtomic.aq ArgsAtomic.rl ArgsAtomic.rs2 ArgsAtomic.rs1 ArgsAtomic.rd] in *; powers;
  repeat case_match; Z.div_mod_to_equations; lia.

(** The arguments built from a word, as extracted bits. *)
Ltac extract_args :=
  intros ?; lazy -[zext_bits sext_bits Z.lor Z.shiftl r_type i_type s_type b_type u_type j_type
    sh_type csr_type a_type].

Ltac fields :=
  repeat match goal with
  | |- Some _ = Some _ => f_equal
  | |- _ :: _ = _ :: _ => f_equal
  | |- (_, _) = (_, _) => f_equal
  end; try done; try (apply zext_bits_at; [lia|lia|word]).

Ltac format Hk := eapply decode32_at; [exact Hk|word|repeat constructor; word|extract_args; fields].

Definition fm_r : list (string * FieldMapping) :=
  [("rd", FieldRef "rd"); ("rs1", FieldRef "rs1"); ("rs2", FieldRef "rs2")].

Lemma decode_r k nm f7 f3 op rd rs1 rs2 :
  pattern_at k nm (r_type f7 f3 op 0 0 0) [(0, 7); (12, 3); (25, 7)] "r" fm_r = true ->
  in_range 7 f7 -> in_range 3 f3 -> in_range 7 op -> is_reg rd -> is_reg rs1 -> is_reg rs2 ->
  decode32 (r_type f7 f3 op rd rs1 rs2)
  = dispatch_method (Some (Some (nm, [("rd", rd); ("rs1", rs1); ("rs2", rs2)]))).
Proof. intros Hk Hf7 Hf3 Hop Hrd Hrs1 Hrs2. format Hk. Qed.

Definition fm_r2 : list (string * FieldMapping) := [("rd", FieldRef "rd"); ("rs1", FieldRef "rs1")].

Lemma decode_r2 k nm f7 f3 op n rd rs1 :
  pattern_at k nm (r_type f7 f3 op 0 0 n) [(0, 7); (12, 3); (20, 5); (25, 7)] "r2" fm_r2 = true ->
  in_range 7 f7 -> in_range 3 f3 -> in_range 7 op -> in_range 5 n -> is_reg rd -> is_reg rs1 ->
  decode32 (r_type f7 f3 op rd rs1 n)
  = dispatch_method (Some (Some (nm, [("rd", rd); ("rs1", rs1)]))).
Proof. intros Hk Hf7 Hf3 Hop Hn Hrd Hrs1. format Hk. Qed.

Definition fm_i : list (string * FieldMapping) :=
  [("imm", FieldRef "imm_i"); ("rd", FieldRef "rd"); ("rs1", FieldRef "rs1")].

Lemma decode_i k nm f3 op rd rs1 imm :
  pattern_at k nm (i_type f3 op 0 0 0) [(0, 7); (12, 3)] "i" fm_i = true ->
  in_range 3 f3 -> in_range 7 op -> is_reg rd -> is_reg rs1 -> - 2 ^ 11 <= imm < 2 ^ 11 ->
  decode32 (i_type f3 op rd rs1 imm)
  = dispatch_method (Some (Some (nm, [("imm", imm); ("rs1", rs1); ("rd", rd)]))).
Proof.
  intros Hk Hf3 Hop Hrd Hrs1 Hi. format Hk.
  rewrite (sext_bits_at 0 20 _ (wrap 12 imm)); [word|lia..|word].
Qed.

Definition fm_s (imm : string) : list (string * FieldMapping) :=
  [("imm", FieldRef imm); ("rs1", FieldRef "rs1"); ("rs2", FieldRef "rs2")].

Lemma decode_s k nm f3 op rs1 rs2 imm :
  pattern_at k nm (s_type f3 op 0 0 0) [(0, 7); (12, 3)] "s" (fm_s "imm_s") = true ->
  in_range 3 f3 -> in_range 7 op -> is_reg rs1 -> is_reg rs2 -> - 2 ^ 11 <= imm < 2 ^ 11 ->
  decode32 (s_type f3 op rs1 rs2 imm)
  = dispatch_method (Some (Some (nm, [("imm", imm); ("rs1", rs1); ("rs2", rs2)]))).
Proof.
  intros Hk Hf3 Hop Hrs1 Hrs2 Hi. format Hk.
  rewrite (sext_bits_at 0 25 _ (wrap 12 imm / 2 ^ 5)); [|lia..|word].
  rewrite (zext_bits_at 7 5 _ (wrap 12 imm mod 2 ^ 5)); [|lia..|word].
  rewrite lor_shiftl_add by word. word.
Qed.

Lemma decode_b k nm f3 op rs1 rs2 imm :
  pattern_at k nm (b_type f3 op 0 0 0) [(0, 7); (12, 3)] "b" (fm_s "imm_b") = true ->
  in_range 3 f3 -> in_range 7 op -> is_reg rs1 -> is_reg rs2 ->
  - 2 ^ 12 <= imm < 2 ^ 12 -> imm mod 2 = 0 ->
  decode32 (b_type f3 op rs1 rs2 imm)
  = dispatch_method (Some (Some (nm, [("imm", imm); ("rs2", rs2); ("rs1", rs1)]))).
Proof.
  intros Hk Hf3 Hop Hrs1 Hrs2 Hi He. format Hk. set (u := wrap 13 imm).
  rewrite (sext_bits_at 0 31 _ (u / 2 ^ 12)); [|lia..|subst u; word].
  rewrite (zext_bits_at 7 1 _ ((u / 2 ^ 11) mod 2)); [|lia..|subst u; word].
  rewrite (zext_bits_at 25 6 _ ((u / 2 ^ 5) mod 2 ^ 6)); [|lia..|subst u; word].
  rewrite (zext_bits_at 8 4 _ ((u / 2) mod 2 ^ 4)); [|lia..|subst u; word].
  rewrite !lor_shiftl_add, Z.shiftl_mul_pow2 by word. subst u. word.
Qed.

Definition fm_u (imm : string) : list (string * FieldMapping) :=
  [("imm", FieldRef imm); ("rd", FieldRef "rd")].

Lemma decode_u k nm op rd imm :
  pattern_at k nm (u_type op 0 0) [(0, 7)] "u" (fm_u "imm_u") = true ->
  in_range 7 op -> is_reg rd -> - 2 ^ 31 <= imm < 2 ^ 31 -> imm mod 2 ^ 12 = 0 ->
  decode32 (u_type op rd imm) = dispatch_method (Some (Some (nm, [("imm", imm); ("rd", rd)]))).
Proof.
  intros Hk Hop Hrd Hi He. format Hk.
  rewrite (sext_bits_at 0 12 _ (wrap 20 (imm / 2 ^ 12))); [|lia..|word].
  rewrite Z.shiftl_mul_pow2 by lia. word.
Qed.

Lemma decode_j k nm op rd imm :
  pattern_at k nm (j_type op 0 0) [(0, 7)] "j" (fm_u "imm_j") = true ->
  in_range 7 op -> is_reg rd -> - 2 ^ 20 <= imm < 2 ^ 20 -> imm mod 2 = 0 ->
  decode32 (j_type op rd imm) = dispatch_method (Some (Some (nm, [("imm", imm); ("rd", rd)]))).
Proof.
  intros Hk Hop Hrd Hi He. format Hk. set (u := wrap 21 imm).
  rewrite (sext_bits_at 0 31 _ (u / 2 ^ 20)); [|lia..|subst u; word].
  rewrite (zext_bits_at 12 8 _ ((u / 2 ^ 12) mod 2 ^ 8)); [|lia..|subst u; word].
  rewrite (zext_bits_at 20 1 _ ((u / 2 ^ 11) mod 2)); [|lia..|subst u; word].
  rewrite (zext_bits_at 21 10 _ ((u / 2) mod 2 ^ 10)); [|lia..|subst u; word].
  rewrite !lor_shiftl_add, Z.shiftl_mul_pow2 by word. subst u. word.
Qed.

Definition fm_sh (sh : string) : list (string * FieldMapping) :=
  [("rd", FieldRef "rd"); ("rs1", FieldRef "rs1"); ("shamt", FieldRef sh)].

Lemma decode_sh k nm f6 f3 op rd rs1 shamt :
  pattern_at k nm (sh_type f6 f3 op 0 0 0) [(0, 7); (12, 3); (27, 5)] "shift" (fm_sh "sh7") = true ->
  in_range 6 f6 -> f6 mod 2 = 0 -> in_range 3 f3 -> in_range 7 op -> is_reg rd -> is_reg rs1 ->
  0 <= shamt < 64 ->
  decode32 (sh_type f6 f3 op rd rs1 shamt)
  = dispatch_method (Some (Some (nm, [("shamt", shamt); ("rs1", rs1); ("rd", rd)]))).
Proof. intros Hk Hf6 He Hf3 Hop Hrd Hrs1 Hs. format Hk. Qed.

Lemma decode_sh5 k nm f6 f3 op rd rs1 shamt :
  pattern_at k nm (sh_type f6 f3 op 0 0 0) [(0, 7); (12, 3); (25, 7)] "shift" (fm_sh "sh5") = true ->
  in_range 6 f6 -> in_range 3 f3 -> in_range 7 op -> is_reg rd -> is_reg rs1 -> 0 <= shamt < 32 ->
  decode32 (sh_type f6 f3 op rd rs1 shamt)
  = dispatch_method (Some (Some (nm, [("shamt", shamt); ("rs1", rs1); ("rd", rd)]))).
Proof. intros Hk Hf6 Hf3 Hop Hrd Hrs1 Hs. format Hk. Qed.

Definition fm_csr : list (string * FieldMapping) :=
  [("csr", FieldRef "csr"); ("rd", FieldRef "rd"); ("rs1", FieldRef "rs1")].

Lemma decode_csr k nm f3 rd rs1 csr :
  pattern_at k nm (csr_type f3 0 0 0) [(0, 7); (12, 3)] "csr" fm_csr = true ->
  in_range 3 f3 -> is_reg rd -> is_reg rs1 -> in_range 12 csr ->
  decode32 (csr_type f3 rd rs1 csr)
  = dispatch_method (Some (Some (nm, [("csr", csr); ("rs1", rs1); ("rd", rd)]))).
Proof. intros Hk Hf3 Hrd Hrs1 Hc. format Hk. Qed.

Definition fm_a (rs2 : FieldMapping) : list (string * FieldMapping) :=
  [("aq", Inline 26 1 false); ("rd", FieldRef "rd"); ("rl", Inline 25 1 false);
   ("rs1", FieldRef "rs1"); ("rs2", rs2)].

Definition okAtomic (a : ArgsAtomic.t) : Prop :=
  okA a /\ in_range 1 (ArgsAtomic.aq a) /\ in_range 1 (ArgsAtomic.rl a).

Definition atomic_fields (a : ArgsAtomic.t) : list (string * Z) :=
  [("aq", ArgsAtomic.aq a); ("rl", ArgsAtomic.rl a); ("rs2", ArgsAtomic.rs2 a);
   ("rs1", ArgsAtomic.rs1 a); ("rd", ArgsAtomic.rd a)].

Lemma decode_a k nm f5 f3 a :
  pattern_at k nm (a_type f5 f3 (ArgsAtomic.mk 0 0 0 0 0)) [(0, 7); (12, 3); (27, 5)] "atomic"
    (fm_a (FieldRef "rs2")) = true ->
  in_range 5 f5 -> in_range 3 f3 -> okAtomic a ->
  decode32 (a_type f5 f3 a) = dispatch_method (Some (Some (nm, atomic_fields a))).
Proof.
  intros Hk Hf5 Hf3 ((Hrd & Hrs1 & Hrs2) & Haq & Hrl). destruct a. cbn in *. format Hk.
Qed.

Lemma decode_lr k nm f5 f3 a :
  pattern_at k nm (a_type f5 f3 (ArgsAtomic.mk 0 0 0 0 0)) [(0, 7); (12, 3); (20, 5); (27, 5)]
    "atomic" (fm_a (Const 0)) = true ->
  in_range 5 f5 -> in_range 3 f3 -> okAtomic a -> ArgsAtomic.rs2 a = 0 ->
  decode32 (a_type f5 f3 a) = dispatch_method (Some (Some (nm, atomic_fields a))).
Proof.
  intros Hk Hf5 Hf3 ((Hrd & Hrs1 & Hrs2) & Haq & Hrl) E. destruct a. cbn in *. subst. format Hk.
Qed.

(** [zext.h] is [packw] with the second source [x0], and comes first in the file. *)
Lemma land_bits w mask b p l :
  0 <= p -> 0 <= l -> Z.land w mask = b -> Z.land mask (Z.shiftl (Z.ones l) p) = Z.shiftl (Z.ones l) p ->
  bits w p l = bits b p l.
Proof.
  intros Hp Hl <- Hm. unfold bits. apply Z.bits_inj'. intros i Hi.
  destruct (Z.lt_ge_cases i l); [|by rewrite !Z.mod_pow2_bits_high by lia].
  rewrite !Z.mod_pow2_bits_low, !Z.div_pow2_bits, Z.land_spec by lia.
  apply (f_equal (fun z => Z.testbit z (i + p))) in Hm.
  rewrite Z.land_spec, Z.shiftl_spec, Z.ones_spec_low, andb_true_r in Hm by lia.
  by rewrite Hm, andb_true_r.
Qed.

Definition packw_k : nat := Eval vm_compute in default 0%nat (find_pattern "packw").

Lemma decode_packw rd rs1 rs2 :
  is_reg rd -> is_reg rs1 -> is_reg rs2 -> rs2 <> 0 ->
  decode32 (r_type 0x04 4 0x3b rd rs1 rs2)
  = dispatch_method (Some (Some ("packw", [("rd", rd); ("rs1", rs1); ("rs2", rs2)]))).
Proof.
  intros Hrd Hrs1 Hrs2 Hne. set (w := r_type _ _ _ _ _ _).
  assert (Hw : in_range 32 w) by (subst w; word).
  unfold decode32, decode_fn. set (p := mk_Pattern "packw" (r_type 4 4 0x3b 0 0 0) 0xfe00707f "r" fm_r).
  rewrite <- (take_drop_middle (patterns parsed32) packw_k p) by (vm_compute; reflexivity).
  assert (Hm : matches 32 p w = true).
  { rewrite matches_land by first [by right | done]. apply Z.eqb_eq.
    apply (land_covered _ _ [(0, 7); (12, 3); (25, 7)]); [done..|].
    subst p w. cbn [fixedbits]. repeat apply Forall_cons_2; [..|apply Forall_nil_2]; split_and!; word. }
  rewrite decode_patterns_first; [|apply Forall_forall; intros q Hq|done].
  - replace (build_args _ _ _ _) with (Some [("rd", rd); ("rs1", rs1); ("rs2", rs2)]); [done|].
    symmetry. subst w. revert p Hm. intros p _. subst p. lazy -[zext_bits r_type]. fields.
  - assert (Hall : forallb (fun q => incompatible p q
      || ((fixedmask q =? 0xfff0707f) && (fixedbits q =? r_type 4 4 0x3b 0 0 0)))
        (take packw_k (patterns parsed32)) = true) by (vm_compute; reflexivity).
    rewrite forallb_forall in Hall. specialize (Hall q (proj1 (list_elem_of_In _ _) Hq)).
    apply orb_true_iff in Hall as [Hi|[E1%Z.eqb_eq E2%Z.eqb_eq]%andb_true_iff].
    + apply (incompatible_matches 32 p); [by right|done..].
    + rewrite matches_land by first [by right | done]. apply Z.eqb_neq. intros E. rewrite E1, E2 in E.
      apply (land_bits _ _ _ 20 5) in E; [|done..]. apply Hne. subst w. word.
Qed.

(** ** The round trip *)

Definition imm12 (v : Z) : Prop := - 2 ^ 11 <= v < 2 ^ 11.
Definition branch_offset (v : Z) : Prop := - 2 ^ 12 <= v < 2 ^ 12 /\ v mod 2 = 0.

(** What the encoding of an instruction can express beyond [insn_ok]: the immediates; no
    second source for [lr]; and [packw] of [x0], which is [zext.h]. *)
Definition expressible (i : Insn) : Prop :=
  match i with
  | Rv32i_insn i =>
      match i with
      | LUI a | AUIPC a => - 2 ^ 31 <= ArgsU.imm a < 2 ^ 31 /\ ArgsU.imm a mod 2 ^ 12 = 0
      | JAL a => - 2 ^ 20 <= ArgsJ.imm a < 2 ^ 20 /\ ArgsJ.imm a mod 2 = 0
      | BEQ a | BNE a | BLT a | BGE a | BLTU a | BGEU a => branch_offset (ArgsB.imm a)
      | JALR a | LB a | LH a | LW a | LBU a | LHU a
      | ADDI a | SLTI a | SLTIU a | XORI a | ORI a | ANDI a => imm12 (ArgsI.imm a)
      | SB a | SH a | SW a => imm12 (ArgsS.imm a)
      | _ => True
      end
  | Rv64i_insn i =>
      match i with
      | LWU a | LD a | ADDIW a => imm12 (ArgsI.imm a)
      | SD a => imm12 (ArgsS.imm a)
      | _ => True
      end
  | Zicsr_insn i => in_range 12 (ArgsCsr.csr (csr_args i))
  | Rva_insn i =>
      in_range 1 (ArgsAtomic.aq (atomic_args i)) /\ in_range 1 (ArgsAtomic.rl (atomic_args i))
      /\ match i with LR_W a | LR_D a => ArgsAtomic.rs2 a = 0 | _ => True end
  | Zbk_insn (PACKW a) => ArgsR.rs2 a <> 0
  | _ => True
  end.

(** The pattern of the encoding [b], by evaluation. *)
Ltac pattern_of b tac :=
  let r := eval vm_compute in
    (list_find (fun p => Is_true (matches 32 p b)) (patterns parsed32)) in
  match r with Some (?k, ?p) => let nm := eval cbn in (name p) in tac k nm end.

Ltac checked :=
  lazymatch goal with
  | |- pattern_at _ _ _ _ _ _ = true => vm_compute; reflexivity
  | |- in_range _ _ => first [assumption | unfold in_range; lia]
  | |- okAtomic _ => by split
  | |- ?x mod 2 = 0 => first [assumption | reflexivity]
  | |- _ => first [assumption | by split | reflexivity]
  end.

Ltac decode_step :=
  match goal with
  | |- decode32 (enc_r ?f7 ?f3 ?op ?a) = _ =>
      destruct a; pattern_of (r_type f7 f3 op 0 0 0)
        ltac:(fun k nm => unfold enc_r; rewrite (decode_r k nm))
  | |- decode32 (enc_r2 ?f7 ?f3 ?op ?n ?a) = _ =>
      destruct a; pattern_of (r_type f7 f3 op 0 0 n)
        ltac:(fun k nm => unfold enc_r2; rewrite (decode_r2 k nm))
  | |- decode32 (enc_i ?f3 ?op ?a) = _ =>
      destruct a; pattern_of (i_type f3 op 0 0 0)
        ltac:(fun k nm => unfold enc_i; rewrite (decode_i k nm))
  | |- decode32 (enc_s ?f3 ?op ?a) = _ =>
      destruct a; pattern_of (s_type f3 op 0 0 0)
        ltac:(fun k nm => unfold enc_s; rewrite (decode_s k nm))
  | |- decode32 (enc_b ?f3 ?a) = _ =>
      destruct a; pattern_of (b_type f3 0x63 0 0 0)
        ltac:(fun k nm => unfold enc_b; rewrite (decode_b k nm))
  | |- decode32 (enc_u ?op ?a) = _ =>
      destruct a; pattern_of (u_type op 0 0) ltac:(fun k nm => unfold enc_u; rewrite (decode_u k nm))
  | |- decode32 (enc_j ?op ?a) = _ =>
      destruct a; pattern_of (j_type op 0 0) ltac:(fun k nm => unfold enc_j; rewrite (decode_j k nm))
  | |- decode32 (enc_sh ?f6 ?f3 ?op ?a) = _ =>
      destruct a; pattern_of (sh_type f6 f3 op 0 0 0) ltac:(fun k nm => unfold enc_sh;
        first [rewrite (decode_sh k nm) by checked | rewrite (decode_sh5 k nm)])
  | |- decode32 (enc_csr ?f3 ?a) = _ =>
      destruct a; pattern_of (csr_type f3 0 0 0)
        ltac:(fun k nm => unfold enc_csr; rewrite (decode_csr k nm))
  | |- decode32 (a_type ?f5 ?f3 ?a) = _ =>
      pattern_of (a_type f5 f3 (ArgsAtomic.mk 0 0 0 0 0)) ltac:(fun k nm =>
        first [rewrite (decode_a k nm) by checked | rewrite (decode_lr k nm)]; destruct a)
  end.

Ltac decodes :=
  lazymatch goal with
  | |- decode32 (Zpos _) = _ => vm_compute; reflexivity
  | |- decode32 (enc_r 4 4 0x3b ?a) = _ =>
      destruct a; unfold enc_r; rewrite decode_packw; [reflexivity|assumption..]
  | |- _ => decode_step; [reflexivity|checked..]
  end.

Ltac cases_of :=
  unfold okR, okR2, okI, okS, okB, okSh, imm12, branch_offset; intros; destruct_and?; decodes.

Lemma encode_rv32i_decodes i :
  ok_rv32i i -> expressible (Rv32i_insn i) -> decode32 (encode_rv32i i) = Matched (Rv32i_insn i).
Proof. destruct i; cbn [ok_rv32i expressible encode_rv32i]; cases_of. Qed.

Lemma encode_rv64i_decodes i :
  ok_rv64i i -> expressible (Rv64i_insn i) -> decode32 (encode_rv64i i) = Matched (Rv64i_insn i).
Proof. destruct i; cbn [ok_rv64i expressible encode_rv64i]; cases_of. Qed.

Lemma encode_priv_decodes i : decode32 (encode_priv i) = Matched (Priv_insn i).
Proof. destruct i; vm_compute; reflexivity. Qed.

Lemma encode_zicbo_decodes i : decode32 (encode_zicbo i) = Matched (Zicbo_insn i).
Proof. destruct i; vm_compute; reflexivity. Qed.

Lemma encode_zicsr_decodes i :
  okC (csr_args i) -> expressible (Zicsr_insn i) -> decode32 (encode_zicsr i) = Matched (Zicsr_insn i).
Proof. destruct i; cbn [csr_args expressible encode_zicsr]; unfold okC; cases_of. Qed.

Lemma encode_rvm_decodes i : ok_rvm i -> decode32 (encode_rvm i) = Matched (Rvm_insn i).
Proof. destruct i; cbn [ok_rvm encode_rvm]; cases_of. Qed.

Lemma encode_rva_decodes i :
  okA (atomic_args i) -> expressible (Rva_insn i) -> decode32 (encode_rva i) = Matched (Rva_insn i).
Proof. destruct i; cbn [atomic_args expressible encode_rva]; cases_of. Qed.

Lemma encode_zba_decodes i : ok_zba i -> decode32 (encode_zba i) = Matched (Zba_insn i).
Proof. destruct i; cbn [ok_zba encode_zba]; cases_of. Qed.

Lemma encode_zbb_decodes i : ok_zbb i -> decode32 (encode_zbb i) = Matched (Zbb_insn i).
Proof. destruct i; cbn [ok_zbb encode_zbb]; cases_of. Qed.

Lemma encode_zbc_decodes i :
  insn_ok (Zbc_insn i) -> decode32 (encode_zbc i) = Matched (Zbc_insn i).
Proof. destruct i; cbn [insn_ok encode_zbc]; cases_of. Qed.

Lemma encode_zbs_decodes i : ok_zbs i -> decode32 (encode_zbs i) = Matched (Zbs_insn i).
Proof. destruct i; cbn [ok_zbs encode_zbs]; cases_of. Qed.

Lemma encode_zbk_decodes i :
  ok_zbk i -> expressible (Zbk_insn i) -> decode32 (encode_zbk i) = Matched (Zbk_insn i).
Proof. destruct i; cbn [ok_zbk expressible encode_zbk]; cases_of. Qed.

(** C3: the generated 32-bit decoder inverts the RISC-V encodings: for every instruction of
    the base set, Zicsr, M, A, Zba, Zbb, Zbc, Zbs, Zbkb, Zbkx, Zicbo and the privileged
    set whose fields fit their bits, [decode32] of its encoding is the instruction itself,
    with the same fields ([packw] of [x0] apart, which is the encoding of [zext.h]). *)
Theorem decode_encode i :
  insn_ok i -> expressible i -> decode32 (encode i) = Matched i.
Proof.
  destruct i as [i|i|i|i|i|i|i|i|i|i|i|i]; cbn [insn_ok encode]; intros.
  - by apply encode_rv32i_decodes.
  - by apply encode_rv64i_decodes.
  - apply encode_priv_decodes.
  - by apply encode_zicsr_decodes.
  - by apply encode_rvm_decodes.
  - by apply encode_rva_decodes.
  - by apply encode_zba_decodes.
  - by apply encode_zbb_decodes.
  - by apply encode_zbc_decodes.
  - by apply encode_zbs_decodes.
  - by apply encode_zbk_decodes.
  - apply encode_zicbo_decodes.
Qed.

Definition bgeu_back : Insn := Rv32i_insn (BGEU (ArgsB.mk (-4094) 31 17)).

Lemma decode_encode_witness :
  insn_ok bgeu_back /\ expressible bgeu_back /\ decode32 (encode bgeu_back) = Matched bgeu_back.
Proof.
  assert (Hok : insn_ok bgeu_back) by (repeat split; by vm_compute).
  assert (Hx : expressible bgeu_back) by (repeat split; by vm_compute).
  split; [exact Hok|]. split; [exact Hx|]. exact (decode_encode bgeu_back Hok Hx).
Defined.
