(* ===== verification/RvDecodeFields.v ===== *)
(** * The fields a decoder extracts

    An interval analysis of the fields of a decode file, sound for every pattern and every
    word, and what it gives for the RISC-V files: whatever a word holds, the instruction
    decoded from it names registers below 32 and shift amounts below their limit. *)

From Stdlib Require Import ZArith Lia Bool String Ascii.
From stdpp Require Import base tactics numbers list.
From S2P Require Import Prelude Decode RvInsn RvTrans RvEmit RvTransOk RvDecode.

Local Open Scope string_scope.
Local Open Scope Z_scope.

(** ** Intervals *)

Definition within (v : Z) (r : Z * Z) : Prop := r.1 <= v <= r.2.
Definition inside (r r' : Z * Z) : bool := (r'.1 <=? r.1) && (r.2 <=? r'.2).

Lemma inside_within v r r' : inside r r' = true -> within v r -> within v r'.
Proof. unfold inside, within. rewrite andb_true_iff, !Z.leb_le. lia. Qed.

Definition bits_range (l : Z) (sg : bool) : Z * Z :=
  if sg then (- 2 ^ (l - 1), 2 ^ (l - 1) - 1) else (0, 2 ^ l - 1).

Definition append_range (r : Z * Z) (s : FieldSegment) : Z * Z :=
  (r.1 * 2 ^ len s, r.2 * 2 ^ len s + (2 ^ len s - 1)).

Definition func_range (fn : option string) (r : Z * Z) : Z * Z :=
  match fn with
  | None => r
  | Some fn =>
      if String.eqb fn "ex_shift_1" then (r.1 * 2, r.2 * 2)
      else if String.eqb fn "ex_shift_2" then (r.1 * 4, r.2 * 4)
      else if String.eqb fn "ex_shift_3" then (r.1 * 8, r.2 * 8)
      else if String.eqb fn "ex_shift_4" then (r.1 * 16, r.2 * 16)
      else if String.eqb fn "ex_shift_12" then (r.1 * 4096, r.2 * 4096)
      else if String.eqb fn "ex_rvc_register" then (r.1 + 8, r.2 + 8)
      else if String.eqb fn "ex_sreg_register" then (0, 23)
      else r
  end.

Definition bits_fit (width p l : Z) : bool := (0 <=? p) && (0 <? l) && (p + l <=? width).

Definition extract_range (width : Z) (f : Field) : option (Z * Z) :=
  match segments f with
  | s0 :: rest =>
      if forallb (fun s => bits_fit width (pos s) (len s)) (s0 :: rest)
      then Some (func_range (func f) (fold_left append_range rest (bits_range (len s0) (signed_ s0))))
      else None
  | [] => None
  end.

Definition expr_range (width : Z) (flds : BTreeMap.t Field) (m : FieldMapping) : option (Z * Z) :=
  match m with
  | FieldRef r => match BTreeMap.get r flds with Some f => extract_range width f | None => None end
  | Inline p l sg => if bits_fit width p l then Some (bits_range l sg) else None
  | Const c => Some (c, c)
  end.

(** ** Soundness *)

Lemma zext_bits_range p l w : 0 <= p -> 0 < l -> within (zext_bits p l w) (bits_range l false).
Proof.
  intros Hp Hl. rewrite zext_bits_div by lia. unfold within, bits_range. cbn [fst snd].
  pose proof (Z.mod_pos_bound (w / 2 ^ p) (2 ^ l) ltac:(apply Z.pow_pos_nonneg; lia)). lia.
Qed.

Lemma bits_within (width p l : Z) (sg : bool) (w : Z) :
  bits_fit width p l = true ->
  within (if sg then sext_bits width (width - p - l) (width - l) w else zext_bits p l w) (bits_range l sg).
Proof.
  unfold bits_fit. rewrite !andb_true_iff, !Z.leb_le, Z.ltb_lt. intros [[Hp Hl] Hw].
  destruct sg; [|by apply zext_bits_range]. rewrite sext_bits_signed by lia.
  pose proof (Z.mod_pos_bound (w / 2 ^ p) (2 ^ l) ltac:(apply Z.pow_pos_nonneg; lia)) as Hv.
  unfold within, bits_range, signed. cbn [fst snd].
  assert (2 ^ l = 2 * 2 ^ (l - 1)) by (rewrite <- Z.pow_succ_r by lia; f_equal; lia).
  destruct (Z.ltb_spec ((w / 2 ^ p) mod 2 ^ l) (2 ^ (l - 1))); lia.
Qed.

Lemma append_within width rest r v w :
  forallb (fun s => bits_fit width (pos s) (len s)) rest = true -> within v r ->
  within (fold_left (fun v s => Z.lor (Z.shiftl v (len s)) (zext_bits (pos s) (len s) w)) rest v)
    (fold_left append_range rest r).
Proof.
  revert r v. induction rest as [|s rest IH]; intros r v Hf Hv; [done|]. cbn [fold_left forallb] in *.
  apply andb_true_iff in Hf as [Hs Hf]. apply IH; [done|].
  unfold bits_fit in Hs. rewrite !andb_true_iff, !Z.leb_le, Z.ltb_lt in Hs. destruct Hs as [[Hp Hl] _].
  pose proof (zext_bits_range (pos s) (len s) w Hp Hl) as Hz. unfold within, bits_range in Hz. cbn in Hz.
  rewrite lor_shiftl_add by (unfold in_range; lia). unfold within, append_range in *. cbn [fst snd].
  assert (0 < 2 ^ len s) by (apply Z.pow_pos_nonneg; lia). nia.
Qed.

Lemma func_within fn r v : within v r -> within (func_transform fn v) (func_range fn r).
Proof.
  intros Hv. destruct fn as [fn|]; [|done]. cbn [func_transform func_range].
  repeat (case_match; [rewrite ?Z.shiftl_mul_pow2 by lia; unfold within in *; cbn [fst snd]; try lia|]);
    [|done].
  assert (Hk : (Z.to_nat (Z.land v 7) < 8)%nat).
  { change 7 with (Z.ones 3). rewrite land_ones_wrap by lia.
    pose proof (wrap_range 3 v ltac:(lia)) as Hr. unfold in_range in Hr. lia. }
  generalize dependent (Z.to_nat (Z.land v 7)). intros k Hk.
  do 8 (destruct k as [|k]; [cbn; lia|]). lia.
Qed.

Lemma expr_within width flds m r w v :
  expr_range width flds m = Some r -> field_expr width flds m w = Some v -> within v r.
Proof.
  destruct m as [f|p l sg|c]; cbn [expr_range field_expr].
  - destruct (BTreeMap.get f flds) as [f'|]; [|done]. unfold extract_range, extract_field.
    destruct (segments f') as [|s0 rest]; [done|]. cbn [forallb].
    destruct (bits_fit width (pos s0) (len s0)) eqn:H0; [|done]. cbn [andb].
    destruct (forallb _ rest) eqn:Hr; [|done]. intros [= <-] [= <-].
    by eapply func_within, append_within, bits_within.
  - destruct (bits_fit width p l) eqn:Hf; [|done]. intros [= <-] [= <-]. by apply bits_within.
  - intros [= <-] [= <-]. unfold within. cbn. lia.
Qed.

Definition arg_fields (pd : Parsed) (p : Pattern) : list string :=
  if Text.is_empty (args_name p) then []
  else match BTreeMap.get (args_name p) (argsets pd) with Some a => a_fields a | None => [] end.

(** The range of the argument [k]: zero when the pattern does not map it or the
    argument set does not have it. *)
Definition arg_range (width : Z) (pd : Parsed) (p : Pattern) (k : string) : option (Z * Z) :=
  if existsb (String.eqb k) (arg_fields pd p) then
    match BTreeMap.get k (field_map p) with
    | Some m => expr_range width (fields pd) m
    | None => Some (0, 0)
    end
  else Some (0, 0).

Lemma arg_within width pd p w l k r :
  build_args width pd p w = Some l -> arg_range width pd p k = Some r -> within (field k l) r.
Proof.
  unfold build_args, arg_range. fold (arg_fields pd p). generalize (arg_fields pd p). intros fs.
  revert l. induction fs as [|f fs IH]; intros l.
  - cbn. intros [= <-] [= <-]. done.
  - intros Hl Hr. cbn [mapM] in Hl.
    destruct (match BTreeMap.get f (field_map p) with Some _ => _ | None => _ end) as [[f' v]|] eqn:Ef; [|done].
    destruct (mapM _ fs) as [l'|] eqn:El; [|done]. cbn in Hl. injection Hl as <-.
    cbn [existsb] in Hr. unfold field. cbn [BTreeMap.get].
    assert (f' = f) as ->.
    { destruct (BTreeMap.get f (field_map p)) as [m|]; [|congruence].
      destruct (field_expr _ _ _ _); cbn in Ef; congruence. }
    destruct (String.eqb_spec k f) as [<-|Hne]; cbn [orb] in Hr.
    + destruct (BTreeMap.get k (field_map p)) as [m|]; [|simplify_eq; by cbv].
      destruct (field_expr width (fields pd) m w) as [v'|] eqn:Ev; [|done]. cbn in Ef. simplify_eq.
      by eapply expr_within.
    + by apply IH.
Qed.

(** ** The RISC-V decoders *)

(** The shifts of a full register. *)
Definition full_shift (i : Insn) : option ArgsShift.t :=
  match i with
  | Rv32i_insn (SLLI a | SRLI a | SRAI a) | Zba_insn (SLLI_UW a) | Zbb_insn (RORI a)
  | Zbs_insn (BCLRI a | BEXTI a | BINVI a | BSETI a) => Some a
  | _ => None
  end.

(** The bound on the shift amount of a pattern: 32 for the shifts of a word. *)
Definition shift_bound (nm : string) (n : Z) : Z :=
  if existsb (String.eqb nm) ["slliw"; "srliw"; "sraiw"; "roriw"] then 32 else n.

(** Field values as a pattern can produce them: [n] bounds the shift amount. *)
Definition fields_fit (n : Z) (l : list (string * Z)) : Prop :=
  within (field "rd" l) (0, 31) /\ within (field "rs1" l) (0, 31) /\ within (field "rs2" l) (0, 31)
  /\ within (field "imm" l) (- 2 ^ 63, 2 ^ 63 - 1) /\ within (field "shamt" l) (0, n - 1).

(** An instruction of a table, from fields that fit. *)
Definition method_ok (m : string * (list (string * Z) -> Insn)) : Prop :=
  forall n l, fields_fit (shift_bound m.1 n) l ->
    insn_ok (m.2 l) \/ exists a, full_shift (m.2 l) = Some a /\ 64 <= ArgsShift.shamt a < n.

Lemma methods_ok : Forall method_ok methods.
Proof.
  assert (Hs : forall n k x, within x (0, n - 1) -> 0 <= x < k \/ k <= x < n)
    by (unfold within; cbn; lia).
  unfold methods, methods_rv32i, methods_rv64i, methods_priv, methods_zicsr, methods_rvm, methods_rva,
    methods_zba, methods_zbb, methods_zbc, methods_zbs, methods_zbk, methods_zicbo. cbn [app].
  repeat apply Forall_cons_2; try apply Forall_nil_2; intros n l (Hd & H1 & H2 & Hi & Hsh);
    cbn [snd insn_ok ok_rv32i ok_rv64i ok_rvm ok_zba ok_zbb ok_zbs ok_zbk csr_args atomic_args full_shift];
    try (left; unfold okR, okR2, okI, okS, okB, okA, okC, okSh, is_reg, is_imm, within in *; cbn in *; lia);
    (destruct (Hs n 64 _ Hsh); [left; unfold okSh, is_reg, within in *; cbn in *; lia|right; by eexists _]).
Qed.

(** The ranges of every pattern with a method, by evaluation of the analysis. *)
Definition pattern_fits (width n : Z) (pd : Parsed) (p : Pattern) : bool :=
  negb (BTreeMap.contains_key (name p) methods)
  || forallb (fun kr => match arg_range width pd p kr.1 with Some r => inside r kr.2 | None => false end)
       [("rd", (0, 31)); ("rs1", (0, 31)); ("rs2", (0, 31)); ("imm", (- 2 ^ 63, 2 ^ 63 - 1));
        ("shamt", (0, shift_bound (name p) n - 1))].

Lemma get_In {A} k (m : BTreeMap.t A) v : BTreeMap.get k m = Some v -> (k, v) ∈ m.
Proof.
  induction m as [|[k' v'] m IH]; [done|]. cbn. destruct (String.eqb_spec k k') as [<-|]; [|by right; auto].
  intros [= ->]. by left.
Qed.

Lemma decoded_fits width n pd w i :
  forallb (pattern_fits width n pd) (patterns pd) = true ->
  dispatch_method (decode_fn width pd w) = Matched i ->
  insn_ok i \/ exists a, full_shift i = Some a /\ 64 <= ArgsShift.shamt a < n.
Proof.
  intros Hall. unfold dispatch_method, decode_fn.
  destruct (decode_patterns width pd (patterns pd) w) as [[[nm l]|]|] eqn:Ed; [|done..].
  destruct (BTreeMap.get nm methods) as [mk|] eqn:Em; [|by case_match]. intros [= <-].
  apply decode_patterns_inv in Ed as (p & Hp & _ & -> & Hl).
  rewrite forallb_forall in Hall. specialize (Hall p (proj1 (list_elem_of_In _ _) Hp)).
  unfold pattern_fits, BTreeMap.contains_key in Hall. rewrite Em in Hall. cbn [negb orb forallb fst snd] in Hall.
  pose proof methods_ok as Hm. rewrite Forall_forall in Hm.
  apply (Hm _ (get_In _ _ _ Em)). cbn [fst]. rewrite !andb_true_iff in Hall.
  destruct Hall as (A1 & A2 & A3 & A4 & A5 & _).
  repeat split; match goal with H : context [arg_range _ _ _ ?k] |- context [field ?k] =>
    destruct (arg_range width pd p k) eqn:E; [|done]; eapply inside_within; [exact H|];
    eapply arg_within; done end.
Qed.

(** C27: every word decodes to an instruction whose fields are in range.  Whatever a 32-bit
    or a 16-bit word holds, an instruction decoded from it names registers below 32 and
    immediates of 64 bits, and its shift amount is below the width it shifts; the only
    exceptions are the 32-bit encodings of full-register shifts, whose reserved amounts
    from 64 to 127 the decode file accepts. *)
Theorem decode_fields_in_range w i :
  (decode32 w = Matched i ->
    insn_ok i \/ exists a, full_shift i = Some a /\ 64 <= ArgsShift.shamt a < 128)
  /\ (decode16 w = Matched i -> insn_ok i).
Proof.
  split; intros H.
  - apply (decoded_fits 32 128) in H; [|vm_compute; reflexivity]. done.
  - apply (decoded_fits 16 64) in H; [|vm_compute; reflexivity]. destruct H as [H|(a & _ & Ha)]; [done|lia].
Qed.
