(* ===== verification/RvCsr.v ===== *)
(** * RISC-V control and status registers

    Models [guest/riscv/src/riscv/csr.rs]: the register file of the machine,
    supervisor and user levels, with privilege checks, masked writes, the
    supervisor views of machine registers and the lock bits of the protection
    registers.  The struct is a function from its fields to 64-bit values, the two
    arrays being fields with an index.  The vendor registers of
    [read_for_profile] and [write_for_profile] are in [RvVendor]. *)

From Stdlib Require Import ZArith Lia Bool.
From stdpp Require Import base tactics numbers list relations.
From S2P Require Import Prelude.

(** ** Addresses *)

Notation CSR_MSTATUS := 0x300 (only parsing).
Notation CSR_MISA := 0x301 (only parsing).
Notation CSR_MEDELEG := 0x302 (only parsing).
Notation CSR_MIDELEG := 0x303 (only parsing).
Notation CSR_MIE := 0x304 (only parsing).
Notation CSR_MTVEC := 0x305 (only parsing).
Notation CSR_MCOUNTEREN := 0x306 (only parsing).
Notation CSR_MSCRATCH := 0x340 (only parsing).
Notation CSR_MEPC := 0x341 (only parsing).
Notation CSR_MCAUSE := 0x342 (only parsing).
Notation CSR_MTVAL := 0x343 (only parsing).
Notation CSR_MIP := 0x344 (only parsing).
Notation CSR_MENVCFG := 0x30A (only parsing).
Notation CSR_MCOUNTINHIBIT := 0x320 (only parsing).
Notation CSR_MHARTID := 0xF14 (only parsing).
Notation CSR_MVENDORID := 0xF11 (only parsing).
Notation CSR_MARCHID := 0xF12 (only parsing).
Notation CSR_MIMPID := 0xF13 (only parsing).
Notation CSR_PMPCFG0 := 0x3A0 (only parsing).
Notation CSR_PMPCFG2 := 0x3A2 (only parsing).
Notation CSR_PMPADDR0 := 0x3B0 (only parsing).
Notation CSR_SSTATUS := 0x100 (only parsing).
Notation CSR_SIE := 0x104 (only parsing).
Notation CSR_STVEC := 0x105 (only parsing).
Notation CSR_SCOUNTEREN := 0x106 (only parsing).
Notation CSR_SSCRATCH := 0x140 (only parsing).
Notation CSR_SEPC := 0x141 (only parsing).
Notation CSR_SCAUSE := 0x142 (only parsing).
Notation CSR_STVAL := 0x143 (only parsing).
Notation CSR_SIP := 0x144 (only parsing).
Notation CSR_SATP := 0x180 (only parsing).
Notation CSR_MCYCLE := 0xB00 (only parsing).
Notation CSR_MINSTRET := 0xB02 (only parsing).
Notation CSR_CYCLE := 0xC00 (only parsing).
Notation CSR_TIME := 0xC01 (only parsing).
Notation CSR_INSTRET := 0xC02 (only parsing).
Notation CSR_VLENB := 0xC22 (only parsing).
Notation CSR_TSELECT := 0x7A0 (only parsing).
Notation CSR_TDATA1 := 0x7A1 (only parsing).
Notation CSR_TDATA2 := 0x7A2 (only parsing).
Notation CSR_TDATA3 := 0x7A3 (only parsing).
Notation CSR_TCONTROL := 0x7A5 (only parsing).
Notation CSR_FFLAGS := 0x001 (only parsing).
Notation CSR_FRM := 0x002 (only parsing).
Notation CSR_FCSR := 0x003 (only parsing).

Definition PMPCFG_L : Z := 2 ^ 7.
Definition PMPCFG_A_MASK : Z := Z.shiftl 3 3.
Definition PMPCFG_A_TOR : Z := Z.shiftl 1 3.
Definition PMP_COUNT : Z := 16.

(** ** Bits of [mstatus] *)

Definition MSTATUS_SIE : Z := 2 ^ 1.
Definition MSTATUS_MIE : Z := 2 ^ 3.
Definition MSTATUS_SPIE : Z := 2 ^ 5.
Definition MSTATUS_MPIE : Z := 2 ^ 7.
Definition MSTATUS_SPP : Z := 2 ^ 8.
Definition MSTATUS_MPP : Z := Z.shiftl 3 11.
Definition MSTATUS_FS : Z := Z.shiftl 3 13.
Definition MSTATUS_XS : Z := Z.shiftl 3 15.
Definition MSTATUS_MPRV : Z := 2 ^ 17.
Definition MSTATUS_SUM : Z := 2 ^ 18.
Definition MSTATUS_MXR : Z := 2 ^ 19.
Definition MSTATUS_TVM : Z := 2 ^ 20.
Definition MSTATUS_TW : Z := 2 ^ 21.
Definition MSTATUS_TSR : Z := 2 ^ 22.
Definition MSTATUS_UXL : Z := Z.shiftl 3 32.
Definition MSTATUS_SD : Z := 2 ^ 63.
Definition MSTATUS_UXL_64 : Z := Z.shiftl 2 32.
Definition MSTATUS_SXL_64 : Z := Z.shiftl 2 34.

Definition MSTATUS_WRITE_MASK : Z :=
  fold_left Z.lor [MSTATUS_SIE; MSTATUS_MIE; MSTATUS_SPIE; MSTATUS_MPIE; MSTATUS_SPP; MSTATUS_MPP; MSTATUS_FS; MSTATUS_MPRV; MSTATUS_SUM; MSTATUS_MXR; MSTATUS_TVM; MSTATUS_TW; MSTATUS_TSR] 0.

Definition SSTATUS_MASK : Z :=
  fold_left Z.lor [MSTATUS_SIE; MSTATUS_SPIE; MSTATUS_SPP; MSTATUS_FS; MSTATUS_XS; MSTATUS_SUM; MSTATUS_MXR; MSTATUS_UXL; MSTATUS_SD] 0.

Definition SSTATUS_WRITE_MASK : Z :=
  fold_left Z.lor [MSTATUS_SIE; MSTATUS_SPIE; MSTATUS_SPP; MSTATUS_FS; MSTATUS_SUM; MSTATUS_MXR] 0.

Definition SIP_MASK : Z := Z.lor (Z.lor (2 ^ 1) (2 ^ 5)) (2 ^ 9).
Definition FFLAGS_MASK : Z := 0x1F.
Definition FRM_MASK : Z := 0x07.
Definition MXL_64 : Z := Z.shiftl 2 62.

Definition misa_rv64imafdcsu : Z :=
  fold_left Z.lor [2 ^ 0; 2 ^ 2; 2 ^ 3; 2 ^ 5; 2 ^ 8; 2 ^ 12; 2 ^ 18; 2 ^ 20] MXL_64.

Definition MEDELEG_MASK : Z :=
  fold_left Z.lor
    [2 ^ 0; 2 ^ 1; 2 ^ 2; 2 ^ 3; 2 ^ 4; 2 ^ 5; 2 ^ 6; 2 ^ 7; 2 ^ 8; 2 ^ 12; 2 ^ 13; 2 ^ 15] 0.

Definition CAUSE_ILLEGAL_INSN : Z := 2.

(** ** Privilege levels *)

Inductive PrivLevel := User | Supervisor | Machine.

Global Instance PrivLevel_eq_dec : EqDecision PrivLevel.
Proof. solve_decision. Defined.

Definition priv_u64 (p : PrivLevel) : Z :=
  match p with User => 0 | Supervisor => 1 | Machine => 3 end.

Definition priv_lt (p q : PrivLevel) : bool := priv_u64 p <? priv_u64 q.

Definition required (addr : Z) : PrivLevel :=
  let b := Z.land (shr addr 8) 3 in
  if b =? 0 then User else if b =? 1 then Supervisor else Machine.

(** ** The register file *)

Inductive Reg :=
| mstatus | misa | medeleg | mideleg | mie | mtvec | mcounteren | mscratch | mepc
| mcause | mtval | mip | menvcfg | mcountinhibit
| pmpcfg (i : Z) | pmpaddr (i : Z)
| satp | sscratch | sepc | scause | stval | stvec | scounteren
| cycle | instret | fflags | frm
| hart_id | mvendorid | marchid | max_satp_mode.

Global Instance Reg_eq_dec : EqDecision Reg.
Proof. solve_decision. Defined.

Definition CsrFile := Reg -> Z.

Definition set (r : Reg) (v : Z) (c : CsrFile) : CsrFile :=
  fun r' => if decide (r' = r) then v else c r'.

Definition new : CsrFile := fun r =>
  match r with
  | mstatus => 2 ^ 13
  | misa => misa_rv64imafdcsu
  | max_satp_mode => 8
  | _ => 0
  end.

Definition set_machine_ids (vendor arch : Z) (c : CsrFile) : CsrFile :=
  set marchid arch (set mvendorid vendor c).

Definition set_max_satp_mode (m : Z) (c : CsrFile) : CsrFile := set max_satp_mode m c.

Definition sd_bit (c : CsrFile) : Z :=
  let fs := Z.land (c mstatus) MSTATUS_FS in
  let xs := Z.land (c mstatus) MSTATUS_XS in
  if (fs =? MSTATUS_FS) || (xs =? MSTATUS_XS) then MSTATUS_SD else 0.

Definition in_hpm (addr : Z) : bool :=
  ((0xB03 <=? addr) && (addr <=? 0xB1F)) || ((0x323 <=? addr) && (addr <=? 0x33F)).

Definition is_pmpaddr (addr : Z) : bool :=
  (CSR_PMPADDR0 <=? addr) && (addr <? CSR_PMPADDR0 + PMP_COUNT).

Definition is_debug (addr : Z) : bool :=
  (addr =? CSR_TSELECT) || (addr =? CSR_TDATA1) || (addr =? CSR_TDATA2)
  || (addr =? CSR_TDATA3) || (addr =? CSR_TCONTROL).

(** The arms of the [match] in [read], in order. *)
Definition read_arm (c : CsrFile) (addr : Z) (p : PrivLevel) : result Z Z :=
  if addr =? CSR_MSTATUS then
    Ok (Z.lor (Z.lor (Z.lor (c mstatus) (sd_bit c)) MSTATUS_UXL_64) MSTATUS_SXL_64)
  else if addr =? CSR_MISA then Ok (c misa)
  else if addr =? CSR_MEDELEG then Ok (c medeleg)
  else if addr =? CSR_MIDELEG then Ok (c mideleg)
  else if addr =? CSR_MIE then Ok (c mie)
  else if addr =? CSR_MTVEC then Ok (c mtvec)
  else if addr =? CSR_MCOUNTEREN then Ok (c mcounteren)
  else if addr =? CSR_MSCRATCH then Ok (c mscratch)
  else if addr =? CSR_MEPC then Ok (c mepc)
  else if addr =? CSR_MCAUSE then Ok (c mcause)
  else if addr =? CSR_MTVAL then Ok (c mtval)
  else if addr =? CSR_MIP then Ok (c mip)
  else if addr =? CSR_MENVCFG then Ok (c menvcfg)
  else if addr =? CSR_MCOUNTINHIBIT then Ok (c mcountinhibit)
  else if (addr =? CSR_PMPCFG0) || (addr =? CSR_PMPCFG2) then
    Ok (c (pmpcfg ((addr - CSR_PMPCFG0) / 2)))
  else if (addr =? CSR_PMPCFG0 + 1) || (addr =? CSR_PMPCFG0 + 3) then Ok 0
  else if is_pmpaddr addr then Ok (c (pmpaddr (addr - CSR_PMPADDR0)))
  else if addr =? CSR_SSTATUS then
    Ok (Z.land (Z.lor (Z.lor (c mstatus) (sd_bit c)) MSTATUS_UXL_64) SSTATUS_MASK)
  else if addr =? CSR_SIE then Ok (Z.land (Z.land (c mie) (c mideleg)) SIP_MASK)
  else if addr =? CSR_STVEC then Ok (c stvec)
  else if addr =? CSR_SCOUNTEREN then Ok (c scounteren)
  else if addr =? CSR_SSCRATCH then Ok (c sscratch)
  else if addr =? CSR_SEPC then Ok (c sepc)
  else if addr =? CSR_SCAUSE then Ok (c scause)
  else if addr =? CSR_STVAL then Ok (c stval)
  else if addr =? CSR_SIP then Ok (Z.land (Z.land (c mip) (c mideleg)) SIP_MASK)
  else if addr =? CSR_SATP then
    if bool_decide (p = Supervisor) && has (c mstatus) MSTATUS_TVM then Err CAUSE_ILLEGAL_INSN
    else Ok (c satp)
  else if addr =? CSR_MHARTID then Ok (c hart_id)
  else if addr =? CSR_MVENDORID then Ok (c mvendorid)
  else if addr =? CSR_MARCHID then Ok (c marchid)
  else if addr =? CSR_MIMPID then Ok 0
  else if (addr =? CSR_CYCLE) || (addr =? CSR_TIME) then Ok (c cycle)
  else if addr =? CSR_INSTRET then Ok (c instret)
  else if addr =? CSR_MCYCLE then Ok (c cycle)
  else if addr =? CSR_MINSTRET then Ok (c instret)
  else if is_debug addr then Ok 0
  else if addr =? CSR_FFLAGS then Ok (Z.land (c fflags) FFLAGS_MASK)
  else if addr =? CSR_FRM then Ok (Z.land (c frm) FRM_MASK)
  else if addr =? CSR_FCSR then
    Ok (Z.lor (Z.land (c fflags) FFLAGS_MASK) (shl 64 (Z.land (c frm) FRM_MASK) 5))
  else if in_hpm addr then Ok 0
  else if addr =? CSR_VLENB then Ok 0
  else Err CAUSE_ILLEGAL_INSN.

Definition read (c : CsrFile) (addr : Z) (p : PrivLevel) : result Z Z :=
  if priv_lt p (required addr) then Err CAUSE_ILLEGAL_INSN else read_arm c addr p.

(** *** Locked protection registers *)

Definition pmpcfg_byte (c : CsrFile) (entry : Z) : Z :=
  Z.land (shr (c (pmpcfg (entry / 8))) ((entry mod 8) * 8)) 0xff.

(** One byte of [write_pmpcfg]: skipped when the entry is locked. *)
Definition write_byte (c : CsrFile) (csr val next byte : Z) : Z :=
  let mask := Z.shiftl 0xff (byte * 8) in
  if has (pmpcfg_byte c (csr * 8 + byte)) PMPCFG_L then next
  else Z.lor (Z.land next (bnot 64 mask)) (Z.land val mask).

Definition write_pmpcfg (csr val : Z) (c : CsrFile) : CsrFile :=
  set (pmpcfg csr) (fold_left (write_byte c csr val) [0; 1; 2; 3; 4; 5; 6; 7] (c (pmpcfg csr))) c.

Definition pmpaddr_locked (c : CsrFile) (entry : Z) : bool :=
  if has (pmpcfg_byte c entry) PMPCFG_L then true
  else if PMP_COUNT <=? entry + 1 then false
  else
    let next_cfg := pmpcfg_byte c (entry + 1) in
    has next_cfg PMPCFG_L && (Z.land next_cfg PMPCFG_A_MASK =? PMPCFG_A_TOR).

(** *** Writes *)

Definition masked (old val mask : Z) : Z := Z.lor (Z.land old (bnot 64 mask)) (Z.land val mask).

(** The arms of the [match] in [write]: the new file, or the error. *)
Definition write_arm (c : CsrFile) (addr val : Z) (p : PrivLevel) : result CsrFile Z :=
  if addr =? CSR_MSTATUS then Ok (set mstatus (masked (c mstatus) val MSTATUS_WRITE_MASK) c)
  else if addr =? CSR_MISA then Ok c
  else if addr =? CSR_MEDELEG then Ok (set medeleg (Z.land val MEDELEG_MASK) c)
  else if addr =? CSR_MIDELEG then Ok (set mideleg (Z.land val SIP_MASK) c)
  else if addr =? CSR_MIE then Ok (set mie val c)
  else if addr =? CSR_MTVEC then Ok (set mtvec val c)
  else if addr =? CSR_MCOUNTEREN then Ok (set mcounteren (Z.land val 0x7) c)
  else if addr =? CSR_MSCRATCH then Ok (set mscratch val c)
  else if addr =? CSR_MEPC then Ok (set mepc (Z.land val (bnot 64 1)) c)
  else if addr =? CSR_MCAUSE then Ok (set mcause val c)
  else if addr =? CSR_MTVAL then Ok (set mtval val c)
  else if addr =? CSR_MIP then Ok (set mip (masked (c mip) val SIP_MASK) c)
  else if addr =? CSR_MENVCFG then Ok (set menvcfg val c)
  else if addr =? CSR_MCOUNTINHIBIT then Ok (set mcountinhibit (Z.land val 0x7) c)
  else if (addr =? CSR_PMPCFG0) || (addr =? CSR_PMPCFG2) then
    Ok (write_pmpcfg ((addr - CSR_PMPCFG0) / 2) val c)
  else if (addr =? CSR_PMPCFG0 + 1) || (addr =? CSR_PMPCFG0 + 3) then Ok c
  else if is_pmpaddr addr then
    let idx := addr - CSR_PMPADDR0 in
    Ok (if negb (pmpaddr_locked c idx) then set (pmpaddr idx) val c else c)
  else if addr =? CSR_SSTATUS then
    Ok (set mstatus (masked (c mstatus) val SSTATUS_WRITE_MASK) c)
  else if addr =? CSR_SIE then
    Ok (set mie (masked (c mie) val (Z.land (c mideleg) SIP_MASK)) c)
  else if addr =? CSR_STVEC then Ok (set stvec val c)
  else if addr =? CSR_SCOUNTEREN then Ok (set scounteren (Z.land val 0x7) c)
  else if addr =? CSR_SSCRATCH then Ok (set sscratch val c)
  else if addr =? CSR_SEPC then Ok (set sepc (Z.land val (bnot 64 1)) c)
  else if addr =? CSR_SCAUSE then Ok (set scause val c)
  else if addr =? CSR_STVAL then Ok (set stval val c)
  else if addr =? CSR_SIP then
    Ok (set mip (masked (c mip) val (Z.land (c mideleg) SIP_MASK)) c)
  else if addr =? CSR_SATP then
    if bool_decide (p = Supervisor) && has (c mstatus) MSTATUS_TVM then Err CAUSE_ILLEGAL_INSN
    else
      let mode := Z.land (shr val 60) 0xF in
      Ok (if (mode =? 0) || ((8 <=? mode) && (mode <=? c max_satp_mode))
          then set satp val c else c)
  else if addr =? CSR_FFLAGS then Ok (set fflags (Z.land val FFLAGS_MASK) c)
  else if addr =? CSR_FRM then Ok (set frm (Z.land val FRM_MASK) c)
  else if addr =? CSR_FCSR then
    Ok (set frm (Z.land (shr val 5) FRM_MASK) (set fflags (Z.land val FFLAGS_MASK) c))
  else if addr =? CSR_MCYCLE then Ok (set cycle val c)
  else if addr =? CSR_MINSTRET then Ok (set instret val c)
  else if is_debug addr then Ok c
  else if in_hpm addr then Ok c
  else Err CAUSE_ILLEGAL_INSN.

(** A failing write returns before it changes the file. *)
Definition write (c : CsrFile) (addr val : Z) (p : PrivLevel) : result CsrFile Z :=
  if priv_lt p (required addr) then Err CAUSE_ILLEGAL_INSN
  else if Z.land (shr addr 10) 3 =? 3 then Err CAUSE_ILLEGAL_INSN
  else write_arm c addr val p.

(** ** Registers and masks *)

Lemma set_eq r v c : set r v c r = v.
Proof. unfold set. by rewrite decide_True. Qed.

Lemma set_ne r r' v c : r' <> r -> set r v c r' = c r'.
Proof. intros. unfold set. by rewrite decide_False. Qed.

(** The bits outside [mask] are those of the old value. *)
Definition kept (old new mask : Z) : Prop :=
  Z.land new (bnot 64 mask) = Z.land old (bnot 64 mask).

Lemma kept_refl old mask : kept old old mask.
Proof. done. Qed.

Lemma kept_masked old val mask : kept old (masked old val mask) mask.
Proof.
  unfold kept, masked. zbits.
  destruct ((0 <=? i) && (i <? 64)), (Z.testbit old i), (Z.testbit val i), (Z.testbit mask i);
    done.
Qed.

#[export] Hint Resolve kept_refl kept_masked : csr.

(** Addresses [0x3xx] belong to the machine level. *)
Lemma required_machine addr : 0x300 <= addr < 0x400 -> required addr = Machine.
Proof.
  intros H. unfold required, shr. rewrite Z.shiftr_div_pow2 by lia.
  assert (addr / 2 ^ 8 = 3) as -> by (symmetry; apply (Z.div_unique _ _ _ (addr - 3 * 2 ^ 8)); lia).
  done.
Qed.

Lemma not_machine_lt p addr :
  p <> Machine -> required addr = Machine -> priv_lt p (required addr) = true.
Proof. intros Hp ->. by destruct p. Qed.

(** Case analysis on the arms of [write_arm], one test at a time. *)
Ltac csr_arm H :=
  match type of H with
  | (if ?b then _ else _) = _ => destruct b eqn:?
  end.

Ltac csr_const :=
  repeat match goal with
  | H : (_ || _) = true |- _ => apply orb_true_iff in H as [H|H]
  | H : (?a =? ?b) = true |- _ => apply Z.eqb_eq in H; subst a
  end.

(** ** Supervisor and user writes are confined *)

Definition u_regs : list Reg := [fflags; frm].
Definition s_regs : list Reg :=
  [mstatus; mie; mip; stvec; scounteren; sscratch; sepc; scause; stval; satp; fflags; frm].

Definition s_mask (c : CsrFile) : Z := Z.land (c mideleg) SIP_MASK.

Record confined (regs : list Reg) (c c' : CsrFile) : Prop := mk_confined {
  cf_regs : forall r, r ∉ regs -> c' r = c r;
  cf_mstatus : kept (c mstatus) (c' mstatus) SSTATUS_WRITE_MASK;
  cf_mie : kept (c mie) (c' mie) (s_mask c);
  cf_mip : kept (c mip) (c' mip) (s_mask c)
}.

Lemma confined_refl regs c : confined regs c c.
Proof. split; auto with csr. Qed.

(** A register of the list that is not one of the three shared ones. *)
Lemma confined_set regs c r v :
  r ∈ regs -> r ∉ [mstatus; mie; mip] -> confined regs c (set r v c).
Proof.
  intros Hr Hn. split; [intros r' Hr'; apply set_ne; set_solver|..];
    rewrite set_ne by set_solver; apply kept_refl.
Qed.

Lemma confined_set2 regs c r v r' v' :
  r ∈ regs -> r ∉ [mstatus; mie; mip] -> r' ∈ regs -> r' ∉ [mstatus; mie; mip] ->
  confined regs c (set r v (set r' v' c)).
Proof.
  intros Hr Hn Hr' Hn'. split; [intros r0 Hr0; rewrite !set_ne; set_solver|..];
    rewrite !set_ne by set_solver; apply kept_refl.
Qed.

Lemma confined_shared regs c r v mask :
  r ∈ regs ->
  (r = mstatus /\ mask = SSTATUS_WRITE_MASK \/ r = mie /\ mask = s_mask c \/
   r = mip /\ mask = s_mask c) ->
  confined regs c (set r (masked (c r) v mask) c).
Proof.
  intros Hr Hm. split; [intros r' Hr'; apply set_ne; set_solver|..];
    destruct Hm as [[-> ->]|[[-> ->]|[-> ->]]];
    (rewrite set_eq || rewrite set_ne by done); auto with csr.
Qed.

(** The arms an access below machine level can reach. *)
Definition write_low (c : CsrFile) (addr val : Z) (p : PrivLevel) : result CsrFile Z :=
  if addr =? CSR_SSTATUS then
    Ok (set mstatus (masked (c mstatus) val SSTATUS_WRITE_MASK) c)
  else if addr =? CSR_SIE then Ok (set mie (masked (c mie) val (s_mask c)) c)
  else if addr =? CSR_STVEC then Ok (set stvec val c)
  else if addr =? CSR_SCOUNTEREN then Ok (set scounteren (Z.land val 0x7) c)
  else if addr =? CSR_SSCRATCH then Ok (set sscratch val c)
  else if addr =? CSR_SEPC then Ok (set sepc (Z.land val (bnot 64 1)) c)
  else if addr =? CSR_SCAUSE then Ok (set scause val c)
  else if addr =? CSR_STVAL then Ok (set stval val c)
  else if addr =? CSR_SIP then Ok (set mip (masked (c mip) val (s_mask c)) c)
  else if addr =? CSR_SATP then
    if bool_decide (p = Supervisor) && has (c mstatus) MSTATUS_TVM then Err CAUSE_ILLEGAL_INSN
    else
      let mode := Z.land (shr val 60) 0xF in
      Ok (if (mode =? 0) || ((8 <=? mode) && (mode <=? c max_satp_mode))
          then set satp val c else c)
  else if addr =? CSR_FFLAGS then Ok (set fflags (Z.land val FFLAGS_MASK) c)
  else if addr =? CSR_FRM then Ok (set frm (Z.land val FRM_MASK) c)
  else if addr =? CSR_FCSR then
    Ok (set frm (Z.land (shr val 5) FRM_MASK) (set fflags (Z.land val FFLAGS_MASK) c))
  else if in_hpm addr then Ok c
  else Err CAUSE_ILLEGAL_INSN.

Lemma machine_test addr k :
  required addr <> Machine -> required k = Machine -> (addr =? k) = false.
Proof. intros Hn Hk. apply Z.eqb_neq. intros ->. done. Qed.

Lemma write_arm_low c addr val p :
  required addr <> Machine -> write_arm c addr val p = write_low c addr val p.
Proof.
  intros Hn. unfold write_arm, is_debug.
  repeat match goal with
  | |- context [addr =? ?k] => rewrite (machine_test addr k Hn eq_refl)
  end.
  assert (is_pmpaddr addr = false) as ->.
  { destruct (is_pmpaddr addr) eqn:E; [|done]. destruct Hn. apply required_machine.
    unfold is_pmpaddr, PMP_COUNT in E. lia. }
  done.
Qed.

Lemma required_low p addr :
  p <> Machine -> priv_lt p (required addr) = false ->
  required addr <> Machine /\ (p = User -> required addr = User).
Proof. intros Hp. unfold priv_lt. by destruct p, (required addr). Qed.

Ltac confined_step :=
  match goal with
  | |- confined _ ?c ?c => apply confined_refl
  | |- confined _ ?c (set _ (masked _ _ _) ?c) => apply confined_shared; [set_solver|by auto]
  | |- confined _ ?c (set _ _ (set _ _ ?c)) => apply confined_set2; set_solver
  | |- confined _ ?c (set _ _ ?c) => apply confined_set; set_solver
  | |- confined _ _ (if ?b then _ else _) => destruct b
  end.

Lemma write_confined c addr val p c' :
  write c addr val p = Ok c' -> p <> Machine ->
  confined (if decide (p = User) then u_regs else s_regs) c c'.
Proof.
  unfold write. intros H Hp. destruct (priv_lt p (required addr)) eqn:Hreq; [done|].
  destruct (required_low p addr Hp Hreq) as [Hn Hu].
  destruct (Z.land (shr addr 10) 3 =? 3); [done|]. rewrite write_arm_low in H by done.
  unfold write_low in H. destruct (decide (p = User)) as [->|Hs].
  - specialize (Hu eq_refl).
    repeat match type of H with
    | context [addr =? ?k] =>
        rewrite (proj2 (Z.eqb_neq addr k)) in H by (intros ->; discriminate Hu)
    end.
    repeat csr_arm H; try done; apply Ok_inj in H as <-; repeat confined_step.
  - repeat csr_arm H; try done; apply Ok_inj in H as <-; repeat confined_step.
Qed.

(** ** Locked protection entries never change *)

Definition entry_locked (c : CsrFile) (i : Z) : bool := has (pmpcfg_byte c i) PMPCFG_L.

Definition entry_tor (c : CsrFile) (i : Z) : bool :=
  Z.land (pmpcfg_byte c i) PMPCFG_A_MASK =? PMPCFG_A_TOR.

Lemma testbit_byte (c : CsrFile) (e k : Z) :
  0 <= k -> 0 <= e ->
  Z.testbit (pmpcfg_byte c e) k
  = (k <? 8) && Z.testbit (c (pmpcfg (e / 8))) (k + e mod 8 * 8).
Proof.
  intros Hk He. unfold pmpcfg_byte, shr. change 0xff with (Z.ones 8).
  rewrite Z.land_spec, testbit_ones by lia. pose proof (Z.mod_pos_bound e 8).
  rewrite Z.shiftr_spec by lia. rewrite andb_comm. f_equal.
  destruct (Z.leb_spec 0 k); [done|lia].
Qed.

(** A write to the configuration register leaves the bits of a locked entry. *)
Lemma write_byte_keeps c csr val next byte b k :
  0 <= b < 8 -> 0 <= byte < 8 -> entry_locked c (csr * 8 + b) = true ->
  b * 8 <= k < b * 8 + 8 ->
  Z.testbit (write_byte c csr val next byte) k = Z.testbit next k.
Proof.
  intros Hb Hbyte Hl Hk. unfold write_byte. destruct (has (pmpcfg_byte c (csr * 8 + byte)) PMPCFG_L) eqn:E; [done|].
  assert (byte <> b) as Hne. { intros ->. unfold entry_locked in Hl. congruence. }
  change 0xff with (Z.ones 8). rewrite Z.lor_spec, !Z.land_spec, testbit_bnot by lia.
  rewrite !Z.shiftl_spec, !testbit_ones by lia.
  assert ((0 <=? k - byte * 8) && (k - byte * 8 <? 8) = false) as ->.
  { destruct (Z.leb_spec 0 (k - byte * 8)), (Z.ltb_spec (k - byte * 8) 8); simpl; lia. }
  rewrite andb_false_r, orb_false_r. destruct (Z.leb_spec 0 k), (Z.ltb_spec k 64); simpl; try lia.
  by rewrite andb_true_r.
Qed.

Lemma write_pmpcfg_keeps c csr val i :
  0 <= csr -> 0 <= i -> entry_locked c i = true ->
  pmpcfg_byte (write_pmpcfg csr val c) i = pmpcfg_byte c i.
Proof.
  intros Hcsr Hi Hl. destruct (decide (i / 8 = csr)) as [<-|Hne].
  2: { unfold pmpcfg_byte, write_pmpcfg. by rewrite set_ne by congruence. }
  pose proof (Z.mod_pos_bound i 8). pose proof (Z.div_mod i 8).
  apply Z.bits_inj'. intros k Hk. rewrite !testbit_byte by done.
  destruct (Z.ltb_spec k 8); [|done]. simpl. unfold write_pmpcfg. rewrite set_eq.
  assert (Hfold : forall l next, (forall b, b ∈ l -> 0 <= b < 8) ->
    Z.testbit (fold_left (write_byte c (i / 8) val) l next) (k + i mod 8 * 8)
    = Z.testbit next (k + i mod 8 * 8)).
  { induction l as [|b l IH]; intros next Hl'; [done|]. simpl.
    rewrite IH by (intros; apply Hl'; by right).
    apply (write_byte_keeps c (i / 8) val next b (i mod 8)); [lia|apply Hl'; by left| |lia].
    replace (i / 8 * 8 + i mod 8) with i by lia. done. }
  apply Hfold. intros b Hb. set_unfold. naive_solver lia.
Qed.

(** What one write may do to the protection registers. *)
Inductive pmp_effect (c : CsrFile) : CsrFile -> Prop :=
| pmp_none c' :
    (forall i, c' (pmpcfg i) = c (pmpcfg i) /\ c' (pmpaddr i) = c (pmpaddr i)) ->
    pmp_effect c c'
| pmp_cfg csr val : 0 <= csr -> pmp_effect c (write_pmpcfg csr val c)
| pmp_addr i val : pmpaddr_locked c i = false -> pmp_effect c (set (pmpaddr i) val c).

Ltac pmp_step :=
  match goal with
  | |- pmp_effect ?c ?c => by apply pmp_none
  | |- pmp_effect ?c (set (pmpaddr _) _ ?c) => apply pmp_addr; by apply negb_true_iff
  | |- pmp_effect ?c (set _ _ _) => by apply pmp_none; intros; rewrite !set_ne by done
  | |- pmp_effect ?c (write_pmpcfg _ _ ?c) => apply pmp_cfg; by csr_const
  | |- pmp_effect _ (if ?b then _ else _) => destruct b eqn:?
  end.

Lemma write_pmp_effect c addr val p c' : write c addr val p = Ok c' -> pmp_effect c c'.
Proof.
  unfold write. intros H. destruct (priv_lt p (required addr)); [done|].
  destruct (Z.land (shr addr 10) 3 =? 3); [done|]. unfold write_arm in H.
  repeat csr_arm H; try done; apply Ok_inj in H as <-; repeat pmp_step.
Qed.

Definition csr_step (c c' : CsrFile) : Prop := exists addr val p, write c addr val p = Ok c'.

(** What a locked entry fixes: its configuration, its address, and the address
    below it when it bounds its range. *)
Definition lock_kept (i : Z) (c c' : CsrFile) : Prop :=
  pmpcfg_byte c' i = pmpcfg_byte c i /\ c' (pmpaddr i) = c (pmpaddr i) /\
  (entry_tor c i = true -> 0 < i -> c' (pmpaddr (i - 1)) = c (pmpaddr (i - 1))).

Lemma lock_kept_step i c c' :
  0 <= i < PMP_COUNT -> entry_locked c i = true -> csr_step c c' -> lock_kept i c c'.
Proof.
  intros Hi Hl (addr & val & p & H%write_pmp_effect). unfold PMP_COUNT in Hi.
  destruct H as [c' Hsame|csr v Hcsr|j v Hj].
  - split_and!; [unfold pmpcfg_byte; by rewrite (proj1 (Hsame _))|apply Hsame|intros; apply Hsame].
  - split_and!; [by apply write_pmpcfg_keeps; [| lia|]|..]; intros; unfold write_pmpcfg; by rewrite set_ne.
  - unfold pmpaddr_locked in Hj. split_and!.
    + unfold pmpcfg_byte. by rewrite set_ne.
    + rewrite set_ne; [done|]. intros [= <-]. unfold entry_locked in Hl. by rewrite Hl in Hj.
    + intros Ht Hpos. rewrite set_ne; [done|]. intros [= <-].
      destruct (has (pmpcfg_byte c (i - 1)) PMPCFG_L); [done|].
      replace (i - 1 + 1) with i in Hj by lia. unfold PMP_COUNT in Hj.
      destruct (Z.leb_spec 16 i); [lia|]. unfold entry_locked, entry_tor in *.
      by rewrite Hl, Ht in Hj.
Qed.

Lemma lock_kept_steps i c c' :
  0 <= i < PMP_COUNT -> rtc csr_step c c' -> entry_locked c i = true -> lock_kept i c c'.
Proof.
  intros Hi. induction 1 as [c|c c1 c' Hs _ IH]; intros Hl; [by split_and!|].
  destruct (lock_kept_step i c c1 Hi Hl Hs) as (Eb & Ea & Et).
  destruct IH as (Eb' & Ea' & Et'); [unfold entry_locked in *; by rewrite Eb|].
  split_and!; [congruence|congruence|]. intros Htor Hpos.
  assert (entry_tor c1 i = true) by (unfold entry_tor in *; by rewrite Eb).
  by rewrite Et', Et by done.
Qed.

(** ** Properties *)



(** A locked protection entry is locked for good: no sequence of register
    writes, from any privilege level, changes its configuration byte, its address,
    or the address register below it when it is the top of a range. *)
Theorem pmp_lock_permanent (c c' : CsrFile) (i : Z) :
  0 <= i < PMP_COUNT -> rtc csr_step c c' -> entry_locked c i = true -> lock_kept i c c'.
Proof. apply lock_kept_steps. Qed.

Lemma pmp_lock_permanent_witness :
  let c := set (pmpcfg 0) 0x8F00 new in
  exists c', csr_step c c' /\ lock_kept 1 c c'.
Proof.
  intros c. assert (H : exists c', write c CSR_PMPCFG0 0 Machine = Ok c') by (eexists; reflexivity).
  destruct H as (c' & H). assert (Hs : csr_step c c') by (exists CSR_PMPCFG0, 0, Machine; exact H).
  exists c'. split; [exact Hs|].
  apply (pmp_lock_permanent c c' 1); [split; vm_compute; congruence|by apply rtc_once|reflexivity].
Defined.

