(* ===== verification/RvVendor.v ===== *)
(** * CPU models and vendor registers

    Models [guest/riscv/src/riscv/cpu_model.rs] and
    [guest/riscv/src/riscv/vendor/thead.rs]: the two CPU profiles, the T-Head vendor
    registers, and the register accesses of [csr.rs] that fall back to them.  Of the
    extension table of a profile the flags the MMU and the vendor registers read are
    kept. *)

From Stdlib Require Import ZArith Lia Bool.
From stdpp Require Import base tactics numbers list.
From S2P Require Import Prelude RvCsr.

Inductive RiscvVendor := Generic | Thead.

Global Instance RiscvVendor_eq_dec : EqDecision RiscvVendor.
Proof. solve_decision. Defined.

Inductive RiscvCpuModel := GenericRv64 | TheadC908.

Notation THEAD_VENDOR_ID := 0x5b7 (only parsing).
Notation THEAD_C908_MARCHID := 0x8d143000 (only parsing).

Record RiscvCpuProfile := mk_Profile {
  vendor : RiscvVendor;
  cfg_svpbmt : bool;
  cfg_ssvnapot : bool;
  cfg_xtheadmaee : bool;
  prof_mvendorid : Z;
  prof_marchid : Z;
  prof_max_satp_mode : Z
}.

Definition generic_rv64 : RiscvCpuProfile := mk_Profile Generic false false false 0 0 8.

Definition thead_c908 : RiscvCpuProfile :=
  mk_Profile Thead true true true THEAD_VENDOR_ID THEAD_C908_MARCHID 9.

Definition profile_of (m : RiscvCpuModel) : RiscvCpuProfile :=
  match m with GenericRv64 => generic_rv64 | TheadC908 => thead_c908 end.

(** ** T-Head registers *)

Notation CSR_TH_MXSTATUS := 0x7c0 (only parsing).
Notation CSR_TH_SXSTATUS := 0x5c0 (only parsing).
Notation CSR_TH_FXCR := 0x800 (only parsing).

(** Machine registers that read as zero. *)
Definition th_machine_zero : list Z :=
  [0x7c1; 0x7c2; 0x7c3; 0x7c5; 0x7c7; 0x7c9; 0x7ca; 0x7cb; 0x7d2; 0x7d3; 0x7d4; 0x7d5; 0x7f3;
   0xfc0; 0xfc1].

(** Supervisor registers that read as zero, but for the range of counters. *)
Definition th_supervisor_zero : list Z :=
  [0x5c1; 0x5c2; 0x5c3; 0x5c4; 0x5c5; 0x5e0; 0x9c0; 0x9c1; 0x9c2; 0x9c3].

Definition th_counter (addr : Z) : bool := (0x5e3 <=? addr) && (addr <=? 0x5ff).

Definition TH_STATUS_UCME : Z := 2 ^ 16.
Definition TH_STATUS_MAEE : Z := 2 ^ 21.
Definition TH_STATUS_THEADISAEE : Z := 2 ^ 22.

Definition th_required (addr : Z) : PrivLevel :=
  if addr =? CSR_TH_FXCR then User
  else if (addr =? CSR_TH_SXSTATUS) || bool_decide (addr ∈ th_supervisor_zero) || th_counter addr
  then Supervisor
  else Machine.

Definition require_priv (addr : Z) (p : PrivLevel) : result unit Z :=
  if priv_lt p (th_required addr) then Err CAUSE_ILLEGAL_INSN else Ok tt.

Definition thead_read (addr : Z) (p : PrivLevel) (prof : RiscvCpuProfile) : result Z Z :=
  if negb (bool_decide (vendor prof = Thead)) then Err CAUSE_ILLEGAL_INSN
  else
    _ <-? require_priv addr p ;;
    if (addr =? CSR_TH_MXSTATUS) || (addr =? CSR_TH_SXSTATUS) then
      Ok (Z.lor (Z.lor TH_STATUS_UCME TH_STATUS_THEADISAEE)
            (if cfg_xtheadmaee prof then TH_STATUS_MAEE else 0))
    else if bool_decide (addr ∈ th_machine_zero) || bool_decide (addr ∈ th_supervisor_zero)
            || th_counter addr || (addr =? CSR_TH_FXCR)
    then Ok 0
    else Err CAUSE_ILLEGAL_INSN.

Definition thead_write (addr : Z) (p : PrivLevel) (prof : RiscvCpuProfile) : result unit Z :=
  _ <-? thead_read addr p prof ;; Ok tt.

(** ** Accesses with a profile *)

Definition read_for_profile (c : CsrFile) (addr : Z) (p : PrivLevel) (prof : RiscvCpuProfile)
    : result Z Z :=
  match read c addr p with
  | Ok v => Ok v
  | Err err => match thead_read addr p prof with Ok v => Ok v | Err _ => Err err end
  end.

(** A vendor register has no state: a write it accepts changes nothing. *)
Definition write_for_profile (c : CsrFile) (addr v : Z) (p : PrivLevel) (prof : RiscvCpuProfile)
    : result CsrFile Z :=
  match write c addr v p with
  | Ok c' => Ok c'
  | Err err => match thead_write addr p prof with Ok _ => Ok c | Err _ => Err err end
  end.

(** A profiled write is a plain one or leaves the file alone. *)
Lemma write_for_profile_cases (c : CsrFile) (addr v : Z) (p : PrivLevel) (prof : RiscvCpuProfile)
    (c' : CsrFile) :
  write_for_profile c addr v p prof = Ok c' -> write c addr v p = Ok c' \/ c' = c.
Proof.
  unfold write_for_profile. destruct (write c addr v p) as [x|e] eqn:E; [intros <-%Ok_inj; by left|].
  destruct (thead_write addr p prof); [|done]. intros <-%Ok_inj. by right.
Qed.
