(* ===== verification/RvPmp.v ===== *)
(** * RISC-V physical memory protection

    Models [guest/riscv/src/riscv/pmp.rs]: the sixteen protection entries, their
    four address-matching modes, the permission check of an access, and the copy of
    the entries from the register file of [RvCsr].  The enumerations the protection
    unit shares with the MMU and the trap logic are declared here. *)

From Stdlib Require Import ZArith Lia Bool.
From stdpp Require Import base tactics numbers list sets relations.
From S2P Require Import Prelude RvCsr.

(** ** Exceptions and kinds of access *)

Inductive Exception :=
| InstructionMisaligned | InstructionAccessFault | IllegalInstruction | Breakpoint
| LoadMisaligned | LoadAccessFault | StoreMisaligned | StoreAccessFault
| EcallFromU | EcallFromS | EcallFromM
| InstructionPageFault | LoadPageFault | StorePageFault.

Global Instance Exception_eq_dec : EqDecision Exception.
Proof. solve_decision. Defined.

Definition exc_code (e : Exception) : Z :=
  match e with
  | InstructionMisaligned => 0
  | InstructionAccessFault => 1
  | IllegalInstruction => 2
  | Breakpoint => 3
  | LoadMisaligned => 4
  | LoadAccessFault => 5
  | StoreMisaligned => 6
  | StoreAccessFault => 7
  | EcallFromU => 8
  | EcallFromS => 9
  | EcallFromM => 11
  | InstructionPageFault => 12
  | LoadPageFault => 13
  | StorePageFault => 15
  end.

Inductive AccessType := Read | Write | Execute.

Global Instance AccessType_eq_dec : EqDecision AccessType.
Proof. solve_decision. Defined.

(** ** Entries *)

Definition PMP_R : Z := 2 ^ 0.
Definition PMP_W : Z := 2 ^ 1.
Definition PMP_X : Z := 2 ^ 2.
Definition PMP_A_SHIFT : Z := 3.
Definition PMP_A_MASK : Z := Z.shiftl 3 PMP_A_SHIFT.
Definition PMP_L : Z := 2 ^ 7.
Definition PMP_ENTRIES : nat := 16.

Inductive PmpAddrMatch := Off | Tor | Na4 | Napot.

Global Instance PmpAddrMatch_eq_dec : EqDecision PmpAddrMatch.
Proof. solve_decision. Defined.

(** The two-bit field has no other value. *)
Definition from_cfg (cfg : Z) : PmpAddrMatch :=
  let a := shr (Z.land cfg PMP_A_MASK) PMP_A_SHIFT in
  if a =? 0 then Off else if a =? 1 then Tor else if a =? 2 then Na4 else Napot.

Record PmpEntry := mk_PmpEntry { cfg : Z; addr : Z }.

Definition PmpEntry_default : PmpEntry := mk_PmpEntry 0 0.

Notation Pmp := (list PmpEntry).

Definition pmp_new : Pmp := replicate PMP_ENTRIES PmpEntry_default.

Definition set_cfg (p : Pmp) (i : nat) (v : Z) : option Pmp :=
  if decide (i < PMP_ENTRIES)%nat then Some (alter (fun e => mk_PmpEntry v (addr e)) i p)
  else None.

Definition set_addr (p : Pmp) (i : nat) (v : Z) : option Pmp :=
  if decide (i < PMP_ENTRIES)%nat then Some (alter (fun e => mk_PmpEntry (cfg e) v) i p)
  else None.

Definition get_cfg (p : Pmp) (i : nat) : option Z :=
  if decide (i < PMP_ENTRIES)%nat then cfg <$> p !! i else None.

Definition get_addr (p : Pmp) (i : nat) : option Z :=
  if decide (i < PMP_ENTRIES)%nat then addr <$> p !! i else None.

(** The entries from the two arrays of the register file. *)
Definition sync_from_csr (c : CsrFile) (p : Pmp) : Pmp :=
  imap (fun i _ =>
    let cfg_idx := Z.of_nat i / 8 in
    let cfg_shift := (Z.of_nat i mod 8) * 8 in
    let raw := if cfg_idx <? 2 then c (pmpcfg cfg_idx) else 0 in
    mk_PmpEntry (Z.land (shr raw cfg_shift) 0xFF) (c (pmpaddr (Z.of_nat i)))) p.

(** ** Ranges and permissions *)

Definition napot_range (a : Z) : Z * Z :=
  let g := trailing_zeros 64 (bnot 64 a) in
  if 61 <=? g then (0, u64_max)
  else
    let size := shl 64 1 (g + 3) in
    let mask := size - 1 in
    let base := Z.land (shl 64 a 2) (bnot 64 mask) in
    (base, wrapping_add 64 base size).

Definition access_fault (access : AccessType) : Exception :=
  match access with
  | Read => LoadAccessFault
  | Write => StoreAccessFault
  | Execute => InstructionAccessFault
  end.

Definition check_permission (e : PmpEntry) (access : AccessType) (p : PrivLevel)
    : result unit Exception :=
  let locked := has (cfg e) PMP_L in
  if bool_decide (p = Machine) && negb locked then Ok tt
  else
    let allowed :=
      match access with
      | Read => has (cfg e) PMP_R
      | Write => has (cfg e) PMP_W
      | Execute => has (cfg e) PMP_X
      end in
    if allowed then Ok tt else Err (access_fault access).

(** The range of an entry, given the address register of the one before it. *)
Definition entry_range (prev : Z) (e : PmpEntry) : Z * Z :=
  match from_cfg (cfg e) with
  | Napot => napot_range (addr e)
  | Na4 => let b := shl 64 (addr e) 2 in (b, wrapping_add 64 b 4)
  | Tor => (prev, shl 64 (addr e) 2)
  | Off => (0, 0)
  end.

(** The loop of [check_access] over the entries from some index on; [prev] is
    the lower bound a top-of-range entry has there. *)
Fixpoint check_entries (prev : Z) (es : list PmpEntry) (a size : Z) (access : AccessType)
    (p : PrivLevel) : result unit Exception :=
  match es with
  | [] => if decide (p = Machine) then Ok tt else Err (access_fault access)
  | e :: rest =>
      let '(base, end_) := entry_range prev e in
      if negb (bool_decide (from_cfg (cfg e) = Off))
         && (base <=? a) && (wrapping_add 64 a size <=? end_)
      then check_permission e access p
      else check_entries (shl 64 (addr e) 2) rest a size access p
  end.

Definition has_locked (p : Pmp) : bool := existsb (fun e => has (cfg e) PMP_L) p.

Definition check_access (pmp : Pmp) (a size : Z) (access : AccessType) (p : PrivLevel)
    : result unit Exception :=
  if bool_decide (p = Machine) && negb (has_locked pmp) then Ok tt
  else check_entries 0 pmp a size access p.

(** ** The regions as sets of byte addresses *)

(** Trailing ones of an address register: the length of its size encoding. *)
Definition ones_below (a : Z) : Z := trailing_zeros 64 (bnot 64 a).

(** The byte at [x] belongs to the entry, [lower] being the bound below it: the
    four matching modes of the privileged specification. *)
Definition in_region (lower : Z) (e : PmpEntry) (x : Z) : Prop :=
  match from_cfg (cfg e) with
  | Off => False
  | Tor => lower <= x < addr e * 4
  | Na4 => x / 4 = addr e
  | Napot => x / 2 ^ (ones_below (addr e) + 3) = addr e / 2 ^ (ones_below (addr e) + 1)
  end.

Definition lower_of (p : Pmp) (i : nat) : Z :=
  match i with
  | O => 0
  | S j => from_option addr 0 (p !! j) * 4
  end.

(** Every byte of the access belongs to entry [i]. *)
Definition covers (p : Pmp) (i : nat) (a size : Z) : Prop :=
  exists e, p !! i = Some e /\ forall x, a <= x < a + size -> in_region (lower_of p i) e x.

Definition permits (e : PmpEntry) (access : AccessType) : bool :=
  has (cfg e) (match access with Read => PMP_R | Write => PMP_W | Execute => PMP_X end).

(** The lowest-numbered covering entry decides; a machine-mode access is only
    restricted by a locked one. *)
Definition granted (p : Pmp) (a size : Z) (access : AccessType) (pl : PrivLevel) : Prop :=
  (exists i e, p !! i = Some e /\ covers p i a size /\ (forall j, (j < i)%nat -> ~ covers p j a size) /\
     (pl = Machine /\ has (cfg e) PMP_L = false \/ permits e access = true)) \/
  (pl = Machine /\ forall i, ~ covers p i a size).

Definition pmp_wf (p : Pmp) : Prop :=
  length p = PMP_ENTRIES /\ forall i e, p !! i = Some e -> in_range 60 (addr e).

(** ** Ranges *)

Lemma ones_below_range (a : Z) : in_range 60 a -> 0 <= ones_below a <= 60.
Proof.
  intros Ha. unfold ones_below.
  assert (Hb : Z.testbit (bnot 64 a) 60 = true).
  { rewrite testbit_bnot by lia. apply in_range_bits in Ha as [_ Ha]; [|lia]. by rewrite Ha. }
  assert (0 < bnot 64 a).
  { destruct (bnot_range 64 a ltac:(lia)) as [H0 _]. destruct (decide (bnot 64 a = 0)) as [E|]; [|lia].
    rewrite E in Hb. done. }
  split; [by apply trailing_zeros_spec|by apply trailing_zeros_le].
Qed.

Lemma shl2 (a : Z) : in_range 60 a -> shl 64 a 2 = a * 4.
Proof.
  intros [H0 H1]. unfold shl. rewrite Z.shiftl_mul_pow2 by lia. apply wrap_small. split; lia.
Qed.

(** Clearing the low [n] bits. *)
Lemma land_bnot_ones (x n : Z) :
  0 <= n <= 64 -> is_u64 x -> Z.land x (bnot 64 (2 ^ n - 1)) = x / 2 ^ n * 2 ^ n.
Proof.
  intros Hn Hx. rewrite <- Z.shiftl_mul_pow2, <- Z.shiftr_div_pow2 by lia.
  replace (2 ^ n - 1) with (Z.ones n) by (rewrite Z.ones_equiv; lia). apply in_range_bits in Hx as [_ Hx]; [|lia]. zbits.
  destruct (Z.leb_spec 0 i), (Z.ltb_spec i n); simpl; try lia.
  - rewrite (Z.testbit_neg_r _ (i - n)) by lia. by rewrite !andb_false_r.
  - rewrite Z.shiftr_spec by lia. replace (i - n + n) with i by lia.
    rewrite andb_true_r. destruct (Z.ltb_spec i 64); [by rewrite andb_true_r|].
    by rewrite Hx by lia.
Qed.

Lemma napot_range_spec (a x : Z) :
  in_range 60 a ->
  (napot_range a).1 <= x < (napot_range a).2 <->
  x / 2 ^ (ones_below a + 3) = a / 2 ^ (ones_below a + 1).
Proof.
  intros Ha. pose proof (ones_below_range a Ha) as Hg. unfold napot_range.
  fold (ones_below a). set (g := ones_below a) in *.
  destruct (Z.leb_spec 61 g); [lia|].
  assert (Hs : shl 64 1 (g + 3) = 2 ^ (g + 3)).
  { unfold shl. rewrite Z.shiftl_1_l. apply wrap_small. split; [apply Z.pow_nonneg; lia|].
    apply Z.pow_lt_mono_r; lia. }
  rewrite Hs, shl2 by done. assert (Ha' := Ha). destruct Ha as [H0 H1].
  rewrite land_bnot_ones by (unfold in_range; lia).
  assert (Hd : a * 4 / 2 ^ (g + 3) = a / 2 ^ (g + 1)).
  { replace (2 ^ (g + 3)) with (2 ^ (g + 1) * 4) by (replace (g + 3) with (g + 1 + 2) by lia; by rewrite (Z.pow_add_r 2 (g + 1) 2) by lia).
    by apply Z.div_mul_cancel_r; lia. }
  rewrite Hd. set (q := a / 2 ^ (g + 1)).
  assert (0 < 2 ^ (g + 3)) by (apply Z.pow_pos_nonneg; lia).
  assert (q * 2 ^ (g + 3) <= a * 4).
  { unfold q. rewrite <- Hd, Z.mul_comm. by apply Z.mul_div_le. }
  assert (2 ^ (g + 3) <= 2 ^ 63) by (apply Z.pow_le_mono_r; lia).
  assert (0 <= q) by (apply Z.div_pos; [lia|apply Z.pow_pos_nonneg; lia]).
  cbn [fst snd]. unfold wrapping_add. rewrite wrap_small by (unfold in_range; lia).
  split.
  - intros Hx. symmetry. apply (Z.div_unique _ _ _ (x - q * 2 ^ (g + 3))); lia.
  - intros Hx. pose proof (Z.div_mod x (2 ^ (g + 3)) ltac:(lia)) as E.
    pose proof (Z.mod_pos_bound x (2 ^ (g + 3)) ltac:(lia)). rewrite Hx in E. lia.
Qed.

Lemma entry_range_spec (lower x : Z) (e : PmpEntry) :
  in_range 60 (addr e) -> from_cfg (cfg e) <> Off ->
  (entry_range lower e).1 <= x < (entry_range lower e).2 <-> in_region lower e x.
Proof.
  intros Ha Hm. unfold entry_range, in_region. destruct (from_cfg (cfg e)); [done|..].
  - cbn. by rewrite shl2.
  - rewrite shl2 by done. destruct Ha. unfold wrapping_add.
    rewrite wrap_small by (unfold in_range; lia). cbn [fst snd].
    pose proof (Z.div_mod x 4 ltac:(lia)). pose proof (Z.mod_pos_bound x 4 ltac:(lia)). lia.
  - by apply napot_range_spec.
Qed.

(** ** The loop *)

Section Check.
Context (p : Pmp) (a size : Z) (access : AccessType) (pl : PrivLevel).
Context (Hwf : pmp_wf p) (Ha : 0 <= a) (Hs : 0 < size) (Hend : a + size < 2 ^ 64).

(** The test of the loop is that the access lies in the region. *)
Lemma test_covers (i : nat) (e : PmpEntry) :
  p !! i = Some e ->
  let r := entry_range (lower_of p i) e in
  negb (bool_decide (from_cfg (cfg e) = Off)) && (r.1 <=? a) && (wrapping_add 64 a size <=? r.2) = true
  <-> covers p i a size.
Proof.
  intros He r. destruct Hwf as [_ Hr]. specialize (Hr i e He). unfold wrapping_add.
  rewrite wrap_small by (unfold in_range; lia).
  rewrite !andb_true_iff, negb_true_iff, bool_decide_eq_false, !Z.leb_le. split.
  - intros [[Hm H1] H2]. exists e. split; [done|]. intros x Hx.
    apply entry_range_spec; [done|done|]. unfold r in *. lia.
  - intros (e' & He' & Hx). simplify_eq.
    assert (Hm : from_cfg (cfg e) <> Off).
    { intros E. specialize (Hx a ltac:(lia)). unfold in_region in Hx. by rewrite E in Hx. }
    pose proof (Hx a ltac:(lia)) as H1. pose proof (Hx (a + size - 1) ltac:(lia)) as H2.
    apply entry_range_spec in H1, H2; try done. unfold r. split_and!; [done|lia|lia].
Qed.

Definition outcome (r : result unit Exception) : Prop :=
  match r with
  | Ok _ => granted p a size access pl
  | Err x => x = access_fault access /\ ~ granted p a size access pl
  end.

Lemma check_permission_outcome (i : nat) (e : PmpEntry) :
  p !! i = Some e -> covers p i a size -> (forall j, (j < i)%nat -> ~ covers p j a size) ->
  outcome (check_permission e access pl).
Proof.
  intros He Hc Hj. unfold check_permission.
  assert (Hp : (match access with Read => has (cfg e) PMP_R | Write => has (cfg e) PMP_W
                | Execute => has (cfg e) PMP_X end) = permits e access) by (by destruct access).
  rewrite Hp. clear Hp. case_if.
  { left. exists i, e. split_and!; try done. left.
    rewrite andb_true_iff, bool_decide_eq_true, negb_true_iff in *. naive_solver. }
  case_if; [left; exists i, e; naive_solver|]. split; [done|].
  intros [(i' & e' & He' & Hc' & Hj' & Hg)|[_ Hn]]; [|by eapply Hn].
  assert (i' = i) as -> by (destruct (Nat.lt_trichotomy i' i) as [|[|]]; naive_solver).
  simplify_eq. destruct Hg as [[-> Hl]|Hg]; [|congruence].
  rewrite Hl in *. done.
Qed.

Lemma check_entries_outcome (n i : nat) :
  (n + i = length p)%nat -> (forall j, (j < i)%nat -> ~ covers p j a size) ->
  outcome (check_entries (lower_of p i) (drop i p) a size access pl).
Proof.
  revert i. induction n as [|n IH]; intros i Hn Hj.
  - rewrite drop_ge by lia. cbn [check_entries].
    assert (Hnone : forall j, ~ covers p j a size).
    { intros j Hc. destruct (decide (j < i)%nat); [by eapply Hj|].
      destruct Hc as (e & He & _). apply lookup_lt_Some in He. lia. }
    case_decide as E; [by right|]. split; [done|].
    intros [(i' & e & _ & Hc & _)|[E' _]]; [by eapply Hnone|done].
  - destruct (lookup_lt_is_Some_2 p i ltac:(lia)) as [e He].
    rewrite (drop_S _ e i) by done. cbn [check_entries].
    pose proof (test_covers i e He) as Ht. cbn zeta in Ht.
    destruct (entry_range (lower_of p i) e) as [b t]. cbn [fst snd] in Ht.
    case_if; [apply (check_permission_outcome i); naive_solver|].
    assert (shl 64 (addr e) 2 = lower_of p (S i)) as ->.
    { unfold lower_of. rewrite He. apply shl2. by eapply Hwf. }
    apply IH; [lia|]. intros j Hji. destruct (decide (j = i)) as [->|]; [naive_solver|].
    apply Hj. lia.
Qed.

Lemma has_locked_false (i : nat) (e : PmpEntry) :
  has_locked p = false -> p !! i = Some e -> has (cfg e) PMP_L = false.
Proof.
  unfold has_locked. intros Hl He. destruct (has (cfg e) PMP_L) eqn:E; [|done].
  assert (existsb (fun e => has (cfg e) PMP_L) p = true); [|congruence].
  apply existsb_exists. exists e. split; [|done]. by apply list_elem_of_In, (list_elem_of_lookup_2 _ i).
Qed.

(** With no locked entry the loop lets every machine-mode access through. *)
Lemma check_entries_unlocked (es : list PmpEntry) (lower : Z) :
  (forall e, e ∈ es -> has (cfg e) PMP_L = false) ->
  check_entries lower es a size access Machine = Ok tt.
Proof.
  revert lower. induction es as [|e es IH]; intros lower Hes; [done|]. cbn [check_entries].
  destruct (entry_range lower e). case_if; [|apply IH; set_solver].
  unfold check_permission. by rewrite (Hes e) by set_solver.
Qed.

Lemma check_access_entries :
  check_access p a size access pl = check_entries 0 p a size access pl.
Proof.
  unfold check_access. case_if; [|done].
  rewrite andb_true_iff, bool_decide_eq_true, negb_true_iff in *.
  destruct Heqb as [-> Hl]. symmetry. apply check_entries_unlocked.
  intros e [i He]%list_elem_of_lookup. by apply (has_locked_false i).
Qed.

Lemma check_access_outcome : outcome (check_access p a size access pl).
Proof.
  rewrite check_access_entries. apply (check_entries_outcome (length p) 0); lia.
Qed.

End Check.

(** ** Entries and the register file *)

Lemma sync_lookup (c : CsrFile) (p : Pmp) (i : nat) (e : PmpEntry) :
  length p = PMP_ENTRIES -> sync_from_csr c p !! i = Some e ->
  (i < PMP_ENTRIES)%nat /\ e = mk_PmpEntry (pmpcfg_byte c (Z.of_nat i)) (c (pmpaddr (Z.of_nat i))).
Proof.
  intros Hl He. unfold sync_from_csr in He. rewrite list_lookup_imap in He.
  destruct (p !! i) eqn:Hi; [|done]. apply lookup_lt_Some in Hi. cbn in He.
  split; [lia|]. unfold PMP_ENTRIES in *.
  assert (Z.of_nat i / 8 < 2) by (apply Z.div_lt_upper_bound; lia).
  destruct (Z.ltb_spec (Z.of_nat i / 8) 2); [|lia]. by simplify_eq.
Qed.

Lemma length_sync (c : CsrFile) (p : Pmp) : length (sync_from_csr c p) = length p.
Proof. apply length_imap. Qed.

Lemma sync_lookup_some (c : CsrFile) (p : Pmp) (i : nat) :
  length p = PMP_ENTRIES -> (i < PMP_ENTRIES)%nat ->
  sync_from_csr c p !! i
  = Some (mk_PmpEntry (pmpcfg_byte c (Z.of_nat i)) (c (pmpaddr (Z.of_nat i)))).
Proof.
  intros Hl Hi. destruct (sync_from_csr c p !! i) as [e|] eqn:He.
  - by destruct (sync_lookup c p i e Hl He) as [_ ->].
  - apply lookup_ge_None in He. rewrite length_sync in He. lia.
Qed.

Lemma from_cfg_tor (b : Z) : from_cfg b = Tor -> Z.land b PMPCFG_A_MASK =? PMPCFG_A_TOR = true.
Proof.
  unfold from_cfg, shr, PMP_A_SHIFT. change PMP_A_MASK with PMPCFG_A_MASK. intros H.
  repeat case_if_in H; try done. apply Z.eqb_eq in Heqb1. apply Z.eqb_eq.
  assert (E : Z.land b PMPCFG_A_MASK = Z.shiftl (Z.shiftr (Z.land b PMPCFG_A_MASK) 3) 3).
  { zbits. destruct (Z.ltb_spec i 3).
    - rewrite (Z.testbit_neg_r _ (i - 3)) by lia.
      assert (Hc : i = 0 \/ i = 1 \/ i = 2) by lia.
      destruct Hc as [->|Hc]; [by rewrite andb_false_r|].
      by destruct Hc; subst i; rewrite andb_false_r.
    - rewrite Z.shiftr_spec by lia. replace (i - 3 + 3) with i by lia. by rewrite Z.land_spec. }
  by rewrite E, Heqb1.
Qed.

(** The region of a locked entry, whose lower neighbour is locked with it when
    it bounds the range. *)
Lemma locked_region_kept (c c' : CsrFile) (i : nat) (x : Z) :
  (i < PMP_ENTRIES)%nat -> lock_kept (Z.of_nat i) c c' ->
  let p := sync_from_csr c pmp_new in
  let p' := sync_from_csr c' pmp_new in
  p' !! i = p !! i /\
  forall e, p !! i = Some e -> in_region (lower_of p' i) e x <-> in_region (lower_of p i) e x.
Proof.
  intros Hi (Hb & Ha & Ht) p p'. subst p p'. rewrite !sync_lookup_some, Hb, Ha by done.
  split; [done|]. intros e [= <-]. unfold in_region. cbn [cfg addr].
  destruct (from_cfg (pmpcfg_byte c (Z.of_nat i))) eqn:Hm; try done.
  destruct i as [|j]; [done|]. unfold lower_of.
  rewrite !sync_lookup_some by (done || (unfold PMP_ENTRIES in *; lia)). cbn [from_option addr].
  replace (Z.of_nat j) with (Z.of_nat (S j) - 1) by lia.
  by rewrite Ht by (lia || by apply from_cfg_tor).
Qed.

(** ** Properties *)



(** C13: What a locked entry protects stays protected: after any sequence of
    register writes, from any privilege level, the entry the protection unit holds
    for it is the same and contains the same addresses, so no later access to its
    region is judged differently by it. *)
Theorem locked_region_permanent (c c' : CsrFile) (i : nat) (x : Z) :
  (i < PMP_ENTRIES)%nat -> rtc csr_step c c' -> entry_locked c (Z.of_nat i) = true ->
  let p := sync_from_csr c pmp_new in
  let p' := sync_from_csr c' pmp_new in
  p' !! i = p !! i /\
  forall e, p !! i = Some e -> in_region (lower_of p' i) e x <-> in_region (lower_of p i) e x.
Proof.
  intros Hi Hs Hl. apply locked_region_kept; [done|]. apply lock_kept_steps; [|done|done].
  unfold PMP_COUNT, PMP_ENTRIES in *. lia.
Qed.

Lemma locked_region_permanent_witness :
  let c := set (pmpcfg 0) 0x8F00 (set (pmpaddr 0) 0x100 new) in
  exists c', write c (CSR_PMPADDR0) 0 Machine = Ok c' /\
    sync_from_csr c' pmp_new !! 1%nat = sync_from_csr c pmp_new !! 1%nat.
Proof.
  intros c. assert (H : exists c', write c CSR_PMPADDR0 0 Machine = Ok c') by (eexists; reflexivity).
  destruct H as (c' & H). exists c'. split; [exact H|].
  apply (locked_region_permanent c c' 1 0); [unfold PMP_ENTRIES; lia| |reflexivity].
  apply rtc_once. exists CSR_PMPADDR0, 0, Machine. exact H.
Defined.
