(* ===== verification/RvMmu.v ===== *)
(** * RISC-V address translation

    Models [guest/riscv/src/riscv/mmu.rs]: the Sv39 and Sv48 page-table walk with its
    permission checks and accessed/dirty updates, and the direct-mapped software TLB
    the generated code reads.  Guest physical memory is seen through two closures in
    the code, here the class [PhysMem]; its laws are those of plain memory, where the
    page tables are. *)

From Stdlib Require Import ZArith Lia Bool.
From stdpp Require Import base tactics numbers list sets gmap.
From S2P Require Import Prelude RvCsr RvPmp.

Definition PAGE_SIZE : Z := 4096.
Notation PTE_SIZE := 8 (only parsing).
Definition LEVELS : nat := 3.
Definition VPN_BITS : Z := 9.
Definition VPN_MASK : Z := 2 ^ VPN_BITS - 1.
Notation SATP_MODE_SHIFT := 60 (only parsing).
Notation SATP_MODE_BARE := 0 (only parsing).
Definition SATP_MODE_SV39 : Z := 8.
Definition SATP_MODE_SV48 : Z := 9.
Notation SATP_ASID_SHIFT := 44 (only parsing).
Notation SATP_ASID_MASK := 0xFFFF (only parsing).
Definition SATP_PPN_MASK : Z := 2 ^ 44 - 1.
Definition PTE_V : Z := 2 ^ 0.
Definition PTE_R : Z := 2 ^ 1.
Definition PTE_W : Z := 2 ^ 2.
Definition PTE_X : Z := 2 ^ 3.
Definition PTE_U : Z := 2 ^ 4.
Definition PTE_A : Z := 2 ^ 6.
Definition PTE_D : Z := 2 ^ 7.
Definition PTE_N : Z := 2 ^ 63.
Definition PTE_PBMT : Z := 0x6000000000000000.
Definition PTE_PPN_MASK : Z := 2 ^ 44 - 1.
Definition PTE_THEAD_MAEE_ATTRS : Z := 0xf800000000000000.
Definition TLB_SIZE : nat := 256.
Definition PAGE_MASK : Z := bnot 64 (PAGE_SIZE - 1).
Definition TLB_INVALID_TAG : Z := u64_max.
Definition TLB_MMIO_ADDEND : Z := u64_max.

(** ** State *)

Record TlbEntry := mk_TlbEntry {
  addr_read : Z;
  addr_write : Z;
  addr_code : Z;
  addend : Z;
  dirty : Z;
  phys_page : Z;
  perm : Z;
  asid : Z;
  page_size : Z
}.

Definition TlbEntry_default : TlbEntry :=
  mk_TlbEntry TLB_INVALID_TAG TLB_INVALID_TAG TLB_INVALID_TAG 0 0 0 0 0 0.

Record MmuStats := mk_MmuStats { page_walks : Z; tlb_hits : Z; tlb_misses : Z }.

Record Mmu := mk_Mmu {
  mmu_satp : Z;
  tlb : list TlbEntry;
  stats : MmuStats;
  mmu_max_satp_mode : Z;
  ext_svpbmt : bool;
  ext_ssvnapot : bool;
  ext_xtheadmaee : bool;
  dirty_pages_buf : list Z
}.

Definition mmu_new : Mmu :=
  mk_Mmu 0 (replicate TLB_SIZE TlbEntry_default) (mk_MmuStats 0 0 0) SATP_MODE_SV39
    false false false [].

Definition configure_profile (mode : Z) (pbmt napot maee : bool) (m : Mmu) : Mmu :=
  mk_Mmu (mmu_satp m) (tlb m) (stats m) mode pbmt napot maee (dirty_pages_buf m).

Definition set_satp (v : Z) (m : Mmu) : Mmu :=
  mk_Mmu v (tlb m) (stats m) (mmu_max_satp_mode m) (ext_svpbmt m) (ext_ssvnapot m)
    (ext_xtheadmaee m) (dirty_pages_buf m).

Definition set_tlb (t : list TlbEntry) (m : Mmu) : Mmu :=
  mk_Mmu (mmu_satp m) t (stats m) (mmu_max_satp_mode m) (ext_svpbmt m) (ext_ssvnapot m)
    (ext_xtheadmaee m) (dirty_pages_buf m).

Definition set_buf (b : list Z) (m : Mmu) : Mmu :=
  mk_Mmu (mmu_satp m) (tlb m) (stats m) (mmu_max_satp_mode m) (ext_svpbmt m) (ext_ssvnapot m)
    (ext_xtheadmaee m) b.

Definition set_stats (s : MmuStats) (m : Mmu) : Mmu :=
  mk_Mmu (mmu_satp m) (tlb m) s (mmu_max_satp_mode m) (ext_svpbmt m) (ext_ssvnapot m)
    (ext_xtheadmaee m) (dirty_pages_buf m).

Definition count_hit (m : Mmu) : Mmu :=
  let s := stats m in set_stats (mk_MmuStats (page_walks s) (tlb_hits s + 1) (tlb_misses s)) m.

Definition count_miss (m : Mmu) : Mmu :=
  let s := stats m in
  set_stats (mk_MmuStats (page_walks s + 1) (tlb_hits s) (tlb_misses s + 1)) m.

(** [e.addr_read = r; e.addr_write = w; e.addr_code = c]. *)
Definition retag (r w c : Z) (e : TlbEntry) : TlbEntry :=
  mk_TlbEntry r w c (addend e) (dirty e) (phys_page e) (perm e) (asid e) (page_size e).

Definition untag (e : TlbEntry) : TlbEntry :=
  retag TLB_INVALID_TAG TLB_INVALID_TAG TLB_INVALID_TAG e.

Definition set_addend (v : Z) (e : TlbEntry) : TlbEntry :=
  mk_TlbEntry (addr_read e) (addr_write e) (addr_code e) v (dirty e) (phys_page e) (perm e)
    (asid e) (page_size e).

Definition clear_dirty (e : TlbEntry) : TlbEntry :=
  mk_TlbEntry (addr_read e) (addr_write e) (addr_code e) (addend e) 0 (phys_page e) (perm e)
    (asid e) (page_size e).

(** ** Fields of addresses and page-table entries *)

Definition vpn_index (va : Z) (level : nat) : Z :=
  Z.land (shr va (12 + Z.of_nat level * VPN_BITS)) VPN_MASK.

Definition level_page_size (level : nat) : Z := shl 64 PAGE_SIZE (Z.of_nat level * VPN_BITS).

Definition is_supported_svnapot_pte (pte : Z) : bool :=
  if Z.land pte PTE_N =? 0 then false
  else
    let ppn := Z.land (shr pte 10) PTE_PPN_MASK in
    trailing_zeros 64 ppn + 1 =? 4.

Definition page_fault (access : AccessType) : Exception :=
  match access with
  | Read => LoadPageFault
  | Write => StorePageFault
  | Execute => InstructionPageFault
  end.

Definition is_canonical_sv (gva mode : Z) : bool :=
  let check va_bits :=
    let s := Z.shiftr (signed 64 gva) (va_bits - 1) in (s =? 0) || (s =? -1) in
  if mode =? SATP_MODE_SV39 then check 39
  else if mode =? SATP_MODE_SV48 then check 48
  else true.

Definition tlb_index (va : Z) : nat :=
  let vpn := shr va 12 in
  let h := Z.lxor vpn (shr vpn 8) in
  Z.to_nat (Z.land h 255).

Definition satp_mode (m : Mmu) : Z := Z.land (shr (mmu_satp m) SATP_MODE_SHIFT) 0xF.

Definition thead_maee_attr_mask (m : Mmu) (pte : Z) : Z :=
  if ext_ssvnapot m && is_supported_svnapot_pte pte
  then Z.land PTE_THEAD_MAEE_ATTRS (bnot 64 PTE_N)
  else PTE_THEAD_MAEE_ATTRS.

Definition pte_standard_view (m : Mmu) (pte : Z) : Z :=
  if ext_xtheadmaee m then Z.land pte (bnot 64 (thead_maee_attr_mask m pte)) else pte.

(** ** The TLB *)

Definition entry_at (m : Mmu) (gva : Z) : TlbEntry :=
  nth (tlb_index gva) (tlb m) TlbEntry_default.

Definition upd_entry (gva : Z) (f : TlbEntry -> TlbEntry) (m : Mmu) : Mmu :=
  set_tlb (alter f (tlb_index gva) (tlb m)) m.

Definition page_of (gva : Z) : Z := Z.land gva PAGE_MASK.

Definition lookup_addend (tag_of : TlbEntry -> Z) (m : Mmu) (gva : Z) : option Z :=
  let e := entry_at m gva in
  if (tag_of e =? page_of gva) && negb (addend e =? TLB_MMIO_ADDEND) then Some (addend e)
  else None.

Definition tlb_lookup_code : Mmu -> Z -> option Z := lookup_addend addr_code.
Definition tlb_lookup_read : Mmu -> Z -> option Z := lookup_addend addr_read.
Definition tlb_lookup_write : Mmu -> Z -> option Z := lookup_addend addr_write.

Definition tlb_lookup_code_phys (m : Mmu) (gva : Z) : option Z :=
  let e := entry_at m gva in
  if (addr_code e =? page_of gva) && negb (addend e =? TLB_MMIO_ADDEND) then
    Some (Z.lor (shl 64 (phys_page e) 12) (Z.land gva (bnot 64 PAGE_MASK)))
  else None.

Definition fill_addend (gva v : Z) (m : Mmu) : Mmu := upd_entry gva (set_addend v) m.

Definition fill_identity (gva v : Z) (m : Mmu) : Mmu :=
  let tag := if v =? TLB_MMIO_ADDEND then TLB_INVALID_TAG else page_of gva in
  upd_entry gva (fun e =>
    mk_TlbEntry tag tag tag v (dirty e) (shr gva 12)
      (fold_left Z.lor [PTE_R; PTE_W; PTE_X; PTE_A; PTE_D] 0) 0 PAGE_SIZE) m.

Definition flush (m : Mmu) : Mmu := set_buf [] (set_tlb (untag <$> tlb m) m).

Definition flush_page (vpn : Z) (m : Mmu) : Mmu :=
  let gva := shl 64 vpn 12 in
  let tag := page_of gva in
  upd_entry gva (fun e =>
    if (addr_read e =? tag) || (addr_write e =? tag) || (addr_code e =? tag)
    then untag e else e) m.

(** The loop of [take_dirty_tlb_pages] over the entries, [buf] collected so far. *)
Fixpoint collect_dirty (es : list TlbEntry) (buf : list Z) : list TlbEntry * list Z :=
  match es with
  | [] => ([], buf)
  | e :: rest =>
      if dirty e =? 0 then
        let '(es', buf) := collect_dirty rest buf in (e :: es', buf)
      else
        let buf :=
          if negb (phys_page e =? 0) && negb (addend e =? TLB_MMIO_ADDEND)
             && negb (bool_decide (phys_page e ∈ buf))
          then buf ++ [phys_page e] else buf in
        let '(es', buf) := collect_dirty rest buf in (clear_dirty e :: es', buf)
  end.

Definition take_dirty_tlb_pages (m : Mmu) : list Z * Mmu :=
  let '(es, buf) := collect_dirty (tlb m) [] in (buf, set_buf buf (set_tlb es m)).

(** ** Guest physical memory

    The closures [mem_read] and [mem_write]: eight bytes at a physical address. *)

Class PhysMem (M : Type) := {
  mem_read : M -> Z -> Z;
  mem_write : M -> Z -> Z -> M
}.

(** [plain m a]: the word at [a] is plain memory, not a device register.  Writing
    it changes that word and no other. *)
Class PhysMemLaws (M : Type) `{PhysMem M} := {
  plain : M -> Z -> Prop;
  mem_read_range m a : is_u64 (mem_read m a);
  mem_read_write m a b v :
    plain m a -> is_u64 v -> a mod 8 = 0 -> b mod 8 = 0 ->
    mem_read (mem_write m a v) b = if decide (b = a) then v else mem_read m b
}.

(** A memory of words, for evaluation. *)
Global Instance word_mem : PhysMem (gmap Z Z) := {
  mem_read m a := u64 (default 0 (m !! a));
  mem_write m a v := <[a := v]> m
}.

Lemma word_mem_read_write (m : gmap Z Z) (a b v : Z) :
  True -> is_u64 v -> a mod 8 = 0 -> b mod 8 = 0 ->
  mem_read (mem_write m a v) b = if decide (b = a) then v else mem_read m b.
Proof.
  intros _ Hv _ _. cbn. case_decide as E.
  - subst. rewrite lookup_insert_eq. cbn. by apply wrap_small.
  - by rewrite lookup_insert_ne by congruence.
Qed.

Global Instance word_mem_laws : PhysMemLaws (gmap Z Z) := {
  plain _ _ := True;
  mem_read_range m a := wrap_range 64 (default 0 (m !! a)) ltac:(lia);
  mem_read_write := word_mem_read_write
}.

(** ** Translation *)

Section Translate.
Context {M : Type} `{PhysMem M}.

(** A check of the protection unit, when there is one. *)
Definition pmp_check (pmp : option Pmp) (a size : Z) (access : AccessType) (pl : PrivLevel)
    : result unit Exception :=
  match pmp with
  | Some p => check_access p a size access pl
  | None => Ok tt
  end.

(** What the walk returns: frame, flags, page size, address and value of the leaf. *)
Record Leaf := mk_Leaf {
  leaf_ppn : Z; leaf_flags : Z; leaf_size : Z; leaf_addr : Z; leaf_pte : Z
}.

(** The frame of a leaf at [level], or the fault of a malformed one. *)
Definition leaf_frame (m : Mmu) (gva view : Z) (level : nat) (access : AccessType)
    : result Z Exception :=
  let ppn_raw := Z.land (shr view 10) PTE_PPN_MASK in
  ppn <-?
    (if Z.land view PTE_N =? 0 then Ok ppn_raw
     else if negb (ext_ssvnapot m) then Err (page_fault access)
     else if negb (level =? 0)%nat then Err (page_fault access)
     else
       let napot_bits := trailing_zeros 64 ppn_raw + 1 in
       if negb (napot_bits =? 4) then Err (page_fault access)
       else
         let napot_mask := shl 64 1 napot_bits - 1 in
         Ok (Z.lor (Z.land ppn_raw (bnot 64 napot_mask)) (Z.land (shr gva 12) napot_mask))) ;;
  if (0 <? level)%nat
     && negb (Z.land ppn_raw (shl 64 1 (Z.of_nat level * VPN_BITS) - 1) =? 0)
  then Err (page_fault access)
  else Ok ppn.

(** One iteration of the loop: the leaf, or the table of the next level. *)
Definition walk_level (m : Mmu) (mem : M) (gva : Z) (access : AccessType) (pmp : option Pmp)
    (pl : PrivLevel) (level : nat) (a : Z) : result (Leaf + Z) Exception :=
  let pte_addr := a + vpn_index gva level * PTE_SIZE in
  match pmp_check pmp pte_addr PTE_SIZE Read pl with
  | Err _ => Err (access_fault access)
  | Ok _ =>
      let pte := mem_read mem pte_addr in
      let view := pte_standard_view m pte in
      if negb (ext_svpbmt m) && has view PTE_PBMT then Err (page_fault access)
      else
        let flags := Z.land view 0xFF in
        let r := has flags PTE_R in
        let w := has flags PTE_W in
        let x := has flags PTE_X in
        if negb (has flags PTE_V) then Err (page_fault access)
        else if negb r && w then Err (page_fault access)
        else if r || x then
          ppn <-? leaf_frame m gva view level access ;;
          Ok (inl (mk_Leaf ppn flags (level_page_size level) pte_addr pte))
        else Ok (inr (Z.land (shr pte 10) PTE_PPN_MASK * PAGE_SIZE))
  end.

(** The loop from level [n - 1] down to 0. *)
Fixpoint walk_levels (m : Mmu) (mem : M) (gva : Z) (access : AccessType) (pmp : option Pmp)
    (pl : PrivLevel) (n : nat) (a : Z) : result Leaf Exception :=
  match n with
  | O => Err (page_fault access)
  | S level =>
      r <-? walk_level m mem gva access pmp pl level a ;;
      match r with
      | inl l => Ok l
      | inr a' => walk_levels m mem gva access pmp pl level a'
      end
  end.

Definition levels (m : Mmu) : nat := if satp_mode m =? SATP_MODE_SV48 then 4%nat else LEVELS.

Definition root_table (m : Mmu) : Z := Z.land (mmu_satp m) SATP_PPN_MASK * PAGE_SIZE.

Definition walk_page_table (m : Mmu) (mem : M) (gva : Z) (access : AccessType)
    (pmp : option Pmp) (pl : PrivLevel) : result Leaf Exception :=
  if negb (is_canonical_sv gva (satp_mode m)) then Err (page_fault access)
  else walk_levels m mem gva access pmp pl (levels m) (root_table m).

Definition check_perm (flags : Z) (access : AccessType) (pl : PrivLevel) (mstatus : Z)
    : result unit Exception :=
  let r := has flags PTE_R in
  let w := has flags PTE_W in
  let x := has flags PTE_X in
  let u := has flags PTE_U in
  let mxr := has mstatus MSTATUS_MXR in
  let sum := has mstatus MSTATUS_SUM in
  let ok := match access with Read => r || (mxr && x) | Write => w | Execute => x end in
  if negb ok then Err (page_fault access)
  else
    match pl with
    | User => if negb u then Err (page_fault access) else Ok tt
    | Supervisor =>
        if u then
          if bool_decide (access = Execute) then Err (page_fault access)
          else if negb sum then Err (page_fault access) else Ok tt
        else Ok tt
    | Machine => Ok tt
    end.

(** The leaf with the accessed bit, and the dirty bit for a write. *)
Definition updated_pte (pte : Z) (access : AccessType) : Z :=
  let new_pte := Z.lor pte PTE_A in
  if decide (access = Write) then Z.lor new_pte PTE_D else new_pte.

Definition refill (gva pa flags asid_ pg mstatus : Z) (e : TlbEntry) : TlbEntry :=
  let tag := page_of gva in
  let r := has flags PTE_R in
  let w := has flags PTE_W in
  let x := has flags PTE_X in
  let d := has flags PTE_D in
  let mxr := has mstatus MSTATUS_MXR in
  mk_TlbEntry (if r || (mxr && x) then tag else TLB_INVALID_TAG)
    (if w && d then tag else TLB_INVALID_TAG)
    (if x then tag else TLB_INVALID_TAG)
    0 (dirty e) (shr pa 12) flags asid_ pg.

(** The update of the leaf in memory; nothing is written when it has the bits. *)
Definition update_leaf (mem : M) (l : Leaf) (access : AccessType) (pmp : option Pmp)
    (pl : PrivLevel) : result M Exception :=
  let new_pte := updated_pte (leaf_pte l) access in
  if new_pte =? leaf_pte l then Ok mem
  else
    match pmp_check pmp (leaf_addr l) PTE_SIZE Write pl with
    | Err _ => Err (access_fault access)
    | Ok _ => Ok (mem_write mem (leaf_addr l) new_pte)
    end.

Definition leaf_pa (l : Leaf) (gva : Z) : Z :=
  Z.lor (shl 64 (leaf_ppn l) 12) (Z.land gva (leaf_size l - 1)).

(** The counters change on every outcome, the memory from the update on. *)
Definition translate_miss (m : Mmu) (mem : M) (gva : Z) (access : AccessType) (pl : PrivLevel)
    (mstatus size : Z) (pmp : option Pmp) : Mmu * M * result Z Exception :=
  let m := count_miss m in
  match walk_page_table m mem gva access pmp pl with
  | Err e => (m, mem, Err e)
  | Ok l =>
      match check_perm (leaf_flags l) access pl mstatus with
      | Err e => (m, mem, Err e)
      | Ok _ =>
          match update_leaf mem l access pmp pl with
          | Err e => (m, mem, Err e)
          | Ok mem =>
              let pa := leaf_pa l gva in
              match pmp_check pmp pa size access pl with
              | Err e => (m, mem, Err e)
              | Ok _ =>
                  let flags := Z.land (updated_pte (leaf_pte l) access) 0xFF in
                  let asid_ := Z.land (shr (mmu_satp m) SATP_ASID_SHIFT) SATP_ASID_MASK in
                  (upd_entry gva (refill gva pa flags asid_ (leaf_size l) mstatus) m, mem, Ok pa)
              end
          end
      end
  end.

Definition tag_for (access : AccessType) (e : TlbEntry) : Z :=
  match access with
  | Read => addr_read e
  | Write => addr_write e
  | Execute => addr_code e
  end.

Definition translate (m : Mmu) (mem : M) (gva : Z) (access : AccessType) (pl : PrivLevel)
    (mstatus size : Z) (pmp : option Pmp) : Mmu * M * result Z Exception :=
  let mode := satp_mode m in
  if mode =? SATP_MODE_BARE then (m, mem, Ok gva)
  else if negb (mode =? SATP_MODE_SV39) && negb (mode =? SATP_MODE_SV48)
  then (m, mem, Err (page_fault access))
  else if mmu_max_satp_mode m <? mode then (m, mem, Err (page_fault access))
  else if negb (is_canonical_sv gva mode) then (m, mem, Err (page_fault access))
  else
    let e := entry_at m gva in
    if tag_for access e =? page_of gva then
      let m := count_hit m in
      let pa := Z.lor (Z.land (wrapping_add 64 gva (addend e)) PAGE_MASK)
                  (Z.land gva (PAGE_SIZE - 1)) in
      match pmp_check pmp pa size access pl with
      | Err e => (m, mem, Err e)
      | Ok _ => (m, mem, Ok pa)
      end
    else translate_miss m mem gva access pl mstatus size pmp.

End Translate.

(** ** The translation scheme of the privileged specification

    Page-table entries by their bits and fields, independently of the masks and
    shifts of the code. *)

Section Scheme.
Context {M : Type} `{PhysMem M}.
Context (m : Mmu) (mem : M).

Definition ppn_of (pte : Z) : Z := (pte / 2 ^ 10) mod 2 ^ 44.

Definition pbmt_ok (v : Z) : Prop :=
  ext_svpbmt m = true \/ Z.testbit v 61 = false /\ Z.testbit v 62 = false.

Definition is_pointer (v : Z) : Prop :=
  pbmt_ok v /\ Z.testbit v 0 = true /\ Z.testbit v 1 = false /\ Z.testbit v 2 = false /\
  Z.testbit v 3 = false.

Record is_leaf (v : Z) (level : nat) : Prop := mk_is_leaf {
  lf_pbmt : pbmt_ok v;
  lf_valid : Z.testbit v 0 = true;
  lf_kind : Z.testbit v 1 = true \/ Z.testbit v 3 = true;
  lf_write : Z.testbit v 2 = true -> Z.testbit v 1 = true;
  lf_aligned : ppn_of v mod 2 ^ (9 * Z.of_nat level) = 0;
  lf_napot : Z.testbit v 63 = true ->
    ext_ssvnapot m = true /\ level = O /\ ppn_of v mod 16 = 8
}.

(** The entry for [gva] in the table at [a]. *)
Definition entry_addr (a gva : Z) (level : nat) : Z :=
  a + (gva / 2 ^ (12 + 9 * Z.of_nat level)) mod 512 * 8.

Definition view_at (e : Z) : Z := pte_standard_view m (mem_read mem e).

(** [reaches gva n a level e]: from the table at [a] with [n] levels, following
    pointers leads to a leaf of [level] at address [e]. *)
Inductive reaches (gva : Z) : nat -> Z -> nat -> Z -> Prop :=
| reach_leaf level a :
    is_leaf (view_at (entry_addr a gva level)) level ->
    reaches gva (S level) a level (entry_addr a gva level)
| reach_next level a level' e :
    is_pointer (view_at (entry_addr a gva level)) ->
    reaches gva level (ppn_of (mem_read mem (entry_addr a gva level)) * 4096) level' e ->
    reaches gva (S level) a level' e.

(** The byte a leaf maps the address to: its page offset in the frame, or in the
    sixteen frames of a contiguous mapping. *)
Definition phys_addr (v : Z) (level : nat) (gva : Z) : Z :=
  if Z.testbit v 63 then ppn_of v / 16 * 65536 + gva mod 65536
  else ppn_of v * 4096 + gva mod 2 ^ (12 + 9 * Z.of_nat level).

Definition allowed (v : Z) (access : AccessType) (pl : PrivLevel) (mstatus : Z) : Prop :=
  match access with
  | Read => Z.testbit v 1 = true \/ Z.testbit mstatus 19 = true /\ Z.testbit v 3 = true
  | Write => Z.testbit v 2 = true
  | Execute => Z.testbit v 3 = true
  end /\
  match pl with
  | User => Z.testbit v 4 = true
  | Supervisor => Z.testbit v 4 = true -> access <> Execute /\ Z.testbit mstatus 18 = true
  | Machine => True
  end.

(** The unused upper bits repeat the sign bit of the address. *)
Definition canonical (gva : Z) : Prop :=
  let check n := forall i, n <= i < 64 -> Z.testbit gva i = Z.testbit gva (n - 1) in
  (satp_mode m = SATP_MODE_SV39 -> check 39) /\ (satp_mode m = SATP_MODE_SV48 -> check 48).

(** The page tables map [gva] for the access to [pa], by the leaf at [e]. *)
Definition maps_at (pl : PrivLevel) (mstatus gva : Z) (access : AccessType) (level : nat) (e pa : Z)
    : Prop :=
  canonical gva /\ reaches gva (levels m) (root_table m) level e /\
  allowed (view_at e) access pl mstatus /\ pa = phys_addr (view_at e) level gva.

Definition maps (pl : PrivLevel) (mstatus gva : Z) (access : AccessType) (pa : Z) : Prop :=
  exists level e, maps_at pl mstatus gva access level e pa.

End Scheme.

(** ** Fields *)

Lemma land_pow2_mod (x n : Z) : 0 <= n -> Z.land x (2 ^ n - 1) = x mod 2 ^ n.
Proof.
  intros. rewrite <- Z.land_ones by done. f_equal. rewrite Z.ones_equiv. lia.
Qed.

Lemma flag_bit (v n : Z) : 0 <= n < 8 -> has (Z.land v 0xFF) (2 ^ n) = Z.testbit v n.
Proof.
  intros Hn. rewrite has_pow2 by lia. change 0xFF with (Z.ones 8).
  rewrite Z.land_spec, testbit_ones by lia.
  destruct (Z.leb_spec 0 n), (Z.ltb_spec n 8); simpl; try lia. by rewrite andb_true_r.
Qed.

Lemma vpn_index_eq (gva : Z) (level : nat) :
  vpn_index gva level = (gva / 2 ^ (12 + 9 * Z.of_nat level)) mod 512.
Proof.
  unfold vpn_index, shr, VPN_MASK, VPN_BITS. rewrite land_pow2_mod by lia.
  rewrite Z.shiftr_div_pow2 by lia. do 3 f_equal. lia.
Qed.

Lemma pte_addr_eq (a gva : Z) (level : nat) :
  a + vpn_index gva level * PTE_SIZE = entry_addr a gva level.
Proof. by rewrite vpn_index_eq. Qed.

Lemma ppn_eq (pte : Z) : Z.land (shr pte 10) PTE_PPN_MASK = ppn_of pte.
Proof.
  unfold PTE_PPN_MASK, shr, ppn_of. by rewrite land_pow2_mod, Z.shiftr_div_pow2 by lia.
Qed.

Lemma ppn_of_range (pte : Z) : in_range 44 (ppn_of pte).
Proof. unfold ppn_of. apply Z.mod_pos_bound. lia. Qed.

Lemma has_pbmt (v : Z) : has v PTE_PBMT = Z.testbit v 61 || Z.testbit v 62.
Proof.
  unfold has. destruct (Z.eqb_spec (Z.land v PTE_PBMT) 0) as [E|E]; cbn [negb].
  - assert (H : forall i, Z.testbit (Z.land v PTE_PBMT) i = false) by (intros; by rewrite E, Z.bits_0).
    pose proof (H 61) as H1. pose proof (H 62) as H2. rewrite Z.land_spec in H1, H2.
    change (Z.testbit PTE_PBMT 61) with true in H1. change (Z.testbit PTE_PBMT 62) with true in H2.
    rewrite andb_true_r in H1, H2. by rewrite H1, H2.
  - destruct (Z.testbit v 61) eqn:E1, (Z.testbit v 62) eqn:E2; try done. destruct E.
    change PTE_PBMT with (Z.lor (2 ^ 61) (2 ^ 62)). zbits. zbits_cases; subst; by rewrite ?E1, ?E2, ?andb_false_r.
Qed.

Lemma shl_one_pow (n : Z) : 0 <= n < 64 -> shl 64 1 n = 2 ^ n.
Proof.
  intros Hn. unfold shl. rewrite Z.shiftl_1_l. apply wrap_small.
  split; [apply Z.pow_nonneg; lia|apply Z.pow_lt_mono_r; lia].
Qed.

Lemma level_page_size_eq (level : nat) :
  (level < 5)%nat -> level_page_size level = 2 ^ (12 + 9 * Z.of_nat level).
Proof.
  intros Hl. unfold level_page_size, shl, VPN_BITS. change PAGE_SIZE with (2 ^ 12).
  rewrite Z.shiftl_mul_pow2, <- Z.pow_add_r by lia.
  rewrite wrap_small; [f_equal; lia|]. split; [apply Z.pow_nonneg; lia|apply Z.pow_lt_mono_r; lia].
Qed.

Lemma trailing_zeros_3 (x : Z) : 0 <= x -> trailing_zeros 64 x + 1 =? 4 = true <-> x mod 16 = 8.
Proof.
  intros Hx. rewrite Z.eqb_eq. destruct (decide (x = 0)) as [->|Hne]; [done|].
  destruct (trailing_zeros_spec 64 x ltac:(lia)) as (H0 & Hb & Hlow).
  set (n := trailing_zeros 64 x) in *. split.
  - intros Hn. replace n with 3 in * by lia.
    assert (E : x mod 2 ^ 4 = 2 ^ 3); [|done].
    zbits. rewrite Z.testbit_mod_pow2 by lia. zbits_cases; subst; try lia.
    + done.
    + apply Hlow. lia.
  - intros E. change 16 with (2 ^ 4) in E.
    assert (Hbit : forall i, 0 <= i < 4 -> Z.testbit x i = (i =? 3)).
    { intros i Hi. rewrite <- (Z.mod_pow2_bits_low x 4 i) by lia. rewrite E.
      change 8 with (2 ^ 3). by rewrite testbit_pow2 by lia. }
    destruct (Z.lt_trichotomy n 3) as [Hl|[Hl|Hl]]; [|lia|].
    + rewrite Hbit in Hb by lia. apply Z.eqb_eq in Hb. lia.
    + specialize (Hlow 3 ltac:(lia)). rewrite Hbit in Hlow by lia. done.
Qed.

(** ** The walk finds the leaf of the scheme *)

Lemma land_pow2_testbit (x n : Z) : 0 <= n -> Z.land x (2 ^ n) =? 0 = negb (Z.testbit x n).
Proof. intros. rewrite <- has_pow2 by done. unfold has. by rewrite negb_involutive. Qed.

(** The frame of the page an address is in. *)
Definition frame_of (v gva : Z) : Z :=
  if Z.testbit v 63 then ppn_of v / 16 * 16 + (gva / 4096) mod 16 else ppn_of v.

Definition frame_ok (m : Mmu) (v : Z) (level : nat) : Prop :=
  ppn_of v mod 2 ^ (9 * Z.of_nat level) = 0 /\
  (Z.testbit v 63 = true -> ext_ssvnapot m = true /\ level = O /\ ppn_of v mod 16 = 8).

(** The low bits of the frame replaced by those of the address. *)
Lemma napot_frame (ppn gva : Z) :
  in_range 44 ppn ->
  Z.lor (Z.land ppn (bnot 64 (2 ^ 4 - 1))) (Z.land (shr gva 12) (2 ^ 4 - 1))
  = ppn / 16 * 16 + (gva / 4096) mod 16.
Proof.
  intros Hp. assert (is_u64 ppn) by (apply (in_range_le 44); [lia|done]).
  rewrite land_bnot_ones, land_pow2_mod by (done || lia). unfold shr.
  rewrite Z.shiftr_div_pow2 by lia. change (2 ^ 4) with 16. change (2 ^ 12) with 4096.
  rewrite <- (lor_shiftl_add (ppn / 16) _ 4); [|lia|apply Z.mod_pos_bound; lia].
  by rewrite Z.shiftl_mul_pow2 by lia.
Qed.

Lemma align_test (v : Z) (level : nat) :
  (level < 5)%nat ->
  (0 <? level)%nat && negb (Z.land (ppn_of v) (shl 64 1 (Z.of_nat level * VPN_BITS) - 1) =? 0)
  = negb (ppn_of v mod 2 ^ (9 * Z.of_nat level) =? 0).
Proof.
  intros Hl. unfold VPN_BITS. rewrite shl_one_pow by lia. rewrite land_pow2_mod by lia.
  replace (Z.of_nat level * 9) with (9 * Z.of_nat level) by lia.
  destruct level; [|done]. by rewrite Z.mod_1_r.
Qed.

Lemma leaf_frame_spec (m : Mmu) (gva v : Z) (level : nat) (access : AccessType) :
  (level < 5)%nat ->
  match leaf_frame m gva v level access with
  | Ok ppn => frame_ok m v level /\ ppn = frame_of v gva
  | Err x => x = page_fault access /\ ~ frame_ok m v level
  end.
Proof.
  intros Hl. unfold leaf_frame, frame_ok, frame_of. rewrite ppn_eq, align_test by done.
  change PTE_N with (2 ^ 63). rewrite land_pow2_testbit by lia.
  pose proof (ppn_of_range v) as Hp. pose proof (trailing_zeros_3 (ppn_of v) (proj1 Hp)) as H16.
  destruct (Z.testbit v 63); cbn [negb].
  - destruct (ext_ssvnapot m); cbn [negb]; [|by split; [|naive_solver]].
    destruct level as [|level]; cbn [Nat.eqb negb]; [|by split; [|naive_solver]].
    destruct (trailing_zeros 64 (ppn_of v) + 1 =? 4) eqn:Et; cbn [negb]; [|split; [done|naive_solver]].
    apply Z.eqb_eq in Et as Et'. rewrite Et', Z.mod_1_r. cbn [Z.eqb negb].
    rewrite shl_one_pow by lia. rewrite napot_frame by done. naive_solver.
  - destruct (Z.eqb_spec (ppn_of v mod 2 ^ (9 * Z.of_nat level)) 0); cbn [negb]; naive_solver.
Qed.

Lemma levels_bound (m : Mmu) : (levels m < 5)%nat.
Proof. unfold levels, LEVELS. case_if; lia. Qed.

Section Walk.
Context {M : Type} `{PhysMem M}.
Context (m : Mmu) (mem : M) (gva : Z) (access : AccessType) (pl : PrivLevel).

Definition leaf_at (level : nat) (e : Z) : Leaf :=
  let v := view_at m mem e in
  mk_Leaf (frame_of v gva) (Z.land v 0xFF) (2 ^ (12 + 9 * Z.of_nat level)) e (mem_read mem e).

Lemma pbmt_test (v : Z) :
  negb (ext_svpbmt m) && has v PTE_PBMT = false <-> pbmt_ok m v.
Proof.
  rewrite has_pbmt. unfold pbmt_ok.
  destruct (ext_svpbmt m), (Z.testbit v 61), (Z.testbit v 62); naive_solver.
Qed.

(** An iteration that passes the protection unit. *)
Lemma walk_level_spec (pmp : option Pmp) (level : nat) (a : Z) :
  (level < 5)%nat ->
  let e := entry_addr a gva level in
  match walk_level m mem gva access pmp pl level a with
  | Ok (inl l) => is_leaf m (view_at m mem e) level /\ l = leaf_at level e
  | Ok (inr a') => is_pointer m (view_at m mem e) /\ a' = ppn_of (mem_read mem e) * 4096
  | Err x =>
      x = page_fault access /\ ~ is_leaf m (view_at m mem e) level /\ ~ is_pointer m (view_at m mem e) \/
      x = access_fault access /\ pmp <> None
  end.
Proof.
  intros Hl e. unfold walk_level. rewrite pte_addr_eq. fold e.
  destruct (pmp_check pmp e PTE_SIZE Read pl) eqn:Epmp.
  2: { right. split; [done|]. by intros ->. }
  fold (view_at m mem e). set (v := view_at m mem e).
  pose proof (pbmt_test v) as Hpb.
  destruct (negb (ext_svpbmt m) && has v PTE_PBMT).
  { left. split; [done|]. split; [intros []|intros [? _]]; naive_solver. }
  assert (Hp : pbmt_ok m v) by naive_solver. clear Hpb.
  change PTE_R with (2 ^ 1). change PTE_W with (2 ^ 2). change PTE_X with (2 ^ 3).
  change PTE_V with (2 ^ 0). rewrite !flag_bit by lia.
  pose proof (leaf_frame_spec m gva v level access Hl) as Hf.
  destruct (Z.testbit v 0) eqn:E0, (Z.testbit v 1) eqn:E1, (Z.testbit v 2) eqn:E2,
    (Z.testbit v 3) eqn:E3; cbn [negb andb orb];
    try (left; split; [done|]; split; [intros []|intros (? & ? & ? & ? & ?)]; naive_solver congruence).
  1-5: destruct (leaf_frame m gva v level access) as [ppn|x];
    [destruct Hf as [[Ha Hn] ->]; split; [split; naive_solver congruence|];
     unfold leaf_at; by rewrite level_page_size_eq
    |left; destruct Hf as [-> Hnf]; split; [done|]; split;
     [intros []; apply Hnf; by split|intros (? & ? & ? & ? & ?); congruence]].
  split; [by repeat split|]. by rewrite ppn_eq.
Qed.

Lemma leaf_not_pointer (v : Z) (level : nat) : is_leaf m v level -> ~ is_pointer m v.
Proof. intros [] (? & ? & ? & ? & ?). naive_solver congruence. Qed.

Lemma reaches_det (n : nat) (a : Z) (l1 l2 : nat) (e1 e2 : Z) :
  reaches m mem gva n a l1 e1 -> reaches m mem gva n a l2 e2 -> l1 = l2 /\ e1 = e2.
Proof.
  intros H1. revert l2 e2. induction H1 as [level a Hleaf|level a level' e Hp _ IH]; intros l2 e2 H2;
    inversion H2; subst; [done|by destruct (leaf_not_pointer _ _ Hleaf)| |by apply IH].
  by eapply leaf_not_pointer in Hp.
Qed.

Lemma walk_levels_spec (pmp : option Pmp) (n : nat) (a : Z) :
  (n <= 5)%nat ->
  match walk_levels m mem gva access pmp pl n a with
  | Ok l => exists level e, (level < n)%nat /\ reaches m mem gva n a level e /\ l = leaf_at level e
  | Err x =>
      x = page_fault access /\ (forall level e, ~ reaches m mem gva n a level e) \/
      x = access_fault access /\ pmp <> None
  end.
Proof.
  revert a. induction n as [|n IH]; intros a Hn; cbn [walk_levels].
  { left. split; [done|]. intros level e Hr. inversion Hr. }
  pose proof (walk_level_spec pmp n a ltac:(lia)) as Hw. cbn zeta in Hw.
  destruct (walk_level m mem gva access pmp pl n a) as [[l|a']|x].
  - destruct Hw as [Hl ->]. exists n, (entry_addr a gva n). split_and!; [lia|by constructor|done].
  - destruct Hw as [Hp ->]. specialize (IH (ppn_of (mem_read mem (entry_addr a gva n)) * 4096) ltac:(lia)).
    destruct (walk_levels m mem gva access pmp pl n _) as [l|x].
    + destruct IH as (level & e & Hlt & Hr & ->). exists level, e.
      split_and!; [lia|by apply reach_next|done].
    + destruct IH as [[-> Hno]|?]; [left|by right]. split; [done|]. intros level e Hr.
      inversion Hr; subst; [by eapply leaf_not_pointer in Hp|by eapply Hno].
  - destruct Hw as [(-> & Hnl & Hnp)|?]; [left|by right]. split; [done|]. intros level e Hr.
    by inversion Hr; subst.
Qed.

(** *** Addresses *)

Lemma leaf_pa_eq (level : nat) (e : Z) :
  (level < 5)%nat -> is_leaf m (view_at m mem e) level ->
  leaf_pa (leaf_at level e) gva = phys_addr (view_at m mem e) level gva.
Proof.
  intros Hl Hleaf. unfold leaf_pa, leaf_at, phys_addr, frame_of. cbn [leaf_ppn leaf_size].
  set (v := view_at m mem e) in *. rewrite land_pow2_mod by lia.
  pose proof (ppn_of_range v) as [Hp0 Hp1].
  assert (Hmul : forall x, 0 <= x < 2 ^ 44 -> shl 64 x 12 = x * 4096).
  { intros x Hx. unfold shl. rewrite Z.shiftl_mul_pow2 by lia. apply wrap_small. split; lia. }
  destruct (Z.testbit v 63) eqn:E63.
  - destruct (lf_napot _ _ _ Hleaf E63) as (_ & -> & _).
    pose proof (Z.mod_pos_bound (gva / 4096) 16 ltac:(lia)).
    pose proof (Z.div_mod (ppn_of v) 16 ltac:(lia)). pose proof (Z.mod_pos_bound (ppn_of v) 16 ltac:(lia)).
    assert (E : gva mod 65536 = gva mod 4096 + 4096 * ((gva / 4096) mod 16)).
    { change 65536 with (4096 * 16). by rewrite Z.rem_mul_r by lia. }
    rewrite Hmul, E by lia. change 4096 with (2 ^ 12). rewrite <- Z.shiftl_mul_pow2 by lia.
    rewrite lor_shiftl_add by (try lia; apply Z.mod_pos_bound; lia).
    change (2 ^ (12 + 9 * Z.of_nat 0)) with 4096. change (2 ^ 12) with 4096. lia.
  - rewrite Hmul by lia.
    assert (Ha : ppn_of v * 4096 = ppn_of v / 2 ^ (9 * Z.of_nat level) * 2 ^ (12 + 9 * Z.of_nat level)).
    { pose proof (lf_aligned _ _ _ Hleaf) as Hal.
      pose proof (Z.div_mod (ppn_of v) (2 ^ (9 * Z.of_nat level)) ltac:(apply Z.pow_nonzero; lia)) as Hd.
      rewrite Hal in Hd. rewrite Z.pow_add_r by lia. change (2 ^ 12) with 4096. lia. }
    rewrite Ha, <- Z.shiftl_mul_pow2 by lia. rewrite lor_shiftl_add; [by rewrite Z.shiftl_mul_pow2 by lia|lia|].
    apply Z.mod_pos_bound, Z.pow_pos_nonneg; lia.
Qed.

Lemma check_perm_spec (v mstatus : Z) :
  match check_perm (Z.land v 0xFF) access pl mstatus with
  | Ok _ => allowed v access pl mstatus
  | Err x => x = page_fault access /\ ~ allowed v access pl mstatus
  end.
Proof.
  unfold check_perm, allowed. change PTE_R with (2 ^ 1). change PTE_W with (2 ^ 2).
  change PTE_X with (2 ^ 3). change PTE_U with (2 ^ 4). change MSTATUS_MXR with (2 ^ 19).
  change MSTATUS_SUM with (2 ^ 18). rewrite !flag_bit, !has_pow2 by lia.
  destruct (Z.testbit v 1), (Z.testbit v 2), (Z.testbit v 3), (Z.testbit v 4),
    (Z.testbit mstatus 19), (Z.testbit mstatus 18), access, pl; cbn; naive_solver.
Qed.

End Walk.

(** The sign-extension test. *)
Lemma canonical_bits (gva n : Z) :
  is_u64 gva -> 0 < n < 64 ->
  (let s := Z.shiftr (signed 64 gva) (n - 1) in (s =? 0) || (s =? -1)) = true <->
  forall i, n <= i < 64 -> Z.testbit gva i = Z.testbit gva (n - 1).
Proof.
  intros Hg Hn. cbv zeta. rewrite orb_true_iff, !Z.eqb_eq.
  assert (Hs : forall j, 0 <= j -> Z.testbit (Z.shiftr (signed 64 gva) (n - 1)) j
                         = Z.testbit gva (Z.min (j + (n - 1)) 63)).
  { intros j Hj. rewrite Z.shiftr_spec by done. apply testbit_signed; [lia|done|lia]. }
  assert (Hall : forall (b : bool) s, (forall j, 0 <= j -> Z.testbit s j = b) ->
    Z.shiftr (signed 64 gva) (n - 1) = s <-> forall i, n - 1 <= i < 64 -> Z.testbit gva i = b).
  { intros b s Hb. split.
    - intros E i Hi. rewrite <- (Hb (i - (n - 1))), <- E, Hs by lia. f_equal. lia.
    - intros Hi. apply Z.bits_inj'. intros j Hj. rewrite Hs, Hb, Hi by lia. done. }
  rewrite (Hall false 0), (Hall true (-1)); [|apply Z.bits_m1|intros; apply Z.bits_0]. split.
  - intros [Hb|Hb] i Hi; rewrite !Hb by lia; done.
  - intros Hi. destruct (Z.testbit gva (n - 1)) eqn:E; [right|left]; intros i Hi';
      (destruct (decide (i = n - 1)) as [->|]; [done|rewrite Hi by lia; done]).
Qed.

Lemma canonical_spec (m : Mmu) (gva : Z) :
  is_u64 gva -> is_canonical_sv gva (satp_mode m) = true <-> canonical m gva.
Proof.
  intros Hg. unfold is_canonical_sv, canonical.
  unfold SATP_MODE_SV39, SATP_MODE_SV48.
  destruct (Z.eqb_spec (satp_mode m) 8) as [E|].
  { rewrite E, (canonical_bits gva 39 Hg) by lia.
    split; [intros Hb; split; [by intros _|lia]|intros [Hb _]; by apply Hb]. }
  destruct (Z.eqb_spec (satp_mode m) 9) as [E|].
  { rewrite E, (canonical_bits gva 48 Hg) by lia.
    split; [intros Hb; split; [lia|by intros _]|intros [_ Hb]; by apply Hb]. }
  by split.
Qed.

(** ** Only the configuration matters to a translation *)

Definition same_cfg (m m' : Mmu) : Prop :=
  mmu_satp m' = mmu_satp m /\ ext_svpbmt m' = ext_svpbmt m /\
  ext_ssvnapot m' = ext_ssvnapot m /\ ext_xtheadmaee m' = ext_xtheadmaee m.

Section Config.
Context {M : Type} `{PhysMem M}.
Context (m m' : Mmu) (Hc : same_cfg m m').

Lemma satp_mode_cfg : satp_mode m' = satp_mode m.
Proof. unfold satp_mode. by rewrite (proj1 Hc). Qed.

Lemma levels_cfg : levels m' = levels m.
Proof. unfold levels. by rewrite satp_mode_cfg. Qed.

Lemma root_table_cfg : root_table m' = root_table m.
Proof. unfold root_table. by rewrite (proj1 Hc). Qed.

Lemma view_cfg (pte : Z) : pte_standard_view m' pte = pte_standard_view m pte.
Proof.
  destruct Hc as (_ & _ & E1 & E2). unfold pte_standard_view, thead_maee_attr_mask.
  by rewrite E1, E2.
Qed.

Lemma walk_level_cfg mem gva access pmp pl level a :
  walk_level m' mem gva access pmp pl level a = walk_level m mem gva access pmp pl level a.
Proof.
  destruct Hc as (_ & E0 & E1 & _). unfold walk_level, leaf_frame. by rewrite view_cfg, E0, E1.
Qed.

Lemma walk_cfg mem gva access pmp pl :
  walk_page_table m' mem gva access pmp pl = walk_page_table m mem gva access pmp pl.
Proof.
  unfold walk_page_table. rewrite satp_mode_cfg, levels_cfg, root_table_cfg. case_if; [done|].
  generalize (root_table m). induction (levels m) as [|n IH]; intros a; [done|].
  cbn [walk_levels]. rewrite walk_level_cfg. by destruct (walk_level _ _ _ _ _ _ _ _) as [[]|].
Qed.

Lemma maps_cfg mem pl mstatus gva access pa :
  maps m mem pl mstatus gva access pa -> maps m' mem pl mstatus gva access pa.
Proof.
  intros (level & e & Hcan & Hr & Ha & ->). exists level, e.
  assert (Hv : forall x, view_at m' mem x = view_at m mem x) by (intros; apply view_cfg).
  unfold maps_at. rewrite Hv. split_and!; [|rewrite levels_cfg, root_table_cfg|done|done].
  - unfold canonical in *. by rewrite satp_mode_cfg.
  - destruct Hc as (_ & E0 & E1 & _).
    assert (Hp : forall v, pbmt_ok m v -> pbmt_ok m' v) by (unfold pbmt_ok; by rewrite E0).
    induction Hr as [level a Hl|level a level' e Hp' _ IH].
    + constructor. rewrite Hv. destruct Hl. split; auto. by rewrite E1.
    + apply reach_next; [|by apply IH]. rewrite Hv. destruct Hp'. split; auto.
Qed.

End Config.

(** ** The accessed and dirty bits do not matter to a translation *)

(** Entries that agree but for the accessed and dirty bits. *)
Definition same_pte (p q : Z) : Prop :=
  forall i, 0 <= i -> i <> 6 -> i <> 7 -> Z.testbit p i = Z.testbit q i.

Global Instance same_pte_equiv : Equivalence same_pte.
Proof.
  split; [by intros p i|intros p q Hpq i ???; symmetry; by apply Hpq|].
  intros p q r Hpq Hqr i ???. by rewrite Hpq, Hqr.
Qed.

Global Instance ppn_of_proper : Proper (same_pte ==> eq) ppn_of.
Proof.
  intros p q Hpq. rewrite <- !ppn_eq. unfold shr, PTE_PPN_MASK.
  rewrite !land_pow2_mod by lia. apply Z.bits_inj'. intros i Hi.
  rewrite !Z.testbit_mod_pow2 by lia. f_equal. rewrite !Z.shiftr_spec by lia. apply Hpq; lia.
Qed.

Global Instance svnapot_proper : Proper (same_pte ==> eq) is_supported_svnapot_pte.
Proof.
  intros p q Hpq. unfold is_supported_svnapot_pte. change PTE_N with (2 ^ 63).
  rewrite !land_pow2_testbit, !ppn_eq by lia. by rewrite (Hpq 63), (ppn_of_proper p q Hpq) by lia.
Qed.

Global Instance view_proper (m : Mmu) : Proper (same_pte ==> same_pte) (pte_standard_view m).
Proof.
  intros p q Hpq i Hi H6 H7. unfold pte_standard_view, thead_maee_attr_mask.
  rewrite (svnapot_proper p q Hpq).
  destruct (ext_xtheadmaee m); [|by apply Hpq]. by rewrite !Z.land_spec, Hpq.
Qed.

Global Instance is_pointer_proper (m : Mmu) : Proper (same_pte ==> iff) (is_pointer m).
Proof.
  intros p q Hpq. unfold is_pointer, pbmt_ok.
  by rewrite (Hpq 0), (Hpq 1), (Hpq 2), (Hpq 3), (Hpq 61), (Hpq 62) by lia.
Qed.

Lemma is_leaf_same (m : Mmu) (p q : Z) (level : nat) :
  same_pte p q -> is_leaf m p level -> is_leaf m q level.
Proof.
  intros Hpq [Hp Hv Hk Hw Ha Hn]. unfold pbmt_ok in Hp.
  rewrite (ppn_of_proper p q Hpq) in Ha, Hn.
  split; unfold pbmt_ok; rewrite <- ?(Hpq 0), <- ?(Hpq 1), <- ?(Hpq 2), <- ?(Hpq 3),
    <- ?(Hpq 61), <- ?(Hpq 62), <- ?(Hpq 63) by lia; done.
Qed.

Lemma allowed_same (p q : Z) (access : AccessType) (pl : PrivLevel) (mstatus : Z) :
  same_pte p q -> allowed p access pl mstatus -> allowed q access pl mstatus.
Proof.
  intros Hpq. unfold allowed. by rewrite (Hpq 1), (Hpq 2), (Hpq 3), (Hpq 4) by lia.
Qed.

Lemma phys_addr_same (p q : Z) (level : nat) (gva : Z) :
  same_pte p q -> phys_addr p level gva = phys_addr q level gva.
Proof. intros Hpq. unfold phys_addr. by rewrite (Hpq 63), (ppn_of_proper p q Hpq) by lia. Qed.

Lemma updated_pte_same (pte : Z) (access : AccessType) : same_pte pte (updated_pte pte access).
Proof.
  intros i Hi H6 H7. unfold updated_pte, PTE_A, PTE_D.
  case_decide; rewrite !Z.lor_spec, !testbit_pow2 by lia;
    rewrite (proj2 (Z.eqb_neq i 6)), ?(proj2 (Z.eqb_neq i 7)) by done; by rewrite ?orb_false_r.
Qed.

Lemma updated_pte_range (pte : Z) (access : AccessType) :
  is_u64 pte -> is_u64 (updated_pte pte access).
Proof. intros. unfold updated_pte, PTE_A, PTE_D. case_decide; repeat apply lor_range; done || lia. Qed.

(** The bits the update sets. *)
Lemma updated_pte_bits (pte : Z) (access : AccessType) :
  Z.testbit (updated_pte pte access) 6 = true /\
  (access = Write -> Z.testbit (updated_pte pte access) 7 = true).
Proof.
  unfold updated_pte, PTE_A, PTE_D.
  case_decide; rewrite !Z.lor_spec, !testbit_pow2 by lia; cbn; rewrite !orb_true_r; naive_solver.
Qed.

(** *** Memories whose page tables agree *)

Section Tables.
Context {M : Type} `{PhysMemLaws M}.

Definition same_tables (mem mem' : M) : Prop :=
  forall a, a mod 8 = 0 -> same_pte (mem_read mem a) (mem_read mem' a).

Lemma same_tables_refl (mem : M) : same_tables mem mem.
Proof. by intros a _. Qed.

Lemma same_tables_trans (m1 m2 m3 : M) :
  same_tables m1 m2 -> same_tables m2 m3 -> same_tables m1 m3.
Proof. intros H1 H2 a Ha. by transitivity (mem_read m2 a); [apply H1|apply H2]. Qed.

Lemma same_tables_sym (m1 m2 : M) : same_tables m1 m2 -> same_tables m2 m1.
Proof. intros H1 a Ha. symmetry. by apply H1. Qed.

Lemma entry_addr_aligned (a gva : Z) (level : nat) : a mod 8 = 0 -> entry_addr a gva level mod 8 = 0.
Proof. intros Ha. unfold entry_addr. by rewrite Z_mod_plus_full. Qed.

Lemma page_aligned (n : Z) : (n * 4096) mod 8 = 0.
Proof. replace (n * 4096) with (n * 512 * 8) by lia. apply Z_mod_mult. Qed.

Lemma reaches_same (m : Mmu) (mem mem' : M) gva n a level e :
  same_tables mem mem' -> a mod 8 = 0 ->
  reaches m mem gva n a level e -> reaches m mem' gva n a level e /\ e mod 8 = 0.
Proof.
  intros Hs Ha Hr. induction Hr as [level a Hl|level a level' e Hp _ IH].
  - pose proof (entry_addr_aligned a gva level Ha) as He. split; [|done]. constructor.
    eapply is_leaf_same; [|done]. apply view_proper, Hs, He.
  - pose proof (entry_addr_aligned a gva level Ha) as He.
    destruct IH as [IH ?]; [apply page_aligned|]. split; [|done].
    apply reach_next.
    + eapply is_pointer_proper; [|done]. symmetry. apply view_proper, Hs, He.
    + by rewrite <- (ppn_of_proper _ _ (Hs _ He)).
Qed.

Lemma root_aligned (m : Mmu) : root_table m mod 8 = 0.
Proof. apply page_aligned. Qed.

Lemma maps_at_same (m : Mmu) (mem mem' : M) pl mstatus gva access level e pa :
  same_tables mem mem' -> maps_at m mem pl mstatus gva access level e pa ->
  maps_at m mem' pl mstatus gva access level e pa.
Proof.
  intros Hs (Hcan & Hr & Ha & ->).
  destruct (reaches_same m mem mem' gva _ _ level e Hs (root_aligned m) Hr) as [Hr' He].
  assert (Hv : same_pte (view_at m mem e) (view_at m mem' e)) by (by apply view_proper, Hs).
  split_and!; [done|done|by eapply allowed_same|by apply phys_addr_same].
Qed.

Lemma update_same (mem : M) (e : Z) (access : AccessType) :
  plain mem e -> e mod 8 = 0 ->
  same_tables mem (mem_write mem e (updated_pte (mem_read mem e) access)).
Proof.
  intros Hp He a Ha. rewrite mem_read_write; [|done|apply updated_pte_range, mem_read_range|done|done].
  case_decide as E; [|done]. subst. apply updated_pte_same.
Qed.

End Tables.

(** ** What a miss does *)

Section Miss.
Context {M : Type} `{PhysMemLaws M}.
Context (m : Mmu) (mem : M) (gva : Z) (access : AccessType) (pl : PrivLevel).
Context (mstatus size : Z) (pmp : option Pmp).

(** No byte is mapped for the access. *)
Definition unmapped : Prop := forall pa, ~ maps m mem pl mstatus gva access pa.

Definition after_update (mem' : M) (e : Z) : Prop :=
  mem_read mem' e = updated_pte (mem_read mem e) access /\
  forall a, a mod 8 = 0 -> a <> e -> mem_read mem' a = mem_read mem a.

Definition miss_entry (level : nat) (e pa : Z) : TlbEntry -> TlbEntry :=
  refill gva pa (Z.land (updated_pte (mem_read mem e) access) 0xFF)
    (Z.land (shr (mmu_satp m) SATP_ASID_SHIFT) SATP_ASID_MASK) (2 ^ (12 + 9 * Z.of_nat level)) mstatus.

(** The leaf the walk can find is in plain memory. *)
Definition leaf_plain : Prop :=
  forall level e, reaches m mem gva (levels m) (root_table m) level e -> plain mem e.

Definition miss_outcome (m' : Mmu) (mem' : M) (r : result Z Exception) : Prop :=
  match r with
  | Ok pa => exists level e,
      maps_at m mem pl mstatus gva access level e pa /\ e mod 8 = 0 /\ (level < 5)%nat /\
      (plain mem e -> after_update mem' e) /\ m' = upd_entry gva (miss_entry level e pa) (count_miss m)
  | Err x =>
      m' = count_miss m /\
      (x = page_fault access /\ mem' = mem /\ unmapped \/ x = access_fault access /\ pmp <> None)
  end /\ (leaf_plain -> same_tables mem mem').

Lemma walk_spec :
  is_u64 gva ->
  match walk_page_table (count_miss m) mem gva access pmp pl with
  | Ok l => exists level e, (level < 5)%nat /\ canonical m gva /\
      reaches m mem gva (levels m) (root_table m) level e /\ l = leaf_at m mem gva level e
  | Err x =>
      x = page_fault access /\
      (canonical m gva -> forall level e, ~ reaches m mem gva (levels m) (root_table m) level e) \/
      x = access_fault access /\ pmp <> None
  end.
Proof.
  intros Hg. rewrite (walk_cfg m) by done. unfold walk_page_table.
  pose proof (canonical_spec m gva Hg) as Hcan.
  destruct (is_canonical_sv gva (satp_mode m)); cbn [negb]; [|naive_solver].
  pose proof (levels_bound m). pose proof (walk_levels_spec m mem gva access pl pmp (levels m) (root_table m) ltac:(lia)) as Hw.
  destruct (walk_levels _ _ _ _ _ _ _ _) as [l|x]; [|naive_solver].
  destruct Hw as (level & e & Hl & Hr & ->). exists level, e. split_and!; [lia|naive_solver|done|done].
Qed.

Lemma reaches_leaf (n : nat) (a : Z) (level : nat) (e : Z) :
  reaches m mem gva n a level e -> is_leaf m (view_at m mem e) level.
Proof. induction 1; done. Qed.

Lemma pmp_check_err (a sz : Z) (acc : AccessType) (x : Exception) :
  pmp_check pmp a sz acc pl = Err x -> pmp <> None /\ x = access_fault acc.
Proof.
  unfold pmp_check. destruct pmp as [p|]; [|done]. intros Hx. split; [done|].
  assert (Hperm : forall e, check_permission e acc pl = Err x -> x = access_fault acc).
  { intros e. unfold check_permission. by repeat case_if; intros [= <-]. }
  assert (Hes : forall es lower, check_entries lower es a sz acc pl = Err x -> x = access_fault acc).
  { induction es as [|e es IH]; intros lower; cbn [check_entries]; [case_decide; congruence|].
    destruct (entry_range lower e). case_if; [apply Hperm|apply IH]. }
  unfold check_access in Hx. case_if_in Hx; [done|]. by eapply Hes.
Qed.

Lemma update_leaf_spec (level : nat) (e : Z) :
  e mod 8 = 0 ->
  match update_leaf mem (leaf_at m mem gva level e) access pmp pl with
  | Ok mem' => plain mem e -> after_update mem' e /\ same_tables mem mem'
  | Err x => x = access_fault access /\ pmp <> None
  end.
Proof.
  intros He. unfold update_leaf, leaf_at. cbn [leaf_pte leaf_addr].
  destruct (Z.eqb_spec (updated_pte (mem_read mem e) access) (mem_read mem e)) as [E|E].
  { intros _. split; [by split|apply same_tables_refl]. }
  destruct (pmp_check pmp e PTE_SIZE Write pl) as [u|x] eqn:Ep.
  - intros Hpl. split; [|by apply update_same]. split.
    + rewrite mem_read_write; [by rewrite decide_True|done|apply updated_pte_range, mem_read_range|done|done].
    + intros a Ha Hne.
      rewrite mem_read_write; [by rewrite decide_False|done|apply updated_pte_range, mem_read_range|done|done].
  - by apply pmp_check_err in Ep as [? _].
Qed.

Lemma translate_miss_spec :
  is_u64 gva ->
  let '(m', mem', r) := translate_miss m mem gva access pl mstatus size pmp in
  miss_outcome m' mem' r.
Proof.
  intros Hg. unfold translate_miss. pose proof (walk_spec Hg) as Hw.
  destruct (walk_page_table (count_miss m) mem gva access pmp pl) as [l|x].
  2: { split; [|intros _; apply same_tables_refl]. split; [done|].
       destruct Hw as [[-> Hno]|?]; [left|by right]. split_and!; [done|done|].
       intros pa (level & e & Hcan & Hr & _). by eapply Hno. }
  destruct Hw as (level & e & Hl & Hcan & Hr & ->).
  pose proof (reaches_same m mem mem gva _ _ level e (same_tables_refl mem) (root_aligned m) Hr) as [_ He].
  pose proof (check_perm_spec access pl (view_at m mem e) mstatus) as Hp. cbn [leaf_flags leaf_at].
  destruct (check_perm _ _ _ _) as [u|x].
  2: { split; [|intros _; apply same_tables_refl]. split; [done|]. left. destruct Hp as [-> Hno].
       split_and!; [done|done|]. intros pa (level' & e' & _ & Hr' & Ha & _).
       destruct (reaches_det m mem gva _ _ _ _ _ _ Hr Hr') as [-> ->]. done. }
  pose proof (update_leaf_spec level e He) as Hu. destruct (update_leaf _ _ _ _ _) as [mem'|x].
  2: { split; [|intros _; apply same_tables_refl]. split; [done|]. by right. }
  assert (Hs : leaf_plain -> same_tables mem mem') by (intros Hpl; apply Hu; by eapply Hpl).
  destruct (pmp_check pmp _ size access pl) as [u'|x] eqn:Ep.
  - split; [|done]. exists level, e. split_and!; try done; [|by apply Hu].
    split_and!; try done. by rewrite <- leaf_pa_eq by (done || by eapply reaches_leaf).
  - apply pmp_check_err in Ep as [Hn ->]. split; [|done]. split; [done|]. by right.
Qed.

End Miss.

(** ** Pages *)

Lemma page_of_eq (gva : Z) : is_u64 gva -> page_of gva = gva / 4096 * 4096.
Proof. intros Hg. unfold page_of, PAGE_MASK, PAGE_SIZE. by apply (land_bnot_ones gva 12). Qed.

Lemma page_of_inj (g g' : Z) : is_u64 g -> is_u64 g' -> page_of g = page_of g' -> g / 4096 = g' / 4096.
Proof. intros Hg Hg'. rewrite !page_of_eq by done. lia. Qed.

Lemma page_of_valid (gva : Z) : is_u64 gva -> page_of gva <> TLB_INVALID_TAG.
Proof.
  intros Hg. rewrite page_of_eq by done. unfold TLB_INVALID_TAG, u64_max. intros E.
  assert (Hm : (gva / 4096 * 4096) mod 4096 = (2 ^ 64 - 1) mod 4096) by (by rewrite E).
  by rewrite Z_mod_mult in Hm.
Qed.

(** The frame of a page under a leaf. *)
Definition page_frame (v : Z) (level : nat) (vpn : Z) : Z :=
  if Z.testbit v 63 then ppn_of v / 16 * 16 + vpn mod 16
  else ppn_of v + vpn mod 2 ^ (9 * Z.of_nat level).

Lemma mod_split (g k : Z) : 0 <= k -> g mod 2 ^ (12 + k) = (g / 4096) mod 2 ^ k * 4096 + g mod 4096.
Proof.
  intros Hk. rewrite Z.pow_add_r by lia. change (2 ^ 12) with 4096.
  rewrite Z.rem_mul_r by (try apply Z.pow_nonzero; lia). lia.
Qed.

Lemma phys_addr_page (v : Z) (level : nat) (g : Z) :
  phys_addr v level g = page_frame v level (g / 4096) * 4096 + g mod 4096.
Proof.
  unfold phys_addr, page_frame. destruct (Z.testbit v 63).
  - pose proof (mod_split g 4 ltac:(lia)) as E. change (2 ^ (12 + 4)) with 65536 in E.
    change (2 ^ 4) with 16 in E. rewrite E. lia.
  - rewrite mod_split by lia. lia.
Qed.

Lemma phys_addr_shr (v : Z) (level : nat) (g : Z) :
  shr (phys_addr v level g) 12 = page_frame v level (g / 4096).
Proof.
  rewrite phys_addr_page. unfold shr. rewrite Z.shiftr_div_pow2 by lia. change (2 ^ 12) with 4096.
  rewrite Z.div_add_l by lia. rewrite (Z.div_small (g mod 4096)) by (apply Z.mod_pos_bound; lia). lia.
Qed.

Section SamePage.
Context {M : Type} `{PhysMem M}.
Context (m : Mmu) (mem : M) (g g' : Z) (Hp : g / 4096 = g' / 4096).

Lemma entry_addr_page (a : Z) (level : nat) : entry_addr a g' level = entry_addr a g level.
Proof.
  unfold entry_addr. rewrite Z.pow_add_r by lia. change (2 ^ 12) with 4096.
  rewrite <- !Z.div_div by (try apply Z.pow_pos_nonneg; lia). by rewrite Hp.
Qed.

Lemma reaches_page n a level e : reaches m mem g n a level e -> reaches m mem g' n a level e.
Proof.
  induction 1 as [level a Hl|level a level' e Hptr _ IH].
  - rewrite <- entry_addr_page. constructor. by rewrite entry_addr_page.
  - apply reach_next; by rewrite entry_addr_page.
Qed.

Lemma bits_page (i : Z) : 12 <= i -> Z.testbit g' i = Z.testbit g i.
Proof.
  intros Hi. replace i with (i - 12 + 12) by lia. rewrite <- !Z.shiftr_spec by lia.
  rewrite !Z.shiftr_div_pow2 by lia. change (2 ^ 12) with 4096. by rewrite Hp.
Qed.

Lemma canonical_page : canonical m g -> canonical m g'.
Proof.
  intros [H1 H2]. split; intros E i Hi; rewrite !bits_page by lia; [by apply H1|by apply H2].
Qed.

(** A mapping of one address of the page is one of every other. *)
Lemma maps_at_page pl mstatus access level e pa :
  maps_at m mem pl mstatus g access level e pa ->
  maps_at m mem pl mstatus g' access level e (pa / 4096 * 4096 + g' mod 4096).
Proof.
  intros (Hc & Hr & Ha & ->). split_and!; [by apply canonical_page|by apply reaches_page|done|].
  pose proof (phys_addr_shr (view_at m mem e) level g) as Es. unfold shr in Es.
  rewrite Z.shiftr_div_pow2 in Es by lia. change (2 ^ 12) with 4096 in Es.
  by rewrite Es, (phys_addr_page _ _ g'), Hp.
Qed.

End SamePage.

(** ** The TLB caches translations *)

Lemma tlb_index_bound (va : Z) : (tlb_index va < TLB_SIZE)%nat.
Proof.
  unfold tlb_index, TLB_SIZE. change 255 with (2 ^ 8 - 1). rewrite land_pow2_mod by lia.
  pose proof (Z.mod_pos_bound (Z.lxor (shr va 12) (shr (shr va 12) 8)) (2 ^ 8)). lia.
Qed.

(** [Q] holds of every entry that is hit, for the addresses and accesses that hit
    it. *)
Definition tlb_all (Q : Z -> AccessType -> TlbEntry -> Prop) (m : Mmu) : Prop :=
  length (tlb m) = TLB_SIZE /\
  forall access gva, is_u64 gva -> tag_for access (entry_at m gva) = page_of gva ->
    Q gva access (entry_at m gva).

(** Every hit leads to the byte [R] relates the address to. *)
Definition tlb_ok (R : Z -> AccessType -> Z -> Prop) : Mmu -> Prop :=
  tlb_all (fun gva access e => R gva access (phys_page e * 4096 + gva mod 4096)).

Lemma tlb_all_impl (Q Q' : Z -> AccessType -> TlbEntry -> Prop) (m : Mmu) :
  (forall gva access e, Q gva access e -> Q' gva access e) -> tlb_all Q m -> tlb_all Q' m.
Proof. intros Hi [Hl Ht]. split; [done|]. intros. by apply Hi, Ht. Qed.

Lemma tlb_ok_impl (R R' : Z -> AccessType -> Z -> Prop) (m : Mmu) :
  (forall gva access pa, R gva access pa -> R' gva access pa) -> tlb_ok R m -> tlb_ok R' m.
Proof. intros Hi. apply tlb_all_impl. intros. by apply Hi. Qed.

Lemma entry_at_upd (m : Mmu) (g gva : Z) (f : TlbEntry -> TlbEntry) :
  length (tlb m) = TLB_SIZE ->
  entry_at (upd_entry gva f m) g
  = if decide (tlb_index g = tlb_index gva) then f (entry_at m g) else entry_at m g.
Proof.
  intros Hl. unfold entry_at, upd_entry. cbn [tlb set_tlb]. rewrite !nth_lookup.
  case_decide as E; [|by rewrite list_lookup_alter_ne by congruence].
  rewrite E, list_lookup_alter_eq. pose proof (tlb_index_bound gva).
  destruct (lookup_lt_is_Some_2 (tlb m) (tlb_index gva)) as [e He]; [lia|]. by rewrite He.
Qed.

Lemma length_upd (gva : Z) (f : TlbEntry -> TlbEntry) (m : Mmu) :
  length (tlb (upd_entry gva f m)) = length (tlb m).
Proof. apply length_alter. Qed.

(** An update keeps the property when the new entry has it. *)
Lemma tlb_all_upd Q (m : Mmu) (gva : Z) (f : TlbEntry -> TlbEntry) :
  tlb_all Q m ->
  (forall access g, is_u64 g -> tlb_index g = tlb_index gva ->
     tag_for access (f (entry_at m g)) = page_of g -> Q g access (f (entry_at m g))) ->
  tlb_all Q (upd_entry gva f m).
Proof.
  intros [Hl Ht] Hf. split; [by rewrite length_upd|]. intros access g Hg.
  rewrite entry_at_upd by done. case_decide; [by apply Hf|by apply Ht].
Qed.

Lemma untag_no_hit access e g : is_u64 g -> tag_for access (untag e) <> page_of g.
Proof. intros Hg E. apply (page_of_valid g Hg). by destruct access. Qed.

Lemma tlb_all_flush Q (m : Mmu) : length (tlb m) = TLB_SIZE -> tlb_all Q (flush m).
Proof.
  intros Hl. split; [cbn; by rewrite length_fmap|]. intros access g Hg Et. exfalso.
  unfold entry_at, flush in Et. cbn [tlb set_buf set_tlb] in Et.
  rewrite nth_lookup, list_lookup_fmap in Et. pose proof (tlb_index_bound g).
  destruct (lookup_lt_is_Some_2 (tlb m) (tlb_index g)) as [e He]; [lia|].
  rewrite He in Et. by apply (untag_no_hit access e g Hg).
Qed.

Lemma tlb_all_flush_page Q (m : Mmu) (vpn : Z) : tlb_all Q m -> tlb_all Q (flush_page vpn m).
Proof.
  intros Hok. apply tlb_all_upd; [done|]. intros access g Hg Hi. case_if.
  - intros E. by apply untag_no_hit in E.
  - by apply Hok.
Qed.

Lemma tlb_ok_fill_addend R (m : Mmu) (gva v : Z) : tlb_ok R m -> tlb_ok R (fill_addend gva v m).
Proof.
  intros Hok. apply tlb_all_upd; [done|]. intros access g Hg Hi Et.
  apply (proj2 Hok access g Hg). by destruct access.
Qed.

(** A bare-mode fill, where every address is its own translation. *)
Lemma tlb_ok_fill_identity R (m : Mmu) (gva v : Z) :
  is_u64 gva -> tlb_ok R m -> (forall g access, R g access g) -> tlb_ok R (fill_identity gva v m).
Proof.
  intros Hgva Hok HR. apply tlb_all_upd; [done|]. intros access g Hg Hi Et.
  assert (Ep : page_of gva = page_of g).
  { pose proof (page_of_valid g Hg). by destruct access; cbn in Et; case_if_in Et. }
  apply page_of_inj in Ep; [|done|done]. cbn [phys_page]. unfold shr.
  rewrite Z.shiftr_div_pow2 by lia. change (2 ^ 12) with 4096. rewrite Ep.
  rewrite Z.mul_comm, <- Z.div_mod by lia. apply HR.
Qed.

(** *** A refill caches the translation it made *)

Lemma view_low (m : Mmu) (pte i : Z) :
  0 <= i < 59 -> Z.testbit (pte_standard_view m pte) i = Z.testbit pte i.
Proof.
  intros Hi. unfold pte_standard_view. destruct (ext_xtheadmaee m); [|done].
  rewrite Z.land_spec, testbit_bnot by lia.
  assert (Ha : Z.testbit PTE_THEAD_MAEE_ATTRS i = false).
  { change PTE_THEAD_MAEE_ATTRS with (Z.shiftl 31 59). rewrite Z.shiftl_spec by lia.
    apply Z.testbit_neg_r. lia. }
  assert (Hm : Z.testbit (thead_maee_attr_mask m pte) i = false).
  { unfold thead_maee_attr_mask. case_if; [|done]. by rewrite Z.land_spec, Ha. }
  rewrite Hm. destruct (Z.leb_spec 0 i), (Z.ltb_spec i 64); try lia. by rewrite andb_true_r.
Qed.

Section Coherent.
Context {M : Type} `{PhysMemLaws M}.
Context (pl : PrivLevel) (mstatus : Z).

(** What a hit may rely on.  The execute tag is set from the page's execute bit
    alone, so for a supervisor it may lead to a user page. *)
Definition tlb_maps (m : Mmu) (mem : M) (gva : Z) (access : AccessType) (pa : Z) : Prop :=
  maps m mem pl mstatus gva access pa \/
  access = Execute /\ pl = Supervisor /\ maps m mem Machine mstatus gva Execute pa.

Lemma maps_mono (m m' : Mmu) (mem mem' : M) p gva access pa :
  same_cfg m m' -> same_tables mem mem' ->
  maps m mem p mstatus gva access pa -> maps m' mem' p mstatus gva access pa.
Proof.
  intros Hc Hs (level & e & Hm). apply (maps_cfg m); [done|]. exists level, e.
  by apply (maps_at_same m mem).
Qed.

Lemma tlb_maps_mono (m m' : Mmu) (mem mem' : M) gva access pa :
  same_cfg m m' -> same_tables mem mem' ->
  tlb_maps m mem gva access pa -> tlb_maps m' mem' gva access pa.
Proof.
  intros Hc Hs [Hm|(-> & -> & Hm)]; [left|right; split_and!; [done|done|]];
    by apply (maps_mono m m' mem mem').
Qed.

(** The tags a refill sets are those of allowed accesses. *)
Lemma refill_allowed (v : Z) (access access' : AccessType) (gva pa asid_ pg : Z) (e : TlbEntry) (f g : Z) :
  is_u64 g -> allowed v access pl mstatus ->
  (forall i, 1 <= i <= 4 -> Z.testbit f i = Z.testbit v i) ->
  tag_for access' (refill gva pa (Z.land f 0xFF) asid_ pg mstatus e) = page_of g ->
  page_of gva = page_of g /\
  (allowed v access' pl mstatus \/
   access' = Execute /\ pl = Supervisor /\ allowed v Execute Machine mstatus).
Proof.
  intros Hg Ha Hf. pose proof (page_of_valid g Hg) as Hv. unfold refill, allowed in *.
  change PTE_R with (2 ^ 1). change PTE_W with (2 ^ 2). change PTE_X with (2 ^ 3).
  change PTE_D with (2 ^ 7). change MSTATUS_MXR with (2 ^ 19).
  rewrite !flag_bit, has_pow2, !Hf by lia.
  destruct Ha as [_ Ha]. destruct access'; cbn [tag_for addr_read addr_write addr_code].
  - destruct (Z.testbit v 1 || _) eqn:Eb; intros E; [|congruence]. split; [congruence|left].
    rewrite orb_true_iff, andb_true_iff in Eb. split; [done|]. destruct pl; naive_solver.
  - destruct (Z.testbit v 2 && _) eqn:Eb; intros E; [|congruence]. split; [congruence|left].
    apply andb_true_iff in Eb as [Eb _]. split; [done|]. destruct pl; naive_solver.
  - destruct (Z.testbit v 3) eqn:Eb; intros E; [|congruence]. split; [congruence|].
    destruct pl; [by left|by right|by left].
Qed.

Lemma tlb_ok_miss (m : Mmu) (mem : M) gva access size pmp :
  is_u64 gva -> leaf_plain m mem gva -> tlb_ok (tlb_maps m mem) m ->
  let '(m', mem', r) := translate_miss m mem gva access pl mstatus size pmp in
  tlb_ok (tlb_maps m' mem') m' /\ same_cfg m m' /\ same_tables mem mem'.
Proof.
  intros Hg Hpl Hok. pose proof (translate_miss_spec m mem gva access pl mstatus size pmp Hg) as Ht.
  destruct (translate_miss m mem gva access pl mstatus size pmp) as [[m' mem'] [pa|x]];
    destruct Ht as [Ht Hs%(fun f => f Hpl)].
  2: { destruct Ht as [-> _]. split_and!; [|done|done].
       apply (tlb_ok_impl (tlb_maps m mem)); [|done]. intros. by apply (tlb_maps_mono m _ mem). }
  destruct Ht as (level & e & Hm & He & Hlt & Hu & ->). split_and!; [|done|done].
  set (m' := upd_entry gva (miss_entry m mem gva access mstatus level e pa) (count_miss m)).
  assert (Hmono : forall g a p, tlb_maps m mem g a p -> tlb_maps m' mem' g a p).
  { intros. by apply (tlb_maps_mono m m' mem). }
  apply tlb_all_upd. { apply (tlb_ok_impl (tlb_maps m mem)); [done|exact Hok]. }
  intros access' g Hg' _ Et. apply Hmono. destruct Hm as (Hc & Hr & Ha & Epa).
  edestruct (refill_allowed (view_at m mem e) access access') as [Ep Hal]; [exact Hg'|exact Ha| |exact Et|].
  { intros i Hi. unfold view_at. rewrite view_low by lia. symmetry. apply updated_pte_same; lia. }
  apply page_of_inj in Ep; [|done|done]. cbn [miss_entry refill phys_page].
  assert (Ef : shr pa 12 = pa / 4096) by (unfold shr; by rewrite Z.shiftr_div_pow2 by lia).
  rewrite Ef. destruct Hal as [Hal|(-> & Epl & Hal)].
  - left. exists level, e. eapply maps_at_page; [exact Ep|]. by split_and!.
  - right. split_and!; [done|done|]. exists level, e. eapply maps_at_page; [exact Ep|]. by split_and!.
Qed.

End Coherent.

(** ** Bounds *)

Lemma entry_addr_bound (n gva : Z) (level : nat) :
  in_range 44 n -> 0 <= entry_addr (n * 4096) gva level <= 2 ^ 56 - 8.
Proof.
  intros [H0 H1]. unfold entry_addr.
  pose proof (Z.mod_pos_bound (gva / 2 ^ (12 + 9 * Z.of_nat level)) 512 ltac:(lia)). lia.
Qed.

Lemma reaches_bound {M} `{PhysMem M} (m : Mmu) (mem : M) gva n x level e :
  in_range 44 x -> reaches m mem gva n (x * 4096) level e -> 0 <= e <= 2 ^ 56 - 8.
Proof.
  intros Hx Hr. remember (x * 4096) as a eqn:Ea. revert x Hx Ea.
  induction Hr as [level a _|level a level' e _ _ IH]; intros x Hx ->; [by apply entry_addr_bound|].
  eapply IH; [apply ppn_of_range|done].
Qed.

Lemma root_range (m : Mmu) : in_range 44 (Z.land (mmu_satp m) SATP_PPN_MASK).
Proof. unfold SATP_PPN_MASK. rewrite land_pow2_mod by lia. apply Z.mod_pos_bound. lia. Qed.

(** A multiple of the alignment below the limit leaves room for an offset. *)
Lemma aligned_offset (n o k l : Z) :
  0 <= k <= l -> in_range l n -> n mod 2 ^ k = 0 -> 0 <= o < 2 ^ (12 + k) ->
  0 <= n * 4096 + o < 2 ^ (12 + l).
Proof.
  intros Hk [Hn0 Hn1] Ha Ho. split; [lia|].
  assert (Hp : 0 < 2 ^ k) by (apply Z.pow_pos_nonneg; lia).
  pose proof (Z.div_mod n (2 ^ k) ltac:(lia)) as Hd. rewrite Ha in Hd.
  assert (El : 2 ^ l = 2 ^ k * 2 ^ (l - k)) by (rewrite <- Z.pow_add_r by lia; f_equal; lia).
  assert (n / 2 ^ k < 2 ^ (l - k)) by (apply Z.div_lt_upper_bound; lia).
  rewrite Z.pow_add_r in * by lia. change (2 ^ 12) with 4096 in *. nia.
Qed.

Lemma phys_addr_bound (m : Mmu) (v : Z) (level : nat) (gva : Z) :
  (level < 5)%nat -> is_leaf m v level -> in_range 56 (phys_addr v level gva).
Proof.
  intros Hl Hleaf. pose proof (ppn_of_range v) as Hp. unfold phys_addr.
  destruct (Z.testbit v 63).
  - destruct Hp. pose proof (Z.mod_pos_bound gva 65536 ltac:(lia)).
    pose proof (Z.div_mod (ppn_of v) 16 ltac:(lia)). pose proof (Z.mod_pos_bound (ppn_of v) 16 ltac:(lia)).
    assert (ppn_of v / 16 < 2 ^ 40) by (apply Z.div_lt_upper_bound; lia).
    assert (0 <= ppn_of v / 16) by (apply Z.div_pos; lia). split; lia.
  - apply (aligned_offset _ _ (9 * Z.of_nat level) 44); [lia|done|apply Hleaf|].
    apply Z.mod_pos_bound, Z.pow_pos_nonneg; lia.
Qed.

(** ** Properties *)

(** C11: Address translation by the walker is that of the privileged specification,
    stated on the bits and fields of page-table entries: a translation succeeds with
    the byte the tables map the canonical address to for that access, privilege and
    status, or raises the page fault of the access when they map none; an access
    fault only comes from the protection unit. *)
Theorem translate_miss_exact {M} `{PhysMemLaws M} (m : Mmu) (mem : M) (gva : Z)
    (access : AccessType) (pl : PrivLevel) (mstatus size : Z) (pmp : option Pmp) :
  is_u64 gva ->
  match (translate_miss m mem gva access pl mstatus size pmp).2 with
  | Ok pa => maps m mem pl mstatus gva access pa
  | Err x =>
      x = page_fault access /\ (forall pa, ~ maps m mem pl mstatus gva access pa) \/
      x = access_fault access /\ pmp <> None
  end.
Proof.
  intros Hg. pose proof (translate_miss_spec m mem gva access pl mstatus size pmp Hg) as Ht.
  destruct (translate_miss m mem gva access pl mstatus size pmp) as [[m' mem'] [pa|x]];
    destruct Ht as [Ht _]; cbn [snd].
  - destruct Ht as (level & e & Hm & _). by exists level, e.
  - destruct Ht as [_ [(-> & _ & Hu)|Hx]]; [by left|by right].
Qed.

(** An Sv39 table of three levels at pages 1, 2 and 3: the page at 0x5000 is
    user-readable and writable, frame 7. *)
Definition sample_mem : gmap Z Z :=
  {[ 0x1000 := 2 * 2 ^ 10 + 1; 0x2000 := 3 * 2 ^ 10 + 1; 0x3028 := 7 * 2 ^ 10 + 0x17 ]}.

Definition sample_mmu : Mmu := set_satp (SATP_MODE_SV39 * 2 ^ 60 + 1) mmu_new.

Lemma translate_miss_exact_witness :
  maps sample_mmu sample_mem User 0 0x5123 Write 0x7123 /\
  forall pa, ~ maps sample_mmu sample_mem User 0 0x5123 Execute pa.
Proof.
  pose proof (translate_miss_exact sample_mmu sample_mem 0x5123 Write User 0 8 None) as Hw.
  pose proof (translate_miss_exact sample_mmu sample_mem 0x5123 Execute User 0 8 None) as Hx.
  assert (Ew : (translate_miss sample_mmu sample_mem 0x5123 Write User 0 8 None).2 = Ok 0x7123)
    by (vm_compute; reflexivity).
  assert (Ex : (translate_miss sample_mmu sample_mem 0x5123 Execute User 0 8 None).2
               = Err InstructionPageFault) by (vm_compute; reflexivity).
  rewrite Ew in Hw. rewrite Ex in Hx.
  split; [apply Hw; split; vm_compute; congruence|].
  destruct Hx as [[_ Hx]|[Hx _]]; [split; vm_compute; congruence|exact Hx|discriminate Hx].
Defined.

(** C18: A successful translation leaves the accessed bit of the leaf it used set,
    and the dirty bit after a write, when the leaf is in plain memory; no other bit of that entry and no other entry
    changes, so every address keeps its translation. *)
Theorem translate_marks_leaf {M} `{PhysMemLaws M} (m m' : Mmu) (mem mem' : M) (gva pa : Z)
    (access : AccessType) (pl : PrivLevel) (mstatus size : Z) (pmp : option Pmp) :
  is_u64 gva -> leaf_plain m mem gva ->
  translate_miss m mem gva access pl mstatus size pmp = (m', mem', Ok pa) ->
  (exists level e, maps_at m mem pl mstatus gva access level e pa /\
     Z.testbit (mem_read mem' e) 6 = true /\
     (access = Write -> Z.testbit (mem_read mem' e) 7 = true) /\
     same_pte (mem_read mem e) (mem_read mem' e) /\
     forall a, a mod 8 = 0 -> a <> e -> mem_read mem' a = mem_read mem a) /\
  forall pl' mstatus' g access' p,
    maps m' mem' pl' mstatus' g access' p <-> maps m mem pl' mstatus' g access' p.
Proof.
  intros Hg Hpl E. pose proof (translate_miss_spec m mem gva access pl mstatus size pmp Hg) as Ht.
  rewrite E in Ht. destruct Ht as [(level & e & Hm & He & _ & Hu & ->) Hs]. specialize (Hs Hpl).
  destruct Hu as [Hu Hother]; [by eapply Hpl, Hm|]. split.
  - exists level, e. rewrite Hu. destruct (updated_pte_bits (mem_read mem e) access).
    split_and!; try done. apply updated_pte_same.
  - intros. split; apply maps_mono; [done|by apply same_tables_sym|done|done].
Qed.

Lemma translate_marks_leaf_witness :
  exists m' mem', translate_miss sample_mmu sample_mem 0x5123 Write User 0 8 None = (m', mem', Ok 0x7123)
    /\ Z.testbit (mem_read mem' 0x3028) 7 = true /\
    (maps m' mem' User 0 0x5123 Write 0x7123 <-> maps sample_mmu sample_mem User 0 0x5123 Write 0x7123).
Proof.
  assert (E : exists m' mem', translate_miss sample_mmu sample_mem 0x5123 Write User 0 8 None
    = (m', mem', Ok 0x7123) /\ mem' = <[0x3028 := 7 * 2 ^ 10 + 0xD7]> sample_mem).
  { eexists _, _. split; reflexivity. }
  destruct E as (m' & mem' & E & Em). exists m', mem'. split; [exact E|].
  split; [by rewrite Em|].
  apply (translate_marks_leaf sample_mmu m' sample_mem mem' 0x5123 0x7123 Write User 0 8 None);
    [split; vm_compute; congruence|done|exact E].
Defined.

Lemma maps_at_bounds {M} `{PhysMem M} (m : Mmu) (mem : M) (pl : PrivLevel)
    (mstatus gva : Z) (access : AccessType) (level : nat) (e pa : Z) :
  maps_at m mem pl mstatus gva access level e pa ->
  0 <= e <= 2 ^ 56 - 8 /\ e mod 8 = 0 /\ (level < levels m)%nat /\ in_range 56 pa.
Proof.
  intros (_ & Hr & _ & ->). pose proof (reaches_leaf _ _ _ _ _ _ _ Hr) as Hl.
  assert (Hlv : (level < levels m)%nat).
  { clear -Hr. induction Hr; lia. }
  pose proof (levels_bound m).
  split; [by eapply reaches_bound, Hr; apply root_range|].
  split; [|split; [done|by apply (phys_addr_bound m); [lia|]]].
  exact (proj2 (reaches_same m mem mem gva _ _ level e (same_tables_refl mem) (root_aligned m) Hr)).
Qed.

(** C19: A successful walk returns an address of the 56-bit physical space and keeps
    the offset in the page; the only memory it may change is an aligned word below the
    top of that space, so none of the additions of the walk can overflow. *)
Theorem translation_bounds {M} `{PhysMemLaws M} (m m' : Mmu) (mem mem' : M) (gva pa : Z)
    (access : AccessType) (pl : PrivLevel) (mstatus size : Z) (pmp : option Pmp) :
  is_u64 gva -> leaf_plain m mem gva ->
  translate_miss m mem gva access pl mstatus size pmp = (m', mem', Ok pa) ->
  in_range 56 pa /\ pa mod 4096 = gva mod 4096 /\
  exists e, 0 <= e <= 2 ^ 56 - 8 /\ e mod 8 = 0 /\
    forall a, a mod 8 = 0 -> a <> e -> mem_read mem' a = mem_read mem a.
Proof.
  intros Hg Hpl E. pose proof (translate_miss_spec m mem gva access pl mstatus size pmp Hg) as Ht.
  rewrite E in Ht. destruct Ht as [(level & e & Hm & _ & _ & Hu & _) _].
  destruct Hu as [_ Hother]; [by eapply Hpl, Hm|].
  destruct (maps_at_bounds _ _ _ _ _ _ _ _ _ Hm) as (He & Ha & _ & Hp).
  split; [done|]. split; [|by exists e].
  destruct Hm as (_ & Hr & _ & ->). rewrite phys_addr_page.
  rewrite Z.add_comm, Z.mod_add by lia. by rewrite Z.mod_mod by lia.
Qed.

Lemma translation_bounds_witness :
  let r := translate_miss sample_mmu sample_mem 0x5123 Read User 0 8 None in
  r.2 = Ok 0x7123 /\ 0x7123 mod 4096 = 0x5123 mod 4096.
Proof.
  intros r. assert (E : r.2 = Ok 0x7123) by (vm_compute; reflexivity). split; [exact E|].
  destruct (translation_bounds sample_mmu r.1.1 sample_mem r.1.2 0x5123 0x7123 Read User 0 8 None)
    as (_ & Ho & _); [split; vm_compute; congruence|done| |exact Ho].
  fold r. rewrite <- E. destruct r as [[??]?]. reflexivity.
Defined.
