(* ===== verification/RvTrap.v ===== *)
(** * RISC-V hart state, traps and interrupts

    Models [guest/riscv/src/riscv/exception.rs] on the hart state of
    [guest/riscv/src/riscv/cpu.rs]: trap entry with delegation, the return
    instructions and the choice of an interrupt; and the interrupt gate and fault
    delivery of the dispatch loop from [system/src/cpus.rs].  Of the hart state the
    fields these and the memory helpers use are modelled; the parts that belong to
    physical memory are in [RvMem]. *)

From Stdlib Require Import ZArith Lia Bool.
From stdpp Require Import base tactics numbers list sets.
From S2P Require Import Prelude RvCsr RvVendor RvPmp RvMmu.

(** ** Hart state *)

Definition NUM_GPRS : nat := 32.
Definition DEFAULT_TIME_MMIO_ADDR : Z := 0x0200BFF8.

Record RiscvCpu := mk_RiscvCpu {
  gpr : list Z;
  pc : Z;
  load_res : Z;
  load_val : Z;
  priv_level : PrivLevel;
  csr : CsrFile;
  profile : RiscvCpuProfile;
  pmp : Pmp;
  mmu : Mmu;
  mem_fault_cause : Z;
  mem_fault_tval : Z;
  guest_base : Z;
  tb_flush_pending : bool;
  last_phys_pc : Z;
  fault_pc : Z;
  time_mmio_addr : Z
}.

(** Field updates. *)

Definition with_gpr (v : list Z) (c : RiscvCpu) : RiscvCpu :=
  mk_RiscvCpu v (pc c) (load_res c) (load_val c) (priv_level c) (csr c) (profile c) (pmp c)
    (mmu c) (mem_fault_cause c) (mem_fault_tval c) (guest_base c)
    (tb_flush_pending c) (last_phys_pc c) (fault_pc c)
    (time_mmio_addr c).

Definition with_pc (v : Z) (c : RiscvCpu) : RiscvCpu :=
  mk_RiscvCpu (gpr c) v (load_res c) (load_val c) (priv_level c) (csr c) (profile c) (pmp c)
    (mmu c) (mem_fault_cause c) (mem_fault_tval c) (guest_base c)
    (tb_flush_pending c) (last_phys_pc c) (fault_pc c)
    (time_mmio_addr c).

Definition with_load_res (v : Z) (c : RiscvCpu) : RiscvCpu :=
  mk_RiscvCpu (gpr c) (pc c) v (load_val c) (priv_level c) (csr c) (profile c) (pmp c)
    (mmu c) (mem_fault_cause c) (mem_fault_tval c) (guest_base c)
    (tb_flush_pending c) (last_phys_pc c) (fault_pc c)
    (time_mmio_addr c).

Definition with_load_val (v : Z) (c : RiscvCpu) : RiscvCpu :=
  mk_RiscvCpu (gpr c) (pc c) (load_res c) v (priv_level c) (csr c) (profile c) (pmp c)
    (mmu c) (mem_fault_cause c) (mem_fault_tval c) (guest_base c)
    (tb_flush_pending c) (last_phys_pc c) (fault_pc c)
    (time_mmio_addr c).

Definition with_priv_level (v : PrivLevel) (c : RiscvCpu) : RiscvCpu :=
  mk_RiscvCpu (gpr c) (pc c) (load_res c) (load_val c) v (csr c) (profile c) (pmp c)
    (mmu c) (mem_fault_cause c) (mem_fault_tval c) (guest_base c)
    (tb_flush_pending c) (last_phys_pc c) (fault_pc c)
    (time_mmio_addr c).

Definition with_csr (v : CsrFile) (c : RiscvCpu) : RiscvCpu :=
  mk_RiscvCpu (gpr c) (pc c) (load_res c) (load_val c) (priv_level c) v (profile c) (pmp c)
    (mmu c) (mem_fault_cause c) (mem_fault_tval c) (guest_base c)
    (tb_flush_pending c) (last_phys_pc c) (fault_pc c)
    (time_mmio_addr c).

Definition with_pmp (v : Pmp) (c : RiscvCpu) : RiscvCpu :=
  mk_RiscvCpu (gpr c) (pc c) (load_res c) (load_val c) (priv_level c) (csr c) (profile c) v (mmu c)
    (mem_fault_cause c) (mem_fault_tval c) (guest_base c)
    (tb_flush_pending c) (last_phys_pc c) (fault_pc c)
    (time_mmio_addr c).

Definition with_mmu (v : Mmu) (c : RiscvCpu) : RiscvCpu :=
  mk_RiscvCpu (gpr c) (pc c) (load_res c) (load_val c) (priv_level c) (csr c) (profile c) (pmp c) v
    (mem_fault_cause c) (mem_fault_tval c) (guest_base c)
    (tb_flush_pending c) (last_phys_pc c) (fault_pc c)
    (time_mmio_addr c).

Definition with_mem_fault_cause (v : Z) (c : RiscvCpu) : RiscvCpu :=
  mk_RiscvCpu (gpr c) (pc c) (load_res c) (load_val c) (priv_level c) (csr c) (profile c) (pmp c) (mmu c)
    v (mem_fault_tval c) (guest_base c)
    (tb_flush_pending c) (last_phys_pc c) (fault_pc c)
    (time_mmio_addr c).

Definition with_mem_fault_tval (v : Z) (c : RiscvCpu) : RiscvCpu :=
  mk_RiscvCpu (gpr c) (pc c) (load_res c) (load_val c) (priv_level c) (csr c) (profile c) (pmp c)
    (mmu c) (mem_fault_cause c) v (guest_base c) (tb_flush_pending c) (last_phys_pc c) (fault_pc c)
    (time_mmio_addr c).

Definition with_tb_flush_pending (v : bool) (c : RiscvCpu) : RiscvCpu :=
  mk_RiscvCpu (gpr c) (pc c) (load_res c) (load_val c) (priv_level c) (csr c) (profile c) (pmp c)
    (mmu c) (mem_fault_cause c) (mem_fault_tval c) (guest_base c) v (last_phys_pc c) (fault_pc c)
    (time_mmio_addr c).

Definition with_last_phys_pc (v : Z) (c : RiscvCpu) : RiscvCpu :=
  mk_RiscvCpu (gpr c) (pc c) (load_res c) (load_val c) (priv_level c) (csr c) (profile c) (pmp c)
    (mmu c) (mem_fault_cause c) (mem_fault_tval c) (guest_base c)
    (tb_flush_pending c) v (fault_pc c)
    (time_mmio_addr c).

Definition with_fault_pc (v : Z) (c : RiscvCpu) : RiscvCpu :=
  mk_RiscvCpu (gpr c) (pc c) (load_res c) (load_val c) (priv_level c) (csr c) (profile c) (pmp c)
    (mmu c) (mem_fault_cause c) (mem_fault_tval c) (guest_base c)
    (tb_flush_pending c) (last_phys_pc c) v (time_mmio_addr c).

(** A hart of a model after reset. *)
Definition new_with_model (model : RiscvCpuModel) : RiscvCpu :=
  let p := profile_of model in
  let f := set_max_satp_mode (prof_max_satp_mode p)
             (set_machine_ids (prof_mvendorid p) (prof_marchid p) new) in
  let m := configure_profile (prof_max_satp_mode p) (cfg_svpbmt p) (cfg_ssvnapot p)
             (cfg_xtheadmaee p) mmu_new in
  mk_RiscvCpu (replicate NUM_GPRS 0) 0 u64_max 0 Machine f p pmp_new m 0 0 0 false 0 0
    DEFAULT_TIME_MMIO_ADDR.

Definition cpu_new : RiscvCpu := new_with_model GenericRv64.

(** ** Interrupts and vectors *)

Inductive Interrupt :=
| SupervisorSoftware | MachineSoftware | SupervisorTimer | MachineTimer
| SupervisorExternal | MachineExternal.

Global Instance Interrupt_eq_dec : EqDecision Interrupt.
Proof. solve_decision. Defined.

Definition irq_code (i : Interrupt) : Z :=
  match i with
  | SupervisorSoftware => 1
  | MachineSoftware => 3
  | SupervisorTimer => 5
  | MachineTimer => 7
  | SupervisorExternal => 9
  | MachineExternal => 11
  end.

Definition INTERRUPT_BIT : Z := 2 ^ 63.
Definition MSTATUS_MPP_MASK : Z := Z.shiftl 3 11.
Definition MSTATUS_MPP_SHIFT : Z := 11.

Definition INT_PRIORITY : list Interrupt :=
  [MachineExternal; MachineSoftware; MachineTimer;
   SupervisorExternal; SupervisorSoftware; SupervisorTimer].

Definition tvec_addr (tvec cause : Z) (is_interrupt : bool) : Z :=
  let base := Z.land tvec (bnot 64 3) in
  let mode := Z.land tvec 3 in
  if (mode =? 1) && is_interrupt
  then wrapping_add 64 base (4 * Z.land cause (bnot 64 INTERRUPT_BIT))
  else base.

(** ** Traps *)

(** [if ms & from != 0 { ms |= to } else { ms &= !to }] *)
Definition copy_bit (from to ms : Z) : Z :=
  if has ms from then Z.lor ms to else Z.land ms (bnot 64 to).

Definition clear_bits (mask ms : Z) : Z := Z.land ms (bnot 64 mask).

Definition do_trap (cause tval : Z) (c : RiscvCpu) : RiscvCpu :=
  let is_interrupt := has cause INTERRUPT_BIT in
  let code := Z.land cause (bnot 64 INTERRUPT_BIT) in
  let cur_priv := priv_u64 (priv_level c) in
  let f := csr c in
  let deleg := if is_interrupt then f mideleg else f medeleg in
  let delegated := has (shr deleg code) 1 && priv_lt (priv_level c) Machine in
  let c :=
    if delegated then
      let f := set stval tval (set scause cause (set sepc (pc c) f)) in
      let ms := Z.lor (clear_bits MSTATUS_SPP (f mstatus))
                  (if priv_u64 Supervisor <=? cur_priv then MSTATUS_SPP else 0) in
      let ms := clear_bits MSTATUS_SIE (copy_bit MSTATUS_SIE MSTATUS_SPIE ms) in
      with_priv_level Supervisor
        (with_pc (tvec_addr (f stvec) cause is_interrupt) (with_csr (set mstatus ms f) c))
    else
      let f := set mtval tval (set mcause cause (set mepc (pc c) f)) in
      let ms := Z.lor (clear_bits MSTATUS_MPP_MASK (f mstatus))
                  (shl 64 (Z.land cur_priv 3) MSTATUS_MPP_SHIFT) in
      let ms := clear_bits MSTATUS_MIE (copy_bit MSTATUS_MIE MSTATUS_MPIE ms) in
      with_priv_level Machine
        (with_pc (tvec_addr (f mtvec) cause is_interrupt) (with_csr (set mstatus ms f) c)) in
  with_mmu (flush (mmu c)) (with_load_res u64_max c).

Definition raise_exception (e : Exception) (tval : Z) (c : RiscvCpu) : RiscvCpu :=
  do_trap (exc_code e) tval c.

(** The trap an interrupt raises. *)
Definition raise_interrupt (i : Interrupt) (c : RiscvCpu) : RiscvCpu :=
  do_trap (Z.lor INTERRUPT_BIT (irq_code i)) 0 c.

(** An interrupt is taken from below its target level, or at it when enabled. *)
Definition can_take (c : RiscvCpu) (irq : Z) : bool :=
  let cur_priv := priv_u64 (priv_level c) in
  let f := csr c in
  if has (shr (f mideleg) irq) 1 then
    (cur_priv <? priv_u64 Supervisor)
    || ((cur_priv =? priv_u64 Supervisor) && has (f mstatus) MSTATUS_SIE)
  else
    (cur_priv <? priv_u64 Machine)
    || ((cur_priv =? priv_u64 Machine) && has (f mstatus) MSTATUS_MIE).

Fixpoint scan_interrupts (pending : Z) (irqs : list Interrupt) (c : RiscvCpu) : RiscvCpu * bool :=
  match irqs with
  | [] => (c, false)
  | irq :: rest =>
      let bit := shl 64 1 (irq_code irq) in
      if negb (has pending bit) then scan_interrupts pending rest c
      else if negb (can_take c (irq_code irq)) then scan_interrupts pending rest c
      else (raise_interrupt irq c, true)
  end.

Definition handle_interrupt (c : RiscvCpu) : RiscvCpu * bool :=
  let pending := Z.land (csr c mip) (csr c mie) in
  if pending =? 0 then (c, false) else scan_interrupts pending INT_PRIORITY c.

Definition mpp_priv (ms : Z) : PrivLevel :=
  let mpp := shr (Z.land ms MSTATUS_MPP_MASK) MSTATUS_MPP_SHIFT in
  if mpp =? 0 then User else if mpp =? 1 then Supervisor else Machine.

Definition execute_mret (c : RiscvCpu) : RiscvCpu :=
  let f := csr c in
  let ms := Z.lor (copy_bit MSTATUS_MPIE MSTATUS_MIE (f mstatus)) MSTATUS_MPIE in
  let ms := clear_bits MSTATUS_MPP_MASK ms in
  with_mmu (flush (mmu c))
    (with_load_res u64_max
      (with_pc (f mepc)
        (with_csr (set mstatus ms f) (with_priv_level (mpp_priv (f mstatus)) c)))).

(** [None] is the illegal-instruction return. *)
Definition execute_sret (c : RiscvCpu) : option RiscvCpu :=
  let f := csr c in
  if priv_lt (priv_level c) Supervisor then None
  else if bool_decide (priv_level c = Supervisor) && has (f mstatus) MSTATUS_TSR then None
  else
    let p := if has (f mstatus) MSTATUS_SPP then Supervisor else User in
    let ms := Z.lor (copy_bit MSTATUS_SPIE MSTATUS_SIE (f mstatus)) MSTATUS_SPIE in
    let ms := clear_bits MSTATUS_SPP ms in
    Some (with_mmu (flush (mmu c))
      (with_load_res u64_max (with_pc (f sepc) (with_csr (set mstatus ms f) (with_priv_level p c))))).

(** ** The interrupt gate of the dispatch loop *)

Record Hart := mk_Hart { cpu : RiscvCpu; shared_mip : Z; builtin_mode : bool }.

(** In builtin mode the machine timer stands for the supervisor one. *)
Definition device_mip (h : Hart) : Z :=
  let dev := shared_mip h in
  if builtin_mode h && has dev (2 ^ 7)
  then Z.lor (Z.land dev (bnot 64 (2 ^ 7))) (2 ^ 5) else dev.

(** The loop of [pending_interrupt]: the first pending bit decides. *)
Fixpoint first_pending (c : RiscvCpu) (pending : Z) (irqs : list Z) : bool :=
  match irqs with
  | [] => false
  | irq :: rest =>
      if negb (has pending (shl 64 1 irq)) then first_pending c pending rest
      else can_take c irq
  end.

Definition pending_interrupt (h : Hart) : bool :=
  let f := csr (cpu h) in
  let pending := Z.land (Z.lor (f mip) (device_mip h)) (f mie) in
  if pending =? 0 then false else first_pending (cpu h) pending [11; 3; 7; 9; 1; 5].

Definition pending_wfi_wakeup (h : Hart) : bool :=
  let f := csr (cpu h) in
  has (Z.lor (f mip) (device_mip h)) (f mie).

Definition HW_MIP_MASK : Z := fold_left Z.lor [2 ^ 3; 2 ^ 7; 2 ^ 9; 2 ^ 11] 0.

(** The device bits are mirrored before the interrupt is chosen. *)
Definition mirror_mip (h : Hart) : Hart :=
  let f := csr (cpu h) in
  let consume := builtin_mode h && has (shared_mip h) (2 ^ 7) in
  let shared := if consume then Z.land (shared_mip h) (bnot 64 (2 ^ 7)) else shared_mip h in
  let m := if consume then Z.lor (f mip) (2 ^ 5) else f mip in
  let m := Z.lor (Z.land m (bnot 64 HW_MIP_MASK)) (Z.land shared HW_MIP_MASK) in
  mk_Hart (with_csr (set mip m f) (cpu h)) shared (builtin_mode h).

Definition deliver_interrupt (h : Hart) : Hart * bool :=
  let h := mirror_mip h in
  let '(c, taken) := handle_interrupt (cpu h) in
  (mk_Hart c (shared_mip h) (builtin_mode h), taken).

(** ** Faults latched by the memory helpers *)

Definition exception_of (code : Z) : Exception :=
  nth (Z.to_nat code)
    [InstructionMisaligned; InstructionAccessFault; IllegalInstruction; Breakpoint;
     LoadMisaligned; LoadAccessFault; StoreMisaligned; StoreAccessFault; EcallFromU;
     EcallFromS; IllegalInstruction; EcallFromM; InstructionPageFault; LoadPageFault;
     IllegalInstruction; StorePageFault] IllegalInstruction.

Definition handle_exception (code tval : Z) (c : RiscvCpu) : RiscvCpu :=
  raise_exception (exception_of code) tval c.

Definition check_mem_fault (c : RiscvCpu) : RiscvCpu * bool :=
  let cause := mem_fault_cause c in
  if negb (cause =? 0) then
    let tval := mem_fault_tval c in
    let c := with_mem_fault_tval 0 (with_mem_fault_cause 0 c) in
    let c := if negb (fault_pc c =? 0) then with_fault_pc 0 (with_pc (fault_pc c) c) else c in
    (handle_exception cause tval c, true)
  else (c, false).

(** ** Status bits through a trap and its return *)

Lemma testbit_clear (mask ms i : Z) :
  is_u64 ms -> 0 <= i -> Z.testbit (clear_bits mask ms) i = Z.testbit ms i && negb (Z.testbit mask i).
Proof.
  intros Hms Hi. unfold clear_bits. rewrite Z.land_spec, testbit_bnot by lia.
  apply in_range_bits in Hms as [_ Hms]; [|lia].
  destruct (Z.leb_spec 0 i), (Z.ltb_spec i 64); try lia; cbn; [done|]. by rewrite Hms.
Qed.

Lemma testbit_copy (a b ms i : Z) :
  is_u64 ms -> 0 <= a -> 0 <= b -> 0 <= i ->
  Z.testbit (copy_bit (2 ^ a) (2 ^ b) ms) i = if i =? b then Z.testbit ms a else Z.testbit ms i.
Proof.
  intros Hms Ha Hb Hi. unfold copy_bit. rewrite has_pow2 by done.
  destruct (Z.testbit ms a) eqn:E.
  - rewrite Z.lor_spec, testbit_pow2 by done. destruct (i =? b); [by rewrite orb_true_r|by rewrite orb_false_r].
  - change (Z.land ms (bnot 64 (2 ^ b))) with (clear_bits (2 ^ b) ms).
    rewrite testbit_clear, testbit_pow2 by done.
    destruct (i =? b); [by rewrite andb_false_r|by rewrite andb_true_r].
Qed.

Lemma clear_range (mask ms : Z) : is_u64 ms -> is_u64 (clear_bits mask ms).
Proof. intros. by apply land_range_l. Qed.

Lemma pow2_range (n : Z) : 0 <= n < 64 -> is_u64 (2 ^ n).
Proof. intros. split; [apply Z.pow_nonneg; lia|apply Z.pow_lt_mono_r; lia]. Qed.

Lemma copy_range (a b ms : Z) : is_u64 ms -> 0 <= b < 64 -> is_u64 (copy_bit a (2 ^ b) ms).
Proof.
  intros. unfold copy_bit. case_if; [|by apply land_range_l].
  by apply lor_range; [lia| |apply pow2_range].
Qed.

Lemma testbit_mpp (i : Z) : 0 <= i -> Z.testbit MSTATUS_MPP_MASK i = (i =? 11) || (i =? 12).
Proof.
  intros Hi. change MSTATUS_MPP_MASK with (Z.lor (2 ^ 11) (2 ^ 12)).
  by rewrite Z.lor_spec, !testbit_pow2 by lia.
Qed.

Lemma testbit_priv (p : PrivLevel) (i : Z) :
  0 <= i ->
  Z.testbit (shl 64 (Z.land (priv_u64 p) 3) MSTATUS_MPP_SHIFT) i
  = (i =? 11) && negb (bool_decide (p = User)) || (i =? 12) && bool_decide (p = Machine).
Proof.
  intros Hi. destruct p; cbn [priv_u64].
  - change (shl 64 (Z.land 0 3) MSTATUS_MPP_SHIFT) with 0. rewrite Z.bits_0. by rewrite !andb_false_r.
  - change (shl 64 (Z.land 1 3) MSTATUS_MPP_SHIFT) with (2 ^ 11). rewrite testbit_pow2 by lia.
    cbn. by rewrite andb_true_r, andb_false_r, orb_false_r.
  - change (shl 64 (Z.land 3 3) MSTATUS_MPP_SHIFT) with (Z.lor (2 ^ 11) (2 ^ 12)).
    rewrite Z.lor_spec, !testbit_pow2 by lia. cbn. by rewrite !andb_true_r.
Qed.

(** The field of the previous privilege, from its two bits. *)
Lemma mpp_priv_bits (ms : Z) :
  is_u64 ms ->
  mpp_priv ms = if Z.testbit ms 12 then Machine else if Z.testbit ms 11 then Supervisor else User.
Proof.
  intros Hms. unfold mpp_priv.
  assert (E : shr (Z.land ms MSTATUS_MPP_MASK) MSTATUS_MPP_SHIFT
              = b2z (Z.testbit ms 11) + 2 * b2z (Z.testbit ms 12)).
  { unfold shr, MSTATUS_MPP_SHIFT.
    replace (b2z (Z.testbit ms 11) + 2 * b2z (Z.testbit ms 12))
      with (Z.lor (b2z (Z.testbit ms 11)) (Z.shiftl (b2z (Z.testbit ms 12)) 1))
      by (by destruct (Z.testbit ms 11), (Z.testbit ms 12)).
    apply Z.bits_inj'. intros i Hi. rewrite Z.shiftr_spec, Z.land_spec, testbit_mpp by lia.
    rewrite Z.lor_spec, Z.shiftl_spec by lia.
    destruct (Z.eqb_spec (i + 11) 11), (Z.eqb_spec (i + 11) 12); try lia; cbn [orb].
    - replace i with 0 by lia. rewrite andb_true_r. change (0 + 11) with 11. by destruct (Z.testbit ms 11), (Z.testbit ms 12).
    - replace i with 1 by lia. rewrite andb_true_r. change (1 + 11) with 12. by destruct (Z.testbit ms 11), (Z.testbit ms 12).
    - rewrite andb_false_r. unfold b2z.
      destruct (Z.testbit ms 11), (Z.testbit ms 12); rewrite ?Z.bits_0, ?Z.bits_above_log2 by (cbn; lia); done. }
  rewrite E. by destruct (Z.testbit ms 11), (Z.testbit ms 12).
Qed.

Definition m_trap_status (p : PrivLevel) (ms : Z) : Z :=
  clear_bits MSTATUS_MIE (copy_bit MSTATUS_MIE MSTATUS_MPIE
    (Z.lor (clear_bits MSTATUS_MPP_MASK ms) (shl 64 (Z.land (priv_u64 p) 3) MSTATUS_MPP_SHIFT))).

Definition s_trap_status (p : PrivLevel) (ms : Z) : Z :=
  clear_bits MSTATUS_SIE (copy_bit MSTATUS_SIE MSTATUS_SPIE
    (Z.lor (clear_bits MSTATUS_SPP ms) (if priv_u64 Supervisor <=? priv_u64 p then MSTATUS_SPP else 0))).

Definition mret_status (ms : Z) : Z :=
  clear_bits MSTATUS_MPP_MASK (Z.lor (copy_bit MSTATUS_MPIE MSTATUS_MIE ms) MSTATUS_MPIE).

Definition sret_status (ms : Z) : Z :=
  clear_bits MSTATUS_SPP (Z.lor (copy_bit MSTATUS_SPIE MSTATUS_SIE ms) MSTATUS_SPIE).

Lemma m_trap_range (p : PrivLevel) (ms : Z) :
  is_u64 ms ->
  is_u64 (Z.lor (clear_bits MSTATUS_MPP_MASK ms) (shl 64 (Z.land (priv_u64 p) 3) MSTATUS_MPP_SHIFT)).
Proof. intros. apply lor_range; [lia|by apply clear_range|by apply shl_range]. Qed.

Lemma s_trap_range (p : PrivLevel) (ms : Z) :
  is_u64 ms ->
  is_u64 (Z.lor (clear_bits MSTATUS_SPP ms)
            (if priv_u64 Supervisor <=? priv_u64 p then MSTATUS_SPP else 0)).
Proof.
  intros. apply lor_range; [lia|by apply clear_range|]. unfold MSTATUS_SPP. case_if; [|done].
  by apply pow2_range.
Qed.

Lemma m_trap_bits (p : PrivLevel) (ms i : Z) :
  is_u64 ms -> 0 <= i ->
  Z.testbit (m_trap_status p ms) i =
  if i =? 3 then false
  else if i =? 7 then Z.testbit ms 3
  else if i =? 11 then negb (bool_decide (p = User))
  else if i =? 12 then bool_decide (p = Machine)
  else Z.testbit ms i.
Proof.
  intros Hms Hi. unfold m_trap_status, MSTATUS_MIE, MSTATUS_MPIE. pose proof (m_trap_range p ms Hms).
  rewrite testbit_clear by (done || by apply copy_range).
  rewrite testbit_copy, !Z.lor_spec, !testbit_clear, !testbit_mpp, !testbit_priv, testbit_pow2 by done || lia.
  destruct (Z.eqb_spec i 3); [by rewrite andb_false_r|]. rewrite andb_true_r. cbn [negb].
  destruct (Z.eqb_spec i 7); [cbn; by rewrite andb_true_r, orb_false_r|].
  destruct (Z.eqb_spec i 11), (Z.eqb_spec i 12); try lia; cbn [orb negb andb].
  - by rewrite andb_false_r, orb_false_r.
  - by rewrite andb_false_r.
  - by rewrite andb_true_r, orb_false_r.
Qed.

Lemma s_trap_bits (p : PrivLevel) (ms i : Z) :
  is_u64 ms -> 0 <= i ->
  Z.testbit (s_trap_status p ms) i =
  if i =? 1 then false
  else if i =? 5 then Z.testbit ms 1
  else if i =? 8 then negb (bool_decide (p = User))
  else Z.testbit ms i.
Proof.
  intros Hms Hi. unfold s_trap_status, MSTATUS_SIE, MSTATUS_SPIE. pose proof (s_trap_range p ms Hms).
  rewrite testbit_clear by (done || by apply copy_range).
  assert (Hspp : forall j, 0 <= j -> Z.testbit (if priv_u64 Supervisor <=? priv_u64 p then MSTATUS_SPP else 0) j
    = (j =? 8) && negb (bool_decide (p = User))).
  { intros j Hj. unfold MSTATUS_SPP. destruct p; cbn; rewrite ?Z.bits_0, ?testbit_pow2 by lia;
      by rewrite ?andb_true_r, ?andb_false_r. }
  rewrite testbit_copy, !Z.lor_spec, !testbit_clear, !Hspp by done || lia.
  unfold MSTATUS_SPP. rewrite !testbit_pow2 by lia.
  destruct (Z.eqb_spec i 1); [by rewrite andb_false_r|]. rewrite andb_true_r. cbn [negb].
  destruct (Z.eqb_spec i 5); [cbn; by rewrite andb_true_r, orb_false_r|].
  destruct (Z.eqb_spec i 8); cbn [negb andb]; [by rewrite andb_false_r|by rewrite andb_true_r, orb_false_r].
Qed.

Lemma mret_bits (ms i : Z) :
  is_u64 ms -> 0 <= i ->
  Z.testbit (mret_status ms) i =
  if i =? 3 then Z.testbit ms 7
  else if i =? 7 then true
  else if (i =? 11) || (i =? 12) then false
  else Z.testbit ms i.
Proof.
  intros Hms Hi. unfold mret_status, MSTATUS_MIE, MSTATUS_MPIE.
  rewrite testbit_clear; [|apply lor_range; [lia|by apply copy_range|by apply pow2_range]|done].
  rewrite Z.lor_spec, testbit_copy, testbit_pow2, testbit_mpp by done || lia.
  destruct (Z.eqb_spec i 3) as [->|]; [cbn; by rewrite orb_false_r, andb_true_r|].
  destruct (Z.eqb_spec i 7) as [->|]; [cbn; by rewrite orb_true_r|].
  rewrite orb_false_r. destruct ((i =? 11) || (i =? 12)); cbn; by rewrite ?andb_false_r, ?andb_true_r.
Qed.

Lemma sret_bits (ms i : Z) :
  is_u64 ms -> 0 <= i ->
  Z.testbit (sret_status ms) i =
  if i =? 1 then Z.testbit ms 5
  else if i =? 5 then true
  else if i =? 8 then false
  else Z.testbit ms i.
Proof.
  intros Hms Hi. unfold sret_status, MSTATUS_SIE, MSTATUS_SPIE, MSTATUS_SPP.
  rewrite testbit_clear; [|apply lor_range; [lia|by apply copy_range|by apply pow2_range]|done].
  rewrite Z.lor_spec, testbit_copy, !testbit_pow2 by done || lia.
  destruct (Z.eqb_spec i 1) as [->|]; [cbn; by rewrite orb_false_r, andb_true_r|].
  destruct (Z.eqb_spec i 5) as [->|]; [cbn; by rewrite orb_true_r|].
  rewrite orb_false_r. destruct (i =? 8); cbn; by rewrite ?andb_false_r, ?andb_true_r.
Qed.

Lemma m_trap_status_range (p : PrivLevel) (ms : Z) : is_u64 ms -> is_u64 (m_trap_status p ms).
Proof. intros. apply clear_range, copy_range; [by apply m_trap_range|lia]. Qed.

Lemma s_trap_status_range (p : PrivLevel) (ms : Z) : is_u64 ms -> is_u64 (s_trap_status p ms).
Proof. intros. apply clear_range, copy_range; [by apply s_trap_range|lia]. Qed.

(** Equality of words up to a mask, bit by bit. *)
Lemma kept_bits (old new mask : Z) :
  (forall i, 0 <= i -> Z.testbit mask i = false -> Z.testbit new i = Z.testbit old i) ->
  kept old new mask.
Proof.
  intros H. unfold kept. apply Z.bits_inj'. intros i Hi.
  rewrite !Z.land_spec, testbit_bnot by lia.
  destruct (Z.testbit mask i) eqn:E; [by rewrite !andb_false_r|]. by rewrite H.
Qed.

Lemma mret_after_trap (p : PrivLevel) (ms : Z) :
  is_u64 ms ->
  mpp_priv (m_trap_status p ms) = p /\
  kept ms (mret_status (m_trap_status p ms)) (Z.lor MSTATUS_MPIE MSTATUS_MPP_MASK).
Proof.
  intros Hms. pose proof (m_trap_status_range p ms Hms) as Hr. split.
  - rewrite mpp_priv_bits, !m_trap_bits by done || lia. by destruct p.
  - apply kept_bits. intros i Hi. unfold MSTATUS_MPIE.
    rewrite Z.lor_spec, testbit_pow2, testbit_mpp, mret_bits, !m_trap_bits by done || lia.
    destruct (Z.eqb_spec i 3) as [->|]; [done|]. destruct (Z.eqb_spec i 7); [done|].
    by destruct (Z.eqb_spec i 11), (Z.eqb_spec i 12).
Qed.

Lemma sret_after_trap (p : PrivLevel) (ms : Z) :
  is_u64 ms -> p <> Machine ->
  (if has (s_trap_status p ms) MSTATUS_SPP then Supervisor else User) = p /\
  kept ms (sret_status (s_trap_status p ms)) (Z.lor MSTATUS_SPIE MSTATUS_SPP).
Proof.
  intros Hms Hp. pose proof (s_trap_status_range p ms Hms) as Hr. unfold MSTATUS_SPP. split.
  - rewrite has_pow2, s_trap_bits by done || lia. by destruct p.
  - apply kept_bits. intros i Hi. unfold MSTATUS_SPIE.
    rewrite Z.lor_spec, !testbit_pow2, sret_bits, !s_trap_bits by done || lia.
    destruct (Z.eqb_spec i 1) as [->|]; [done|]. destruct (Z.eqb_spec i 5); [done|].
    by destruct (Z.eqb_spec i 8).
Qed.

(** ** Where a trap goes *)

Definition trap_delegated (cause : Z) (c : RiscvCpu) : bool :=
  let deleg := if has cause INTERRUPT_BIT then csr c mideleg else csr c medeleg in
  has (shr deleg (Z.land cause (bnot 64 INTERRUPT_BIT))) 1 && priv_lt (priv_level c) Machine.

Record trapped (c t : RiscvCpu) (target : PrivLevel) (epc cse tvl : Reg) (status : Z -> Z)
    (cause tval vec : Z) : Prop := mk_trapped {
  tr_priv : priv_level t = target;
  tr_epc : csr t epc = pc c;
  tr_cause : csr t cse = cause;
  tr_tval : csr t tvl = tval;
  tr_pc : pc t = tvec_addr vec cause (has cause INTERRUPT_BIT);
  tr_status : csr t mstatus = status (csr c mstatus);
  tr_others : forall r, r ∉ [epc; cse; tvl; mstatus] -> csr t r = csr c r;
  tr_res : load_res t = u64_max;
  tr_tlb : mmu t = flush (mmu c)
}.

Lemma do_trap_cases (cause tval : Z) (c : RiscvCpu) :
  if trap_delegated cause c
  then trapped c (do_trap cause tval c) Supervisor sepc scause stval
         (s_trap_status (priv_level c)) cause tval (csr c stvec)
  else trapped c (do_trap cause tval c) Machine mepc mcause mtval
         (m_trap_status (priv_level c)) cause tval (csr c mtvec).
Proof.
  unfold do_trap. fold (trap_delegated cause c). destruct (trap_delegated cause c); cbv zeta;
    (split; [done|done|done|done|done|done| |done|done]); intros r Hr; cbn;
    rewrite !set_ne by set_solver; done.
Qed.

Lemma execute_mret_spec (c : RiscvCpu) :
  let r := execute_mret c in
  pc r = csr c mepc /\ priv_level r = mpp_priv (csr c mstatus) /\
  csr r mstatus = mret_status (csr c mstatus) /\ mmu r = flush (mmu c).
Proof. by split_and!. Qed.

Lemma execute_sret_spec (c : RiscvCpu) :
  priv_level c = Supervisor -> has (csr c mstatus) MSTATUS_TSR = false ->
  exists r, execute_sret c = Some r /\ pc r = csr c sepc /\
    priv_level r = (if has (csr c mstatus) MSTATUS_SPP then Supervisor else User) /\
    csr r mstatus = sret_status (csr c mstatus) /\ mmu r = flush (mmu c).
Proof.
  intros Hp Ht. unfold execute_sret. rewrite Hp, Ht. cbn. eexists. split; [done|].
  by split_and!.
Qed.

Lemma delegated_low (cause : Z) (c : RiscvCpu) :
  trap_delegated cause c = true -> priv_level c <> Machine.
Proof.
  unfold trap_delegated. rewrite andb_true_iff. intros [_ H] E. by rewrite E in H.
Qed.

(** The trap bit of the status register. *)
Lemma tsr_kept (p : PrivLevel) (ms : Z) :
  is_u64 ms -> has (s_trap_status p ms) MSTATUS_TSR = has ms MSTATUS_TSR.
Proof. intros. unfold MSTATUS_TSR. by rewrite !has_pow2, s_trap_bits by done || lia. Qed.

(** ** Which interrupt is taken *)

(** Pending, enabled in [mie], and not masked at the current level. *)
Definition takeable (c : RiscvCpu) (i : Interrupt) : bool :=
  Z.testbit (csr c mip) (irq_code i) && Z.testbit (csr c mie) (irq_code i) && can_take c (irq_code i).

Lemma irq_code_bound (i : Interrupt) : 0 <= irq_code i < 64.
Proof. by destruct i. Qed.

Lemma has_bit (x n : Z) : 0 <= n < 64 -> has x (shl 64 1 n) = Z.testbit x n.
Proof. intros. by rewrite shl_one_pow, has_pow2 by lia. Qed.

Lemma scan_interrupts_spec (c : RiscvCpu) (irqs : list Interrupt) :
  scan_interrupts (Z.land (csr c mip) (csr c mie)) irqs c =
  match find (takeable c) irqs with
  | Some i => (raise_interrupt i c, true)
  | None => (c, false)
  end.
Proof.
  induction irqs as [|i irqs IH]; [done|]. cbn [scan_interrupts find].
  rewrite has_bit by apply irq_code_bound. rewrite Z.land_spec. unfold takeable at 1.
  destruct (Z.testbit (csr c mip) (irq_code i)), (Z.testbit (csr c mie) (irq_code i)); cbn; try done.
  by destruct (can_take c (irq_code i)).
Qed.

Lemma not_takeable (c : RiscvCpu) (i : Interrupt) :
  Z.land (csr c mip) (csr c mie) = 0 -> takeable c i = false.
Proof.
  intros E. unfold takeable. rewrite <- Z.land_spec, E, Z.bits_0. done.
Qed.

Lemma handle_interrupt_spec (c : RiscvCpu) :
  handle_interrupt c =
  match find (takeable c) INT_PRIORITY with
  | Some i => (raise_interrupt i c, true)
  | None => (c, false)
  end.
Proof.
  unfold handle_interrupt. destruct (Z.eqb_spec (Z.land (csr c mip) (csr c mie)) 0) as [E|E].
  - assert (find (takeable c) INT_PRIORITY = None) as ->; [|done].
    unfold INT_PRIORITY. cbn [find]. by rewrite !not_takeable.
  - apply scan_interrupts_spec.
Qed.

(** *** The gate *)

Definition sup_irqs : list Z := [1; 5; 9].

(** Supervisor interrupts are delegated together and machine ones never: what
    firmware sets up, and what the write mask of [mideleg] allows for the latter. *)
Definition uniform_delegation (c : RiscvCpu) : Prop :=
  (forall i, i ∈ [3; 7; 11] -> Z.testbit (csr c mideleg) i = false) /\
  (forall i j, i ∈ sup_irqs -> j ∈ sup_irqs ->
     Z.testbit (csr c mideleg) i = Z.testbit (csr c mideleg) j).

Lemma can_take_bit (c : RiscvCpu) (i : Z) :
  0 <= i ->
  can_take c i =
  if Z.testbit (csr c mideleg) i then
    match priv_level c with User => true | Supervisor => has (csr c mstatus) MSTATUS_SIE | Machine => false end
  else
    match priv_level c with Machine => has (csr c mstatus) MSTATUS_MIE | _ => true end.
Proof.
  intros Hi. unfold can_take. change 1 with (2 ^ 0) at 1. rewrite has_pow2 by lia.
  unfold shr. rewrite Z.shiftr_spec by lia. change (0 + i) with i.
  by destruct (Z.testbit (csr c mideleg) i), (priv_level c).
Qed.

(** What masks an interrupt masks the ones below it. *)
Lemma masked_below (c : RiscvCpu) (i j : Interrupt) (l1 l2 : list Interrupt) :
  uniform_delegation c -> INT_PRIORITY = l1 ++ i :: l2 -> j ∈ l2 ->
  can_take c (irq_code i) = false -> can_take c (irq_code j) = false.
Proof.
  intros [Hm Hs] Hl Hj. rewrite !can_take_bit by (apply irq_code_bound).
  assert (H3 := Hm 3 ltac:(set_solver)). assert (H7 := Hm 7 ltac:(set_solver)).
  assert (H11 := Hm 11 ltac:(set_solver)). assert (H15 := Hs 1 5 ltac:(set_solver) ltac:(set_solver)).
  assert (H19 := Hs 1 9 ltac:(set_solver) ltac:(set_solver)). clear Hm Hs.
  assert (Hall : (i ∈ [MachineExternal; MachineSoftware; MachineTimer]) \/
    (i ∈ [SupervisorExternal; SupervisorSoftware; SupervisorTimer] /\
     j ∈ [SupervisorExternal; SupervisorSoftware; SupervisorTimer])).
  { unfold INT_PRIORITY in Hl.
    do 6 (destruct l1 as [|? l1]; [injection Hl as <- <-; set_solver|injection Hl as <- Hl]).
    by destruct l1. }
  destruct Hall as [Hi|[Hi Hj']].
  - assert (Ei : Z.testbit (csr c mideleg) (irq_code i) = false)
      by (set_unfold in Hi; destruct Hi as [->|[->|[->|[]]]]; assumption).
    rewrite Ei. destruct (priv_level c); try done. intros ->. by case_if.
  - assert (Ei : Z.testbit (csr c mideleg) (irq_code i) = Z.testbit (csr c mideleg) (irq_code j))
      by (set_unfold; destruct Hi as [->|[->|[->|[]]]], Hj' as [->|[->|[->|[]]]]; cbn; congruence).
    by rewrite Ei.
Qed.

Lemma find_split {A} (f : A -> bool) (l : list A) (x : A) :
  find f l = Some x ->
  exists l1 l2, l = l1 ++ x :: l2 /\ f x = true /\ forall y, y ∈ l1 -> f y = false.
Proof.
  induction l as [|y l IH]; [done|]. cbn. destruct (f y) eqn:E.
  - intros [= <-]. exists [], l. split_and!; [done|done|set_solver].
  - intros H. destruct (IH H) as (l1 & l2 & -> & Hx & Hl). exists (y :: l1), l2.
    split_and!; [done|done|]. intros z [->|Hz]%elem_of_cons; [done|by apply Hl].
Qed.

Lemma first_pending_spec (c : RiscvCpu) (pending : Z) (l : list Interrupt) :
  first_pending c pending (irq_code <$> l) =
  match find (fun i => Z.testbit pending (irq_code i)) l with
  | Some i => can_take c (irq_code i)
  | None => false
  end.
Proof.
  induction l as [|i l IH]; [done|]. cbn [fmap list_fmap first_pending find].
  rewrite has_bit by apply irq_code_bound. by destruct (Z.testbit pending (irq_code i)).
Qed.

Section Gate.
Context (h : Hart).

Definition pending_mip : Z := Z.land (Z.lor (csr (cpu h) mip) (device_mip h)) (csr (cpu h) mie).

Lemma pending_interrupt_spec :
  pending_interrupt h =
  match find (fun i => Z.testbit pending_mip (irq_code i)) INT_PRIORITY with
  | Some i => can_take (cpu h) (irq_code i)
  | None => false
  end.
Proof.
  unfold pending_interrupt. fold pending_mip.
  change [11; 3; 7; 9; 1; 5] with (irq_code <$> INT_PRIORITY). rewrite first_pending_spec.
  destruct (Z.eqb_spec pending_mip 0) as [->|]; [|done].
  assert (find (fun i => Z.testbit 0 (irq_code i)) INT_PRIORITY = None) as -> by done. done.
Qed.

Lemma deliver_interrupt_taken :
  (deliver_interrupt h).2 = true <-> exists i, find (takeable (cpu (mirror_mip h))) INT_PRIORITY = Some i.
Proof.
  unfold deliver_interrupt. rewrite handle_interrupt_spec.
  destruct (find _ _) as [i|]; cbn; naive_solver.
Qed.

Context (Hb : builtin_mode h = false).

Lemma mirror_bit (i : Z) :
  0 <= i < 64 ->
  Z.testbit (csr (cpu (mirror_mip h)) mip) i
  = if Z.testbit HW_MIP_MASK i then Z.testbit (shared_mip h) i else Z.testbit (csr (cpu h) mip) i.
Proof.
  intros Hi. unfold mirror_mip. rewrite Hb. cbn [cpu csr with_csr andb]. rewrite set_eq.
  rewrite Z.lor_spec, !Z.land_spec, testbit_bnot by lia.
  destruct (Z.leb_spec 0 i), (Z.ltb_spec i 64); try lia. cbn [andb].
  destruct (Z.testbit HW_MIP_MASK i); cbn; by rewrite ?andb_false_r, ?andb_true_r, ?orb_false_r.
Qed.

Lemma mirror_can_take (i : Z) : can_take (cpu (mirror_mip h)) i = can_take (cpu h) i.
Proof. done. Qed.

(** The devices drive only the bits they are wired to. *)
Context (Hwired : forall i, 0 <= i -> Z.testbit HW_MIP_MASK i = false -> Z.testbit (shared_mip h) i = false).

Lemma pending_bit (i : Interrupt) :
  Z.testbit pending_mip (irq_code i)
  = (Z.testbit (csr (cpu h) mip) (irq_code i) || Z.testbit (shared_mip h) (irq_code i))
    && Z.testbit (csr (cpu h) mie) (irq_code i).
Proof. unfold pending_mip, device_mip. rewrite Hb. cbn [andb]. by rewrite Z.land_spec, Z.lor_spec. Qed.

Lemma takeable_pending (i : Interrupt) :
  takeable (cpu (mirror_mip h)) i = true ->
  Z.testbit pending_mip (irq_code i) = true /\ can_take (cpu h) (irq_code i) = true.
Proof.
  unfold takeable. rewrite mirror_bit, mirror_can_take, !andb_true_iff by apply irq_code_bound.
  change (csr (cpu (mirror_mip h)) mie) with (csr (cpu h) mie).
  intros [[Hm He] Hc]. split; [|done]. rewrite pending_bit, He, andb_true_r.
  case_if_in Hm; rewrite Hm; [by rewrite orb_true_r|done].
Qed.

(** A deliverable interrupt is never hidden by the gate. *)
Lemma gate_complete :
  uniform_delegation (cpu h) -> (deliver_interrupt h).2 = true -> pending_interrupt h = true.
Proof.
  intros Hu [j Hj]%deliver_interrupt_taken. apply find_split in Hj as (l1 & l2 & Hl & Ht & _).
  apply takeable_pending in Ht as [Hp Hc]. rewrite pending_interrupt_spec.
  destruct (find _ INT_PRIORITY) as [i|] eqn:Ef.
  2: { assert (Hin : In j INT_PRIORITY) by (rewrite Hl; apply in_elt).
       by rewrite (find_none _ _ Ef j Hin) in Hp. }
  apply find_split in Ef as (k1 & k2 & Hk & Hpi & Hbefore).
  destruct (can_take (cpu h) (irq_code i)) eqn:E; [done|].
  destruct (decide (i = j)) as [->|Hne]; [congruence|].
  assert (Hj2 : j ∈ k2).
  { assert (Hj : j ∈ k1 ++ i :: k2) by (rewrite <- Hk, Hl; set_solver).
    apply elem_of_app in Hj as [Hj|[->|Hj]%elem_of_cons]; [|done|done].
    apply Hbefore in Hj. congruence. }
  by rewrite (masked_below (cpu h) i j k1 k2 Hu Hk Hj2 E) in Hc.
Qed.

(** With the mirrored bits up to date the gate never opens for nothing. *)
Lemma gate_sound :
  (forall i, Z.testbit HW_MIP_MASK i = true -> Z.testbit (csr (cpu h) mip) i = true ->
     Z.testbit (shared_mip h) i = true) ->
  pending_interrupt h = true -> (deliver_interrupt h).2 = true.
Proof.
  intros Hfresh. rewrite pending_interrupt_spec.
  destruct (find _ INT_PRIORITY) as [i|] eqn:Ef; [|done].
  apply find_some in Ef as [Hi Hp]. intros Hc. apply deliver_interrupt_taken.
  assert (Ht : takeable (cpu (mirror_mip h)) i = true).
  { rewrite pending_bit, andb_true_iff, orb_true_iff in Hp. destruct Hp as [Hp He].
    unfold takeable. rewrite mirror_bit, mirror_can_take, Hc by apply irq_code_bound.
    change (csr (cpu (mirror_mip h)) mie) with (csr (cpu h) mie). rewrite He, !andb_true_r.
    pose proof (irq_code_bound i). destruct (Z.testbit HW_MIP_MASK (irq_code i)) eqn:Ehw.
    - destruct Hp as [Hp|Hp]; [by apply Hfresh|done].
    - destruct Hp as [Hp|Hp]; [done|]. rewrite Hwired in Hp; [done|lia|done]. }
  destruct (find (takeable (cpu (mirror_mip h))) INT_PRIORITY) as [j|] eqn:Ef; [by exists j|].
  by rewrite (find_none _ _ Ef i Hi) in Ht.
Qed.

End Gate.

(** ** Properties *)

(** C15: A trap saves what its return restores.  From any privilege level, entering
    a trap handler and executing the return instruction of the level it went to gives
    back the program counter, the privilege level and every status bit but the saved
    copies; a trap never lowers the privilege, and the supervisor handles it exactly
    when the cause is delegated and the hart was below machine mode. *)
Theorem trap_return_restores (c : RiscvCpu) (cause tval : Z) :
  is_u64 (csr c mstatus) ->
  let t := do_trap cause tval c in
  priv_u64 (priv_level c) <= priv_u64 (priv_level t) /\
  if trap_delegated cause c then
    priv_level t = Supervisor /\ csr t sepc = pc c /\ csr t scause = cause /\ csr t stval = tval /\
    (has (csr c mstatus) MSTATUS_TSR = false ->
     exists r, execute_sret t = Some r /\ pc r = pc c /\ priv_level r = priv_level c /\
       kept (csr c mstatus) (csr r mstatus) (Z.lor MSTATUS_SPIE MSTATUS_SPP))
  else
    priv_level t = Machine /\ csr t mepc = pc c /\ csr t mcause = cause /\ csr t mtval = tval /\
    let r := execute_mret t in
    pc r = pc c /\ priv_level r = priv_level c /\
    kept (csr c mstatus) (csr r mstatus) (Z.lor MSTATUS_MPIE MSTATUS_MPP_MASK).
Proof.
  intros Hms t. pose proof (do_trap_cases cause tval c) as Ht. fold t in Ht.
  destruct (trap_delegated cause c) eqn:Ed.
  - apply delegated_low in Ed. destruct Ht as [Hp He Hc Hv _ Hs _ _ _].
    split; [rewrite Hp; by destruct (priv_level c)|]. split_and!; try done. intros Htsr.
    destruct (execute_sret_spec t) as (r & Hr & Hpc & Hpr & Hst & _); [done|by rewrite Hs, tsr_kept|].
    destruct (sret_after_trap (priv_level c) (csr c mstatus) Hms Ed) as [Hpp Hk].
    exists r. rewrite Hpc, Hpr, Hst, Hs, He. by split_and!.
  - destruct Ht as [Hp He Hc Hv _ Hs _ _ _].
    split; [rewrite Hp; by destruct (priv_level c)|].
    destruct (execute_mret_spec t) as (Hpc & Hpr & Hst & _).
    destruct (mret_after_trap (priv_level c) (csr c mstatus) Hms) as [Hpp Hk].
    cbv zeta. rewrite Hpc, Hpr, Hst, Hs, He. by split_and!.
Qed.

Lemma trap_return_restores_witness :
  let c := with_pc 0x80001000 (with_priv_level User (with_csr (set mstatus 0xA2 new) cpu_new)) in
  let t := do_trap 8 0 c in
  pc (execute_mret t) = 0x80001000 /\ priv_level (execute_mret t) = User.
Proof.
  intros c t. pose proof (trap_return_restores c 8 0) as H.
  destruct H as [_ (_ & _ & _ & _ & Hpc & Hpr & _)]; [split; vm_compute; congruence|].
  split; [exact Hpc|exact Hpr].
Defined.




