(* ===== verification/RvMem.v ===== *)
(** * RISC-V memory accesses

    Models the memory side of [system/src/cpus.rs]: guest physical memory as RAM and
    a bus of devices, the translation and access helpers the generated code calls on
    a TLB miss, load-reserved, store-conditional and atomic operations, the CSR helper
    with its effects on translation, and the tracking of written code pages; and the
    inline TLB check that [accel/src/x86_64/emitter.rs] emits before each access.
    The devices are behind [AddressSpace]; here they are the class [Bus]. *)

From Stdlib Require Import ZArith Lia Bool.
From stdpp Require Import base tactics numbers list sets gmap relations.
From S2P Require Import Prelude RvCsr RvVendor RvPmp RvMmu RvTrap.

(** ** Guest physical memory *)

Class Bus (B : Type) := {
  bus_read : B -> Z -> Z -> Z * B;
  bus_write : B -> Z -> Z -> Z -> B;
  bus_mapped : B -> Z -> Z -> bool;
  bus_read_range b a n : is_u64 (bus_read b a n).1
}.

(** No device at all. *)
Global Instance no_bus : Bus unit := {
  bus_read _ _ _ := (0, tt);
  bus_write _ _ _ _ := tt;
  bus_mapped _ _ _ := false;
  bus_read_range _ _ _ := conj (Z.le_refl 0) eq_refl
}.

(** [ram] gives the byte at a guest physical address; [code_pages] is the count of
    translated blocks per page the store helpers consult, of length 0 when there is
    none.  [dirty_pages] is the hart's list of written code pages. *)
Record Phys (B : Type) := mk_Phys {
  ram_base : Z;
  ram_end : Z;
  ram : Z -> Z;
  bus : option B;
  code_pages : gmap Z Z;
  code_pages_len : Z;
  dirty_pages : list Z
}.
Arguments mk_Phys {B}.
Arguments ram_base {B}.
Arguments ram_end {B}.
Arguments ram {B}.
Arguments bus {B}.
Arguments code_pages {B}.
Arguments code_pages_len {B}.
Arguments dirty_pages {B}.

(** Little-endian words of [n] bytes. *)
Fixpoint load_le (r : Z -> Z) (a : Z) (n : nat) : Z :=
  match n with
  | O => 0
  | S k => u8 (r a) + 256 * load_le r (a + 1) k
  end.

Definition store_le (r : Z -> Z) (a : Z) (n : nat) (v : Z) : Z -> Z :=
  fun x => if (a <=? x) && (x <? a + Z.of_nat n) then u8 (shr v (8 * (x - a))) else r x.

(** The sizes the helpers handle. *)
Definition access_bytes (size : Z) : nat :=
  if (size =? 1) || (size =? 2) || (size =? 4) || (size =? 8) then Z.to_nat size else O.

Section Helpers.
Context {B : Type} `{Bus B}.

Definition with_ram (r : Z -> Z) (p : Phys B) : Phys B :=
  mk_Phys (ram_base p) (ram_end p) r (bus p) (code_pages p) (code_pages_len p) (dirty_pages p).

Definition with_bus (b : option B) (p : Phys B) : Phys B :=
  mk_Phys (ram_base p) (ram_end p) (ram p) b (code_pages p) (code_pages_len p) (dirty_pages p).

Definition with_dirty_pages (l : list Z) (p : Phys B) : Phys B :=
  mk_Phys (ram_base p) (ram_end p) (ram p) (bus p) (code_pages p) (code_pages_len p) l.

Definition in_ram (p : Phys B) (pa : Z) : bool := (ram_base p <=? pa) && (pa <? ram_end p).

Definition read_phys_sized (p : Phys B) (pa size : Z) : Z * Phys B :=
  if in_ram p pa then (load_le (ram p) pa (access_bytes size), p)
  else
    match bus p with
    | Some b => let '(v, b) := bus_read b pa size in (v, with_bus (Some b) p)
    | None => (0, p)
    end.

(** The page of a write is recorded when it holds translated code. *)
Definition track_write (pa : Z) (p : Phys B) : Phys B :=
  let page := shr pa 12 in
  if (page <? code_pages_len p) && negb (default 0 (code_pages p !! page) =? 0)
     && negb (bool_decide (page ∈ dirty_pages p))
  then with_dirty_pages (dirty_pages p ++ [page]) p
  else p.

Definition write_phys_sized (p : Phys B) (pa v size : Z) : Phys B :=
  if in_ram p pa then track_write pa (with_ram (store_le (ram p) pa (access_bytes size) v) p)
  else
    match bus p with
    | Some b => with_bus (Some (bus_write b pa size v)) p
    | None => p
    end.

(** The two closures of the walk.  A device a page-table address reaches is asked
    for its value; what the question does to it is left out. *)
Definition read_phys (p : Phys B) (pa : Z) : Z := (read_phys_sized p pa 8).1.
Definition write_phys (p : Phys B) (pa v : Z) : Phys B := write_phys_sized p pa v 8.

#[export] Instance phys_mem : PhysMem (Phys B) := {
  mem_read := read_phys;
  mem_write := write_phys
}.

Definition is_phys_backed (p : Phys B) (pa size : Z) : bool :=
  if (ram_base p <=? pa) && (pa + size <? 2 ^ 64) && (pa + size <=? ram_end p) then true
  else match bus p with Some b => bus_mapped b pa size | None => false end.

(** ** Translation for the helpers *)

Definition effective_data_priv (p : PrivLevel) (ms : Z) : PrivLevel :=
  if bool_decide (p = Machine) && has ms MSTATUS_MPRV then mpp_priv ms else p.

Definition data_priv (c : RiscvCpu) : PrivLevel :=
  effective_data_priv (priv_level c) (csr c mstatus).

(** [mem_fault_cause = cause; mem_fault_tval = tval] *)
Definition latch (cause tval : Z) (c : RiscvCpu) : RiscvCpu :=
  with_mem_fault_tval tval (with_mem_fault_cause cause c).

Definition helper_cause (e : Exception) : Z :=
  match e with
  | LoadPageFault => 13
  | StorePageFault => 15
  | InstructionPageFault => 12
  | LoadAccessFault => 5
  | StoreAccessFault => 7
  | InstructionAccessFault => 1
  | _ => 5
  end.

(** The causes of a bare-mode access. *)
Definition bare_cause (e : Exception) : Z :=
  match e with
  | LoadAccessFault => 5
  | StoreAccessFault => 7
  | InstructionAccessFault => 1
  | _ => 5
  end.

(** The host offset of a page in RAM, the sentinel for a device. *)
Definition page_addend (c : RiscvCpu) (p : Phys B) (gva pa : Z) : Z :=
  if in_ram p pa
  then wrapping_sub 64 (wrapping_add 64 (guest_base c) (page_of pa)) (page_of gva)
  else TLB_MMIO_ADDEND.

Definition translate_for_helper (c : RiscvCpu) (p : Phys B) (gva : Z) (access : AccessType)
    (size : Z) : RiscvCpu * Phys B * option Z :=
  let eff_priv := data_priv c in
  let mode := if decide (eff_priv = Machine) then 0 else satp_mode (mmu c) in
  if mode =? 0 then
    match check_access (pmp c) gva size access eff_priv with
    | Err e => (latch (bare_cause e) gva c, p, None)
    | Ok _ =>
        let addend := if in_ram p gva then guest_base c else TLB_MMIO_ADDEND in
        (with_mmu (fill_identity gva addend (mmu c)) c, p, Some gva)
    end
  else
    match translate_miss (mmu c) p gva access eff_priv (csr c mstatus) size (Some (pmp c)) with
    | (m, p, Ok pa) =>
        (with_mmu (fill_addend gva (page_addend c p gva pa) m) c, p, Some pa)
    | (m, p, Err e) => (latch (helper_cause e) gva (with_mmu m c), p, None)
    end.

(** ** Instruction fetch *)

Definition fetch_cause (e : Exception) : Z :=
  match e with
  | InstructionPageFault => 12
  | InstructionAccessFault => 1
  | _ => 12
  end.

(** The translation when a block is built: [u64::MAX] on a fault. *)
Definition translate_pc (c : RiscvCpu) (p : Phys B) (vpc : Z) : RiscvCpu * Phys B * Z :=
  let mode := if decide (priv_level c = Machine) then 0 else satp_mode (mmu c) in
  if mode =? 0 then
    match check_access (pmp c) vpc 2 Execute (priv_level c) with
    | Ok _ => (c, p, vpc)
    | Err _ => (latch 1 vpc c, p, u64_max)
    end
  else
    match translate_miss (mmu c) p vpc Execute (priv_level c) (csr c mstatus) 2 (Some (pmp c)) with
    | (m, p, Ok pa) =>
        (with_mmu (fill_addend vpc (page_addend c p vpc pa) m) c, p, pa)
    | (m, p, Err e) => (latch (fetch_cause e) vpc (with_mmu m c), p, u64_max)
    end.

(** The lookup that validates a block before it runs. *)
Definition lookup_pc (c : RiscvCpu) (vpc : Z) : Z :=
  if decide (priv_level c = Machine) then vpc
  else if shr (csr c satp) 60 =? 0 then vpc
  else default u64_max (tlb_lookup_code_phys (mmu c) vpc).

(** ** Loads and stores on the slow path *)

Definition machina_mem_read (c : RiscvCpu) (p : Phys B) (gva size : Z) : RiscvCpu * Phys B * Z :=
  match translate_for_helper c p gva Read size with
  | (c, p, Some pa) =>
      if negb (is_phys_backed p pa size) then (latch 5 gva c, p, 0)
      else let '(v, p) := read_phys_sized p pa size in (c, p, v)
  | (c, p, None) => (c, p, 0)
  end.

Definition machina_mem_write (c : RiscvCpu) (p : Phys B) (gva v size : Z) : RiscvCpu * Phys B :=
  match translate_for_helper c p gva Write size with
  | (c, p, Some pa) =>
      if negb (is_phys_backed p pa size) then (latch 7 gva c, p)
      else (c, write_phys_sized p pa v size)
  | (c, p, None) => (c, p)
  end.

(** ** Atomics

    [None] is the exit to the dispatch loop after a trap was raised. *)

Definition sign32 (x : Z) : Z := u64 (signed 32 (u32 x)).

Definition load_fault (cause : Z) : Exception :=
  if cause =? 5 then LoadAccessFault else LoadPageFault.

Definition store_fault (cause : Z) : Exception :=
  if cause =? 7 then StoreAccessFault else StorePageFault.

Definition read_sized (p : Phys B) (pa size : Z) : Z * Phys B :=
  if size =? 4 then let '(v, p) := read_phys_sized p pa 4 in (sign32 v, p)
  else read_phys_sized p pa 8.

Definition machina_lr_op (c : RiscvCpu) (p : Phys B) (gva size : Z)
    : RiscvCpu * Phys B * option Z :=
  match translate_for_helper c p gva Read (u32 size) with
  | (c, p, None) =>
      let cause := mem_fault_cause c in
      let tval := mem_fault_tval c in
      (raise_exception (load_fault cause) tval (with_load_res u64_max (latch 0 0 c)), p, None)
  | (c, p, Some pa) =>
      if negb (is_phys_backed p pa (u32 size)) then
        (raise_exception LoadAccessFault gva (with_load_res u64_max c), p, None)
      else
        let '(v, p) := read_sized p pa size in
        (with_load_val v (with_load_res pa c), p, Some v)
  end.

Definition machina_sc_op (c : RiscvCpu) (p : Phys B) (gva v size : Z)
    : RiscvCpu * Phys B * option Z :=
  match translate_for_helper c p gva Write (u32 size) with
  | (c, p, None) =>
      let cause := mem_fault_cause c in
      let tval := mem_fault_tval c in
      (raise_exception (store_fault cause) tval (with_load_res u64_max (latch 0 0 c)), p, None)
  | (c, p, Some pa) =>
      if negb (load_res c =? pa) then (with_load_res u64_max c, p, Some 1)
      else if negb (is_phys_backed p pa (u32 size)) then
        (raise_exception StoreAccessFault gva (with_load_res u64_max c), p, None)
      else
        let '(current, p) := read_sized p pa size in
        if negb (current =? load_val c) then (with_load_res u64_max c, p, Some 1)
        else (with_load_res u64_max c, write_phys_sized p pa v (u32 size), Some 0)
  end.

Inductive AmoOp := AMO_SWAP | AMO_ADD | AMO_XOR | AMO_AND | AMO_OR | AMO_MIN | AMO_MAX | AMO_MINU | AMO_MAXU.

Definition amo_of (op : Z) : option AmoOp :=
  [AMO_SWAP; AMO_ADD; AMO_XOR; AMO_AND; AMO_OR; AMO_MIN; AMO_MAX; AMO_MINU; AMO_MAXU] !! Z.to_nat op.

Definition amo_value (op : AmoOp) (size old v : Z) : Z :=
  let w := if size =? 4 then 32 else 64 in
  match op with
  | AMO_SWAP => v
  | AMO_ADD => wrapping_add w (wrap w old) (wrap w v)
  | AMO_XOR => Z.lxor old v
  | AMO_AND => Z.land old v
  | AMO_OR => Z.lor old v
  | AMO_MIN => if signed w (wrap w old) <=? signed w (wrap w v) then old else v
  | AMO_MAX => if signed w (wrap w v) <=? signed w (wrap w old) then old else v
  | AMO_MINU => if wrap w old <=? wrap w v then old else v
  | AMO_MAXU => if wrap w v <=? wrap w old then old else v
  end.

Definition machina_amo_op (c : RiscvCpu) (p : Phys B) (gva v size op : Z)
    : RiscvCpu * Phys B * option Z :=
  let size := u32 size in
  if negb (size =? 4) && negb (size =? 8) then (raise_exception StoreAccessFault gva c, p, None)
  else if negb (Z.land gva (size - 1) =? 0) then (raise_exception StoreMisaligned gva c, p, None)
  else
    match translate_for_helper c p gva Write size with
    | (c, p, None) =>
        let cause := mem_fault_cause c in
        let tval := mem_fault_tval c in
        (raise_exception (store_fault cause) tval (latch 0 0 c), p, None)
    | (c, p, Some pa) =>
        if negb (is_phys_backed p pa size) then (raise_exception StoreAccessFault gva c, p, None)
        else
          match amo_of op with
          | None => (raise_exception IllegalInstruction 0 c, p, None)
          | Some o =>
              let '(old, p) := read_phys_sized p pa size in
              let p := write_phys_sized p pa (amo_value o size old v) size in
              (c, p, Some (if size =? 4 then sign32 old else old))
          end
    end.

(** ** Control registers

    The two implementations of a CSR instruction: the helper called from generated
    code, and the one the dispatch loop runs. *)

Definition is_pmp_csr (addr : Z) : bool :=
  ((CSR_PMPCFG0 <=? addr) && (addr <=? CSR_PMPCFG0 + 3))
  || ((CSR_PMPADDR0 <=? addr) && (addr <? CSR_PMPADDR0 + PMP_COUNT)).

Definition should_flush_data_tlb_on_status_write (addr : Z) : bool :=
  (addr =? CSR_MSTATUS) || (addr =? CSR_SSTATUS).

(** The time and cycle registers read the timer device. *)
Definition read_time_mmio (c : RiscvCpu) (p : Phys B) : Z * Phys B :=
  match bus p with
  | Some b =>
      if negb (time_mmio_addr c =? 0) then
        let '(v, b) := bus_read b (time_mmio_addr c) 8 in (v, with_bus (Some b) p)
      else (0, p)
  | None => (0, p)
  end.

Definition read_old (c : RiscvCpu) (p : Phys B) (addr : Z) : result (Z * Phys B) Z :=
  if (addr =? CSR_TIME) || (addr =? CSR_CYCLE) then Ok (read_time_mmio c p)
  else if addr =? CSR_INSTRET then Ok (csr c instret, p)
  else v <-? read_for_profile (csr c) addr (priv_level c) (profile c) ;; Ok (v, p).

(** The new value of a read-modify-write, and whether it is written. *)
Definition csr_new_val (funct3 old rs1_val : Z) : option Z :=
  if (funct3 =? 1) || (funct3 =? 5) then Some rs1_val
  else if (funct3 =? 2) || (funct3 =? 6) then Some (Z.lor old rs1_val)
  else if (funct3 =? 3) || (funct3 =? 7) then Some (Z.land old (bnot 64 rs1_val))
  else None.

Definition csr_do_write (funct3 rs1_idx : Z) : bool :=
  if (funct3 =? 1) || (funct3 =? 5) then true else negb (rs1_idx =? 0).

(** The protection unit follows its registers. *)
Definition sync_pmp (addr : Z) (c : RiscvCpu) : RiscvCpu :=
  if is_pmp_csr addr then with_pmp (sync_from_csr (csr c) (pmp c)) c else c.

Definition machina_csr_op (c : RiscvCpu) (p : Phys B) (csr_arg rs1_val rs1_idx funct3 : Z)
    : RiscvCpu * Phys B * option Z :=
  let addr := u16 csr_arg in
  match read_old c p addr with
  | Err _ => (raise_exception IllegalInstruction 0 c, p, None)
  | Ok (old, p) =>
      match csr_new_val funct3 old rs1_val with
      | None => (c, p, Some old)
      | Some new_val =>
          if csr_do_write funct3 rs1_idx then
            match write_for_profile (csr c) addr new_val (priv_level c) (profile c) with
            | Err _ => (raise_exception IllegalInstruction 0 c, p, None)
            | Ok f =>
                let c := sync_pmp addr (with_csr f c) in
                let c :=
                  if addr =? CSR_SATP then
                    with_tb_flush_pending true (with_mmu (flush (set_satp new_val (mmu c))) c)
                  else if should_flush_data_tlb_on_status_write addr then
                    with_mmu (flush (mmu c)) c
                  else c in
                (c, p, Some old)
            end
          else (c, p, Some old)
      end
  end.

(** [gpr[i] = v] *)
Definition set_gpr (i v : Z) (c : RiscvCpu) : RiscvCpu :=
  with_gpr (<[Z.to_nat i := v]> (gpr c)) c.

Definition get_gpr (c : RiscvCpu) (i : Z) : Z := nth (Z.to_nat i) (gpr c) 0.

(** The execution of a fetched CSR instruction by the dispatch loop; [false] makes
    it an illegal instruction. *)
Definition priv_csr_insn (c : RiscvCpu) (p : Phys B) (insn : Z) : RiscvCpu * Phys B * bool :=
  let opcode := Z.land insn 0x7F in
  if negb (opcode =? 0x73) then (c, p, false)
  else
    let funct3 := Z.land (shr insn 12) 0x7 in
    if funct3 =? 0 then (c, p, false)
    else
      let rd := Z.land (shr insn 7) 0x1F in
      let rs1_idx := Z.land (shr insn 15) 0x1F in
      let addr := u16 (shr insn 20) in
      let rs1_val :=
        if 5 <=? funct3 then rs1_idx
        else if rs1_idx =? 0 then 0 else get_gpr c rs1_idx in
      match read_old c p addr with
      | Err _ => (c, p, false)
      | Ok (old, p) =>
          match csr_new_val funct3 old rs1_val with
          | None => (c, p, false)
          | Some new_val =>
              let do_write := csr_do_write funct3 rs1_idx in
              match (if do_write
                     then write_for_profile (csr c) addr new_val (priv_level c) (profile c)
                     else Ok (csr c)) with
              | Err _ => (c, p, false)
              | Ok f =>
                  let c := with_csr f c in
                  let c :=
                    if do_write then
                      let c := sync_pmp addr c in
                      if addr =? CSR_SATP then
                        with_mmu (flush (set_satp (csr c satp) (mmu c))) c
                      else if should_flush_data_tlb_on_status_write addr then
                        with_mmu (flush (mmu c)) c
                      else c
                    else c in
                  let c := if negb (rd =? 0) then set_gpr rd old c else c in
                  (with_pc (wrapping_add 64 (pc c) 4) c, p, true)
              end
          end
      end.

(** The whole exit: the instruction is fetched again through the MMU; [fetch] is
    the word at a physical address of RAM or boot ROM. *)
Definition handle_priv_csr (fetch : Z -> option Z) (c : RiscvCpu) (p : Phys B)
    : RiscvCpu * Phys B * bool :=
  let vpc := pc c in
  let c := with_fault_pc 0 c in
  let '(c, p, phys_pc) := translate_pc c p vpc in
  if phys_pc =? u64_max then (c, p, negb (mem_fault_cause c =? 0))
  else
    match fetch phys_pc with
    | None => (latch 1 vpc c, p, true)
    | Some insn => priv_csr_insn c p insn
    end.

(** ** Written pages *)

(** The generated store marks the TLB entry it went through. *)
Definition mark_dirty (e : TlbEntry) : TlbEntry :=
  mk_TlbEntry (addr_read e) (addr_write e) (addr_code e) (addend e) 1 (phys_page e) (perm e)
    (asid e) (page_size e).

Definition add_new (l : list Z) (x : Z) : list Z :=
  if bool_decide (x ∈ l) then l else l ++ [x].

Definition take_dirty_pages (c : RiscvCpu) (p : Phys B) : list Z * RiscvCpu * Phys B :=
  let '(pages, m) := take_dirty_tlb_pages (mmu c) in
  (fold_left add_new pages (dirty_pages p), with_mmu m c, with_dirty_pages [] p).

(** ** The inline check of the generated code

    [host] is the memory of the emulator process.  [None] is the jump to the slow
    path. *)

Definition crosses_page (gva size : Z) : bool :=
  if size <=? 1 then false else 0x1000 - size <? Z.land gva 0xFFF.

Definition fast_host (tag_of : TlbEntry -> Z) (m : Mmu) (gva size : Z) : option Z :=
  if crosses_page gva size then None
  else
    let e := nth (Z.to_nat (Z.land (Z.lxor (shr gva 12) (shr (shr gva 12) 8)) 255)) (tlb m)
               TlbEntry_default in
    if negb (tag_of e =? shl 64 (shr gva 12) 12) then None
    else if addend e =? u64_max then None
    else Some (wrapping_add 64 gva (addend e)).

Definition fast_load (host : Z -> Z) (m : Mmu) (gva size : Z) : option Z :=
  a <-! fast_host addr_read m gva size ;; Some (load_le host a (Z.to_nat size)).

Definition fast_store (host : Z -> Z) (m : Mmu) (gva v size : Z) : option ((Z -> Z) * Mmu) :=
  a <-! fast_host addr_write m gva size ;;
  Some (store_le host a (Z.to_nat size) v, upd_entry gva mark_dirty m).

End Helpers.
