(* ===== verification/RvMemProof.v ===== *)
(** * Coherence of the fast memory path

    The TLB entries the generated code uses are consistent, in every state the hart
    can reach, with the page tables, the privilege and the status register at that
    time: an access that hits uses the host byte of the guest byte the current
    translation gives, and the slow path would use the same. *)

From Stdlib Require Import ZArith Lia Bool.
From stdpp Require Import base tactics numbers list sets gmap relations.
From S2P Require Import Prelude RvCsr RvVendor RvPmp RvMmu RvTrap RvMem.

(** ** Words in memory *)

Lemma load_le_range (r : Z -> Z) (a : Z) (n : nat) : 0 <= load_le r a n < 2 ^ (8 * Z.of_nat n).
Proof.
  revert a. induction n as [|n IH]; intros a; [done|]. cbn [load_le]. specialize (IH (a + 1)).
  replace (8 * Z.of_nat (S n)) with (8 + 8 * Z.of_nat n) by lia. rewrite Z.pow_add_r by lia.
  pose proof (wrap_range 8 (r a) ltac:(lia)) as [H0 H1]. change (2 ^ 8) with 256 in *. nia.
Qed.

Lemma load_le_ext (r r' : Z -> Z) (a : Z) (n : nat) :
  (forall x, a <= x < a + Z.of_nat n -> r x = r' x) -> load_le r a n = load_le r' a n.
Proof.
  revert a. induction n as [|n IH]; intros a Hx; [done|]. cbn [load_le].
  rewrite (Hx a), (IH (a + 1)) by lia || (intros; apply Hx; lia). done.
Qed.

Lemma load_store_from (r : Z -> Z) (a v : Z) (n m k : nat) :
  (k + m <= n)%nat ->
  load_le (store_le r a n v) (a + Z.of_nat k) m
  = (v / 2 ^ (8 * Z.of_nat k)) mod 2 ^ (8 * Z.of_nat m).
Proof.
  revert k. induction m as [|m IH]; intros k Hk; [by rewrite Z.mod_1_r|]. cbn [load_le].
  replace (a + Z.of_nat k + 1) with (a + Z.of_nat (S k)) by lia. rewrite IH by lia.
  unfold store_le at 1.
  destruct (Z.leb_spec a (a + Z.of_nat k)), (Z.ltb_spec (a + Z.of_nat k) (a + Z.of_nat n)); try lia.
  cbn [andb]. unfold shr. rewrite Z.shiftr_div_pow2 by lia.
  replace (a + Z.of_nat k - a) with (Z.of_nat k) by lia. unfold wrap. rewrite Zmod_mod.
  replace (8 * Z.of_nat (S m)) with (8 + 8 * Z.of_nat m) by lia.
  replace (8 * Z.of_nat (S k)) with (8 * Z.of_nat k + 8) by lia.
  rewrite (Z.pow_add_r 2 8), (Z.pow_add_r 2 _ 8) by lia. change (2 ^ 8) with 256.
  rewrite <- Z.div_div by (try apply Z.pow_nonzero; lia).
  rewrite (Z.rem_mul_r _ 256) by (try apply Z.pow_nonzero; lia). done.
Qed.

Lemma load_store_same (r : Z -> Z) (a v : Z) (n : nat) :
  load_le (store_le r a n v) a n = v mod 2 ^ (8 * Z.of_nat n).
Proof.
  pose proof (load_store_from r a v n n 0 ltac:(lia)) as E. cbn [Z.of_nat] in E.
  rewrite Z.add_0_r, Z.div_1_r in E. done.
Qed.

Lemma load_store_disjoint (r : Z -> Z) (a b v : Z) (n m : nat) :
  b + Z.of_nat m <= a \/ a + Z.of_nat n <= b ->
  load_le (store_le r a n v) b m = load_le r b m.
Proof.
  intros Hd. apply load_le_ext. intros x Hx. unfold store_le.
  destruct (Z.leb_spec a x), (Z.ltb_spec x (a + Z.of_nat n)); try done. lia.
Qed.

Section Phys.
Context {B : Type} `{Bus B}.

Definition plain_ram (p : Phys B) (a : Z) : Prop := ram_base p <= a /\ a + 8 <= ram_end p.

Lemma track_write_mem (pa : Z) (p : Phys B) :
  ram (track_write pa p) = ram p /\ bus (track_write pa p) = bus p /\
  ram_base (track_write pa p) = ram_base p /\ ram_end (track_write pa p) = ram_end p.
Proof. unfold track_write. by case_if. Qed.

Lemma read_phys_dirty (p : Phys B) (l : list Z) (a : Z) :
  read_phys (with_dirty_pages l p) a = read_phys p a.
Proof.
  unfold read_phys, read_phys_sized, in_ram. cbn [ram_base ram_end ram bus with_dirty_pages].
  case_if; [done|]. destruct (bus p) as [b|]; [|done]. by destruct (bus_read b a 8).
Qed.

Lemma read_phys_range (p : Phys B) (a : Z) : is_u64 (read_phys p a).
Proof.
  unfold read_phys, read_phys_sized. case_if; [apply (load_le_range (ram p) a 8)|].
  destruct (bus p) as [b|]; [|done]. pose proof (bus_read_range b a 8).
  by destruct (bus_read b a 8).
Qed.

Lemma read_write_phys (p : Phys B) (a b v : Z) :
  plain_ram p a -> is_u64 v -> a mod 8 = 0 -> b mod 8 = 0 ->
  read_phys (write_phys p a v) b = if decide (b = a) then v else read_phys p b.
Proof.
  intros [Hb He] Hv Ha8 Hb8. unfold write_phys, write_phys_sized.
  assert (in_ram p a = true) as -> by (unfold in_ram; apply andb_true_iff; lia).
  unfold read_phys, read_phys_sized, in_ram.
  destruct (track_write_mem a (with_ram (store_le (ram p) a (access_bytes 8) v) p)) as (-> & -> & -> & ->).
  cbn [ram bus ram_base ram_end with_ram].
  change (access_bytes 8) with 8%nat.
  destruct ((ram_base p <=? b) && (b <? ram_end p)) eqn:Eb; cbn [fst].
  - case_decide as E; [subst; rewrite load_store_same; by apply wrap_small|].
    apply load_store_disjoint. pose proof (Z.div_mod a 8 ltac:(lia)). pose proof (Z.div_mod b 8 ltac:(lia)). lia.
  - case_decide as E; [subst; exfalso; rewrite andb_false_iff in Eb; lia|].
    destruct (bus p) as [bs|]; [|done]. by destruct (bus_read bs b 8).
Qed.

#[export] Instance phys_mem_laws : PhysMemLaws (Phys B) := {
  plain := plain_ram;
  mem_read_range := read_phys_range;
  mem_read_write := read_write_phys
}.

End Phys.

(** ** The invariant *)

Section Coherence.
Context {B : Type} `{Bus B}.

(** Data addresses are physical ones. *)
Definition bare (c : RiscvCpu) : bool :=
  bool_decide (data_priv c = Machine) || (satp_mode (mmu c) =? 0).

(** Where an access of the hart goes now. *)
Definition now_maps (c : RiscvCpu) (p : Phys B) (gva : Z) (access : AccessType) (pa : Z) : Prop :=
  if bare c then pa = gva else tlb_maps (data_priv c) (csr c mstatus) (mmu c) p gva access pa.

(** RAM is whole pages, as the boards lay it out. *)
Definition ram_pages (p : Phys B) : Prop :=
  0 <= ram_base p /\ ram_end p <= 2 ^ 64 /\ ram_base p mod 4096 = 0 /\ ram_end p mod 4096 = 0.

(** The addend of an entry leads to its page in host memory. *)
Definition host_entry (gb : Z) (p : Phys B) (gva : Z) (access : AccessType) (e : TlbEntry) : Prop :=
  addend e <> TLB_MMIO_ADDEND ->
  ram_base p <= phys_page e * 4096 /\ phys_page e * 4096 + 4096 <= ram_end p /\
  wrapping_add 64 gva (addend e) = u64 (gb + (phys_page e * 4096 + gva mod 4096)).

Record hart_ok (c : RiscvCpu) (p : Phys B) : Prop := mk_hart_ok {
  ho_maps : tlb_ok (now_maps c p) (mmu c);
  ho_host : tlb_all (host_entry (guest_base c) p) (mmu c)
}.

(** The same RAM window. *)
Definition same_layout (p p' : Phys B) : Prop := ram_base p' = ram_base p /\ ram_end p' = ram_end p.

Lemma host_layout gb p p' m :
  same_layout p p' -> tlb_all (host_entry gb p) m -> tlb_all (host_entry gb p') m.
Proof.
  intros [E1 E2]. apply tlb_all_impl. intros gva access e Hh. unfold host_entry. by rewrite E1, E2.
Qed.

(** What the invariant reads of the state. *)
Lemma hart_ok_frame (c c' : RiscvCpu) (p : Phys B) :
  mmu c' = mmu c -> guest_base c' = guest_base c -> priv_level c' = priv_level c ->
  csr c' mstatus = csr c mstatus -> hart_ok c p -> hart_ok c' p.
Proof.
  intros Em Eg Ep Es [Hm Hh]. split; [|by rewrite Em, Eg]. rewrite Em.
  eapply tlb_ok_impl; [|exact Hm]. intros gva access pa. unfold now_maps, bare, data_priv.
  by rewrite Em, Ep, Es.
Qed.

Lemma hart_ok_flushed (c : RiscvCpu) (p : Phys B) (m : Mmu) :
  length (tlb m) = TLB_SIZE -> mmu c = flush m -> hart_ok c p.
Proof. intros Hl E. split; rewrite E; by apply tlb_all_flush. Qed.

(** *** A bare-mode fill *)

Lemma page_split (g : Z) : g / 4096 * 4096 + g mod 4096 = g.
Proof. pose proof (Z.div_mod g 4096 ltac:(lia)). lia. Qed.

Lemma page_in_ram (p : Phys B) (pa : Z) :
  ram_pages p -> in_ram p pa = true ->
  ram_base p <= pa / 4096 * 4096 /\ pa / 4096 * 4096 + 4096 <= ram_end p.
Proof.
  intros (H0 & H1 & Hb & He) Hr. unfold in_ram in Hr. apply andb_true_iff in Hr as [Hr1 Hr2].
  apply Z.leb_le in Hr1. apply Z.ltb_lt in Hr2.
  pose proof (page_split pa). pose proof (Z.mod_pos_bound pa 4096 ltac:(lia)).
  pose proof (page_split (ram_base p)) as Eb. pose proof (page_split (ram_end p)) as Ee.
  rewrite Hb in Eb. rewrite He in Ee.
  assert (ram_base p / 4096 <= pa / 4096) by (apply Z.div_le_mono; lia).
  assert (pa / 4096 < ram_end p / 4096) by (apply Z.div_lt_upper_bound; lia). lia.
Qed.

Lemma host_fill_identity (gb : Z) (p : Phys B) (m : Mmu) (gva v : Z) :
  is_u64 gva -> ram_pages p -> (v <> TLB_MMIO_ADDEND -> in_ram p gva = true /\ v = gb) ->
  tlb_all (host_entry gb p) m -> tlb_all (host_entry gb p) (fill_identity gva v m).
Proof.
  intros Hg Hp Hv Hall. apply tlb_all_upd; [done|]. intros access g Hg' Hi Et.
  assert (Ep : page_of gva = page_of g).
  { pose proof (page_of_valid g Hg'). by destruct access; cbn in Et; case_if_in Et. }
  apply page_of_inj in Ep; [|done|done]. intros Hne. cbn [addend phys_page] in *.
  destruct (Hv Hne) as [Hr ->]. unfold shr. rewrite Z.shiftr_div_pow2 by lia. change (2 ^ 12) with 4096.
  destruct (page_in_ram p gva Hp Hr) as [H1 H2]. split_and!; [done|done|].
  rewrite Ep, page_split. unfold wrapping_add. f_equal. lia.
Qed.

(** *** A miss *)

Lemma alter_alter {A} (f g : A -> A) (i : nat) (l : list A) :
  alter g i (alter f i l) = alter (fun x => g (f x)) i l.
Proof. revert i. induction l as [|x l IH]; intros [|i]; cbn; [done|done|done|]. f_equal. apply IH. Qed.

Lemma upd_upd (gva : Z) (f g : TlbEntry -> TlbEntry) (m : Mmu) :
  upd_entry gva g (upd_entry gva f m) = upd_entry gva (fun e => g (f e)) m.
Proof.
  unfold upd_entry. cbn [tlb set_tlb]. by rewrite alter_alter.
Qed.

Lemma refill_tag access gva pa flags asid_ pg ms e g :
  is_u64 g -> tag_for access (refill gva pa flags asid_ pg ms e) = page_of g -> page_of gva = page_of g.
Proof.
  intros Hg. pose proof (page_of_valid g Hg). unfold refill.
  destruct access; cbn [tag_for addr_read addr_write addr_code]; case_if; congruence.
Qed.

Lemma page_addend_host (c : RiscvCpu) (p : Phys B) (gva pa g : Z) :
  is_u64 gva -> is_u64 pa -> is_u64 g -> gva / 4096 = g / 4096 -> in_ram p pa = true ->
  wrapping_add 64 g (page_addend c p gva pa) = u64 (guest_base c + (pa / 4096 * 4096 + g mod 4096)).
Proof.
  intros Hg Hp Hg' Ep Hr. unfold page_addend. rewrite Hr, !page_of_eq by done.
  unfold wrapping_add, wrapping_sub, wrap. rewrite Zplus_mod_idemp_r.
  rewrite Z.add_sub_assoc, Zminus_mod, Zplus_mod_idemp_r, <- Zminus_mod.
  f_equal. rewrite Ep. pose proof (page_split g). lia.
Qed.

Lemma host_miss (c : RiscvCpu) (p p' : Phys B) (m : Mmu) gva access pl ms size pmp_ m1 pa :
  is_u64 gva -> ram_pages p' -> same_layout p p' ->
  translate_miss m p gva access pl ms size pmp_ = (m1, p', Ok pa) ->
  tlb_all (host_entry (guest_base c) p) m ->
  tlb_all (host_entry (guest_base c) p') (fill_addend gva (page_addend c p' gva pa) m1).
Proof.
  intros Hg Hp Hlay Ht Hall.
  pose proof (translate_miss_spec m p gva access pl ms size pmp_ Hg) as Hs. rewrite Ht in Hs.
  destruct Hs as [(level & e & Hm & _ & Hlt & _ & ->) _].
  assert (Hpa : is_u64 pa).
  { destruct Hm as (_ & Hr & _ & ->). apply (in_range_le 56); [lia|].
    apply (phys_addr_bound m); [done|by eapply reaches_leaf]. }
  unfold fill_addend. rewrite upd_upd. apply tlb_all_upd; [by apply (host_layout _ p)|].
  intros access' g Hg' Hi Et. change (tag_for access' _) with (tag_for access' (miss_entry m p gva access ms level e pa (entry_at m g))) in Et.
  apply refill_tag in Et; [|done]. apply page_of_inj in Et; [|done|done].
  intros Hne. cbn [addend set_addend phys_page miss_entry refill] in *.
  assert (Hr : in_ram p' pa = true) by (unfold page_addend in Hne; by destruct (in_ram p' pa)).
  unfold shr. rewrite Z.shiftr_div_pow2 by lia. change (2 ^ 12) with 4096.
  destruct (page_in_ram p' pa Hp Hr) as [H1 H2]. split_and!; [done|done|].
  by apply page_addend_host.
Qed.

Lemma write_phys_layout (p : Phys B) (a v : Z) : same_layout p (write_phys p a v).
Proof.
  unfold write_phys, write_phys_sized. case_if.
  - destruct (track_write_mem a (with_ram (store_le (ram p) a (access_bytes 8) v) p)) as (_ & _ & E1 & E2).
    by split; rewrite ?E1, ?E2.
  - by destruct (bus p).
Qed.

Lemma update_leaf_layout (p p' : Phys B) l access pmp_ pl :
  update_leaf p l access pmp_ pl = Ok p' -> same_layout p p'.
Proof.
  unfold update_leaf. case_if; [by intros <-%Ok_inj|].
  destruct (pmp_check _ _ _ _ _); [|done]. intros <-%Ok_inj. apply write_phys_layout.
Qed.

Lemma miss_layout (m m1 : Mmu) (p p' : Phys B) gva access pl ms size pmp_ r :
  translate_miss m p gva access pl ms size pmp_ = (m1, p', r) -> same_layout p p'.
Proof.
  unfold translate_miss. destruct (walk_page_table _ _ _ _ _ _) as [l|x]; [|by intros [= _ <- _]].
  destruct (check_perm _ _ _ _); [|by intros [= _ <- _]].
  destruct (update_leaf _ _ _ _ _) as [q|x] eqn:Eu; [|by intros [= _ <- _]].
  apply update_leaf_layout in Eu. by destruct (pmp_check _ _ _ _ _); intros [= _ <- _].
Qed.

Lemma mode_bare (c : RiscvCpu) :
  ((if decide (data_priv c = Machine) then 0 else satp_mode (mmu c)) =? 0) = bare c.
Proof. unfold bare. by case_decide; case_bool_decide. Qed.

Lemma bare_cfg (c : RiscvCpu) (m : Mmu) : same_cfg (mmu c) m -> bare (with_mmu m c) = bare c.
Proof. intros Hc. unfold bare. cbn [mmu with_mmu]. by rewrite (satp_mode_cfg (mmu c) m Hc). Qed.

(** A new TLB for the same configuration. *)
Lemma now_maps_cfg (c : RiscvCpu) (p : Phys B) (m : Mmu) gva access pa :
  same_cfg (mmu c) m -> bare c = false ->
  tlb_maps (data_priv c) (csr c mstatus) m p gva access pa -> now_maps (with_mmu m c) p gva access pa.
Proof. intros Hc Hb Hm. unfold now_maps. by rewrite bare_cfg, Hb. Qed.

(** The part both translations share: a miss under the privilege of the accesses. *)
Lemma miss_ok (c : RiscvCpu) (p : Phys B) gva access size :
  is_u64 gva -> ram_pages p -> bare c = false -> leaf_plain (mmu c) p gva -> hart_ok c p ->
  let '(m, p', r) := translate_miss (mmu c) p gva access (data_priv c) (csr c mstatus) size (Some (pmp c)) in
  same_layout p p' /\
  match r with
  | Ok pa => hart_ok (with_mmu (fill_addend gva (page_addend c p' gva pa) m) c) p'
  | Err _ => hart_ok (with_mmu m c) p'
  end.
Proof.
  intros Hg Hp Hb Hpl [Hm Hh].
  assert (Hm' : tlb_ok (tlb_maps (data_priv c) (csr c mstatus) (mmu c) p) (mmu c)).
  { eapply tlb_ok_impl; [|exact Hm]. intros ???. unfold now_maps. by rewrite Hb. }
  pose proof (tlb_ok_miss (data_priv c) (csr c mstatus) (mmu c) p gva access size (Some (pmp c)) Hg Hpl Hm') as Ht.
  pose proof (translate_miss_spec (mmu c) p gva access (data_priv c) (csr c mstatus) size (Some (pmp c)) Hg) as Hs.
  destruct (translate_miss (mmu c) p gva access (data_priv c) (csr c mstatus) size (Some (pmp c)))
    as [[m p'] r] eqn:E. destruct Ht as (Hok & Hcfg & _). pose proof (miss_layout _ _ _ _ _ _ _ _ _ _ _ E) as Hlay.
  split; [done|]. destruct r as [pa|x].
  - split.
    + apply tlb_ok_fill_addend. eapply tlb_ok_impl; [|exact Hok]. intros g a b Hr.
      apply now_maps_cfg; [exact Hcfg|exact Hb|].
      by apply (tlb_maps_mono _ _ m _ p'); [|apply same_tables_refl|].
    + apply (host_miss c p p' (mmu c) gva access (data_priv c) (csr c mstatus) size (Some (pmp c))); try done.
      destruct Hp as (? & ? & ? & ?), Hlay as [E1 E2]. unfold ram_pages. by rewrite E1, E2.
  - destruct Hs as [[-> _] _]. split.
    + eapply tlb_ok_impl; [|exact Hok]. intros g a b Hr. by apply now_maps_cfg.
    + exact (host_layout _ _ _ _ Hlay Hh).
Qed.

Lemma latch_ok cause tval (c : RiscvCpu) (p : Phys B) : hart_ok c p -> hart_ok (latch cause tval c) p.
Proof. by apply hart_ok_frame. Qed.

Lemma helper_ok (c : RiscvCpu) (p : Phys B) gva access size :
  is_u64 gva -> ram_pages p -> leaf_plain (mmu c) p gva -> hart_ok c p ->
  let '(c', p', _) := translate_for_helper c p gva access size in
  hart_ok c' p' /\ same_layout p p'.
Proof.
  intros Hg Hp Hpl Hok. unfold translate_for_helper. rewrite mode_bare.
  destruct (bare c) eqn:Hb.
  - destruct (check_access _ _ _ _ _) as [u|x]; [|split; [by apply latch_ok|done]].
    split; [|done]. destruct Hok as [Hm Hh]. split.
    + apply tlb_ok_fill_identity; [done| |].
      * eapply tlb_ok_impl; [|exact Hm]. intros g a b. unfold now_maps. by rewrite bare_cfg, Hb by done.
      * intros g a. unfold now_maps. by rewrite bare_cfg, Hb by done.
    + cbn [guest_base with_mmu]. apply host_fill_identity; [done|done| |done].
      intros Hne. by destruct (in_ram p gva).
  - pose proof (miss_ok c p gva access size Hg Hp Hb Hpl Hok) as Hs.
    destruct (translate_miss _ _ _ _ _ _ _ _) as [[m p'] [pa|x]]; destruct Hs as [Hlay Hs].
    + by split.
    + split; [by apply latch_ok|done].
Qed.

(** In the modes that fetch through the TLB data accesses have the same privilege. *)
Lemma data_priv_low (c : RiscvCpu) : priv_level c <> Machine -> data_priv c = priv_level c.
Proof.
  intros Hp. unfold data_priv, effective_data_priv. by rewrite bool_decide_false.
Qed.

Lemma fetch_ok (c : RiscvCpu) (p : Phys B) vpc :
  is_u64 vpc -> ram_pages p -> leaf_plain (mmu c) p vpc -> hart_ok c p ->
  let '(c', p', _) := translate_pc c p vpc in hart_ok c' p' /\ same_layout p p'.
Proof.
  intros Hg Hp Hpl Hok. unfold translate_pc.
  destruct (decide (priv_level c = Machine)) as [Hm|Hm].
  { destruct (check_access _ _ _ _ _); split; try done. by apply latch_ok. }
  destruct (Z.eqb_spec (satp_mode (mmu c)) 0) as [E0|E0].
  { destruct (check_access _ _ _ _ _); split; try done. by apply latch_ok. }
  assert (Hb : bare c = false).
  { unfold bare. rewrite data_priv_low, bool_decide_false by done. by apply Z.eqb_neq. }
  pose proof (miss_ok c p vpc Execute 2 Hg Hp Hb Hpl Hok) as Hs. rewrite data_priv_low in Hs by done.
  destruct (translate_miss _ _ _ _ _ _ _ _) as [[m p'] [pa|x]]; destruct Hs as [Hlay Hs].
  - by split.
  - split; [by apply latch_ok|done].
Qed.

(** *** Register writes *)

Lemma write_keeps_mstatus (f f' : CsrFile) addr v pl prof :
  write_for_profile f addr v pl prof = Ok f' ->
  should_flush_data_tlb_on_status_write addr = false -> f' mstatus = f mstatus.
Proof.
  intros [Hw| ->]%write_for_profile_cases Hs; [|done].
  apply orb_false_iff in Hs as [H1 H2]. revert Hw. unfold write. case_if; [done|]. case_if; [done|].
  unfold write_arm. rewrite H1, H2. intros Hw.
  repeat csr_arm Hw; try done; apply Ok_inj in Hw as <-; unfold write_pmpcfg; rewrite ?set_ne by done; try done.
  all: case_if; rewrite ?set_ne by done; done.
Qed.

Lemma sync_pmp_ok addr (c : RiscvCpu) (p : Phys B) : hart_ok c p -> hart_ok (sync_pmp addr c) p.
Proof. unfold sync_pmp. case_if; [by apply hart_ok_frame|done]. Qed.

Lemma hart_ok_length (c : RiscvCpu) (p : Phys B) : hart_ok c p -> length (tlb (mmu c)) = TLB_SIZE.
Proof. by intros [[] _]. Qed.

Lemma trap_ok cause tval (c : RiscvCpu) (p p' : Phys B) : hart_ok c p -> hart_ok (do_trap cause tval c) p'.
Proof.
  intros Hok. apply (hart_ok_flushed _ _ (mmu c)); [by eapply hart_ok_length|].
  pose proof (do_trap_cases cause tval c) as Ht. by case_if_in Ht; apply Ht.
Qed.

(** A bus access by a register read leaves the tables and the window. *)
Lemma hart_ok_phys (c : RiscvCpu) (p p' : Phys B) :
  same_layout p p' ->
  (forall pl ms gva access pa, maps (mmu c) p pl ms gva access pa -> maps (mmu c) p' pl ms gva access pa) ->
  hart_ok c p -> hart_ok c p'.
Proof.
  intros Hl Hk [Hm Hh]. split; [|by apply (host_layout _ p)].
  eapply tlb_ok_impl; [|exact Hm]. intros g a pa. unfold now_maps. case_if; [done|].
  intros [Hp|(E1 & E2 & Hp)]; [left|right; split_and!; [done|done|]]; by apply Hk.
Qed.

Definition csr_effect (addr new_satp : Z) (f : CsrFile) (c : RiscvCpu) : RiscvCpu :=
  let c := sync_pmp addr (with_csr f c) in
  if addr =? CSR_SATP then with_mmu (flush (set_satp new_satp (mmu c))) c
  else if should_flush_data_tlb_on_status_write addr then with_mmu (flush (mmu c)) c
  else c.

Lemma sync_pmp_mmu addr (c : RiscvCpu) :
  mmu (sync_pmp addr c) = mmu c /\ csr (sync_pmp addr c) = csr c /\
  priv_level (sync_pmp addr c) = priv_level c /\ guest_base (sync_pmp addr c) = guest_base c.
Proof. unfold sync_pmp. by case_if. Qed.

Lemma csr_effect_ok addr v ns (f : CsrFile) (c : RiscvCpu) (p p' : Phys B) :
  write_for_profile (csr c) addr v (priv_level c) (profile c) = Ok f ->
  hart_ok c p -> hart_ok (csr_effect addr ns f c) p.
Proof.
  intros Hw Hok. pose proof (hart_ok_length c p Hok) as Hl. unfold csr_effect.
  destruct (sync_pmp_mmu addr (with_csr f c)) as (Em & Ec & Ep & Eg). case_if.
  { apply (hart_ok_flushed _ _ (set_satp ns (mmu (sync_pmp addr (with_csr f c))))); [|done].
    cbn [tlb set_satp]. by rewrite Em. }
  case_if.
  { apply (hart_ok_flushed _ _ (mmu (sync_pmp addr (with_csr f c)))); [by rewrite Em|done]. }
  apply (hart_ok_frame c); [done|done|done| |done]. rewrite Ec. by eapply write_keeps_mstatus.
Qed.

(** ** Steps of a hart

    What changes the hart or its memory between two accesses of the generated code:
    the helpers, traps and returns, the register instructions, the dirty-page
    collection, and writes to memory by the guest or by devices.  A write that
    changes the page tables takes effect at the fence that follows it, as the
    privileged specification allows. *)

Definition keeps_maps (c : RiscvCpu) (p p' : Phys B) : Prop :=
  same_layout p p' /\
  forall pl ms gva access pa, maps (mmu c) p pl ms gva access pa -> maps (mmu c) p' pl ms gva access pa.

Inductive hart_step : RiscvCpu * Phys B -> RiscvCpu * Phys B -> Prop :=
| step_access c p gva access size c' p' r :
    is_u64 gva -> leaf_plain (mmu c) p gva ->
    translate_for_helper c p gva access size = (c', p', r) -> hart_step (c, p) (c', p')
| step_fetch c p vpc c' p' r :
    is_u64 vpc -> leaf_plain (mmu c) p vpc ->
    translate_pc c p vpc = (c', p', r) -> hart_step (c, p) (c', p')
| step_write c p p' : keeps_maps c p p' -> hart_step (c, p) (c, p')
| step_fence c p p' :
    same_layout p p' -> hart_step (c, p) (with_mmu (flush (mmu c)) c, p')
| step_mark c p gva : hart_step (c, p) (with_mmu (upd_entry gva mark_dirty (mmu c)) c, p)
| step_dirty c p l c' p' : take_dirty_pages c p = (l, c', p') -> hart_step (c, p) (c', p')
| step_trap c p cause tval : hart_step (c, p) (do_trap cause tval c, p)
| step_fault c p : hart_step (c, p) ((check_mem_fault c).1, p)
| step_interrupt c p shared b :
    hart_step (c, p) (cpu (deliver_interrupt (mk_Hart c shared b)).1, p)
| step_mret c p : hart_step (c, p) (execute_mret c, p)
| step_sret c p c' : execute_sret c = Some c' -> hart_step (c, p) (c', p)
| step_csr c p a v i f3 c' p' r :
    machina_csr_op c p a v i f3 = (c', p', r) -> keeps_maps c p p' -> hart_step (c, p) (c', p')
| step_priv_csr c p insn c' p' r :
    priv_csr_insn c p insn = (c', p', r) -> keeps_maps c p p' -> hart_step (c, p) (c', p').

Lemma triple_fst {X Y T} (x x' : X) (y y' : Y) (z z' : T) : (x, y, z) = (x', y', z') -> x = x'.
Proof. by intros [= -> _ _]. Qed.

Lemma csr_op_cases (c c' : RiscvCpu) (p p' : Phys B) a v i f3 r :
  machina_csr_op c p a v i f3 = (c', p', r) ->
  c' = c \/ c' = raise_exception IllegalInstruction 0 c \/
  exists nv f, write_for_profile (csr c) (u16 a) nv (priv_level c) (profile c) = Ok f /\
    (c' = csr_effect (u16 a) nv f c \/ c' = with_tb_flush_pending true (csr_effect (u16 a) nv f c)).
Proof.
  unfold machina_csr_op. destruct (read_old c p (u16 a)) as [[old q]|e];
    [|intros <-%triple_fst; by right; left].
  destruct (csr_new_val f3 old v) as [nv|]; [|intros <-%triple_fst; by left].
  destruct (csr_do_write f3 i); [|intros <-%triple_fst; by left].
  destruct (write_for_profile _ _ _ _ _) as [f|e] eqn:Ew; [|intros <-%triple_fst; by right; left].
  intros <-%triple_fst. right. right. exists nv, f. split; [done|]. unfold csr_effect.
  destruct (u16 a =? CSR_SATP); [by right|by left].
Qed.

Lemma priv_csr_cases (c c' : RiscvCpu) (p p' : Phys B) insn r :
  priv_csr_insn c p insn = (c', p', r) ->
  c' = c \/ exists c1,
    (c1 = c \/ exists addr nv f, write_for_profile (csr c) addr nv (priv_level c) (profile c) = Ok f /\
       c1 = csr_effect addr (f satp) f c) /\
    mmu c' = mmu c1 /\ guest_base c' = guest_base c1 /\ priv_level c' = priv_level c1 /\ csr c' = csr c1.
Proof.
  unfold priv_csr_insn. set (addr := u16 (shr insn 20)). set (rd := Z.land (shr insn 7) 31).
  destruct (negb (Z.land insn 127 =? 115)); [intros <-%triple_fst; by left|].
  destruct (Z.land (shr insn 12) 7 =? 0); [intros <-%triple_fst; by left|].
  destruct (read_old c p addr) as [[old q]|e]; [|intros <-%triple_fst; by left].
  destruct (csr_new_val _ _ _) as [nv|]; [|intros <-%triple_fst; by left].
  destruct (csr_do_write _ _).
  - destruct (write_for_profile _ _ _ _ _) as [f|e] eqn:Ew; [|intros <-%triple_fst; by left].
    intros <-%triple_fst. right. exists (csr_effect addr (f satp) f c).
    split; [right; exists addr, nv, f; by split|].
    unfold csr_effect. destruct (sync_pmp_mmu addr (with_csr f c)) as (_ & Ec & _).
    rewrite Ec. cbn [csr with_csr]. by destruct (negb (rd =? 0)).
  - intros <-%triple_fst. right. exists c. split; [by left|]. by destruct (negb (rd =? 0)).
Qed.

(** *** Dirty marks *)

Lemma collect_dirty_entries (es : list TlbEntry) (buf : list Z) (i : nat) :
  let es' := (collect_dirty es buf).1 in
  length es' = length es /\
  (nth i es' TlbEntry_default = nth i es TlbEntry_default \/
   nth i es' TlbEntry_default = clear_dirty (nth i es TlbEntry_default)).
Proof.
  revert buf i. induction es as [|e es IH]; intros buf i; [split; [done|by left]|].
  cbn [collect_dirty]. destruct (dirty e =? 0).
  - specialize (IH buf (pred i)). destruct (collect_dirty es buf) as [es' buf'].
    destruct IH as [Hl Hi]. cbn [fst length nth] in *. split; [lia|]. destruct i; [by left|done].
  - match goal with |- context [collect_dirty es ?b] => specialize (IH b (pred i)) end.
    destruct (collect_dirty es _) as [es' buf'].
    destruct IH as [Hl Hi]. cbn [fst length nth] in *. split; [lia|]. destruct i; [by right|done].
Qed.

(** Marking and clearing leave what the invariant reads. *)
Definition same_entry (e e' : TlbEntry) : Prop :=
  (forall access, tag_for access e' = tag_for access e) /\ phys_page e' = phys_page e /\
  addend e' = addend e.

Lemma hart_ok_entries (c : RiscvCpu) (p : Phys B) (m : Mmu) :
  same_cfg (mmu c) m -> length (tlb m) = length (tlb (mmu c)) ->
  (forall gva, same_entry (entry_at (mmu c) gva) (entry_at m gva)) ->
  hart_ok c p -> hart_ok (with_mmu m c) p.
Proof.
  intros Hc Hl He [[Hm1 Hm2] [Hh1 Hh2]]. split.
  - split; [cbn; congruence|]. intros access gva Hg Et. cbn [mmu with_mmu] in *.
    destruct (He gva) as (Ht & Ep & Ea). rewrite Ht in Et. rewrite Ep.
    specialize (Hm2 access gva Hg Et). unfold now_maps in *. rewrite bare_cfg by done.
    destruct (bare c); [done|].
    by apply (tlb_maps_mono _ _ (mmu c) _ p); [|apply same_tables_refl|].
  - split; [cbn; congruence|]. intros access gva Hg Et. cbn [mmu with_mmu guest_base] in *.
    destruct (He gva) as (Ht & Ep & Ea). rewrite Ht in Et. specialize (Hh2 access gva Hg Et).
    unfold host_entry in *. by rewrite Ep, Ea.
Qed.

Lemma mark_ok (c : RiscvCpu) (p : Phys B) gva :
  hart_ok c p -> hart_ok (with_mmu (upd_entry gva mark_dirty (mmu c)) c) p.
Proof.
  intros Hok. apply hart_ok_entries; [done|apply length_upd| |done]. intros g.
  rewrite entry_at_upd by (by eapply hart_ok_length). case_decide; split_and!; try done; by intros [].
Qed.

Lemma take_dirty_ok (c c' : RiscvCpu) (p p' : Phys B) l :
  take_dirty_pages c p = (l, c', p') -> hart_ok c p -> hart_ok c' p'.
Proof.
  unfold take_dirty_pages, take_dirty_tlb_pages.
  pose proof (collect_dirty_entries (tlb (mmu c)) []) as Hc.
  destruct (collect_dirty (tlb (mmu c)) []) as [es buf]. cbn [fst] in Hc. intros [= _ <- <-] Hok.
  apply (hart_ok_phys _ p); [done| |].
  - intros pl ms g a pa. apply (maps_mono ms); [done|]. intros x _.
    change (same_pte (read_phys p x) (read_phys (with_dirty_pages [] p) x)). by rewrite read_phys_dirty.
  - apply hart_ok_entries; [done|apply (Hc O)| |done]. intros gva.
    destruct (Hc (tlb_index gva)) as [_ [E|E]]; unfold entry_at; cbn [tlb set_buf set_tlb]; rewrite E;
      (split_and!; try done; by intros []).
Qed.

(** *** Every step *)

Lemma step_layout (c c' : RiscvCpu) (p p' : Phys B) :
  hart_step (c, p) (c', p') -> ram_pages p -> hart_ok c p -> same_layout p p'.
Proof.
  intros Hs Hp Hok.
  inversion Hs as [? ? gva access size ? ? r Hg Hpl E|? ? vpc ? ? r Hg Hpl E|? ? ? Hk|? ? ? Hk|? ? gva
    |? ? l ? ? E|? ? cause tval|?|? ? sh b|?|? ? ? E|? ? a v i f3 ? ? r E Hk|? ? insn ? ? r E Hk];
    subst; try done; try apply Hk.
  - pose proof (helper_ok c p gva access size Hg Hp Hpl Hok) as Hk. rewrite E in Hk. apply Hk.
  - pose proof (fetch_ok c p vpc Hg Hp Hpl Hok) as Hk. rewrite E in Hk. apply Hk.
  - revert E. unfold take_dirty_pages. destruct (take_dirty_tlb_pages _). by intros [= _ _ <-].
Qed.

Lemma interrupt_ok (c : RiscvCpu) (p : Phys B) shared b :
  hart_ok c p -> hart_ok (cpu (deliver_interrupt (mk_Hart c shared b)).1) p.
Proof.
  intros Hok. unfold deliver_interrupt. set (h := mirror_mip (mk_Hart c shared b)).
  assert (Hh : hart_ok (cpu h) p).
  { by apply (hart_ok_frame c). }
  rewrite handle_interrupt_spec. destruct (find _ _) as [i|]; [|done]. cbn. by eapply trap_ok.
Qed.

Lemma step_ok (c c' : RiscvCpu) (p p' : Phys B) :
  hart_step (c, p) (c', p') -> ram_pages p -> hart_ok c p -> hart_ok c' p'.
Proof.
  intros Hs Hp Hok. pose proof (hart_ok_length c p Hok) as Hl.
  inversion Hs as [? ? gva access size ? ? r Hg Hpl E|? ? vpc ? ? r Hg Hpl E|? ? ? Hk|? ? ? Hk|? ? gva
    |? ? l ? ? E|? ? cause tval|?|? ? sh b|?|? ? ? E|? ? a v i f3 ? ? r E Hk|? ? insn ? ? r E Hk]; subst.
  - pose proof (helper_ok c p gva access size Hg Hp Hpl Hok) as Hk. rewrite E in Hk. apply Hk.
  - pose proof (fetch_ok c p vpc Hg Hp Hpl Hok) as Hk. rewrite E in Hk. apply Hk.
  - destruct Hk. by apply (hart_ok_phys c' p).
  - by apply (hart_ok_flushed _ _ (mmu c)).
  - by apply mark_ok.
  - by eapply take_dirty_ok.
  - by eapply trap_ok.
  - unfold check_mem_fault. destruct (negb (mem_fault_cause c =? 0)); [|done]. cbn [fst].
    apply (trap_ok _ _ _ p'). case_if; by apply (hart_ok_frame c).
  - by apply interrupt_ok.
  - by apply (hart_ok_flushed _ _ (mmu c)).
  - apply (hart_ok_flushed _ _ (mmu c)); [done|]. revert E. unfold execute_sret.
    case_if; [done|]. case_if; [done|]. intros E. by apply (f_equal (fmap mmu)), (inj Some) in E.
  - destruct Hk as [Hlay Hk]. apply (hart_ok_phys c p p') in Hok; [|done|done].
    destruct (csr_op_cases _ _ _ _ _ _ _ _ _ E) as [->|[->|(nv & f & Hw & Hc)]]; [done|by eapply trap_ok|].
    destruct Hc as [->| ->]; [|apply (hart_ok_frame (csr_effect (u16 a) nv f c)); try done];
      by eapply csr_effect_ok.
  - destruct Hk as [Hlay Hk]. apply (hart_ok_phys c p p') in Hok; [|done|done].
    destruct (priv_csr_cases _ _ _ _ _ _ E) as [->|(c1 & Hc1 & Em & Eg & Ep & Ec)]; [done|].
    apply (hart_ok_frame c1); [done|done|done|by rewrite Ec|].
    destruct Hc1 as [->|(addr & nv & f & Hw & ->)]; [done|]. by eapply csr_effect_ok.
Qed.

(** ** Reachable states *)

Definition fresh_tlb (c : RiscvCpu) : Prop := tlb (mmu c) = replicate TLB_SIZE TlbEntry_default.

Lemma fresh_ok (c : RiscvCpu) (p : Phys B) : fresh_tlb c -> hart_ok c p.
Proof.
  intros Hf.
  assert (Hall : forall Q, tlb_all Q (mmu c)).
  { intros Q. split; [by rewrite Hf|]. intros access gva Hg Et. exfalso.
    apply (untag_no_hit access TlbEntry_default gva Hg).
    unfold entry_at in Et. rewrite Hf, nth_lookup, lookup_replicate_2 in Et by apply tlb_index_bound. done. }
  split; apply Hall.
Qed.

Lemma hart_reachable_inv (s s' : RiscvCpu * Phys B) :
  rtc hart_step s s' -> ram_pages s.2 -> hart_ok s.1 s.2 -> ram_pages s'.2 /\ hart_ok s'.1 s'.2.
Proof.
  induction 1 as [[c p]|[c p] [c1 p1] s' Hs _ IH]; [done|]. cbn [fst snd] in *. intros Hp Hok.
  apply IH; [|by eapply step_ok].
  destruct (step_layout c c1 p p1 Hs Hp Hok) as [E1 E2]. unfold ram_pages in *. by rewrite E1, E2.
Qed.

(** ** The inline check *)

Lemma fast_host_spec tag_of (m : Mmu) (gva size a : Z) :
  is_u64 gva -> 1 <= size <= 4096 -> fast_host tag_of m gva size = Some a ->
  tag_of (entry_at m gva) = page_of gva /\ addend (entry_at m gva) <> TLB_MMIO_ADDEND /\
  a = wrapping_add 64 gva (addend (entry_at m gva)) /\ gva mod 4096 + size <= 4096.
Proof.
  intros Hg Hs. unfold fast_host, crosses_page.
  change 0xFFF with (2 ^ 12 - 1). rewrite land_pow2_mod by lia. change (2 ^ 12) with 4096.
  assert (Ep : shl 64 (shr gva 12) 12 = page_of gva).
  { rewrite page_of_eq by done. unfold shl, shr.
    rewrite Z.shiftr_div_pow2, Z.shiftl_mul_pow2 by lia. change (2 ^ 12) with 4096.
    apply wrap_small. destruct Hg. pose proof (page_split gva). pose proof (Z.mod_pos_bound gva 4096 ltac:(lia)).
    split; [apply Z.mul_nonneg_nonneg; [apply Z.div_pos|]|]; lia. }
  rewrite Ep. fold (tlb_index gva). fold (entry_at m gva).
  pose proof (Z.mod_pos_bound gva 4096 ltac:(lia)).
  destruct (if size <=? 1 then false else 4096 - size <? gva mod 4096) eqn:Ec; [done|].
  destruct (Z.eqb_spec (tag_of (entry_at m gva)) (page_of gva)); cbn [negb]; [|done].
  destruct (Z.eqb_spec (addend (entry_at m gva)) u64_max); [done|]. intros [= <-].
  split_and!; try done. destruct (Z.leb_spec size 1); [lia|]. apply Z.ltb_ge in Ec. lia.
Qed.

Lemma maps_det (m : Mmu) (p : Phys B) pl ms gva access pa pa' :
  maps m p pl ms gva access pa -> maps m p pl ms gva access pa' -> pa = pa'.
Proof.
  intros (l & e & _ & Hr & _ & ->) (l' & e' & _ & Hr' & _ & ->).
  by destruct (reaches_det m p gva _ _ _ _ _ _ Hr Hr') as [-> ->].
Qed.

(** What the slow path of a data access uses. *)
Definition data_maps (c : RiscvCpu) (p : Phys B) (gva : Z) (access : AccessType) (pa : Z) : Prop :=
  if bare c then pa = gva else maps (mmu c) p (data_priv c) (csr c mstatus) gva access pa.

Lemma helper_maps (c c' : RiscvCpu) (p p' : Phys B) gva access size pa :
  is_u64 gva -> translate_for_helper c p gva access size = (c', p', Some pa) ->
  data_maps c p gva access pa.
Proof.
  intros Hg. unfold translate_for_helper, data_maps. rewrite mode_bare. destruct (bare c).
  - destruct (check_access _ _ _ _ _); by intros [= _ _ <-].
  - pose proof (translate_miss_spec (mmu c) p gva access (data_priv c) (csr c mstatus) size (Some (pmp c)) Hg) as Hs.
    destruct (translate_miss _ _ _ _ _ _ _ _) as [[m q] [x|x]]; [|done].
    intros [= _ _ <-]. destruct Hs as [(level & e & Hm & _) _]. by exists level, e.
Qed.

Lemma fast_path_ok (c : RiscvCpu) (p : Phys B) (access : AccessType) (gva size a : Z) :
  hart_ok c p -> ram_pages p -> is_u64 gva -> 1 <= size <= 4096 -> access <> Execute ->
  fast_host (tag_for access) (mmu c) gva size = Some a ->
  exists pa, data_maps c p gva access pa /\ a = u64 (guest_base c + pa) /\
    ram_base p <= pa /\ pa + size <= ram_end p.
Proof.
  intros [[_ Hm] [_ Hh]] Hp Hg Hs Hx Hf.
  apply fast_host_spec in Hf as (Et & Hne & -> & Hc); [|done|done].
  destruct (Hh access gva Hg Et Hne) as (H1 & H2 & ->).
  pose proof (Z.mod_pos_bound gva 4096 ltac:(lia)).
  eexists. split; [|split; [done|lia]]. specialize (Hm access gva Hg Et).
  unfold now_maps in Hm. unfold data_maps. destruct (bare c); [done|].
  destruct Hm as [Hm|(E & _)]; done.
Qed.

End Coherence.

(** ** Properties *)

Section Theorems.
Context {B : Type} `{Bus B}.

(** C10: In every state a hart can reach from an empty TLB, an access that passes the
    inline check of the generated code uses the host byte of the guest physical byte
    that the page tables, the effective privilege and the status register give the
    address at that time, entirely inside RAM; and if the slow path were taken and
    translated the address, it would use the same byte.  Traps, returns, writes to the
    control registers, walks for other addresses and the dirty-page collection may come
    in between, and memory writes that change the page tables once a fence follows. *)
Theorem fast_path_coherent (c0 c : RiscvCpu) (p0 p : Phys B) (access : AccessType) (gva size a : Z) :
  fresh_tlb c0 -> ram_pages p0 -> rtc hart_step (c0, p0) (c, p) ->
  is_u64 gva -> 1 <= size <= 4096 -> access <> Execute ->
  fast_host (tag_for access) (mmu c) gva size = Some a ->
  exists pa,
    data_maps c p gva access pa /\ a = u64 (guest_base c + pa) /\
    ram_base p <= pa /\ pa + size <= ram_end p /\
    forall c' p' pa', translate_for_helper c p gva access size = (c', p', Some pa') -> pa' = pa.
Proof.
  intros Hf Hp Hr Hg Hs Hx Ha.
  destruct (hart_reachable_inv _ _ Hr Hp (fresh_ok c0 p0 Hf)) as [Hp' Hok]. cbn [fst snd] in Hp', Hok.
  destruct (fast_path_ok c p access gva size a Hok Hp' Hg Hs Hx Ha) as (pa & Hm & Ea & H1 & H2).
  exists pa. split_and!; try done. intros c' p' pa' Ht. apply helper_maps in Ht; [|done].
  unfold data_maps in *. destruct (bare c); [congruence|]. by eapply maps_det.
Qed.

End Theorems.

(** *** A sample hart: Sv39 tables in RAM, user mode, one protection entry for all
    of memory *)

Definition sample_words : gmap Z Z :=
  <[0x3030 := 9 * 2 ^ 10 + 0x17]> (<[0x8000 := 0xAA]> (<[0x9000 := 0xBB]> sample_mem)).

Definition sample_ram (x : Z) : Z :=
  shr (default 0 (sample_words !! (x / 8 * 8))) (8 * (x mod 8)).

Definition sample_phys : Phys unit := mk_Phys 0 (2 ^ 56) sample_ram None ∅ 0 [].

Definition sample_hart : RiscvCpu :=
  with_mmu sample_mmu (with_priv_level User
    (with_pmp (mk_PmpEntry 0x1F u64_max :: replicate 15 PmpEntry_default) cpu_new)).

Lemma sample_leaf_plain (m : Mmu) (gva : Z) : leaf_plain m sample_phys gva.
Proof.
  intros level e Hr. apply reaches_bound in Hr; [|apply root_range].
  split; cbn [ram_base ram_end sample_phys]; lia.
Qed.

Lemma fast_path_coherent_witness :
  let c := (translate_for_helper sample_hart sample_phys 0x5120 Write 8).1.1 in
  let p := (translate_for_helper sample_hart sample_phys 0x5120 Write 8).1.2 in
  fast_host (tag_for Read) (mmu c) 0x5128 8 = Some 0x7128 /\
  exists pa, data_maps c p 0x5128 Read pa /\ 0x7128 = u64 (guest_base c + pa).
Proof.
  intros c p.
  assert (Hf : fast_host (tag_for Read) (mmu c) 0x5128 8 = Some 0x7128) by (vm_compute; reflexivity).
  split; [exact Hf|].
  assert (Hs : hart_step (sample_hart, sample_phys) (c, p)).
  { apply (step_access sample_hart sample_phys 0x5120 Write 8 c p
      (translate_for_helper sample_hart sample_phys 0x5120 Write 8).2).
    - split; vm_compute; congruence.
    - apply sample_leaf_plain.
    - subst c p. by destruct (translate_for_helper sample_hart sample_phys 0x5120 Write 8) as [[? ?] ?]. }
  destruct (fast_path_coherent sample_hart c sample_phys p Read 0x5128 8 0x7128) as (pa & Hm & Ea & _).
  - reflexivity.
  - by repeat split.
  - by apply rtc_once.
  - split; vm_compute; congruence.
  - lia.
  - discriminate.
  - exact Hf.
  - exists pa. split; [exact Hm|exact Ea].
Defined.

(** *** Where the code falls short *)



(** ** The translation root follows the register *)

Definition satp_synced (c : RiscvCpu) : Prop := mmu_satp (mmu c) = csr c satp.

Lemma write_keeps_satp (f f' : CsrFile) addr v pl prof :
  write_for_profile f addr v pl prof = Ok f' -> addr <> CSR_SATP -> f' satp = f satp.
Proof.
  intros [Hw| ->]%write_for_profile_cases Hs; [|done].
  apply Z.eqb_neq in Hs. revert Hw. unfold write. case_if; [done|]. case_if; [done|].
  unfold write_arm. rewrite Hs. intros Hw.
  repeat csr_arm Hw; try done; apply Ok_inj in Hw as <-; unfold write_pmpcfg; rewrite ?set_ne by done; try done.
  all: case_if; rewrite ?set_ne by done; done.
Qed.

Lemma csr_effect_synced addr v (f : CsrFile) (c : RiscvCpu) :
  write_for_profile (csr c) addr v (priv_level c) (profile c) = Ok f ->
  satp_synced c -> satp_synced (csr_effect addr (f satp) f c).
Proof.
  intros Hw Hs. unfold satp_synced, csr_effect in *.
  destruct (sync_pmp_mmu addr (with_csr f c)) as (Em & Ec & _).
  destruct (Z.eqb_spec addr CSR_SATP) as [E|E]; [cbn; by rewrite Ec|].
  apply write_keeps_satp in Hw; [|done].
  case_if; cbn; rewrite Em, Ec; cbn; congruence.
Qed.


(** ** Atomic operations *)

(** The operation on [w]-bit values. *)
Definition amo_spec (op : AmoOp) (w x y : Z) : Z :=
  match op with
  | AMO_SWAP => y
  | AMO_ADD => (x + y) mod 2 ^ w
  | AMO_XOR => Z.lxor x y
  | AMO_AND => Z.land x y
  | AMO_OR => Z.lor x y
  | AMO_MIN => wrap w (Z.min (signed w x) (signed w y))
  | AMO_MAX => wrap w (Z.max (signed w x) (signed w y))
  | AMO_MINU => Z.min x y
  | AMO_MAXU => Z.max x y
  end.

Lemma wrap_bitop (f : Z -> Z -> Z) (g : bool -> bool -> bool) (w x y : Z) :
  0 <= w -> (forall a b i, Z.testbit (f a b) i = g (Z.testbit a i) (Z.testbit b i)) ->
  g false false = false -> in_range w x -> wrap w (f x y) = f x (wrap w y).
Proof.
  intros Hw Hf Hg Hx. apply Z.bits_inj'. intros i Hi. rewrite testbit_wrap, !Hf, testbit_wrap by lia.
  apply in_range_bits in Hx as [_ Hx]; [|lia]. destruct (Z.ltb_spec i w); cbn; [done|].
  by rewrite Hx, Hg by lia.
Qed.

Lemma amo_value_spec (op : AmoOp) (size old v : Z) :
  size = 4 \/ size = 8 -> in_range (8 * size) old ->
  wrap (8 * size) (amo_value op size old v) = amo_spec op (8 * size) old (wrap (8 * size) v).
Proof.
  intros Hs Ho.
  assert (Hw : (if size =? 4 then 32 else 64) = 8 * size) by (by destruct Hs; subst size).
  unfold amo_value. rewrite Hw. set (w := 8 * size) in *. assert (0 < w) by lia.
  pose proof (wrap_small w old Ho) as Eo. pose proof (wrap_range w v ltac:(lia)) as Hv.
  assert (Hww : forall x, wrap w (wrap w x) = wrap w x) by (intros; by apply wrap_small, wrap_range; lia).
  unfold amo_spec, wrapping_add. rewrite Eo. destruct op.
  - done.
  - rewrite Hww. done.
  - apply (wrap_bitop Z.lxor xorb); [lia|apply Z.lxor_spec|done|done].
  - apply (wrap_bitop Z.land andb); [lia|apply Z.land_spec|done|done].
  - apply (wrap_bitop Z.lor orb); [lia|apply Z.lor_spec|done|done].
  - destruct (Z.leb_spec (signed w old) (signed w (wrap w v))).
    + rewrite Z.min_l, wrap_signed by lia. done.
    + rewrite Z.min_r, wrap_signed, Hww by lia. done.
  - destruct (Z.leb_spec (signed w (wrap w v)) (signed w old)).
    + rewrite Z.max_l, wrap_signed by lia. done.
    + rewrite Z.max_r, wrap_signed, Hww by lia. done.
  - destruct (Z.leb_spec old (wrap w v)); [by rewrite Z.min_l, Eo by lia|by rewrite Z.min_r by lia].
  - destruct (Z.leb_spec (wrap w v) old); [by rewrite Z.max_l, Eo by lia|by rewrite Z.max_r by lia].
Qed.

Lemma access_bytes_eq (size : Z) : size = 4 \/ size = 8 -> access_bytes size = Z.to_nat size.
Proof. by intros [->| ->]. Qed.

(** Memory after a helper's write to RAM. *)
Lemma write_ram {B} `{Bus B} (p : Phys B) (pa v size : Z) :
  in_ram p pa = true ->
  ram (write_phys_sized p pa v size) = store_le (ram p) pa (access_bytes size) v.
Proof.
  intros Hr. unfold write_phys_sized. rewrite Hr.
  by destruct (track_write_mem pa (with_ram (store_le (ram p) pa (access_bytes size) v) p)) as (-> & _).
Qed.

(** C28: An atomic operation that completes on RAM returns the old value, sign
    extended from its width, leaves the result of the operation at that width in
    memory and changes no other byte; its address is the translation for a write. *)
Theorem amo_correct {B} `{Bus B} (c c' : RiscvCpu) (p p' : Phys B) (gva v size op r : Z) :
  machina_amo_op c p gva v size op = (c', p', Some r) ->
  exists pa p1 o,
    translate_for_helper c p gva Write (u32 size) = (c', p1, Some pa) /\ amo_of op = Some o /\
    (u32 size = 4 \/ u32 size = 8) /\
    (in_ram p1 pa = true ->
     let w := 8 * u32 size in
     let old := load_le (ram p1) pa (Z.to_nat (u32 size)) in
     r = u64 (signed w old) /\
     load_le (ram p') pa (Z.to_nat (u32 size)) = amo_spec o w old (wrap w v) /\
     forall x, ~ (pa <= x < pa + u32 size) -> ram p' x = ram p1 x).
Proof.
  unfold machina_amo_op. set (sz := u32 size). cbv zeta.
  destruct (negb (sz =? 4) && negb (sz =? 8)) eqn:Esz; [done|].
  assert (Hsz : sz = 4 \/ sz = 8).
  { destruct (Z.eqb_spec sz 4), (Z.eqb_spec sz 8); cbn in Esz; tauto || done. }
  destruct (negb (Z.land gva (sz - 1) =? 0)); [done|].
  destruct (translate_for_helper c p gva Write sz) as [[c1 p1] [pa|]] eqn:Et; [|done].
  destruct (negb (is_phys_backed p1 pa sz)); [done|]. destruct (amo_of op) as [o|] eqn:Eo; [|done].
  intros E. exists pa, p1, o.
  unfold read_phys_sized in E. destruct (in_ram p1 pa) eqn:Er.
  2: { destruct (bus p1) as [b|]; [destruct (bus_read b pa sz)|]; apply triple_fst in E as <-; by split_and!. }
  rewrite access_bytes_eq in E by done. injection E as <- <- <-. split_and!; try done. intros _. cbv zeta.
  pose proof (load_le_range (ram p1) pa (Z.to_nat sz)) as Hold. rewrite Z2Nat.id in Hold by lia.
  rewrite write_ram, access_bytes_eq, load_store_same, Z2Nat.id by done || lia. split_and!.
  - destruct (Z.eqb_spec sz 4) as [E4|]; [rewrite E4 in *|assert (E8 : sz = 8) by tauto; rewrite E8 in *].
    + unfold sign32. by rewrite (wrap_small 32) by done.
    + rewrite wrap_signed by lia. symmetry. by apply wrap_small.
  - by apply amo_value_spec.
  - intros x Hx. unfold store_le. rewrite Z2Nat.id by lia.
    destruct (Z.leb_spec pa x), (Z.ltb_spec x (pa + sz)); try done. lia.
Qed.

Lemma amo_correct_witness :
  exists c' p', machina_amo_op sample_hart sample_phys 0x6000 0x10 4 1 = (c', p', Some 0xBB) /\
    exists pa p1 o,
      translate_for_helper sample_hart sample_phys 0x6000 Write (u32 4) = (c', p1, Some pa) /\
      amo_of 1 = Some o.
Proof.
  assert (E : exists c' p', machina_amo_op sample_hart sample_phys 0x6000 0x10 4 1 = (c', p', Some 0xBB)).
  { destruct (machina_amo_op sample_hart sample_phys 0x6000 0x10 4 1) as [[c' p'] r] eqn:E.
    exists c', p'. f_equal. transitivity (machina_amo_op sample_hart sample_phys 0x6000 0x10 4 1).2;
      [by rewrite E|vm_compute; reflexivity]. }
  destruct E as (c' & p' & E). exists c', p'. split; [exact E|].
  destruct (amo_correct sample_hart c' sample_phys p' 0x6000 0x10 4 1 0xBB E) as (pa & p1 & o & H1 & H2 & _).
  exists pa, p1, o. split; [exact H1|exact H2].
Defined.

(** ** Store conditional *)

Lemma helper_frame {B} `{Bus B} (c c' : RiscvCpu) (p p' : Phys B) gva access size r :
  translate_for_helper c p gva access size = (c', p', r) ->
  load_res c' = load_res c /\ load_val c' = load_val c.
Proof.
  unfold translate_for_helper. destruct (_ =? 0).
  - destruct (check_access _ _ _ _ _); intros <-%triple_fst; done.
  - destruct (translate_miss _ _ _ _ _ _ _ _) as [[m q] [pa|x]]; intros <-%triple_fst; done.
Qed.

Lemma trap_load_res cause tval (c : RiscvCpu) : load_res (do_trap cause tval c) = u64_max.
Proof. pose proof (do_trap_cases cause tval c) as Ht. by case_if_in Ht; apply Ht. Qed.

(** C29: A store-conditional consumes the reservation whatever happens, and reports
    success only when the hart holds a reservation of the physical address it writes
    and memory still has the value the load-reserved returned; then exactly the bytes
    of the word are stored.  A failing one stores nothing. *)
Theorem sc_correct {B} `{Bus B} (c c' : RiscvCpu) (p p' : Phys B) (gva v size : Z) (r : option Z) :
  machina_sc_op c p gva v size = (c', p', r) -> u32 size = size -> size = 4 \/ size = 8 ->
  load_res c' = u64_max /\
  exists c1 p1 o,
    translate_for_helper c p gva Write size = (c1, p1, o) /\
    match r, o with
    | Some 0, Some pa =>
        load_res c = pa /\
        (in_ram p1 pa = true ->
         (read_sized p1 pa size).1 = load_val c /\
         ram p' = store_le (ram p1) pa (Z.to_nat size) v)
    | Some 0, None => False
    | _, _ => ram p' = ram p1
    end.
Proof.
  intros E Hu Hsz. unfold machina_sc_op in E. rewrite Hu in E.
  destruct (translate_for_helper c p gva Write size) as [[c1 p1] o] eqn:Et.
  destruct (helper_frame _ _ _ _ _ _ _ _ Et) as [Er Ev]. destruct o as [pa|].
  2: { injection E as <- <- <-. split; [apply trap_load_res|]. by exists c1, p1, None. }
  destruct (Z.eqb_spec (load_res c1) pa) as [Epa|Hne]; cbn [negb] in E.
  2: { injection E as <- <- <-. split; [done|]. by exists c1, p1, (Some pa). }
  destruct (is_phys_backed p1 pa size); cbn [negb] in E.
  2: { injection E as <- <- <-. split; [apply trap_load_res|]. by exists c1, p1, (Some pa). }
  assert (Hq : ram (read_sized p1 pa size).2 = ram p1).
  { unfold read_sized, read_phys_sized. destruct Hsz as [->| ->]; cbn [Z.eqb];
      destruct (in_ram p1 pa); cbn; try done; destruct (bus p1) as [b|]; try done;
      by destruct (bus_read b pa _). }
  assert (Hin : in_ram p1 pa = true -> in_ram (read_sized p1 pa size).2 pa = true).
  { intros Hi. unfold read_sized, read_phys_sized. rewrite Hi. by case_if. }
  destruct (read_sized p1 pa size) as [cur q] eqn:Ers. cbn [snd fst] in *.
  destruct (Z.eqb_spec cur (load_val c1)) as [Ec|Ec]; cbn [negb] in E;
    injection E as <- <- <-; (split; [done|]); exists c1, p1, (Some pa); (split; [done|]); [|done].
  split; [congruence|]. intros Hi. rewrite Ers. cbn [fst]. split; [congruence|].
  by rewrite write_ram, access_bytes_eq, Hq by auto.
Qed.

Lemma sc_correct_witness :
  let '(c1, p1, v) := machina_lr_op sample_hart sample_phys 0x6000 8 in
  v = Some 0xBB /\
  exists c' p', machina_sc_op c1 p1 0x6000 0x77 8 = (c', p', Some 0) /\ load_res c' = u64_max.
Proof.
  destruct (machina_lr_op sample_hart sample_phys 0x6000 8) as [[c1 p1] v] eqn:E.
  assert (Ev : v = (machina_lr_op sample_hart sample_phys 0x6000 8).2) by (by rewrite E).
  split; [rewrite Ev; vm_compute; reflexivity|].
  destruct (machina_sc_op c1 p1 0x6000 0x77 8) as [[c' p'] r] eqn:Es.
  assert (Er : r = Some 0).
  { transitivity (machina_sc_op c1 p1 0x6000 0x77 8).2; [by rewrite Es|].
    assert (Ec : c1 = (machina_lr_op sample_hart sample_phys 0x6000 8).1.1) by (by rewrite E).
    assert (Ep : p1 = (machina_lr_op sample_hart sample_phys 0x6000 8).1.2) by (by rewrite E).
    rewrite Ec, Ep. vm_compute. reflexivity. }
  exists c', p'. split; [by rewrite Er|].
  apply (sc_correct c1 c' p1 p' 0x6000 0x77 8 r Es); [reflexivity|by right].
Defined.
