(* ===== verification/RvGen.v ===== *)
(** * Building a block: fetch, translate

    Models [FullSystemCpu::gen_code], [resolve_fetch_region] and [fetch_insn_at_pc] of
    [system/src/cpus.rs] and the CPU configurations of
    [guest/riscv/src/riscv/ext.rs]: the program counter is translated, the page it is in
    is located in RAM or in the boot ROM, the instruction that may straddle the end of
    the page is fetched beforehand, the guest registers are registered in (or found in)
    the IR context, and the translator of [RvTrans] runs over the page.

    Memory regions are read by guest physical address.  The decoders are those of
    [RvDecode]; the vendor decoder, the helper addresses and two field offsets of the CPU
    struct are parameters. *)

From Stdlib Require Import ZArith Lia Bool String.
From stdpp Require Import base tactics numbers list gmap functions.
From S2P Require Import Prelude IrTypes IrOpcode IrContext IrBuild Optimize IrSem OptimizeProof.
From S2P Require Import IrHost Tb RvInsn RvTrans RvIsa RvEmit RvTransOk RvBlock RvTyped RvTidy RvDecode.
From S2P Require Import RvCsr RvVendor RvPmp RvMmu RvTrap RvMem.

(** ** Configurations *)

Definition RV64GC : RiscvCfg := {|
  misa_m := true; misa_a := true; misa_c := true; ext_zicsr := true; ext_zicbom := false;
  ext_zicboz := false; ext_zba := true; ext_zbb := true; ext_zbc := true; ext_zbs := true;
  ext_zbkb := true; ext_zbkx := true; ext_svinval := false; has_xthead := false |}.

Definition THEAD_C908 : RiscvCfg := {|
  misa_m := true; misa_a := true; misa_c := true; ext_zicsr := true; ext_zicbom := true;
  ext_zicboz := true; ext_zba := true; ext_zbb := true; ext_zbc := true; ext_zbs := true;
  ext_zbkb := true; ext_zbkx := true; ext_svinval := true; has_xthead := true |}.

(** The [cfg] of the two profiles. *)
Definition profile_cfg (p : RiscvCpuProfile) : RiscvCfg :=
  match vendor p with Generic => RV64GC | Thead => THEAD_C908 end.

(** ** Memory the translator reads *)

Record Region := mk_Region { region_bytes : Z -> Z; region_base : Z; region_size : Z }.

Section Gen.
Context {B : Type} `{Bus B}.

Record FullSystemCpu := mk_Full {
  cpu : RiscvCpu;
  phys : Phys B;
  ram_size : Z;
  mrom : option Region
}.

Definition with_hart (c : RiscvCpu) (p : Phys B) (s : FullSystemCpu) : FullSystemCpu :=
  mk_Full c p (ram_size s) (mrom s).

Definition with_cpu (c : RiscvCpu) (s : FullSystemCpu) : FullSystemCpu := with_hart c (phys s) s.

Definition region_has (r : Region) (pa : Z) : bool := wrapping_sub 64 pa (region_base r) <? region_size r.

Definition ram_region (s : FullSystemCpu) : Region := mk_Region (ram (phys s)) (ram_base (phys s)) (ram_size s).

Definition resolve_fetch_region (s : FullSystemCpu) (pa : Z) : option Region :=
  if region_has (ram_region s) pa then Some (ram_region s)
  else match mrom s with
       | Some r => if region_has r pa then Some r else None
       | None => None
       end.

(** [self.translate_pc(vpc)]. *)
Definition fetch_translate (s : FullSystemCpu) (vpc : Z) : FullSystemCpu * Z :=
  let '(c, p, pa) := translate_pc (cpu s) (phys s) vpc in (with_hart c p s, pa).

(** The faults latched before a speculative translation are put back. *)
Definition restore_faults (old c : RiscvCpu) : RiscvCpu :=
  with_fault_pc (fault_pc old) (latch (mem_fault_cause old) (mem_fault_tval old) c).

Definition fetch_insn_at_pc (s : FullSystemCpu) : FullSystemCpu * Z :=
  let old := cpu s in
  let '(s, pa) := fetch_translate s (RvTrap.pc old) in
  let s := with_cpu (restore_faults old (cpu s)) s in
  if pa =? u64_max then (s, 0)
  else match resolve_fetch_region s pa with
       | Some r => (s, load_le (region_bytes r) pa 4)
       | None => (s, 0)
       end.

(** ** Fetching for a block *)

Definition page_remain (pa : Z) : Z := 4096 - Z.land pa 0xFFF.

(** The first half of a 32-bit instruction. *)
Definition is_32bit (lo : Z) : bool :=
  (Z.land lo 3 =? 3) && negb (Z.land (shr lo 2) 7 =? 7).

(** The instruction that starts in the last two bytes of the page, read from both pages
    when the block's first page has an odd number of halfwords left; zero if there is
    none.  A failure to reach the second page is left latched. *)
Definition cross_page_word (s : FullSystemCpu) (r : Region) (pc pa : Z) : FullSystemCpu * Z :=
  let remain := page_remain pa in
  if remain mod 4 =? 2 then
    let boundary := u64 (pa + remain - 2) in
    if region_has r boundary then
      let lo := load_le (region_bytes r) boundary 2 in
      if is_32bit lo then
        let old := cpu s in
        let '(s, next) := fetch_translate s (u64 (pc + remain)) in
        if next =? u64_max then (s, 0)
        else
          let s := with_cpu (restore_faults old (cpu s)) s in
          match resolve_fetch_region s next with
          | None => (with_cpu (latch 1 (u64 (pc + remain)) (cpu s)) s, 0)
          | Some r' => (s, Z.lor lo (shl 32 (load_le (region_bytes r') next 2) 16))
          end
      else (s, 0)
    else (s, 0)
  else (s, 0).

(** What the translator is given. *)
Record Fetch := mk_Fetch {
  f_pa : Z;
  f_region : Region;
  f_limit : Z;
  f_word : Z;
  f_word_pc : Z
}.

(** [gen_code] up to the translation; [None] is the early return of zero bytes. *)
Definition fetch_block (s : FullSystemCpu) (pc max_insns : Z) : FullSystemCpu * option Fetch :=
  let s := with_cpu (with_fault_pc 0 (cpu s)) s in
  let '(s, pa) := fetch_translate s pc in
  if pa =? u64_max then (s, None)
  else
    let s := with_cpu (with_last_phys_pc pa (cpu s)) s in
    match resolve_fetch_region s pa with
    | None => (with_cpu (latch 1 pc (cpu s)) s, None)
    | Some r =>
        let off := wrapping_sub 64 pa (region_base r) in
        let avail := Z.min (page_remain pa) (region_size r - off) / 2 in
        let limit := Z.min max_insns (u32 avail) in
        if limit =? 0 then (s, None)
        else
          let '(s, word) := cross_page_word s r pc pa in
          if negb (mem_fault_cause (cpu s) =? 0) then (s, None)
          else
            let word_pc := if word =? 0 then 0 else u64 (pc + page_remain pa - 2) in
            (s, Some (mk_Fetch pa r limit word word_pc))
    end.

(** Bytes at a virtual address of the page: [guest_base + pc_next]. *)
Definition fetch_at (f : Fetch) (pc : Z) (n : nat) (p : Z) : Z :=
  load_le (region_bytes (f_region f)) (u64 (f_pa f + p - pc)) n.

(** ** The guest registers in the IR context *)

Definition gpr_offset (i : nat) : Z := 8 * Z.of_nat i.
Definition PC_OFFSET : Z := 512.
Definition LOAD_RES_OFFSET : Z := 528.
Definition LOAD_VAL_OFFSET : Z := 536.

Variables FAULT_PC_OFFSET MSTATUS_OFFSET : Z.
Variable addr_of : Helper -> Z.
Variables machina_lr machina_sc machina_amo : Z.
Variable decode_xthead : Dis -> Z -> Trans.

Fixpoint new_gprs (env : N) (l : list nat) (ir : Context.Context) : option (list N * Context.Context) :=
  match l with
  | [] => Some ([], ir)
  | i :: l =>
      '(t, ir) ← Context.new_global ir Ty.I64 env (gpr_offset i) "gpr";
      '(ts, ir) ← new_gprs env l ir;
      Some (t :: ts, ir)
  end.

(** The first block registers the globals. *)
Definition new_globals (d : Dis) (ir : Context.Context) : option (Dis * Context.Context) :=
  '(env, ir) ← Context.new_fixed ir Ty.I64 5 "env";
  '(gprs, ir) ← new_gprs env (seq 0 32) ir;
  '(pc, ir) ← Context.new_global ir Ty.I64 env PC_OFFSET "pc";
  '(res, ir) ← Context.new_global ir Ty.I64 env LOAD_RES_OFFSET "load_res";
  '(val, ir) ← Context.new_global ir Ty.I64 env LOAD_VAL_OFFSET "load_val";
  '(_, ir) ← Context.new_global ir Ty.I64 env FAULT_PC_OFFSET "fault_pc";
  Some (RvTrans.set_temps env gprs pc res val d, ir).

(** Later blocks find them by number. *)
Definition old_globals (d : Dis) : Dis :=
  RvTrans.set_temps 0 ((fun i => (1 + N.of_nat i)%N) <$> seq 0 32) 33 34 35 d.

(** ** The block *)

Definition set_fetch (f : Fetch) (d : Dis) : Dis := {|
  pc_first := pc_first d; pc_next := pc_next d; is_jmp := is_jmp d; num_insns := num_insns d;
  max_insns := f_limit f; RvTrans.cfg := RvTrans.cfg d; env := env d; RvTrans.gpr := RvTrans.gpr d;
  RvTrans.pc := RvTrans.pc d; RvTrans.load_res := RvTrans.load_res d;
  RvTrans.load_val := RvTrans.load_val d; cross_page_insn := f_word f;
  cross_page_pc := f_word_pc f; page_byte_limit := page_byte_limit d; opcode := opcode d;
  cur_insn_len := cur_insn_len d; csr_helper := csr_helper d; lr_helper := machina_lr;
  sc_helper := machina_sc; amo_helper := machina_amo |}.

Definition gen_code (s : FullSystemCpu) (ir : Context.Context) (pc max_insns : Z)
    : option (FullSystemCpu * Context.Context * Z) :=
  match fetch_block s pc max_insns with
  | (s, None) => Some (s, ir, 0)
  | (s, Some f) =>
      let d := set_fetch f (dis_new pc (profile_cfg (profile (cpu s)))) in
      '(d, ir) ← (if decide (Context.nb_globals ir = 0%nat) then new_globals d ir
                  else Some (old_globals d, ir));
      '(size, ir) ← translate_block addr_of MSTATUS_OFFSET decode32 decode16 decode_xthead
                      (fetch_at f pc 2) (fetch_at f pc 4) d ir;
      Some (s, ir, size)
  end.
End Gen.
