(* ===== verification/RvGenProof.v ===== *)
(** * Blocks are built and optimized correctly

    [gen_code] composed with [optimize]: in the first block and in every later one, the
    IR that reaches the back end runs the guest code of the page like the reference
    semantics, and the context is ready for the next block once reset.  At the end, what
    the fetch of instructions at a page boundary gets wrong. *)

From Stdlib Require Import ZArith Lia Bool String.
From stdpp Require Import base tactics numbers list gmap functions.
From S2P Require Import Prelude IrTypes IrOpcode IrContext IrBuild Optimize IrSem OptimizeProof.
From S2P Require Import IrHost Tb RvInsn RvTrans RvIsa RvEmit RvTransOk RvBlock RvTyped RvTidy RvDecode.
From S2P Require Import RvCsr RvVendor RvPmp RvMmu RvTrap RvMem RvMemProof RvGen.

(** ** The globals *)

(** A context of [n] 64-bit globals and nothing else. *)
Record globals_only (n : nat) (c : Context.Context) : Prop := mk_only {
  go_wf : Context.wf c;
  go_ops : Context.ops c = [];
  go_nb : Context.nb_globals c = n;
  go_len : length (Context.temps c) = n;
  go_ty : Forall (fun t => Temp.ty t = Ty.I64) (Context.temps c)
}.

Lemma globals_only_typed n c : globals_only n c -> well_typed c = true.
Proof.
  intros [Hw Ho Hn Hl _]. unfold well_typed. rewrite Ho. cbn [forallb andb]. apply forallb_forall.
  intros t [i Hi]%list_elem_of_In%list_elem_of_lookup. pose proof (lookup_lt_Some _ _ _ Hi) as Hlt.
  destruct (Context.wf_globals _ Hw i t Hi) as [Hg _]. unfold const_fits.
  rewrite Hn, <- Hl in Hg. specialize (Hg Hlt).
  unfold Temp.is_global_or_fixed, Temp.is_global, Temp.is_fixed, Temp.is_const in *.
  by destruct (Temp.kind t).
Qed.

Lemma globals_only_fresh c : globals_only nb_guest c -> fresh_context c.
Proof.
  intros [Hw Ho Hn Hl Hty]. split; [done..|]. intros i t _ Hi. by eapply Forall_lookup_1 in Hty.
Qed.

Lemma new_global_only n c b off nm :
  globals_only n c ->
  exists c', Context.new_global c Ty.I64 b off nm = Some (N.of_nat n, c') /\ globals_only (S n) c'.
Proof.
  intros [Hw Ho Hn Hl Hty]. destruct (Context.new_global c Ty.I64 b off nm) as [[i c']|] eqn:E.
  - pose proof (Context.step_wf _ _ (Context.step_new_global _ _ _ _ _ _ _ E) Hw) as Hw'.
    unfold Context.new_global in E. destruct (decide _) as [_|]; [|done]. injection E as <- <-.
    rewrite Hl in *. eexists. split; [done|]. split; cbn; try done; [by rewrite Hn|rewrite length_app; cbn; lia|].
    apply Forall_app. split; [done|]. by repeat constructor.
  - unfold Context.new_global in E. destruct (decide _) as [|Hne]; [done|]. congruence.
Qed.

Lemma new_fixed_only n c r nm :
  globals_only n c ->
  exists c', Context.new_fixed c Ty.I64 r nm = Some (N.of_nat n, c') /\ globals_only (S n) c'.
Proof.
  intros [Hw Ho Hn Hl Hty]. destruct (Context.new_fixed c Ty.I64 r nm) as [[i c']|] eqn:E.
  - pose proof (Context.step_wf _ _ (Context.step_new_fixed _ _ _ _ _ _ E) Hw) as Hw'.
    unfold Context.new_fixed in E. destruct (decide _) as [_|]; [|done]. injection E as <- <-.
    rewrite Hl in *. eexists. split; [done|]. split; cbn; try done; [by rewrite Hn|rewrite length_app; cbn; lia|].
    apply Forall_app. split; [done|]. by repeat constructor.
  - unfold Context.new_fixed in E. destruct (decide _) as [|Hne]; [done|]. congruence.
Qed.

Lemma new_gprs_only e l n c :
  globals_only n c ->
  exists c', new_gprs e l c = Some (N.of_nat <$> seq n (length l), c') /\ globals_only (n + length l) c'.
Proof.
  revert n c. induction l as [|i l IH]; intros n c Hg; cbn [new_gprs length seq fmap list_fmap].
  - exists c. by rewrite Nat.add_0_r.
  - destruct (new_global_only n c e (gpr_offset i) "gpr" Hg) as (c1 & -> & Hg1). cbn.
    destruct (IH (S n) c1 Hg1) as (c2 & -> & Hg2). cbn. exists c2. by rewrite Nat.add_succ_r.
Qed.

(** The numbers later blocks assume are the ones the first block gets. *)
Lemma new_globals_only off d c :
  globals_only 0 c ->
  exists c', new_globals off d c = Some (old_globals d, c') /\ globals_only nb_guest c'.
Proof.
  intros H0. unfold new_globals.
  destruct (new_fixed_only 0 c 5 "env" H0) as (c1 & -> & H1). cbn [mbind option_bind].
  change (N.of_nat 0) with 0%N.
  destruct (new_gprs_only 0 (seq 0 32) 1 c1 H1) as (c2 & -> & H2). cbn [mbind option_bind].
  rewrite length_seq in *.
  destruct (new_global_only _ c2 0 PC_OFFSET "pc" H2) as (c3 & -> & H3). cbn [mbind option_bind].
  destruct (new_global_only _ c3 0 LOAD_RES_OFFSET "load_res" H3) as (c4 & -> & H4). cbn [mbind option_bind].
  destruct (new_global_only _ c4 0 LOAD_VAL_OFFSET "load_val" H4) as (c5 & -> & H5). cbn [mbind option_bind].
  destruct (new_global_only _ c5 0 off "fault_pc" H5) as (c6 & -> & H6). cbn [mbind option_bind].
  exists c6. split; [reflexivity|exact H6].
Qed.

Lemma reset_only c c' :
  globals_only nb_guest c -> Context.wf c' -> Context.nb_globals c' = Context.nb_globals c ->
  Context.temps c `prefix_of` Context.temps c' -> globals_only nb_guest (Context.reset c').
Proof.
  intros [Hw Ho Hn Hl Hty] Hw' Hnb [l Hp]. split.
  - by apply Context.wf_reset.
  - done.
  - cbn. congruence.
  - cbn. rewrite length_fmap, length_take, Hp, length_app. lia.
  - cbn. rewrite Hnb, Hn, <- Hl, Hp, take_app_length. apply Forall_fmap.
    revert Hty. apply Forall_impl. intros t Ht. cbn. unfold Temp.reset_alloc. by destruct (Temp.kind t).
Qed.

(** ** The theorem *)

Section Correct.
Context {B : Type} `{Bus B} {W : Type}.
Variable mem_load : W -> Z -> Z -> option Z * W.
Variable mem_store : W -> Z -> Z -> Z -> bool * W.
Variable helper_at : Z -> option (list Z -> option Z).
Variable chained : N -> W -> bool.
Variables FAULT_PC_OFFSET MSTATUS_OFFSET : Z.
Variable addr_of : Helper -> Z.
Variables machina_lr machina_sc machina_amo : Z.
Variable decode_xthead : Dis -> Z -> Trans.
Hypothesis helpers_linked : forall h,
  in_range 64 (addr_of h) /\ helper_at (addr_of h) = Some (helper_fn h).

Local Notation gen_code :=
  (gen_code FAULT_PC_OFFSET MSTATUS_OFFSET addr_of machina_lr machina_sc machina_amo decode_xthead).

(** The translation context of a block. *)
Definition block_dis (cfg : RiscvCfg) (f : Fetch) (pc : Z) : Dis :=
  old_globals (set_fetch machina_lr machina_sc machina_amo f (dis_new pc cfg)).

(** The guest code reached by a fetch: up to [f_limit] instructions in a row, each one
    described by the reference semantics. *)
Definition guest_code_ok (cfg : RiscvCfg) (f : Fetch) (pc : Z) : Prop :=
  code_ok decode32 decode16 (fetch_at f pc 2) (fetch_at f pc 4) (block_dis cfg f pc)
    (Z.to_nat (Z.max 1 (f_limit f))) pc.

Lemma block_dis_ready cfg f pc : in_range 64 pc -> ready (block_dis cfg f pc).
Proof. intros Hp. by split; [split|..]. Qed.

(** C1: a block built by [gen_code] and optimized runs the guest code.  For a CPU of the
    generic model, a context that is empty or holds the guest globals, and a fetch that
    succeeds on guest code of the described instructions, [gen_code] returns, the
    optimizer returns, and from every state of the guest registers the resulting IR runs
    to an exit; on the way it executes the instructions the decoders find at the physical
    addresses of the page, in order, and it ends as the reference semantics does: at the
    boundary of an instruction, at a jump, in a trap or in a memory fault of the
    instruction recorded last.  Reset, the context is ready for the next block. *)
Theorem gen_code_correct s s' ir pc max_insns f :
  fetch_block s pc max_insns = (s', Some f) -> vendor (profile (cpu s')) = Generic ->
  in_range 64 pc -> globals_only 0 ir \/ globals_only nb_guest ir ->
  guest_code_ok RV64GC f pc ->
  exists ir1 size ir2, gen_code s ir pc max_insns = Some (s', ir1, size) /\ optimize ir1 = Some ir2 /\
  globals_only nb_guest (Context.reset ir2) /\
  forall σ w x, store_ok (Context.temps ir2) σ -> guest (Context.temps ir2) σ x ->
    exists k pc' x' w1 steps j σ' w',
      path mem_load mem_store decode32 decode16 (fetch_at f pc 2) (fetch_at f pc 4)
        (block_dis RV64GC f pc) k pc x w pc' x' w1 /\
      IrSem.run (host_ext mem_load mem_store) (host_call helper_at) chained ir2 steps (Running 0 σ w)
        = Some (Left j σ' w') /\
      block_end mem_load mem_store decode32 decode16 (fetch_at f pc 2) (fetch_at f pc 4)
        (block_dis RV64GC f pc) pc' x' w1 k (Context.temps ir2) (Context.ops ir2) j σ' w'.
Proof.
  intros Hf Hv Hp Hir Hcode. set (d := set_fetch machina_lr machina_sc machina_amo f (dis_new pc RV64GC)).
  assert (Hg : exists ir0, (if decide (Context.nb_globals ir = 0%nat) then new_globals FAULT_PC_OFFSET d ir
    else Some (old_globals d, ir)) = Some (old_globals d, ir0) /\ globals_only nb_guest ir0).
  { destruct Hir as [Hg|Hg]; [rewrite decide_True by apply Hg; by apply new_globals_only|].
    rewrite decide_False by (rewrite (go_nb _ _ Hg); done). by exists ir. }
  destruct Hg as (ir0 & E0 & Hg0).
  destruct (translate_optimize_run mem_load mem_store helper_at chained addr_of MSTATUS_OFFSET decode32
    decode16 decode_xthead (fetch_at f pc 2) (fetch_at f pc 4) (block_dis RV64GC f pc) helpers_linked
    eq_refl ir0 (block_dis_ready _ _ _ Hp) (globals_only_fresh _ Hg0) (globals_only_typed _ _ Hg0) Hcode)
    as (size & ir1 & ir2 & Et & Eo & Hw2 & Hnb & Hpre & Hrun).
  exists ir1, size, ir2. split_and!; [|done|by eapply reset_only|exact Hrun].
  unfold RvGen.gen_code. rewrite Hf. unfold profile_cfg. rewrite Hv. cbv zeta. fold d. rewrite E0.
  cbn [mbind option_bind]. unfold block_dis in Et. fold d in Et. by rewrite Et.
Qed.
End Correct.

(** *** A sample block *)

(** Bytes of little-endian words, from an address on. *)
Definition bytes_at (a : Z) (l : list Z) (x : Z) : Z := nth (Z.to_nat (x - a)) l 0.

(** [addi x5, x0, 7; c.addi x5, 1; mul x6, x5, x5; ecall] at the start of RAM. *)
Definition sample_code : list Z :=
  [0x93; 0x02; 0x70; 0x00; 0x85; 0x02; 0x33; 0x83; 0x52; 0x02; 0x73; 0x00; 0x00; 0x00].

Definition sample_full : FullSystemCpu :=
  mk_Full cpu_new (mk_Phys 0x80000000 0x80010000 (fun x => if x <? 0x80000000 then 0 else bytes_at 0x80000000 sample_code x)
    (None : option unit) ∅ 0 []) 0x10000 None.

Definition sample_fetch : Fetch := mk_Fetch 0x80000000 (ram_region sample_full) 4 0 0.

Definition sample_helpers : list Helper :=
  [H_divs64; H_rems64; H_divw64; H_remw64; H_orc_b; H_brev8; H_xperm4; H_xperm8; H_clmul; H_clmulh;
   H_clmulr; H_sc].

Definition sample_addr (h : Helper) : Z :=
  0x1000 + Z.of_nat (default 0%nat (fst <$> list_find (eq h) sample_helpers)).

Definition sample_helper_at (a : Z) : option (list Z -> option Z) :=
  helper_fn <$> sample_helpers !! Z.to_nat (a - 0x1000).

Lemma sample_linked h :
  in_range 64 (sample_addr h) /\ sample_helper_at (sample_addr h) = Some (helper_fn h).
Proof. destruct h; (split; [split; vm_compute; congruence|reflexivity]). Qed.

Lemma new_only : globals_only 0 Context.new.
Proof. split; [apply Context.wf_new|done..|constructor]. Qed.

Definition sample_dis : Dis := block_dis 0x2000 0x2008 0x2010 RV64GC sample_fetch 0x80000000.

Lemma sample_insns :
  let at_ := insn_at decode32 decode16 (fetch_at sample_fetch 0x80000000 2)
    (fetch_at sample_fetch 0x80000000 4) sample_dis in
  at_ 0x80000000 = (Matched (Rv32i_insn (ADDI (ArgsI.mk 7 0 5))), 4) /\
  at_ 0x80000004 = (Matched (Rv32i_insn (ADDI (ArgsI.mk 1 5 5))), 2) /\
  at_ 0x80000006 = (Matched (Rvm_insn (MUL (ArgsR.mk 6 5 5))), 4) /\
  at_ 0x8000000a = (Matched (Priv_insn ECALL), 4).
Proof. repeat split; vm_compute; reflexivity. Qed.

Lemma sample_code_ok :
  code_ok decode32 decode16 (fetch_at sample_fetch 0x80000000 2) (fetch_at sample_fetch 0x80000000 4)
    sample_dis 4 0x80000000.
Proof.
  destruct sample_insns as (E1 & E2 & E3 & E4). cbn [code_ok].
  rewrite E1. split; [repeat split; vm_compute; congruence|]. intros _. split; [done|]. intros _.
  change (u64 (0x80000000 + 4)) with 0x80000004. rewrite E2.
  split; [repeat split; vm_compute; congruence|]. intros _. split; [done|]. intros _.
  change (u64 (0x80000004 + 2)) with 0x80000006. rewrite E3.
  split; [repeat split; vm_compute; congruence|]. intros _. split; [done|]. intros _.
  change (u64 (0x80000006 + 4)) with 0x8000000a. rewrite E4. split; [done|]. intros _. by split.
Qed.

Lemma sample_guest_code_ok : guest_code_ok 0x2000 0x2008 0x2010 RV64GC sample_fetch 0x80000000.
Proof.
  unfold guest_code_ok. fold sample_dis.
  change (Z.to_nat (Z.max 1 (f_limit sample_fetch))) with 4%nat. exact sample_code_ok.
Qed.

Lemma sample_decodable :
  decodable decode32 decode16 (fetch_at sample_fetch 0x80000000 2) (fetch_at sample_fetch 0x80000000 4)
    sample_dis (Z.to_nat (Z.max 1 (max_insns sample_dis))) (pc_next sample_dis).
Proof.
  change (Z.to_nat (Z.max 1 (max_insns sample_dis))) with 4%nat. change (pc_next sample_dis) with 0x80000000.
  apply code_ok_decodable. exact sample_code_ok.
Qed.

Lemma gen_code_correct_witness :
  exists s' ir1 size ir2,
    gen_code 0 0 sample_addr 0x2000 0x2008 0x2010 (fun _ _ _ => None) sample_full Context.new 0x80000000 4
      = Some (s', ir1, size) /\ optimize ir1 = Some ir2 /\ globals_only nb_guest (Context.reset ir2).
Proof.
  set (s' := (fetch_block sample_full 0x80000000 4).1).
  assert (Hf : fetch_block sample_full 0x80000000 4 = (s', Some sample_fetch)) by reflexivity.
  destruct (gen_code_correct (W := unit) (fun w _ _ => (Some 0, w)) (fun w _ _ _ => (true, w)) sample_helper_at
    (fun _ _ => false) 0 0 sample_addr 0x2000 0x2008 0x2010 (fun _ _ _ => None) sample_linked
    sample_full s' Context.new 0x80000000 4 sample_fetch Hf eq_refl
    ltac:(split; vm_compute; congruence) (or_introl new_only) sample_guest_code_ok)
    as (ir1 & size & ir2 & Hg & Ho & Hr & _).
  exists s', ir1, size, ir2. split; [exact Hg|]. split; [exact Ho|exact Hr].
Defined.

Definition sample_ir : Context.Context :=
  match new_globals 0 sample_dis Context.new with Some (_, c) => c | None => Context.new end.

Lemma sample_ir_only : globals_only nb_guest sample_ir.
Proof.
  destruct (new_globals_only 0 sample_dis Context.new new_only) as (c & E & Hg).
  unfold sample_ir. by rewrite E.
Qed.

Lemma sample_ready : ready sample_dis.
Proof. apply block_dis_ready. split; vm_compute; congruence. Qed.

Lemma translate_block_typed_witness :
  exists size c', translate_block sample_addr 0 decode32 decode16 (fun _ _ _ => None)
    (fetch_at sample_fetch 0x80000000 2) (fetch_at sample_fetch 0x80000000 4) sample_dis sample_ir
      = Some (size, c') /\ Context.wf c' /\ well_typed c' = true.
Proof.
  exact (translate_block_typed sample_addr 0 decode32 decode16 (fun _ _ _ => None)
    (fetch_at sample_fetch 0x80000000 2) (fetch_at sample_fetch 0x80000000 4) sample_dis eq_refl sample_ir
    sample_ready (globals_only_fresh _ sample_ir_only) (globals_only_typed _ _ sample_ir_only)
    sample_decodable).
Defined.

(** ** Instructions at a page boundary *)

(** A user program in the page at 0x5000, frame 7: [c.j .] at 0x5ffa, [c.nop] at 0x5ffc and
    the first half of an [addi x5, x0] at 0x5ffe.  The second half of frame 9, where the
    page at 0x6000 is mapped if it is, makes the immediate 7; the bytes after frame 7
    would make it 9. *)
Definition boundary_words (mapped : bool) : gmap Z Z :=
  {[ 0x1000 := 2 * 2 ^ 10 + 1; 0x2000 := 3 * 2 ^ 10 + 1; 0x3028 := 7 * 2 ^ 10 + 0x1B;
     0x3030 := if mapped then 9 * 2 ^ 10 + 0x1B else 0;
     0x7ff8 := 0x02930001a0010000; 0x8000 := 0x0090; 0x9000 := 0x0070 ]}.

Definition boundary_ram (mapped : bool) (x : Z) : Z :=
  shr (default 0 (boundary_words mapped !! (x / 8 * 8))) (8 * (x mod 8)).

Definition boundary_cpu (mapped : bool) : FullSystemCpu :=
  mk_Full sample_hart (mk_Phys 0 (2 ^ 56) (boundary_ram mapped) (None : option unit) ∅ 0 []) (2 ^ 56) None.

(** The word the translator reads at [p] in a block from [pc]. *)
Definition fetched (s : FullSystemCpu (B := unit)) (pc max_insns p : Z) : option Z :=
  (fun f => fetch_at f pc 4 p) <$> (fetch_block s pc max_insns).2.

