(* ===== verification/Memory.v ===== *)
(** * Guest physical memory

    Models [memory/src/]: the tree of memory regions ([region.rs]), its flattening into
    sorted disjoint ranges ([flat_view.rs]) and the address space that dispatches sized
    accesses to RAM, ROM and devices ([address_space.rs]).

    A RAM block is a number that names its bytes, a device a number that names its
    callbacks; the devices are a parameter.  Additions of addresses wrap at 64 bits. *)

From Stdlib Require Import ZArith Lia Bool String Sorted.
From stdpp Require Import base tactics numbers list sorting.
From S2P Require Import Prelude.

Local Open Scope Z_scope.

(** ** Regions *)

Inductive RegionType :=
| Ram (block : nat)
| Rom (block : nat)
| Io (ops : nat)
| Alias (target : MemoryRegion) (offset : Z)
| Container
with MemoryRegion :=
| mk_MemoryRegion (name : string) (size : Z) (region_type : RegionType) (priority : Z)
    (subregions : list (MemoryRegion * Z)) (enabled : bool).

Definition r_name (r : MemoryRegion) : string := let '(mk_MemoryRegion n _ _ _ _ _) := r in n.
Definition r_size (r : MemoryRegion) : Z := let '(mk_MemoryRegion _ s _ _ _ _) := r in s.
Definition r_priority (r : MemoryRegion) : Z := let '(mk_MemoryRegion _ _ _ p _ _) := r in p.
Definition r_subregions (r : MemoryRegion) : list (MemoryRegion * Z) :=
  let '(mk_MemoryRegion _ _ _ _ l _) := r in l.

Definition container (nm : string) (size : Z) : MemoryRegion :=
  mk_MemoryRegion nm size Container 0 [] true.
Definition ram (nm : string) (size : Z) (block : nat) : MemoryRegion :=
  mk_MemoryRegion nm size (Ram block) 0 [] true.
Definition rom (nm : string) (size : Z) (block : nat) : MemoryRegion :=
  mk_MemoryRegion nm size (Rom block) 0 [] true.
Definition io (nm : string) (size : Z) (ops : nat) : MemoryRegion :=
  mk_MemoryRegion nm size (Io ops) 0 [] true.
Definition alias (nm : string) (target : MemoryRegion) (offset size : Z) : MemoryRegion :=
  mk_MemoryRegion nm size (Alias target offset) 0 [] true.

Definition add_subregion (r child : MemoryRegion) (offset : Z) : MemoryRegion :=
  let '(mk_MemoryRegion n s t p l e) := r in mk_MemoryRegion n s t p (l ++ [(child, offset)]) e.

Definition with_priority (p : Z) (r : MemoryRegion) : MemoryRegion :=
  let '(mk_MemoryRegion n s t _ l e) := r in mk_MemoryRegion n s t p l e.

Definition add_subregion_with_priority (r child : MemoryRegion) (offset p : Z) : MemoryRegion :=
  add_subregion r (with_priority p child) offset.

(** The first child at the offset with the name, and the children without it. *)
Fixpoint take_child (offset : Z) (nm : string) (l : list (MemoryRegion * Z))
    : option (MemoryRegion * list (MemoryRegion * Z)) :=
  match l with
  | [] => None
  | (r, o) :: l =>
      if (o =? offset) && String.eqb (r_name r) nm then Some (r, l)
      else '(x, l') ← take_child offset nm l; Some (x, (r, o) :: l')
  end.

Definition remove_subregion (r : MemoryRegion) (offset : Z) (nm : string)
    : option (MemoryRegion * MemoryRegion) :=
  let '(mk_MemoryRegion n s t p l e) := r in
  '(x, l') ← take_child offset nm l; Some (x, mk_MemoryRegion n s t p l' e).

(** ** Flattening *)

Inductive FlatRangeKind := KRam (block : nat) | KRom (block : nat) | KIo (ops : nat).

Global Instance FlatRangeKind_eq_dec : EqDecision FlatRangeKind.
Proof. solve_decision. Defined.

Record FlatRange := mk_FlatRange {
  addr : Z;
  size : Z;
  kind : FlatRangeKind;
  offset_in_region : Z
}.

Definition end_ (r : FlatRange) : Z := u64 (addr r + size r).

Record RawRange := mk_RawRange { raw_priority : Z; raw : FlatRange }.

(** [collect_alias]: the window [alias_off, alias_off + alias_size) of a target, seen at
    [base]. *)
Fixpoint collect_alias (target : MemoryRegion) (base alias_off alias_size prio : Z) : list RawRange :=
  let '(mk_MemoryRegion _ _ ty _ subs enabled) := target in
  if negb enabled then []
  else match ty with
       | Ram b => [mk_RawRange prio (mk_FlatRange base alias_size (KRam b) alias_off)]
       | Rom b => [mk_RawRange prio (mk_FlatRange base alias_size (KRom b) alias_off)]
       | Io o => [mk_RawRange prio (mk_FlatRange base alias_size (KIo o) alias_off)]
       | Alias inner inner_off => collect_alias inner base (u64 (alias_off + inner_off)) alias_size prio
       | Container =>
           (fix children (l : list (MemoryRegion * Z)) : list RawRange :=
              match l with
              | [] => []
              | (r, sub_start) :: l =>
                  let sub_end := u64 (sub_start + r_size r) in
                  let win_end := u64 (alias_off + alias_size) in
                  (if (sub_end <=? alias_off) || (win_end <=? sub_start) then []
                   else
                     let clip_start := Z.max sub_start alias_off in
                     let clip_end := Z.min sub_end win_end in
                     collect_alias r (u64 (base + (clip_start - alias_off))) (clip_start - sub_start)
                       (u64 (clip_end - clip_start)) prio)
                  ++ children l
              end) subs
       end.

Fixpoint collect (region : MemoryRegion) (base inherited_prio : Z) : list RawRange :=
  let '(mk_MemoryRegion _ size ty p subs enabled) := region in
  if negb enabled then []
  else
    let prio := Z.max p inherited_prio in
    (match ty with
     | Ram b => [mk_RawRange prio (mk_FlatRange base size (KRam b) 0)]
     | Rom b => [mk_RawRange prio (mk_FlatRange base size (KRom b) 0)]
     | Io o => [mk_RawRange prio (mk_FlatRange base size (KIo o) 0)]
     | Alias target off => collect_alias target base off size prio
     | Container => []
     end)
    ++ (fix children (l : list (MemoryRegion * Z)) : list RawRange :=
          match l with
          | [] => []
          | (r, off) :: l => collect r (u64 (base + off)) prio ++ children l
          end) subs.

(** A stable sort, as [sort_by] and [sort_by_key]: [le x y] holds when [x] may stay
    before [y]. *)
Section Sort.
Context {A : Type} (le : A -> A -> bool).

Fixpoint sort_insert (x : A) (l : list A) : list A :=
  match l with
  | [] => [x]
  | y :: l => if le x y then x :: y :: l else y :: sort_insert x l
  end.

Definition stable_sort (l : list A) : list A := foldr sort_insert [] l.
End Sort.

(** Higher priority first, ties by address. *)
Definition raw_before (a b : RawRange) : bool :=
  (raw_priority b <? raw_priority a)
  || ((raw_priority a =? raw_priority b) && (addr (raw a) <=? addr (raw b))).

Definition fragment (r : FlatRange) (from to : Z) : FlatRange :=
  mk_FlatRange from (to - from) (kind r) (u64 (offset_in_region r + (from - addr r))).

(** The loop over the overlapping ranges, sorted by start: the fragments pushed and the
    position reached. *)
Fixpoint gaps (r : FlatRange) (cur stop : Z) (overlaps : list (Z * Z)) : list FlatRange * Z :=
  match overlaps with
  | [] => ([], cur)
  | (oa, ob) :: rest =>
      let frag := if cur <? oa then [fragment r cur (Z.min oa stop)] else [] in
      let cur := Z.max cur ob in
      if stop <=? cur then (frag, cur)
      else let '(fs, cur) := gaps r cur stop rest in (frag ++ fs, cur)
  end.

Definition insert_range (resolved : list FlatRange) (r : FlatRange) : list FlatRange :=
  let stop := end_ r in
  let overlaps := stable_sort (fun a b => a.1 <=? b.1)
    ((fun x => (addr x, end_ x)) <$> filter (fun x => addr x < stop /\ addr r < end_ x) resolved) in
  let '(fs, cur) := gaps r (addr r) stop overlaps in
  resolved ++ fs ++ (if cur <? stop then [fragment r cur stop] else []).

Definition from_raw (l : list RawRange) : list FlatRange :=
  stable_sort (fun a b => addr a <=? addr b)
    (fold_left insert_range (raw <$> stable_sort raw_before l) []).

Definition from_region (root : MemoryRegion) : list FlatRange := from_raw (collect root 0 0).

(** [partition_point]: the number of leading ranges that start at or before [a]. *)
Fixpoint partition_point (a : Z) (l : list FlatRange) : nat :=
  match l with
  | [] => O
  | r :: l => if addr r <=? a then S (partition_point a l) else O
  end.

Definition lookup (view : list FlatRange) (a : Z) : option FlatRange :=
  match partition_point a view with
  | O => None
  | S k => r ← view !! k; if a <? end_ r then Some r else None
  end.

(** ** What a list of ranges maps *)

Definition valid (r : FlatRange) : Prop := 0 <= addr r /\ 0 <= size r /\ addr r + size r < 2 ^ 64.
Definition covers (a : Z) (r : FlatRange) : bool := (addr r <=? a) && (a <? addr r + size r).

(** The byte of a leaf region behind an address of a range. *)
Definition place (a : Z) (r : FlatRange) : FlatRangeKind * Z :=
  (kind r, u64 (offset_in_region r + (a - addr r))).

Definition mapped (l : list FlatRange) (a : Z) : option (FlatRangeKind * Z) := place a <$> find (covers a) l.

Definition apart (r s : FlatRange) : Prop := addr r + size r <= addr s \/ addr s + size s <= addr r.
Definition tidy (r : FlatRange) : Prop := valid r /\ 0 < size r.

Lemma covers_spec a r : covers a r = true <-> addr r <= a < addr r + size r.
Proof. unfold covers. rewrite andb_true_iff, Z.leb_le, Z.ltb_lt. lia. Qed.

Lemma end_valid r : valid r -> end_ r = addr r + size r.
Proof. intros (H0 & H1 & H2). unfold end_. apply wrap_small. unfold in_range. lia. Qed.

Lemma place_fragment a r from to : place a (fragment r from to) = place a r.
Proof.
  unfold place, fragment. cbn. f_equal. unfold wrap. rewrite Zplus_mod_idemp_l. f_equal. lia.
Qed.

Lemma mapped_app l1 l2 a :
  mapped (l1 ++ l2) a = match mapped l1 a with Some x => Some x | None => mapped l2 a end.
Proof.
  unfold mapped. induction l1 as [|r l1 IH]; [done|]. cbn. by destruct (covers a r).
Qed.

Lemma mapped_none l a : mapped l a = None <-> Forall (fun r => covers a r = false) l.
Proof.
  unfold mapped. induction l as [|r l IH]; [done|]. rewrite Forall_cons. cbn.
  destruct (covers a r); [|naive_solver]. split; [done|by intros [? _]].
Qed.

(** ** Sorting *)

Section SortFacts.
Context {A : Type} (le : A -> A -> bool).
Hypothesis le_total : forall x y, le x y = true \/ le y x = true.
Hypothesis le_trans : forall x y z, le x y = true -> le y z = true -> le x z = true.

Lemma sort_insert_perm x l : sort_insert le x l ≡ₚ x :: l.
Proof. induction l as [|y l IH]; [done|]. cbn. case_match; [done|]. rewrite IH. apply Permutation_swap. Qed.

Lemma stable_sort_perm l : stable_sort le l ≡ₚ l.
Proof. induction l as [|x l IH]; [done|]. cbn. by rewrite sort_insert_perm, IH. Qed.

Lemma sort_insert_sorted x l :
  StronglySorted (fun a b => le a b = true) l -> StronglySorted (fun a b => le a b = true) (sort_insert le x l).
Proof using le_total le_trans.
  induction 1 as [|y l Hs IH Hy]; cbn; [by repeat constructor|].
  destruct (le x y) eqn:E.
  - constructor; [by constructor|]. constructor; [done|].
    eapply Forall_impl; [exact Hy|]. intros z Hz. by eapply le_trans.
  - constructor; [done|]. rewrite Forall_forall in *. intros z Hz.
    rewrite sort_insert_perm in Hz. apply elem_of_cons in Hz as [->|Hz]; [|by apply Hy].
    destruct (le_total x y); congruence.
Qed.

Lemma stable_sort_sorted l : StronglySorted (fun a b => le a b = true) (stable_sort le l).
Proof using le_total le_trans. induction l as [|x l IH]; [constructor|]. by apply sort_insert_sorted. Qed.
End SortFacts.

Lemma sorted_impl {A} (R S : A -> A -> Prop) l :
  (forall x y, R x y -> S x y) -> StronglySorted R l -> StronglySorted S l.
Proof.
  intros H. induction 1 as [|x l _ IH Hf]; constructor; [done|]. eapply Forall_impl; [exact Hf|]. auto.
Qed.

(** ** Inserting a range *)

(** The fragments of a range that the intervals [ov], sorted by start, leave free. *)
Definition free_parts (r : FlatRange) (cur stop : Z) (ov : list (Z * Z)) : list FlatRange :=
  let '(fs, cur) := gaps r cur stop ov in
  fs ++ (if cur <? stop then [fragment r cur stop] else []).

Lemma free_parts_nil r cur stop :
  free_parts r cur stop [] = if cur <? stop then [fragment r cur stop] else [].
Proof. done. Qed.

Lemma free_parts_cons r cur stop oa ob ov :
  free_parts r cur stop ((oa, ob) :: ov) =
  (if cur <? oa then [fragment r cur (Z.min oa stop)] else [])
  ++ (if stop <=? Z.max cur ob then [] else free_parts r (Z.max cur ob) stop ov).
Proof.
  unfold free_parts. cbn [gaps]. destruct (Z.leb_spec stop (Z.max cur ob)).
  - destruct (Z.ltb_spec (Z.max cur ob) stop); [lia|done].
  - destruct (gaps _ _ _ ov). by rewrite <- app_assoc.
Qed.

Definition in_interval (a : Z) (o : Z * Z) : Prop := o.1 <= a < o.2.

(** Each part is a fragment between [cur] and [stop]; they are in order. *)
Lemma free_parts_shape r cur stop ov :
  Forall (fun o => o.1 <= o.2 /\ o.1 < stop) ov ->
  Forall (fun f => exists s e, f = fragment r s e /\ cur <= s < e /\ e <= stop) (free_parts r cur stop ov)
  /\ StronglySorted (fun f g => addr f + size f <= addr g) (free_parts r cur stop ov).
Proof.
  intros Hov. revert cur. induction Hov as [|[oa ob] ov Ho _ IH]; intros cur.
  - rewrite free_parts_nil. destruct (Z.ltb_spec cur stop); [|repeat constructor].
    split; repeat constructor. exists cur, stop. split; [done|lia].
  - rewrite free_parts_cons. cbn in Ho. destruct (IH (Z.max cur ob)) as [H1 H2].
    assert (H1' : Forall (fun f => exists s e, f = fragment r s e /\ Z.max cur ob <= s < e /\ e <= stop)
      (if stop <=? Z.max cur ob then [] else free_parts r (Z.max cur ob) stop ov)) by by case_match.
    assert (H2' : StronglySorted (fun f g => addr f + size f <= addr g)
      (if stop <=? Z.max cur ob then [] else free_parts r (Z.max cur ob) stop ov))
      by (case_match; [constructor|done]).
    clear H1 H2 IH. revert H1' H2'. generalize (if stop <=? Z.max cur ob then [] else free_parts r (Z.max cur ob) stop ov).
    intros fs H1 H2. destruct (Z.ltb_spec cur oa) as [Hlt|]; cbn [app].
    + split; constructor; try done.
      * exists cur, (Z.min oa stop). split; [done|lia].
      * eapply Forall_impl; [exact H1|]. cbn. intros f (s & e & -> & Hse). exists s, e. split; [done|lia].
      * eapply Forall_impl; [exact H1|]. cbn. intros f (s & e & -> & Hse). cbn. lia.
    + split; [|done]. eapply Forall_impl; [exact H1|]. cbn. intros f (s & e & -> & Hse).
      exists s, e. split; [done|lia].
Qed.

(** They hold exactly the points no interval has. *)
Lemma free_parts_covers r cur stop ov a :
  Forall (fun o => o.1 <= o.2 /\ o.1 < stop) ov -> StronglySorted (fun x y => x.1 <= y.1) ov ->
  cur <= a < stop ->
  Exists (fun f => addr f <= a < addr f + size f) (free_parts r cur stop ov)
  <-> Forall (fun o => ~ in_interval a o) ov.
Proof.
  intros Hov Hs. revert cur Hov. induction Hs as [|[oa ob] ov Hs IH Hfst]; intros cur Hov Ha.
  - rewrite free_parts_nil. destruct (Z.ltb_spec cur stop); [|lia].
    split; [constructor|]. intros _. apply Exists_cons_hd. cbn. lia.
  - apply Forall_cons in Hov as [[Ho Hos] Hov]. cbn in Ho, Hos. rewrite free_parts_cons, Exists_app, Forall_cons.
    assert (Hfrag : Exists (fun f => addr f <= a < addr f + size f)
      (if cur <? oa then [fragment r cur (Z.min oa stop)] else []) <-> a < oa).
    { destruct (Z.ltb_spec cur oa); [|split; [by intros ?%Exists_nil|lia]].
      rewrite Exists_cons, Exists_nil. cbn. lia. }
    assert (Hlow : a < oa -> Forall (fun o => ~ in_interval a o) ov).
    { intros Hlt. eapply Forall_impl; [exact Hfst|]. intros [? ?]. unfold in_interval. cbn. lia. }
    rewrite Hfrag. unfold in_interval at 1. cbn [fst snd].
    destruct (Z.leb_spec stop (Z.max cur ob)) as [Hle|Hgt].
    + rewrite Exists_nil. split; [intros [?|[]]; split; [lia|by apply Hlow]|]. intros [Hn _]. left. lia.
    + destruct (Z.lt_ge_cases a (Z.max cur ob)) as [Hlt|Hge].
      * split; [intros [?|Hex]; [split; [lia|by apply Hlow]|]|intros [Hn _]; left; lia].
        exfalso. apply Exists_exists in Hex as (f & Hf & Hc).
        destruct (free_parts_shape r (Z.max cur ob) stop ov Hov) as [Hsh _]. rewrite Forall_forall in Hsh.
        destruct (Hsh f Hf) as (s & e & -> & ?). cbn in Hc. lia.
      * rewrite IH by (done || lia). split; [intros [?|H]; [lia|split; [lia|done]]|naive_solver].
Qed.

Definition overlaps_of (rs : list FlatRange) (r : FlatRange) : list (Z * Z) :=
  stable_sort (fun a b => a.1 <=? b.1)
    ((fun x => (addr x, end_ x)) <$> filter (fun x => addr x < end_ r /\ addr r < end_ x) rs).

Lemma insert_range_eq rs r :
  insert_range rs r = rs ++ free_parts r (addr r) (end_ r) (overlaps_of rs r).
Proof. unfold insert_range, free_parts. fold (overlaps_of rs r). by destruct (gaps _ _ _ _). Qed.

Lemma elem_of_overlaps rs r o :
  o ∈ overlaps_of rs r <-> exists x, x ∈ rs /\ o = (addr x, end_ x) /\ addr x < end_ r /\ addr r < end_ x.
Proof.
  unfold overlaps_of. rewrite stable_sort_perm, list_elem_of_fmap. setoid_rewrite list_elem_of_filter.
  naive_solver.
Qed.

Lemma overlaps_sorted rs r : StronglySorted (fun x y => x.1 <= y.1) (overlaps_of rs r).
Proof.
  unfold overlaps_of. eapply sorted_impl; [|apply stable_sort_sorted; intros; rewrite ?Z.leb_le in *; lia].
  cbn. intros x y. apply Z.leb_le.
Qed.

Lemma overlaps_bounds rs r :
  Forall tidy rs -> Forall (fun o => o.1 <= o.2 /\ o.1 < end_ r) (overlaps_of rs r).
Proof.
  intros Ht. apply Forall_forall. intros o (x & Hx & -> & H1 & H2)%elem_of_overlaps. cbn.
  rewrite Forall_forall in Ht. destruct (Ht x Hx) as [Hv ?]. rewrite end_valid by done. lia.
Qed.

(** A point of [r] is in an overlap exactly when a range has it. *)
Lemma overlaps_cover rs r a :
  Forall tidy rs -> valid r -> covers a r = true ->
  Forall (fun o => ~ in_interval a o) (overlaps_of rs r) <-> mapped rs a = None.
Proof.
  intros Ht Hv Ha%covers_spec. rewrite mapped_none, !Forall_forall. rewrite Forall_forall in Ht. split.
  - intros Hn x Hx. apply not_true_iff_false. intros Hc%covers_spec. destruct (Ht x Hx) as [Hvx ?].
    apply (Hn (addr x, end_ x)); [|split; cbn; rewrite ?end_valid by done; lia].
    apply elem_of_overlaps. exists x. rewrite !end_valid by done. split_and!; try done; lia.
  - intros Hn o (x & Hx & -> & _)%elem_of_overlaps Hi. destruct (Ht x Hx) as [Hvx ?].
    specialize (Hn x Hx). apply not_true_iff_false in Hn. apply Hn, covers_spec.
    unfold in_interval in Hi. cbn in Hi. rewrite end_valid in Hi by done. lia.
Qed.

Lemma mapped_exists l a :
  (exists x, mapped l a = Some x) <-> Exists (fun f => addr f <= a < addr f + size f) l.
Proof.
  destruct (mapped l a) as [x|] eqn:E.
  - split; [intros _|by eauto]. unfold mapped in E. destruct (find (covers a) l) as [f|] eqn:Ef; [|done].
    apply find_some in Ef as [Hin Hc]. apply Exists_exists. exists f.
    split; [by apply list_elem_of_In|by apply covers_spec].
  - split; [by intros [? ?]|]. intros (f & Hf & Hc)%Exists_exists. exfalso.
    rewrite mapped_none, Forall_forall in E. specialize (E f Hf). apply covers_spec in Hc. congruence.
Qed.

Lemma fragments_place r l a x :
  Forall (fun f => exists s e, f = fragment r s e) l -> mapped l a = Some x -> x = place a r.
Proof.
  intros Hl. unfold mapped. destruct (find (covers a) l) as [f|] eqn:Ef; [|done]. intros [= <-].
  apply find_some in Ef as [Hin _]. rewrite Forall_forall in Hl.
  destruct (Hl f ltac:(by apply list_elem_of_In)) as (s & e & ->). apply place_fragment.
Qed.

Lemma pairs_app {A} (R : A -> A -> Prop) l1 l2 :
  ForallOrdPairs R l1 -> ForallOrdPairs R l2 -> (forall x y, x ∈ l1 -> y ∈ l2 -> R x y) ->
  ForallOrdPairs R (l1 ++ l2).
Proof.
  intros H1 H2 Hc. induction H1 as [|x l Hx _ IH]; [done|]. cbn. constructor.
  - apply Forall_app. split; [done|]. apply Forall_forall. intros y Hy. apply Hc; [by left|done].
  - apply IH. intros y z Hy. apply Hc. by right.
Qed.

Section Insert.
Context (rs : list FlatRange) (r : FlatRange).
Hypotheses (Htidy : Forall tidy rs) (Hvalid : valid r).

Local Notation parts := (free_parts r (addr r) (end_ r) (overlaps_of rs r)).

Lemma parts_shape :
  Forall (fun f => exists s e, f = fragment r s e /\ addr r <= s < e /\ e <= addr r + size r) parts
  /\ StronglySorted (fun f g => addr f + size f <= addr g) parts.
Proof using All.
  destruct (free_parts_shape r (addr r) (end_ r) (overlaps_of rs r) (overlaps_bounds _ _ Htidy)) as [H1 H2].
  by rewrite (end_valid r Hvalid) in *.
Qed.

Lemma insert_mapped a :
  mapped (insert_range rs r) a
  = match mapped rs a with
    | Some x => Some x
    | None => if covers a r then Some (place a r) else None
    end.
Proof using All.
  rewrite insert_range_eq, mapped_app. destruct (mapped rs a) as [x|] eqn:Em; [done|].
  destruct parts_shape as [Hsh _].
  destruct (covers a r) eqn:Hc.
  - pose proof Hc as Hc'%covers_spec. pose proof (overlaps_cover rs r a Htidy Hvalid Hc) as [_ Hn].
    specialize (Hn Em).
    rewrite <- (free_parts_covers r (addr r) (end_ r)) in Hn;
      [|by apply overlaps_bounds|apply overlaps_sorted|rewrite end_valid by done; lia].
    apply mapped_exists in Hn as [x Hx]. rewrite Hx. f_equal. eapply fragments_place; [|exact Hx].
    eapply Forall_impl; [exact Hsh|]. naive_solver.
  - destruct (mapped parts a) as [x|] eqn:Ep; [|done]. exfalso.
    assert (Hex : Exists (fun f => addr f <= a < addr f + size f) parts) by (apply mapped_exists; eauto).
    apply Exists_exists in Hex as (f & Hf & Hfa). rewrite Forall_forall in Hsh.
    destruct (Hsh f Hf) as (s & e & -> & Hse). cbn in Hfa. apply not_true_iff_false in Hc.
    apply Hc, covers_spec. lia.
Qed.

Lemma insert_tidy : Forall tidy (insert_range rs r).
Proof using All.
  rewrite insert_range_eq. apply Forall_app. split; [done|]. destruct parts_shape as [Hsh _].
  eapply Forall_impl; [exact Hsh|]. intros f (s & e & -> & Hse). destruct Hvalid as (H0 & H1 & H2).
  unfold tidy, valid. cbn. lia.
Qed.

Lemma insert_apart : ForallOrdPairs apart rs -> ForallOrdPairs apart (insert_range rs r).
Proof using All.
  intros Hp. rewrite insert_range_eq. destruct parts_shape as [Hsh Hso].
  assert (Hcross : forall x f, x ∈ rs -> f ∈ parts -> apart x f).
  { intros x f Hx Hf. rewrite Forall_forall in Hsh. destruct (Hsh f Hf) as (s & e & -> & Hse).
    unfold apart. cbn. destruct (Z.le_gt_cases (addr x + size x) s) as [|H1]; [lia|].
    destruct (Z.le_gt_cases e (addr x)) as [|H2]; [lia|]. exfalso.
    assert (Hc : covers (Z.max s (addr x)) r = true) by (apply covers_spec; lia).
    assert (Hex : Exists (fun f => addr f <= Z.max s (addr x) < addr f + size f) parts)
      by (apply Exists_exists; eexists; split; [exact Hf|cbn; lia]).
    apply free_parts_covers in Hex;
      [|by apply overlaps_bounds|apply overlaps_sorted|rewrite end_valid by done; apply covers_spec in Hc; lia].
    apply overlaps_cover in Hex; [|done..]. rewrite mapped_none, Forall_forall in Hex. specialize (Hex x Hx).
    apply not_true_iff_false in Hex. apply Hex, covers_spec. rewrite Forall_forall in Htidy.
    destruct (Htidy x Hx). lia. }
  assert (Hparts : ForallOrdPairs apart parts).
  { clear -Hso. induction Hso as [|f l _ IH Hf]; constructor; [|done].
    eapply Forall_impl; [exact Hf|]. intros g ?. by left. }
  by apply pairs_app.
Qed.
End Insert.

(** ** The flattened view *)

Lemma apart_sym r s : apart r s -> apart s r.
Proof. unfold apart. lia. Qed.

Lemma apart_perm l l' : l ≡ₚ l' -> ForallOrdPairs apart l -> ForallOrdPairs apart l'.
Proof.
  induction 1 as [|x l l' Hl IH|x y l|l l1 l2 _ IH1 _ IH2]; intros Hp; [done| | |auto].
  - inversion_clear Hp as [|? ? Hx Hp']. constructor; [by rewrite <- Hl|auto].
  - inversion_clear Hp as [|? ? Hx Hp']. inversion_clear Hp' as [|? ? Hy Hp''].
    apply Forall_cons in Hx as [Hxy Hx].
    constructor; [apply Forall_cons; split; [by apply apart_sym|done]|by constructor].
Qed.

Lemma fold_insert rs acc a :
  Forall valid rs -> Forall tidy acc -> ForallOrdPairs apart acc ->
  let out := fold_left insert_range rs acc in
  Forall tidy out /\ ForallOrdPairs apart out /\
  mapped out a = match mapped acc a with Some x => Some x | None => mapped rs a end.
Proof.
  intros Hv. revert acc. induction Hv as [|r rs Hr _ IH]; intros acc Ht Hp; cbn [fold_left].
  - split_and!; [done..|]. by destruct (mapped acc a).
  - destruct (IH (insert_range acc r)) as (H1 & H2 & H3); [by apply insert_tidy|by apply insert_apart|].
    split_and!; [done..|]. rewrite H3, insert_mapped by done. destruct (mapped acc a); [done|].
    unfold mapped at 2. cbn [find]. by destruct (covers a r).
Qed.

Lemma partition_point_last a l k :
  partition_point a l = S k -> exists x, l !! k = Some x /\ addr x <= a.
Proof.
  revert k. induction l as [|r l IH]; intros k; [done|]. cbn [partition_point].
  destruct (Z.leb_spec (addr r) a); [|done]. intros [= Hk].
  destruct k as [|k]; [by exists r|]. by apply IH.
Qed.

(** The binary search finds the range that has the address. *)
Lemma lookup_find l a :
  Forall tidy l -> ForallOrdPairs apart l -> StronglySorted (fun r s => addr r <= addr s) l ->
  lookup l a = find (covers a) l.
Proof.
  intros Ht Hp Hs. unfold lookup. induction Hs as [|r l Hs IH Hr]; [done|].
  apply Forall_cons in Ht as [[Hv Hr0] Ht]. inversion_clear Hp as [|? ? Hpr Hp'].
  specialize (IH Ht Hp'). cbn [partition_point find].
  destruct (Z.leb_spec (addr r) a) as [Hle|Hgt]; cycle 1.
  - assert (Hc : covers a r = false) by (apply not_true_iff_false; intros ?%covers_spec; lia).
    rewrite Hc. destruct (find _ l) as [x|] eqn:Ex; [|done]. exfalso.
    apply find_some in Ex as [Hx%list_elem_of_In Hcx%covers_spec].
    rewrite Forall_forall in Hr. specialize (Hr x Hx). cbn in Hr. lia.
  - destruct (partition_point a l) as [|k] eqn:Ek.
    + cbn. rewrite end_valid by done. unfold covers at 1.
      destruct (Z.leb_spec (addr r) a); [|lia]. cbn [andb]. destruct (a <? addr r + size r); [done|by rewrite <- IH].
    + destruct (partition_point_last a l k Ek) as (x & Ex & Hxa).
      assert (Hx : x ∈ l) by by eapply list_elem_of_lookup_2.
      rewrite Forall_forall in Hpr, Hr, Ht. specialize (Hpr x Hx). specialize (Hr x Hx). destruct (Ht x Hx).
      rewrite <- IH. cbn. destruct (covers a r) eqn:Hc; [|done]. exfalso. apply covers_spec in Hc.
      unfold apart in Hpr. lia.
Qed.

Lemma find_apart l a x :
  ForallOrdPairs apart l -> x ∈ l -> covers a x = true -> find (covers a) l = Some x.
Proof.
  induction 1 as [|y l Hy _ IH]; intros Hx Hc; [by apply elem_of_nil in Hx|].
  apply elem_of_cons in Hx as [<-|Hx]; cbn; [by rewrite Hc|].
  destruct (covers a y) eqn:Ey; [|by apply IH]. exfalso.
  rewrite Forall_forall in Hy. specialize (Hy x Hx). apply covers_spec in Hc, Ey. unfold apart in Hy. lia.
Qed.

Lemma find_perm l l' a :
  l ≡ₚ l' -> ForallOrdPairs apart l -> find (covers a) l = find (covers a) l'.
Proof.
  intros Hl Hp. pose proof (apart_perm _ _ Hl Hp) as Hp'. destruct (find (covers a) l) as [x|] eqn:E.
  - apply find_some in E as [Hx%list_elem_of_In Hc]. symmetry. apply find_apart; [done|by rewrite <- Hl|done].
  - destruct (find (covers a) l') as [y|] eqn:E'; [|done].
    apply find_some in E' as [Hy%list_elem_of_In Hc]. rewrite <- E. apply find_apart; [done|by rewrite Hl|done].
Qed.

(** The range of the highest priority that has the address, the first in address order of
    those. *)
Definition winner (l : list RawRange) (a : Z) : option FlatRange :=
  find (covers a) (raw <$> stable_sort raw_before l).

Lemma from_raw_ok l :
  Forall (fun r => valid (raw r)) l ->
  Forall tidy (from_raw l) /\ ForallOrdPairs apart (from_raw l) /\
  StronglySorted (fun r s => addr r <= addr s) (from_raw l) /\
  forall a, place a <$> lookup (from_raw l) a = place a <$> winner l a.
Proof.
  intros Hv. unfold from_raw, winner.
  assert (Hvs : Forall valid (raw <$> stable_sort raw_before l)).
  { apply Forall_fmap. rewrite (stable_sort_perm raw_before l). exact Hv. }
  revert Hvs. generalize (raw <$> stable_sort raw_before l). intros rs Hvs.
  pose proof (fun a => fold_insert rs [] a Hvs (Forall_nil_2 _) (FOP_nil _)) as Hf.
  revert Hf. cbv zeta. generalize (fold_left insert_range rs []). intros out Hf.
  destruct (Hf 0) as (Ht & Hp & _).
  set (sorted := stable_sort (fun a b => addr a <=? addr b) out).
  assert (Hperm : sorted ≡ₚ out) by apply stable_sort_perm.
  assert (Hs : StronglySorted (fun r s => addr r <= addr s) sorted).
  { eapply sorted_impl; [|apply stable_sort_sorted; intros; rewrite ?Z.leb_le in *; lia].
    cbn. intros x y. apply Z.leb_le. }
  assert (Ht' : Forall tidy sorted) by by rewrite Hperm.
  assert (Hp' : ForallOrdPairs apart sorted) by by eapply apart_perm.
  split_and!; [done..|]. intros a. rewrite lookup_find by done.
  destruct (Hf a) as (_ & _ & Hm). change (mapped [] a) with (@None (FlatRangeKind * Z)) in Hm.
  cbn iota in Hm. unfold mapped in Hm. rewrite <- Hm. by rewrite (find_perm sorted out).
Qed.

Lemma find_sorted {A} (R : A -> A -> Prop) (p : A -> bool) l x :
  StronglySorted R l -> find p l = Some x ->
  x ∈ l /\ p x = true /\ forall y, y ∈ l -> p y = true -> y = x \/ R x y.
Proof.
  induction 1 as [|z l Hs IH Hz]; [done|]. cbn. destruct (p z) eqn:E.
  - intros [= <-]. split_and!; [by left|done|]. intros y [->|Hy]%elem_of_cons _; [by left|].
    rewrite Forall_forall in Hz. right. by apply Hz.
  - intros Hf. destruct (IH Hf) as (H1 & H2 & H3). split_and!; [by right|done|].
    intros y [->|Hy]%elem_of_cons Hp; [congruence|auto].
Qed.

Lemma find_fmap {A B} (f : A -> B) (p : B -> bool) l : find p (f <$> l) = f <$> find (fun x => p (f x)) l.
Proof. induction l as [|x l IH]; [done|]. cbn. by destruct (p (f x)). Qed.

Definition beats (r s : RawRange) : Prop :=
  raw_priority s < raw_priority r \/ (raw_priority r = raw_priority s /\ addr (raw r) <= addr (raw s)).

Lemma raw_before_spec r s : raw_before r s = true <-> beats r s.
Proof.
  unfold raw_before, beats. rewrite orb_true_iff, andb_true_iff, Z.ltb_lt, Z.eqb_eq, Z.leb_le. done.
Qed.

Lemma raw_sorted l : StronglySorted beats (stable_sort raw_before l).
Proof.
  eapply sorted_impl; [intros x y; apply raw_before_spec|].
  apply stable_sort_sorted; intros; rewrite ?raw_before_spec in *; unfold beats in *; lia.
Qed.

(** The winner has the address and no range that has it has a higher priority. *)
Lemma winner_spec l a :
  match winner l a with
  | Some f => exists r, f = raw r /\ r ∈ l /\ covers a f = true
      /\ forall s, s ∈ l -> covers a (raw s) = true -> s = r \/ beats r s
  | None => forall s, s ∈ l -> covers a (raw s) = false
  end.
Proof.
  unfold winner. rewrite find_fmap. destruct (find _ _) as [r|] eqn:E; cbn [fmap option_fmap option_map].
  - destruct (find_sorted _ _ _ _ (raw_sorted l) E) as (H1 & H2 & H3). exists r.
    setoid_rewrite stable_sort_perm in H3. rewrite stable_sort_perm in H1. done.
  - intros s Hs. apply (find_none _ _ E). apply list_elem_of_In. by rewrite stable_sort_perm.
Qed.

(** ** Well-formed trees *)

Section RegionInd.
Context (P : MemoryRegion -> Prop).
Context (Pt : RegionType -> Prop).
Hypothesis Halias : forall t off, P t -> Pt (Alias t off).
Hypothesis Hleaf : forall ty, (forall t off, ty <> Alias t off) -> Pt ty.
Hypothesis Hregion : forall n s ty p subs e,
  Pt ty -> Forall (fun c => P c.1) subs -> P (mk_MemoryRegion n s ty p subs e).

Fixpoint region_induct (r : MemoryRegion) : P r :=
  let '(mk_MemoryRegion n s ty p subs e) := r in
  Hregion n s ty p subs e
    (match ty as ty return Pt ty with
     | Alias t off => Halias t off (region_induct t)
     | Ram b => Hleaf (Ram b) (fun _ _ H => ltac:(discriminate))
     | Rom b => Hleaf (Rom b) (fun _ _ H => ltac:(discriminate))
     | Io o => Hleaf (Io o) (fun _ _ H => ltac:(discriminate))
     | Container => Hleaf Container (fun _ _ H => ltac:(discriminate))
     end)
    ((fix children (l : list (MemoryRegion * Z)) : Forall (fun c => P c.1) l :=
        match l with
        | [] => Forall_nil_2 _
        | c :: l => Forall_cons_2 _ _ _ (region_induct c.1) (children l)
        end) subs).
End RegionInd.

(** Each child lies inside its parent, each alias window inside its target, and each leaf
    inside its block, of which [bsz] gives the size. *)
Fixpoint wf_region (bsz : nat -> Z) (r : MemoryRegion) : bool :=
  let '(mk_MemoryRegion _ size ty _ subs _) := r in
  (0 <=? size) && (size <? 2 ^ 64)
  && match ty with
     | Ram b | Rom b => size <=? bsz b
     | Io _ | Container => true
     | Alias t off => (0 <=? off) && (off + size <=? r_size t) && wf_region bsz t
     end
  && forallb (fun '(c, off) => (0 <=? off) && (off + r_size c <=? size) && wf_region bsz c) subs.

Definition limit (bsz : nat -> Z) (k : FlatRangeKind) : Z :=
  match k with KRam b | KRom b => bsz b | KIo _ => 2 ^ 64 end.

(** The bytes of a range are bytes of its block. *)
Definition backed (bsz : nat -> Z) (r : FlatRange) : Prop :=
  0 <= offset_in_region r /\ offset_in_region r + size r <= limit bsz (kind r).

Definition in_window (base sz : Z) (r : RawRange) : Prop :=
  base <= addr (raw r) /\ 0 <= size (raw r) /\ addr (raw r) + size (raw r) <= base + sz.

Definition flat_children (f : MemoryRegion -> Z -> list RawRange) (l : list (MemoryRegion * Z)) : list RawRange :=
  flat_map (fun '(r, off) => f r off) l.

Lemma flat_children_Forall (Q : RawRange -> Prop) f l :
  Forall (fun c => Forall Q (f c.1 c.2)) l -> Forall Q (flat_children f l).
Proof.
  induction 1 as [|[c off] l Hc _ IH]; [constructor|]. cbn. apply Forall_app. split; [exact Hc|exact IH].
Qed.

Lemma collect_alias_eq n s ty p subs e base off sz prio :
  collect_alias (mk_MemoryRegion n s ty p subs e) base off sz prio =
  if negb e then []
  else match ty with
       | Ram b => [mk_RawRange prio (mk_FlatRange base sz (KRam b) off)]
       | Rom b => [mk_RawRange prio (mk_FlatRange base sz (KRom b) off)]
       | Io o => [mk_RawRange prio (mk_FlatRange base sz (KIo o) off)]
       | Alias inner inner_off => collect_alias inner base (u64 (off + inner_off)) sz prio
       | Container =>
           flat_children (fun r sub_start =>
             let sub_end := u64 (sub_start + r_size r) in
             let win_end := u64 (off + sz) in
             if (sub_end <=? off) || (win_end <=? sub_start) then []
             else
               let clip_start := Z.max sub_start off in
               let clip_end := Z.min sub_end win_end in
               collect_alias r (u64 (base + (clip_start - off))) (clip_start - sub_start)
                 (u64 (clip_end - clip_start)) prio) subs
       end.
Proof.
  destruct e; [|done]. destruct ty; try done. cbn [collect_alias negb].
  unfold flat_children. induction subs as [|[c o] l IH]; [done|]. cbn [flat_map]. by rewrite <- IH.
Qed.

Lemma collect_eq n s ty p subs e base inh :
  collect (mk_MemoryRegion n s ty p subs e) base inh =
  if negb e then []
  else
    let prio := Z.max p inh in
    (match ty with
     | Ram b => [mk_RawRange prio (mk_FlatRange base s (KRam b) 0)]
     | Rom b => [mk_RawRange prio (mk_FlatRange base s (KRom b) 0)]
     | Io o => [mk_RawRange prio (mk_FlatRange base s (KIo o) 0)]
     | Alias target off => collect_alias target base off s prio
     | Container => []
     end) ++ flat_children (fun r off => collect r (u64 (base + off)) prio) subs.
Proof.
  destruct e; [|done]. cbn [collect negb]. cbv zeta. f_equal.
  unfold flat_children. induction subs as [|[c o] l IH]; [done|]. cbn [flat_map]. by rewrite <- IH.
Qed.

Definition placed (bsz : nat -> Z) (base sz : Z) (r : RawRange) : Prop :=
  in_window base sz r /\ backed bsz (raw r).

Lemma placed_mono bsz base sz base' sz' r :
  placed bsz base sz r -> base' <= base -> base + sz <= base' + sz' -> placed bsz base' sz' r.
Proof. unfold placed, in_window. intros [? ?]. split; [lia|done]. Qed.

Lemma wf_region_eq bsz n s ty p subs e :
  wf_region bsz (mk_MemoryRegion n s ty p subs e) = true <->
  0 <= s < 2 ^ 64 /\
  match ty with
  | Ram b | Rom b => s <= bsz b
  | Io _ | Container => True
  | Alias t off => 0 <= off /\ off + s <= r_size t /\ wf_region bsz t = true
  end /\
  Forall (fun c => 0 <= c.2 /\ c.2 + r_size c.1 <= s /\ wf_region bsz c.1 = true) subs.
Proof.
  cbn [wf_region]. rewrite !andb_true_iff, Z.leb_le, Z.ltb_lt, forallb_forall, Forall_forall.
  assert (Hc : (forall x : MemoryRegion * Z, In x subs ->
      (let '(c, off) := x in (0 <=? off) && (off + r_size c <=? s) && wf_region bsz c) = true) <->
    (forall x : MemoryRegion * Z, x ∈ subs -> 0 <= x.2 /\ x.2 + r_size x.1 <= s /\ wf_region bsz x.1 = true)).
  { setoid_rewrite list_elem_of_In. split; intros H [c off] Hx; specialize (H _ Hx); cbn in *;
      rewrite !andb_true_iff, !Z.leb_le in *; naive_solver. }
  rewrite Hc. destruct ty; rewrite ?andb_true_iff, ?Z.leb_le; naive_solver.
Qed.

Lemma wf_size bsz r : wf_region bsz r = true -> 0 <= r_size r < 2 ^ 64.
Proof. destruct r. rewrite wf_region_eq. cbn. tauto. Qed.

Section Collect.
Context (bsz : nat -> Z).

Lemma collect_alias_placed r base off sz prio :
  wf_region bsz r = true -> 0 <= off -> 0 <= sz -> off + sz <= r_size r ->
  0 <= base -> base + sz < 2 ^ 64 ->
  Forall (placed bsz base sz) (collect_alias r base off sz prio).
Proof using Type.
  revert base off sz. induction r as [t0 o0 IHt|ty Hno|n s ty p subs e Hty Hsubs] using region_induct with
    (Pt := fun ty => forall t o, ty = Alias t o -> forall base off sz, wf_region bsz t = true -> 0 <= off ->
       0 <= sz -> off + sz <= r_size t -> 0 <= base -> base + sz < 2 ^ 64 ->
       Forall (placed bsz base sz) (collect_alias t base off sz prio)).
  1: by intros ? ? [= <- <-].
  1: by intros t o ->; destruct (Hno t o).
  intros base off sz Hwf H0 H1 H2 H3 H4. rewrite collect_alias_eq.
  apply wf_region_eq in Hwf as (Hs & Ht & Hc). cbn in H2.
  destruct e; cbn [negb]; [|constructor].
  destruct ty as [b|b|o|t o|].
  1-3: constructor; [|constructor]; unfold placed, in_window, backed; cbn; lia.
  - destruct Ht as (Ho & Hts & Hwt). pose proof (wf_size _ _ Hwt).
    rewrite wrap_small by (unfold in_range; lia). apply (Hty t o eq_refl); (done || lia).
  - apply flat_children_Forall. rewrite Forall_forall in *. intros [c o] Hin.
    destruct (Hc _ Hin) as (Ho & Hle & Hwc). cbn [fst snd] in *. specialize (Hsubs _ Hin). cbn in Hsubs.
    pose proof (wf_size _ _ Hwc). cbv zeta. rewrite !(wrap_small 64 (o + _)), !(wrap_small 64 (off + _)) by (unfold in_range; lia).
    case_match eqn:E; [constructor|]. rewrite orb_false_iff, !Z.leb_gt in E.
    rewrite !wrap_small by (unfold in_range; lia).
    eapply Forall_impl; [apply Hsubs; (done || lia)|]. intros x Hx. eapply placed_mono; [exact Hx|lia..].
Qed.

Lemma collect_placed r base inh :
  wf_region bsz r = true -> 0 <= base -> base + r_size r < 2 ^ 64 ->
  Forall (placed bsz base (r_size r)) (collect r base inh).
Proof using Type.
  revert base inh. induction r as [| |n s ty p subs e _ Hsubs] using region_induct with (Pt := fun _ => True); [done..|].
  intros base inh Hwf H0 H1. cbn [r_size] in *. rewrite collect_eq.
  apply wf_region_eq in Hwf as (Hs & Ht & Hc). destruct e; cbn [negb]; [|constructor].
  cbv zeta. apply Forall_app. split.
  - destruct ty as [b|b|o|t o|]; [| | | |constructor].
    1-3: constructor; [|constructor]; unfold placed, in_window, backed; cbn; lia.
    destruct Ht as (? & ? & ?). apply collect_alias_placed; (done || lia).
  - apply flat_children_Forall. rewrite Forall_forall in *. intros [c o] Hin.
    destruct (Hc _ Hin) as (Ho & Hle & Hwc). cbn [fst snd] in *. specialize (Hsubs _ Hin). cbn in Hsubs.
    pose proof (wf_size _ _ Hwc). rewrite wrap_small by (unfold in_range; lia).
    eapply Forall_impl; [apply Hsubs; (done || lia)|]. intros x Hx. eapply placed_mono; [exact Hx|lia..].
Qed.
End Collect.

Section Backed.
Context (bsz : nat -> Z) (Hb : forall b, bsz b <= 2 ^ 64).

Lemma insert_backed rs r :
  Forall tidy rs -> valid r -> Forall (backed bsz) rs -> backed bsz r -> Forall (backed bsz) (insert_range rs r).
Proof using Hb.
  intros Ht Hv Hrs [Hr0 Hr1]. rewrite insert_range_eq. apply Forall_app. split; [done|].
  destruct (parts_shape rs r Ht Hv) as [Hsh _]. eapply Forall_impl; [exact Hsh|].
  intros f (s & e & -> & Hse). destruct Hv as (? & ? & ?). unfold backed, fragment. cbn [offset_in_region size kind].
  assert (limit bsz (kind r) <= 2 ^ 64) by (destruct (kind r); cbn; [apply Hb..|done]).
  rewrite wrap_small by (unfold in_range; lia). lia.
Qed.

Lemma fold_backed rs acc :
  Forall valid rs -> Forall (backed bsz) rs -> Forall tidy acc -> Forall (backed bsz) acc ->
  Forall (backed bsz) (fold_left insert_range rs acc).
Proof using Hb.
  intros Hv. revert acc. induction Hv as [|r rs Hr _ IH]; intros acc Hbs Ht Ha; cbn; [done|].
  apply Forall_cons in Hbs as [? ?]. apply IH; [done|by apply insert_tidy|by apply insert_backed].
Qed.

Definition view_ok (view : list FlatRange) : Prop :=
  Forall tidy view /\ ForallOrdPairs apart view /\ StronglySorted (fun r s => addr r <= addr s) view
  /\ Forall (backed bsz) view.

Lemma from_region_ok root :
  wf_region bsz root = true ->
  view_ok (from_region root) /\
  forall a, place a <$> lookup (from_region root) a = place a <$> winner (collect root 0 0) a.
Proof using Hb.
  intros Hwf. pose proof (wf_size _ _ Hwf).
  assert (Hp : Forall (placed bsz 0 (r_size root)) (collect root 0 0)) by (apply collect_placed; (done || lia)).
  assert (Hv : Forall (fun r => valid (raw r)) (collect root 0 0)).
  { eapply Forall_impl; [exact Hp|]. unfold placed, in_window, valid. intros x [? _]. lia. }
  assert (Hk : Forall (fun r => backed bsz (raw r)) (collect root 0 0)) by (eapply Forall_impl; [exact Hp|]; by intros x [_ ?]).
  destruct (from_raw_ok _ Hv) as (H1 & H2 & H3 & H4). split; [split_and!; [done..|]|done].
  unfold from_region, from_raw. rewrite (stable_sort_perm (fun a b => addr a <=? addr b)).
  apply fold_backed; [| |constructor..]; apply Forall_fmap; by rewrite (stable_sort_perm raw_before).
Qed.
End Backed.


(** A machine with RAM, a ROM over its start and a window that shows a part of the RAM. *)
Definition sample_tree : MemoryRegion :=
  add_subregion
    (add_subregion_with_priority
       (add_subregion (container "system" (2 ^ 64 - 1)) (ram "ram" 0x1000 0) 0x8000)
       (rom "boot" 0x100 1) 0x8080 1)
    (alias "window" (ram "ram" 0x1000 0) 0x800 0x400) 0x100.
Definition sample_sizes (b : nat) : Z := match b with O => 0x1000 | _ => 0x100 end.

