(* ===== verification/AddressSpace.v ===== *)
(** * The address space

    Models [memory/src/address_space.rs] and [ram.rs]: sized accesses at a guest physical
    address are sent to the RAM or ROM block or to the device that the flat view of
    [Memory] names.  The blocks are shared bytes outside the tree, as the [Arc]s of the
    code; the devices are a parameter, the class [Devices] with the two callbacks of the
    [MmioOps] trait.  The two [unsafe] copies have no value when they leave the block:
    [None].  The address space is an instance of the bus the helpers of [RvMem] use. *)

From Stdlib Require Import ZArith Lia Bool String Sorted.
From stdpp Require Import base tactics numbers list.
From S2P Require Import Prelude RvCsr RvMem RvMemProof Memory.

Local Open Scope Z_scope.

Class Devices (D : Type) := {
  dev_read : nat -> D -> Z -> Z -> Z * D;
  dev_write : nat -> D -> Z -> Z -> Z -> D;
  dev_read_range o d off n : is_u64 (dev_read o d off n).1
}.

Record RamBlock := mk_RamBlock { bytes : Z -> Z; block_size : Z }.

Section AddressSpace.
Context {D : Type} `{Devices D}.

Record AddressSpace := mk_AddressSpace {
  root : MemoryRegion;
  flat_view : list FlatRange;
  blocks : nat -> RamBlock;
  devices : D
}.

Definition with_devices (d : D) (s : AddressSpace) : AddressSpace :=
  mk_AddressSpace (root s) (flat_view s) (blocks s) d.

Definition with_block (b : nat) (m : Z -> Z) (s : AddressSpace) : AddressSpace :=
  mk_AddressSpace (root s) (flat_view s)
    (fun b' => if Nat.eqb b' b then mk_RamBlock m (block_size (blocks s b)) else blocks s b') (devices s).

Definition new (r : MemoryRegion) (bs : nat -> RamBlock) (d : D) : AddressSpace :=
  mk_AddressSpace r (from_region r) bs d.

Definition update_flat_view (s : AddressSpace) : AddressSpace :=
  mk_AddressSpace (root s) (from_region (root s)) (blocks s) (devices s).

Definition as_remove_subregion (s : AddressSpace) (offset : Z) (nm : string)
    : option MemoryRegion * AddressSpace :=
  match remove_subregion (root s) offset nm with
  | Some (x, r) => (Some x, update_flat_view (mk_AddressSpace r (flat_view s) (blocks s) (devices s)))
  | None => (None, s)
  end.

(** The copies move [n] bytes between a block and an array of eight. *)
Definition in_bounds (s : AddressSpace) (b : nat) (off n : Z) : bool :=
  (n <=? 8) && (off + n <=? block_size (blocks s b)).

Definition read (s : AddressSpace) (a n : Z) : option (Z * AddressSpace) :=
  match lookup (flat_view s) a with
  | None => Some (0, s)
  | Some fr =>
      let region_off := u64 (offset_in_region fr + (a - addr fr)) in
      match kind fr with
      | KRam b | KRom b =>
          if in_bounds s b region_off n
          then Some (load_le (bytes (blocks s b)) region_off (Z.to_nat n), s)
          else None
      | KIo o =>
          let '(v, d) := dev_read o (devices s) region_off n in Some (v, with_devices d s)
      end
  end.

Definition write (s : AddressSpace) (a n v : Z) : option AddressSpace :=
  match lookup (flat_view s) a with
  | None => Some s
  | Some fr =>
      let region_off := u64 (offset_in_region fr + (a - addr fr)) in
      match kind fr with
      | KRam b =>
          if in_bounds s b region_off n
          then Some (with_block b (store_le (bytes (blocks s b)) region_off (Z.to_nat n) v) s)
          else None
      | KRom b => Some s
      | KIo o => Some (with_devices (dev_write o (devices s) region_off n v) s)
      end
  end.

Definition is_mapped (s : AddressSpace) (a n : Z) : bool :=
  match lookup (flat_view s) a with
  | None => false
  | Some fr => (a + n <? 2 ^ 64) && (a + n <=? u64 (addr fr + size fr))
  end.

Definition read_u32 (s : AddressSpace) (a : Z) : option (Z * AddressSpace) :=
  '(v, s) ← read s a 4; Some (u32 v, s).

Definition write_u32 (s : AddressSpace) (a v : Z) : option AddressSpace := write s a 4 v.

(** ** The invariant *)

Definition sizes (s : AddressSpace) (b : nat) : Z := block_size (blocks s b).

(** The cached view is that of the tree, and the tree is well formed over the blocks. *)
Definition space_ok (s : AddressSpace) : Prop :=
  flat_view s = from_region (root s) /\ wf_region (sizes s) (root s) = true /\
  forall b, sizes s b <= 2 ^ 64.

Definition loc (s : AddressSpace) (a : Z) : option (FlatRangeKind * Z) := place a <$> lookup (flat_view s) a.

Lemma take_child_spec off nm l x l' :
  take_child off nm l = Some (x, l') -> forall c, c ∈ l' -> c ∈ l.
Proof.
  revert x l'. induction l as [|[r o] l IH]; intros x l'; [done|]. cbn. case_match.
  - intros [= <- <-] c Hc. by right.
  - destruct (take_child off nm l) as [[y k]|]; [|done]. intros [= <- <-] c.
    rewrite !elem_of_cons. intros [->|Hc]; [by left|]. right. by eapply IH.
Qed.

Lemma remove_wf bsz r off nm x r' :
  wf_region bsz r = true -> remove_subregion r off nm = Some (x, r') -> wf_region bsz r' = true.
Proof.
  destruct r as [n s ty p subs e]. intros Hwf. cbn. destruct (take_child off nm subs) as [[y l']|] eqn:E; [|done].
  intros [= <- <-]. rewrite wf_region_eq in *. destruct Hwf as (H1 & H2 & H3). split; [done|]. split; [done|].
  rewrite Forall_forall in *. intros c Hc. apply H3. by eapply take_child_spec.
Qed.

Lemma sizes_with_block b m s b' : sizes (with_block b m s) b' = sizes s b'.
Proof. unfold sizes, with_block. cbn. destruct (Nat.eqb_spec b' b) as [->|]; done. Qed.

Lemma wf_region_ext f g r : (forall b, f b = g b) -> wf_region f r = wf_region g r.
Proof.
  intros Hfg. induction r as [t o IH|ty Hno|n s ty p subs e Hty Hsubs] using region_induct with
    (Pt := fun ty => forall t o, ty = Alias t o -> wf_region f t = wf_region g t).
  - by intros ? ? [= <- <-].
  - intros t o ->. by destruct (Hno t o).
  - cbn [wf_region]. f_equal; [f_equal; destruct ty; rewrite ?Hfg; try done; by rewrite (Hty _ _ eq_refl)|].
    induction Hsubs as [|[c o] l Hc _ IH]; [done|]. cbn in *. by rewrite Hc, IH.
Qed.

Lemma space_new_ok r bs d :
  wf_region (fun b => block_size (bs b)) r = true -> (forall b, block_size (bs b) <= 2 ^ 64) -> space_ok (new r bs d).
Proof. done. Qed.

Lemma with_block_ok b m s : space_ok s -> space_ok (with_block b m s).
Proof.
  intros (H1 & H2 & H3). split_and!; [done| |intros; by rewrite sizes_with_block].
  rewrite <- H2. apply wf_region_ext. intros. apply sizes_with_block.
Qed.

Lemma read_ok s a n v s' : space_ok s -> read s a n = Some (v, s') -> space_ok s'.
Proof.
  intros Hs. unfold read. destruct (lookup _ a) as [fr|]; [|by intros [= <- <-]].
  destruct (kind fr) as [b|b|o]; [case_match; [by intros [= <- <-]|done]..|].
  destruct (dev_read _ _ _ _). by intros [= <- <-].
Qed.

Lemma write_ok s a n v s' : space_ok s -> write s a n v = Some s' -> space_ok s'.
Proof.
  intros Hs. unfold write. destruct (lookup _ a) as [fr|]; [|by intros [= <-]].
  destruct (kind fr) as [b|b|o]; [|by intros [= <-]..].
  case_match; [|done]. intros [= <-]. by apply with_block_ok.
Qed.

Lemma remove_ok s off nm : space_ok s -> space_ok (as_remove_subregion s off nm).2.
Proof.
  intros (H1 & H2 & H3). unfold as_remove_subregion. destruct (remove_subregion _ _ _) as [[x r]|] eqn:E; [|done].
  split_and!; [done| |done]. by eapply remove_wf in E.
Qed.

(** ** Accesses *)

(** An access that [is_mapped] accepts stays in its range, so in its block. *)
Lemma mapped_bounds s a n :
  space_ok s -> 0 < n <= 8 -> is_mapped s a n = true ->
  exists fr, lookup (flat_view s) a = Some fr /\ addr fr <= a /\ a + n <= addr fr + size fr /\
    place a fr = (kind fr, offset_in_region fr + (a - addr fr)) /\
    0 <= offset_in_region fr + (a - addr fr) /\
    offset_in_region fr + (a - addr fr) + n <= limit (sizes s) (kind fr).
Proof.
  intros (Hv & Hwf & Hb) Hn. unfold is_mapped. destruct (lookup _ a) as [fr|] eqn:E; [|done].
  rewrite andb_true_iff, Z.ltb_lt, Z.leb_le. intros [H1 H2].
  destruct (from_region_ok (sizes s) Hb (root s) Hwf) as [(Ht & Hp & Hs & Hk) _]. rewrite <- Hv in *.
  rewrite lookup_find in E by done. apply find_some in E as [Hin%list_elem_of_In Hc%covers_spec].
  rewrite Forall_forall in Ht, Hk. destruct (Ht fr Hin) as [Hval Hpos]. destruct (Hk fr Hin) as [Hk0 Hk1].
  rewrite wrap_small in H2 by (destruct Hval as (? & ? & ?); unfold in_range; lia).
  exists fr. split; [done|].
  assert (limit (sizes s) (kind fr) <= 2 ^ 64) by (destruct (kind fr); cbn; [apply Hb..|done]).
  split_and!; try lia. unfold place. by rewrite wrap_small by (unfold in_range; lia).
Qed.

Lemma mapped_in_bounds s a n b :
  space_ok s -> 0 < n <= 8 -> is_mapped s a n = true ->
  forall fr, lookup (flat_view s) a = Some fr -> kind fr = KRam b \/ kind fr = KRom b ->
  in_bounds s b (u64 (offset_in_region fr + (a - addr fr))) n = true.
Proof.
  intros Hs Hn Hm fr Hl Hk. destruct (mapped_bounds s a n Hs Hn Hm) as (fr' & Hl' & _ & _ & Hp & _ & Hlim).
  rewrite Hl in Hl'. injection Hl' as <-. unfold place in Hp. injection Hp as Hp. rewrite Hp.
  unfold in_bounds. rewrite andb_true_iff, !Z.leb_le. fold (sizes s b).
  destruct Hk as [Hk|Hk]; rewrite Hk in Hlim; cbn in Hlim; lia.
Qed.

(** What an access at a place does, for the accesses [is_mapped] accepts. *)
Lemma read_loc s a n :
  space_ok s -> 0 < n <= 8 -> is_mapped s a n = true ->
  read s a n =
  match loc s a with
  | Some (KRam b, off) | Some (KRom b, off) => Some (load_le (bytes (blocks s b)) off (Z.to_nat n), s)
  | Some (KIo o, off) => let '(v, d) := dev_read o (devices s) off n in Some (v, with_devices d s)
  | None => None
  end.
Proof.
  intros Hs Hn Hm. pose proof (mapped_in_bounds s a n) as Hib. unfold read, loc, is_mapped in *.
  destruct (lookup _ a) as [fr|] eqn:E; [|done]. cbn. unfold place.
  destruct (kind fr) as [b|b|o] eqn:Ek; [..|done]; by rewrite (Hib b Hs Hn Hm fr eq_refl) by auto.
Qed.

Lemma write_loc s a n v :
  space_ok s -> 0 < n <= 8 -> is_mapped s a n = true ->
  write s a n v =
  match loc s a with
  | Some (KRam b, off) => Some (with_block b (store_le (bytes (blocks s b)) off (Z.to_nat n) v) s)
  | Some (KRom _, _) => Some s
  | Some (KIo o, off) => Some (with_devices (dev_write o (devices s) off n v) s)
  | None => None
  end.
Proof.
  intros Hs Hn Hm. pose proof (mapped_in_bounds s a n) as Hib. unfold write, loc, is_mapped in *.
  destruct (lookup _ a) as [fr|] eqn:E; [|done]. cbn. unfold place.
  destruct (kind fr) as [b|b|o] eqn:Ek; [|done..]; by rewrite (Hib b Hs Hn Hm fr eq_refl) by auto.
Qed.

Lemma mapped_loc s a n : is_mapped s a n = true -> exists k off, loc s a = Some (k, off).
Proof. unfold is_mapped, loc. destruct (lookup _ a) as [fr|]; [|done]. intros _. unfold place. cbn. eauto. Qed.

(** A place whose [m] bytes are not among the [n] bytes at [off] of block [b]. *)
Definition elsewhere (b : nat) (off n : Z) (l : option (FlatRangeKind * Z)) (m : Z) : Prop :=
  match l with
  | Some (KRam b', off') | Some (KRom b', off') => b' <> b \/ off' + m <= off \/ off + n <= off'
  | _ => True
  end.

Lemma read_elsewhere s b off n v a m :
  space_ok s -> 0 < n -> 0 < m <= 8 -> is_mapped s a m = true -> elsewhere b off n (loc s a) m ->
  fst <$> read (with_block b (store_le (bytes (blocks s b)) off (Z.to_nat n) v) s) a m = fst <$> read s a m.
Proof.
  intros Hs Hn Hm Hma He. rewrite !read_loc by (done || by apply with_block_ok).
  change (loc (with_block _ _ s) a) with (loc s a). destruct (mapped_loc s a m Hma) as (k & o & El).
  rewrite El in *. cbn in He. destruct k as [b'|b'|d]; cbn.
  1,2: destruct (Nat.eqb_spec b' b) as [->|]; [|done]; cbn; f_equal; apply load_store_disjoint;
       rewrite !Z2Nat.id by lia; naive_solver.
  by destruct (dev_read _ _ _ _).
Qed.

Lemma read_written s a n v b off :
  space_ok s -> 0 < n <= 8 -> is_mapped s a n = true -> loc s a = Some (KRam b, off) ->
  let s' := with_block b (store_le (bytes (blocks s b)) off (Z.to_nat n) v) s in
  read s' a n = Some (v mod 2 ^ (8 * n), s').
Proof.
  intros Hs Hn Hm El s'. rewrite read_loc by (done || by apply with_block_ok).
  change (loc s' a) with (loc s a). rewrite El. cbn. rewrite Nat.eqb_refl. cbn.
  rewrite load_store_same, Z2Nat.id by lia. done.
Qed.

Lemma load_le_u64 r a n : n <= 8 -> is_u64 (load_le r a (Z.to_nat n)).
Proof.
  intros Hn. pose proof (load_le_range r a (Z.to_nat n)).
  assert (2 ^ (8 * Z.of_nat (Z.to_nat n)) <= 2 ^ 64) by (apply Z.pow_le_mono_r; lia). unfold in_range. lia.
Qed.

Lemma read_range s a n v s' : read s a n = Some (v, s') -> is_u64 v.
Proof.
  unfold read. destruct (lookup _ a) as [fr|]; [|intros [= <- <-]; unfold in_range; lia].
  destruct (kind fr) as [b|b|o].
  1,2: unfold in_bounds; destruct (Z.leb_spec n 8); cbn [andb]; [|done]; case_match; [|done];
       intros [= <- <-]; by apply load_le_u64.
  pose proof (dev_read_range o (devices s) (u64 (offset_in_region fr + (a - addr fr))) n).
  destruct (dev_read _ _ _ _). by intros [= <- <-].
Qed.

(** C21: in an address space over a well-formed tree, an access that [is_mapped] accepts
    never leaves its block, so both unsafe copies are in bounds; the tree, the view and the
    invariant survive it.  A write to RAM is read back at the same address and leaves every
    access alone whose bytes are elsewhere, also through an alias; a write to ROM changes
    nothing; a write to a device changes no byte. *)
Theorem mapped_access s a n v :
  space_ok s -> 0 < n <= 8 -> is_mapped s a n = true ->
  (exists x s1, read s a n = Some (x, s1) /\ is_u64 x /\ space_ok s1) /\
  exists s2, write s a n v = Some s2 /\ space_ok s2 /\ flat_view s2 = flat_view s /\
    match loc s a with
    | Some (KRam b, off) =>
        read s2 a n = Some (v mod 2 ^ (8 * n), s2) /\
        forall a' m, 0 < m <= 8 -> is_mapped s a' m = true -> elsewhere b off n (loc s a') m ->
          fst <$> read s2 a' m = fst <$> read s a' m
    | Some (KRom _, _) => s2 = s
    | Some (KIo _, _) => blocks s2 = blocks s
    | None => False
    end.
Proof.
  intros Hs Hn Hm. pose proof (read_loc s a n Hs Hn Hm) as Hr. pose proof (write_loc s a n v Hs Hn Hm) as Hw.
  destruct (mapped_loc s a n Hm) as (k & off & El). split.
  - assert (Hx : exists x s1, read s a n = Some (x, s1)).
    { rewrite El in Hr. destruct k as [b|b|o]; [eauto..|]. destruct (dev_read _ _ _ _). eauto. }
    destruct Hx as (x & s1 & Hx). exists x, s1. split_and!; [done|by eapply read_range|by eapply read_ok].
  - rewrite El in Hw |- *. pose proof (fun s2 => write_ok s a n v s2 Hs) as Hok. destruct k as [b|b|o].
    all: eexists; split; [exact Hw|]; split; [by apply Hok|]; split; [done|]; try done.
    split; [by apply read_written|]. intros a' m Hm' Hma He. apply read_elsewhere; (done || lia).
Qed.
End AddressSpace.
Arguments AddressSpace : clear implicits.

Local Instance no_device : Devices unit := {|
  dev_read _ d _ _ := (0, d);
  dev_write _ d _ _ _ := d;
  dev_read_range _ _ _ _ := conj (Z.le_refl 0) eq_refl
|}.

Definition sample_space : AddressSpace unit :=
  new sample_tree (fun b => mk_RamBlock (fun x => u8 x) (sample_sizes b)) tt.

Lemma mapped_access_witness :
  is_mapped sample_space 0x8800 8 = true /\ is_mapped sample_space 0x80fc 8 = true /\
  exists s2, write sample_space 0x8800 8 0x1122334455667788 = Some s2 /\ space_ok s2 /\
    read s2 0x8800 8 = Some (0x1122334455667788, s2) /\
    fst <$> read s2 0x104 4 = Some 0x11223344.
Proof.
  assert (Hok : space_ok sample_space).
  { apply space_new_ok; [vm_compute; reflexivity|intros [|b]; cbn; lia]. }
  split; [vm_compute; reflexivity|]. split; [vm_compute; reflexivity|].
  destruct (mapped_access sample_space 0x8800 8 0x1122334455667788 Hok ltac:(lia) ltac:(vm_compute; reflexivity))
    as (_ & s2 & Hw & Hok2 & _ & Hm).
  exists s2. split; [exact Hw|]. split; [exact Hok2|]. split.
  - exact (proj1 Hm).
  - injection Hw as <-. vm_compute. reflexivity.
Defined.

(** ** The bus of the helpers *)

Lemma bus_read_u64 {D} `{Devices D} (s : AddressSpace D) a n :
  is_u64 (match read s a n with Some x => x | None => (0, s) end).1.
Proof.
  destruct (read s a n) as [[v s']|] eqn:E; [by eapply read_range|]. cbn. unfold in_range. lia.
Qed.

(** The helpers ask [bus_mapped] before an access, so that it is defined; the page-table
    walk and the timer read do not, and an access of theirs that leaves its block reads
    zero here. *)
Global Instance address_space_bus {D} `{Devices D} : Bus (AddressSpace D) := {
  bus_read s a n := match read s a n with Some x => x | None => (0, s) end;
  bus_write s a n v := default s (write s a n v);
  bus_mapped := is_mapped;
  bus_read_range := bus_read_u64
}.
