(* ===== verification/Plic.v ===== *)
(** * The platform-level interrupt controller

    Models [hw/intc/src/plic.rs]: the priority, pending and claimed bits of the sources,
    the enable bits, threshold and last claim of each context, the registers behind which
    they are, and the output line of each context.  A line is its level once connected.
    The operations are the whole handlers; the locks make each of them one step. *)

From Stdlib Require Import ZArith Lia Bool.
From stdpp Require Import base tactics numbers list.
From S2P Require Import Prelude.

Local Open Scope Z_scope.

Definition PRIORITY_BASE : Z := 0x000000.
Definition PENDING_BASE : Z := 0x001000.
Definition ENABLE_BASE : Z := 0x002000.
Definition ENABLE_STRIDE : Z := 0x80.
Definition CONTEXT_BASE : Z := 0x200000.
Definition CONTEXT_STRIDE : Z := 0x1000.

Record Plic := mk_Plic {
  num_sources : Z;
  num_contexts : Z;
  priority : list Z;
  pending : list Z;
  claimed : list Z;
  source_level : list Z;
  enable : list (list Z);
  threshold : list Z;
  claim : list Z;
  context_outputs : list (option bool)
}.

Definition with_sources (pr pe cl sl : list Z) (p : Plic) : Plic :=
  mk_Plic (num_sources p) (num_contexts p) pr pe cl sl (enable p) (threshold p) (claim p) (context_outputs p).
Definition with_contexts (en : list (list Z)) (th cl : list Z) (p : Plic) : Plic :=
  mk_Plic (num_sources p) (num_contexts p) (priority p) (pending p) (claimed p) (source_level p) en th cl
    (context_outputs p).
Definition with_outputs (o : list (option bool)) (p : Plic) : Plic :=
  mk_Plic (num_sources p) (num_contexts p) (priority p) (pending p) (claimed p) (source_level p)
    (enable p) (threshold p) (claim p) o.

Definition with_priority (l : list Z) (p : Plic) : Plic :=
  with_sources l (pending p) (claimed p) (source_level p) p.
Definition with_pending (l : list Z) (p : Plic) : Plic :=
  with_sources (priority p) l (claimed p) (source_level p) p.
Definition with_claimed (l : list Z) (p : Plic) : Plic :=
  with_sources (priority p) (pending p) l (source_level p) p.
Definition with_source_level (l : list Z) (p : Plic) : Plic :=
  with_sources (priority p) (pending p) (claimed p) l p.

Definition words (n : Z) : nat := Z.to_nat ((n + 31) / 32).

Definition new (ns nc : Z) : Plic :=
  mk_Plic ns nc (replicate (Z.to_nat ns) 0) (replicate (words ns) 0) (replicate (words ns) 0)
    (replicate (Z.to_nat ns) 0) (replicate (Z.to_nat nc) (replicate (words ns) 0))
    (replicate (Z.to_nat nc) 0) (replicate (Z.to_nat nc) 0) (replicate (Z.to_nat nc) None).

(** The line is low when it is connected. *)
Definition connect_context_output (p : Plic) (ctx : Z) : Plic :=
  if ctx <? Z.of_nat (length (context_outputs p))
  then with_outputs (vset (context_outputs p) ctx (Some false)) p else p.

Definition lower_outputs (p : Plic) : Plic :=
  with_outputs ((fun o : option bool => (fun _ => false) <$> o) <$> context_outputs p) p.

Definition reset_runtime (p : Plic) : Plic :=
  lower_outputs
    (with_contexts ((fun ws : list Z => (fun _ => 0) <$> ws) <$> enable p) ((fun _ => 0) <$> threshold p) ((fun _ => 0) <$> claim p)
       (with_sources ((fun _ => 0) <$> priority p) ((fun _ => 0) <$> pending p) ((fun _ => 0) <$> claimed p)
          ((fun _ => 0) <$> source_level p) p)).

Definition bit (irq : Z) : Z := shl 32 1 (irq mod 32).

(** The test both scans make of a source. *)
Definition eligible (p : Plic) (ctx irq : Z) : bool :=
  let word := irq / 32 in
  let pend := vget 0 (pending p) word in
  let clam := vget 0 (claimed p) word in
  has (Z.land pend (bnot 32 clam)) (bit irq)
  && has (vget 0 (vget [] (enable p) ctx) word) (bit irq)
  && (vget 0 (threshold p) ctx <? vget 0 (priority p) irq).

(** [1..num_sources] *)
Definition sources (p : Plic) : list Z := seqZ 1 (num_sources p - 1).

Definition active (p : Plic) (ctx : Z) : bool := existsb (eligible p ctx) (sources p).

Definition update_outputs (p : Plic) : Plic :=
  with_outputs (imap (fun ctx o => (fun _ => active p (Z.of_nat ctx)) <$> o) (context_outputs p)) p.

Definition set_pending (p : Plic) (irq : Z) (level : bool) : Plic :=
  if (irq =? 0) || (num_sources p <=? irq) then p
  else
    let w := vget 0 (pending p) (irq / 32) in
    with_pending (vset (pending p) (irq / 32)
      (if level then Z.lor w (bit irq) else Z.land w (bnot 32 (bit irq)))) p.

Definition set_irq (p : Plic) (source : Z) (level : bool) : Plic :=
  if (source =? 0) || (num_sources p <=? source) then p
  else
    let p := with_source_level (vset (source_level p) source (b2z level)) p in
    if level then update_outputs (set_pending p source true) else p.

(** The scan of [claim_irq]: the best source so far and its priority. *)
Definition consider (p : Plic) (ctx : Z) (best : option Z * Z) (irq : Z) : option Z * Z :=
  let pri := vget 0 (priority p) irq in
  if eligible p ctx irq && (best.2 <? pri) then (Some irq, pri) else best.

Definition claim_irq (p : Plic) (context : Z) : option Z * Plic :=
  if num_contexts p <=? context then (None, p)
  else
    match (fold_left (consider p context) (sources p) (None, 0)).1 with
    | None => (None, p)
    | Some irq =>
        let word := irq / 32 in
        let p1 := with_pending (vset (pending p) word (Z.land (vget 0 (pending p) word) (bnot 32 (bit irq)))) p in
        let p2 := with_claimed (vset (claimed p1) word (Z.lor (vget 0 (claimed p1) word) (bit irq))) p1 in
        (Some irq, with_contexts (enable p2) (threshold p2) (vset (claim p2) context irq) p2)
    end.

Definition complete_irq (p : Plic) (context irq : Z) : Plic :=
  if num_contexts p <=? context then p
  else
    let p1 := if vget 0 (claim p) context =? irq
              then with_contexts (enable p) (threshold p) (vset (claim p) context 0) p else p in
    let p2 := if (irq <? num_sources p) && (0 <? irq)
              then with_claimed (vset (claimed p1) (irq / 32)
                     (Z.land (vget 0 (claimed p1) (irq / 32)) (bnot 32 (bit irq)))) p1
              else p1 in
    update_outputs p2.

Definition read (p : Plic) (offset size : Z) : Z * Plic :=
  if negb (size =? 4) then (0, p)
  else if negb (Z.land offset 3 =? 0) then (0, p)
  else if offset <? PENDING_BASE then
    let idx := (offset - PRIORITY_BASE) / 4 in
    (if idx <? Z.of_nat (length (priority p)) then vget 0 (priority p) idx else 0, p)
  else if offset <? ENABLE_BASE then
    let idx := (offset - PENDING_BASE) / 4 in
    (if idx <? Z.of_nat (length (pending p)) then vget 0 (pending p) idx else 0, p)
  else if offset <? CONTEXT_BASE then
    let rel := offset - ENABLE_BASE in
    let ctx := rel / ENABLE_STRIDE in
    let word := (rel mod ENABLE_STRIDE) / 4 in
    (if (ctx <? num_contexts p) && (word <? Z.of_nat (length (vget [] (enable p) ctx)))
     then vget 0 (vget [] (enable p) ctx) word else 0, p)
  else
    let rel := offset - CONTEXT_BASE in
    let ctx := rel / CONTEXT_STRIDE in
    let reg := rel mod CONTEXT_STRIDE in
    if num_contexts p <=? ctx then (0, p)
    else if reg =? 0 then (vget 0 (threshold p) ctx, p)
    else if reg =? 4 then
      let '(irq, p) := claim_irq p (u32 ctx) in (default 0 irq, update_outputs p)
    else (0, p).

Definition write (p : Plic) (offset size val : Z) : Plic :=
  if negb (size =? 4) then p
  else if negb (Z.land offset 3 =? 0) then p
  else
    let v := u32 val in
    if offset <? PENDING_BASE then
      let idx := (offset - PRIORITY_BASE) / 4 in
      update_outputs (if (0 <? idx) && (idx <? Z.of_nat (length (priority p)))
                      then with_priority (vset (priority p) idx v) p else p)
    else if offset <? ENABLE_BASE then p
    else if offset <? CONTEXT_BASE then
      let rel := offset - ENABLE_BASE in
      let ctx := rel / ENABLE_STRIDE in
      let word := (rel mod ENABLE_STRIDE) / 4 in
      update_outputs
        (if (ctx <? num_contexts p) && (word <? Z.of_nat (length (vget [] (enable p) ctx)))
         then with_contexts (vset (enable p) ctx (vset (vget [] (enable p) ctx) word v)) (threshold p) (claim p) p
         else p)
    else
      let rel := offset - CONTEXT_BASE in
      let ctx := rel / CONTEXT_STRIDE in
      let reg := rel mod CONTEXT_STRIDE in
      if num_contexts p <=? ctx then p
      else if reg =? 0 then
        update_outputs (with_contexts (enable p) (vset (threshold p) ctx v) (claim p) p)
      else if reg =? 4 then complete_irq p (u32 ctx) v
      else p.

(** What happens to the device: the registers, the input lines, a reset. *)
Inductive Event :=
| Read (offset size : Z)
| Write (offset size val : Z)
| SetIrq (source : Z) (level : bool)
| ResetRuntime.

Definition handle (p : Plic) (e : Event) : Plic :=
  match e with
  | Read offset size => (read p offset size).2
  | Write offset size val => write p offset size val
  | SetIrq source level => set_irq p source level
  | ResetRuntime => reset_runtime p
  end.

Definition run (p : Plic) (es : list Event) : Plic := fold_left handle es p.

(** A machine: a new controller and the lines it connects. *)
Definition boot (ns nc : Z) (lines : list Z) : Plic := fold_left connect_context_output lines (new ns nc).

(** ** Well-formed states *)

Record wf (p : Plic) : Prop := {
  wf_ns : 0 <= num_sources p < 2 ^ 32;
  wf_nc : 0 <= num_contexts p < 2 ^ 32;
  wf_priority : length (priority p) = Z.to_nat (num_sources p);
  wf_pending : length (pending p) = words (num_sources p);
  wf_claimed : length (claimed p) = words (num_sources p);
  wf_levels : length (source_level p) = Z.to_nat (num_sources p);
  wf_enable : length (enable p) = Z.to_nat (num_contexts p);
  wf_rows : Forall (fun ws => length ws = words (num_sources p)) (enable p);
  wf_threshold : length (threshold p) = Z.to_nat (num_contexts p);
  wf_thresholds : Forall (fun t => 0 <= t) (threshold p);
  wf_claim : length (claim p) = Z.to_nat (num_contexts p);
  wf_outputs : length (context_outputs p) = Z.to_nat (num_contexts p)
}.

Ltac plic_wf :=
  match goal with H : wf ?p |- wf _ => destruct H; constructor; cbn; rewrite ?length_vset, ?length_fmap, ?length_imap; auto end.

Lemma new_wf ns nc : 0 <= ns < 2 ^ 32 -> 0 <= nc < 2 ^ 32 -> wf (new ns nc).
Proof.
  intros. constructor; cbn; rewrite ?length_replicate; auto; apply Forall_replicate;
    [by rewrite length_replicate|lia].
Qed.

Lemma connect_wf p ctx : wf p -> wf (connect_context_output p ctx).
Proof. intros H. unfold connect_context_output. case_match; [|done]. plic_wf. Qed.

Lemma update_wf p : wf p -> wf (update_outputs p).
Proof. intros H. plic_wf. Qed.

Lemma reset_wf p : wf p -> wf (reset_runtime p).
Proof.
  intros H. plic_wf; apply Forall_fmap; [|apply Forall_true; intros; cbn; lia].
  eapply Forall_impl; [exact wf_rows0|]. cbn. intros. by rewrite length_fmap.
Qed.

Lemma set_pending_wf p irq l : wf p -> wf (set_pending p irq l).
Proof. intros H. unfold set_pending. case_match; [done|]. plic_wf. Qed.

Lemma set_irq_wf p irq l : wf p -> wf (set_irq p irq l).
Proof.
  intros H. unfold set_irq. case_match; [done|]. cbv zeta.
  assert (wf (with_source_level (vset (source_level p) irq (b2z l)) p)) by (plic_wf).
  destruct l; [|done]. by apply update_wf, set_pending_wf.
Qed.

Lemma claim_wf p ctx : wf p -> wf (claim_irq p ctx).2.
Proof.
  intros H. unfold claim_irq. case_match; [done|]. case_match; [|done]. cbn. plic_wf.
Qed.

Lemma complete_wf p ctx irq : wf p -> wf (complete_irq p ctx irq).
Proof.
  intros H. unfold complete_irq. case_match; [done|]. cbv zeta. apply update_wf.
  assert (Hp1 : wf (if vget 0 (claim p) ctx =? irq
              then with_contexts (enable p) (threshold p) (vset (claim p) ctx 0) p else p))
    by (case_match; [plic_wf|done]).
  revert Hp1. generalize (if vget 0 (claim p) ctx =? irq
    then with_contexts (enable p) (threshold p) (vset (claim p) ctx 0) p else p). intros p1 Hp1.
  clear H. case_match; [|done]. plic_wf.
Qed.

Lemma read_wf p off sz : wf p -> wf (read p off sz).2.
Proof.
  intros H. unfold read. repeat case_match; try done. apply update_wf.
  match goal with E : claim_irq p ?c = _ |- _ => pose proof (claim_wf p c H) as Hc; by rewrite E in Hc end.
Qed.

Lemma write_wf p off sz v : wf p -> 0 <= off -> wf (write p off sz v).
Proof.
  intros H Hoff. unfold write. repeat case_match; try done; try apply update_wf; try done.
  - plic_wf.
  - plic_wf. apply Forall_insert; [done|]. rewrite length_vset. unfold vget.
    destruct (enable p !! _) as [ws|] eqn:E; [rewrite Forall_lookup in wf_rows0; by eapply wf_rows0|]. exfalso.
    apply lookup_ge_None_1 in E. rewrite andb_true_iff, !Z.ltb_lt, ?Z.ltb_ge in *.
    assert (0 <= (off - ENABLE_BASE) / ENABLE_STRIDE) by (apply Z.div_pos; unfold ENABLE_STRIDE; lia). lia.
  - plic_wf. apply Forall_insert; [done|]. apply wrap_range. lia.
  - by apply complete_wf.
Qed.

Definition event_ok (e : Event) : Prop :=
  match e with Read off _ | Write off _ _ => 0 <= off | SetIrq src _ => 0 <= src | ResetRuntime => True end.

Lemma handle_wf p e : wf p -> event_ok e -> wf (handle p e).
Proof.
  destruct e; cbn; intros H He; [by apply read_wf|by apply write_wf|by apply set_irq_wf|by apply reset_wf].
Qed.

(** ** The bits of the sources *)

Definition bit_of (l : list Z) (irq : Z) : bool := Z.testbit (vget 0 l (irq / 32)) (irq mod 32).

Lemma bit_pow2 irq : bit irq = 2 ^ (irq mod 32).
Proof.
  unfold bit, shl. rewrite Z.shiftl_1_l. apply wrap_small. pose proof (Z.mod_pos_bound irq 32 ltac:(lia)).
  split; [lia|]. apply Z.pow_lt_mono_r; lia.
Qed.

Lemma eligible_bits p ctx irq :
  eligible p ctx irq =
  bit_of (pending p) irq && negb (bit_of (claimed p) irq) && bit_of (vget [] (enable p) ctx) irq
  && (vget 0 (threshold p) ctx <? vget 0 (priority p) irq).
Proof.
  unfold eligible, bit_of. cbv zeta. pose proof (Z.mod_pos_bound irq 32 ltac:(lia)).
  rewrite !bit_pow2, !has_pow2, Z.land_spec, testbit_bnot by lia.
  destruct (Z.leb_spec 0 (irq mod 32)), (Z.ltb_spec (irq mod 32) 32); try lia. done.
Qed.

Lemma same_bit i j : i / 32 = j / 32 -> i mod 32 = j mod 32 -> i = j.
Proof. intros H1 H2. rewrite (Z.div_mod i 32), (Z.div_mod j 32) by lia. congruence. Qed.

Section Bits.
Context (l : list Z) (irq j : Z).
Hypotheses (Hirq : 0 <= irq) (Hlen : irq / 32 < Z.of_nat (length l)) (Hj : 0 <= j).

Lemma bit_of_put f b :
  Z.testbit (f (vget 0 l (irq / 32))) (j mod 32) = b (Z.testbit (vget 0 l (irq / 32)) (j mod 32)) ->
  bit_of (vset l (irq / 32) (f (vget 0 l (irq / 32)))) j = if j / 32 =? irq / 32 then b (bit_of l j) else bit_of l j.
Proof using All.
  intros Hf. unfold bit_of. 
  assert (0 <= irq / 32 /\ 0 <= j / 32) by (split; apply Z.div_pos; lia). rewrite vget_vset by lia.
  destruct (Z.eqb_spec (j / 32) (irq / 32)) as [E|]; [|done]. by rewrite E.
Qed.

Lemma bit_set : bit_of (vset l (irq / 32) (Z.lor (vget 0 l (irq / 32)) (bit irq))) j = (j =? irq) || bit_of l j.
Proof using All.
  rewrite (bit_of_put (fun w => Z.lor w (bit irq)) (fun b => b || (j mod 32 =? irq mod 32)))
    by (rewrite bit_pow2, Z.lor_spec, testbit_pow2 by (apply Z.mod_pos_bound; lia); done).
  destruct (Z.eqb_spec (j / 32) (irq / 32)), (Z.eqb_spec (j mod 32) (irq mod 32)), (Z.eqb_spec j irq);
    subst; rewrite ?orb_true_r, ?orb_false_r; try done. by destruct (same_bit j irq).
Qed.

Lemma bit_clear :
  bit_of (vset l (irq / 32) (Z.land (vget 0 l (irq / 32)) (bnot 32 (bit irq)))) j = bit_of l j && negb (j =? irq).
Proof using All.
  pose proof (Z.mod_pos_bound irq 32 ltac:(lia)). pose proof (Z.mod_pos_bound j 32 ltac:(lia)).
  rewrite (bit_of_put (fun w => Z.land w (bnot 32 (bit irq))) (fun b => b && negb (j mod 32 =? irq mod 32))).
  2: { rewrite bit_pow2, Z.land_spec, testbit_bnot, testbit_pow2 by lia.
       destruct (Z.leb_spec 0 (j mod 32)), (Z.ltb_spec (j mod 32) 32); try lia. done. }
  destruct (Z.eqb_spec (j / 32) (irq / 32)), (Z.eqb_spec (j mod 32) (irq mod 32)), (Z.eqb_spec j irq);
    subst; rewrite ?andb_true_r, ?andb_false_r; try done. by destruct (same_bit j irq).
Qed.
End Bits.

Lemma word_lt p irq : 0 <= irq < num_sources p -> irq / 32 < Z.of_nat (words (num_sources p)).
Proof.
  intros. unfold words. rewrite Z2Nat.id by (apply Z.div_pos; lia).
  Z.to_euclidean_division_equations. lia.
Qed.

(** ** Claiming *)

Definition prio (p : Plic) (irq : Z) : Z := vget 0 (priority p) irq.

(** [i] is the best of the eligible sources below [n]. *)
Definition best_of (p : Plic) (ctx n i : Z) : Prop :=
  1 <= i < n /\ eligible p ctx i = true /\
  forall j, 1 <= j < n -> eligible p ctx j = true -> prio p j < prio p i \/ (prio p j = prio p i /\ i <= j).

Lemma eligible_prio p ctx i : wf p -> eligible p ctx i = true -> 0 < prio p i.
Proof.
  intros Hw. unfold eligible. rewrite !andb_true_iff, Z.ltb_lt. intros [_ Ht]. unfold prio.
  enough (0 <= vget 0 (threshold p) ctx) by lia. unfold vget.
  destruct (threshold p !! _) as [t|] eqn:E; cbn; [|lia].
  pose proof (wf_thresholds p Hw) as Hf. rewrite Forall_lookup in Hf. by eapply Hf.
Qed.

Lemma scan_best p ctx n :
  wf p -> 0 <= n ->
  match fold_left (consider p ctx) (seqZ 1 n) (None, 0) with
  | (None, q) => q = 0 /\ forall j, 1 <= j < n + 1 -> eligible p ctx j = false
  | (Some i, q) => q = prio p i /\ best_of p ctx (n + 1) i
  end.
Proof.
  intros Hw Hn. pattern n. apply natlike_ind; [|clear n Hn; intros n Hn IH|done].
  { cbn. split; [done|]. intros. lia. }
  rewrite <- Z.add_1_r, seqZ_app, fold_left_app by lia.
  rewrite (seqZ_cons (1 + n)), (seqZ_nil _ (Z.pred 1)) by lia. cbn [fold_left].
  destruct (fold_left _ _ _) as [o q]. unfold consider. cbn [snd]. fold (prio p (1 + n)).
  destruct (eligible p ctx (1 + n)) eqn:E; cbn [andb].
  - pose proof (eligible_prio _ _ _ Hw E). destruct (Z.ltb_spec q (prio p (1 + n))).
    + split; [done|]. split; [lia|]. split; [done|]. intros j Hj Ej.
      destruct (decide (j = 1 + n)) as [->|]; [lia|]. destruct o as [i|].
      * destruct IH as (Hq & _ & _ & Hb). destruct (Hb j ltac:(lia) Ej); lia.
      * destruct IH as [_ Hb]. rewrite Hb in Ej by lia. done.
    + destruct o as [i|]; [|destruct IH; lia]. destruct IH as (Hq & Hi & Ei & Hb).
      split; [done|]. split; [lia|]. split; [done|]. intros j Hj Ej.
      destruct (decide (j = 1 + n)) as [->|]; [lia|]. apply Hb; [lia|done].
  - destruct o as [i|].
    + destruct IH as (Hq & Hi & Ei & Hb). split; [done|]. split; [lia|]. split; [done|]. intros j Hj Ej.
      destruct (decide (j = 1 + n)) as [->|]; [congruence|]. apply Hb; [lia|done].
    + destruct IH as [Hq Hb]. split; [done|]. intros j Hj.
      destruct (decide (j = 1 + n)) as [->|]; [done|]. apply Hb. lia.
Qed.

Lemma claim_cases p ctx :
  wf p ->
  match claim_irq p ctx with
  | (None, p') => p' = p /\ (ctx < num_contexts p -> forall j, 1 <= j < num_sources p -> eligible p ctx j = false)
  | (Some irq, p') => ctx < num_contexts p /\ best_of p ctx (num_sources p) irq /\
      (forall j, 0 <= j -> bit_of (pending p') j = bit_of (pending p) j && negb (j =? irq)) /\
      (forall j, 0 <= j -> bit_of (claimed p') j = (j =? irq) || bit_of (claimed p) j) /\
      priority p' = priority p /\ enable p' = enable p /\ threshold p' = threshold p
  end.
Proof.
  intros Hw. unfold claim_irq. destruct (Z.leb_spec (num_contexts p) ctx); [split; [done|lia]|].
  pose proof (wf_ns _ Hw). unfold sources.
  destruct (Z.le_gt_cases 1 (num_sources p)).
  2: { rewrite seqZ_nil by lia. cbn. split; [done|]. intros. lia. }
  pose proof (scan_best p ctx (num_sources p - 1) Hw ltac:(lia)) as Hs.
  replace (num_sources p - 1 + 1) with (num_sources p) in Hs by lia.
  destruct (fold_left _ _ _) as [[irq|] q]; cbn [fst]; [|naive_solver].
  destruct Hs as [_ Hb]. pose proof Hb as (Hi & _). pose proof (word_lt p irq ltac:(lia)).
  split; [done|]. split; [done|]. cbn. split; [|split; [|done]]; intros j Hj.
  - apply bit_clear; [lia| |done]. rewrite (wf_pending _ Hw). done.
  - apply bit_set; [lia| |done]. rewrite (wf_claimed _ Hw). done.
Qed.

(** C24: a claim gives the source of the highest priority among those that are pending,
    enabled for the context, not claimed and above its threshold, the lowest number
    deciding among equals, and nothing exactly when there is none; it takes that source,
    and no other, out of what any context can claim. *)
Theorem claim_irq_best p ctx :
  wf p ->
  match claim_irq p ctx with
  | (None, p') => p' = p /\ (ctx < num_contexts p -> forall j, 1 <= j < num_sources p -> eligible p ctx j = false)
  | (Some irq, p') => ctx < num_contexts p /\ best_of p ctx (num_sources p) irq /\
      forall c j, 0 <= j -> eligible p' c j = eligible p c j && negb (j =? irq)
  end.
Proof.
  intros Hw. pose proof (claim_cases p ctx Hw) as Hc. destruct (claim_irq p ctx) as [[irq|] p']; [|done].
  destruct Hc as (H1 & H2 & Hp & Hk & E1 & E2 & E3). split; [done|]. split; [done|]. intros c j Hj.
  rewrite !eligible_bits, Hp, Hk, E1, E2, E3 by done.
  destruct (j =? irq); cbn; rewrite ?andb_false_r, ?andb_true_r; done.
Qed.

(** ** The output lines *)

Definition lines_ok (p : Plic) : Prop :=
  forall ctx level, context_outputs p !! ctx = Some (Some level) -> level = active p (Z.of_nat ctx).

Lemma update_lines p : lines_ok (update_outputs p).
Proof.
  intros ctx level. cbn. rewrite list_lookup_imap. destruct (context_outputs p !! ctx) as [[b|]|]; [|done..].
  cbn. by intros [= <-].
Qed.

Lemma active_false p ctx : (forall j, bit_of (pending p) j = false) -> active p ctx = false.
Proof.
  intros H. unfold active. apply not_true_iff_false. rewrite existsb_exists. intros (j & _ & Hj).
  by rewrite eligible_bits, H in Hj.
Qed.

Lemma zeros_bit l j : Forall (fun w => w = 0) l -> bit_of l j = false.
Proof.
  intros H. unfold bit_of, vget. destruct (l !! _) as [w|] eqn:E; cbn; [|apply Z.bits_0].
  rewrite Forall_lookup in H. rewrite (H _ _ E). apply Z.bits_0.
Qed.

Lemma reset_lines p : lines_ok (reset_runtime p).
Proof.
  intros ctx level. rewrite active_false; [|intros j; apply zeros_bit, Forall_fmap; by apply Forall_true].
  cbn. rewrite list_lookup_fmap. destruct (context_outputs p !! ctx) as [[b|]|]; [|done..]. cbn. by intros [= <-].
Qed.

Lemma handle_lines p e : lines_ok p -> lines_ok (handle p e).
Proof.
  intros H. destruct e as [off sz|off sz v|src l|]; cbn.
  - unfold read. repeat case_match; try done; cbn; apply update_lines.
  - unfold write, complete_irq. repeat case_match; try done; apply update_lines.
  - unfold set_irq. repeat case_match; try done. apply update_lines.
  - apply reset_lines.
Qed.

Lemma run_ok p es : wf p -> lines_ok p -> Forall event_ok es -> wf (run p es) /\ lines_ok (run p es).
Proof.
  intros Hw Hl Hes. unfold run. revert p Hw Hl. induction Hes as [|e es He _ IH]; intros p Hw Hl; [done|].
  cbn. apply IH; [by apply handle_wf|by apply handle_lines].
Qed.

Lemma boot_ok ns nc lines : 0 <= ns < 2 ^ 32 -> 0 <= nc < 2 ^ 32 -> wf (boot ns nc lines) /\ lines_ok (boot ns nc lines).
Proof.
  intros Hns Hnc. unfold boot.
  enough (forall p, wf p -> lines_ok p -> Forall (fun w => w = 0) (pending p) ->
    wf (fold_left connect_context_output lines p) /\ lines_ok (fold_left connect_context_output lines p)) as Hgo.
  { apply Hgo; [by apply new_wf| |by apply Forall_replicate].
    intros ctx level. cbn. intros [[=] _]%lookup_replicate_1. }
  induction lines as [|c lines IH]; intros p Hw Hl Hq; [done|]. cbn. apply IH.
  - by apply connect_wf.
  - unfold connect_context_output. case_match; [|done]. intros ctx level. cbn.
    rewrite active_false by (intros; by apply zeros_bit).
    unfold vset. rewrite list_lookup_insert_Some. intros [(_ & [= <-] & _)|[_ E]]; [done|].
    rewrite (Hl _ _ E). apply active_false. intros. by apply zeros_bit.
  - unfold connect_context_output. by case_match.
Qed.

(** C23: whatever register accesses, input changes and resets a booted controller sees, the
    line of each connected context is high exactly when a source is pending, enabled for
    the context, not claimed and above its threshold. *)
Theorem outputs_exact ns nc lines es ctx level :
  0 <= ns < 2 ^ 32 -> 0 <= nc < 2 ^ 32 -> Forall event_ok es ->
  let p := run (boot ns nc lines) es in
  context_outputs p !! ctx = Some (Some level) ->
  (level = true <-> exists irq, 1 <= irq < num_sources p /\ eligible p (Z.of_nat ctx) irq = true).
Proof.
  intros Hns Hnc Hes p Hl. destruct (boot_ok ns nc lines Hns Hnc) as [Hw0 Hl0].
  destruct (run_ok _ es Hw0 Hl0 Hes) as [Hw Hlines]. fold p in Hw, Hlines. rewrite (Hlines _ _ Hl).
  unfold active, sources. rewrite existsb_exists. setoid_rewrite <- list_elem_of_In. setoid_rewrite elem_of_seqZ.
  split; intros (j & Hj & He); exists j; (split; [lia|done]).
Qed.

Definition sample_events : list Event :=
  [Write (PRIORITY_BASE + 4 * 3) 4 5; Write (PRIORITY_BASE + 4 * 40) 4 5; Write ENABLE_BASE 4 8;
   Write (ENABLE_BASE + 4) 4 0x100; SetIrq 40 true; SetIrq 3 true].

Lemma sample_events_ok : Forall event_ok sample_events.
Proof. unfold sample_events. repeat (apply Forall_cons_2; [vm_compute; discriminate|]). apply Forall_nil_2. Qed.

Lemma outputs_exact_witness :
  context_outputs (run (boot 64 2 [0]) sample_events) !! O = Some (Some true) /\
  exists irq, 1 <= irq < 64 /\ eligible (run (boot 64 2 [0]) sample_events) 0 irq = true.
Proof.
  assert (E : context_outputs (run (boot 64 2 [0]) sample_events) !! O = Some (Some true)) by (vm_compute; reflexivity).
  split; [exact E|].
  exact (proj1 (outputs_exact 64 2 [0] sample_events 0 true ltac:(lia) ltac:(lia) sample_events_ok E) eq_refl).
Defined.

Lemma claim_irq_best_witness :
  let p := run (boot 64 2 [0]) sample_events in
  (claim_irq p 0).1 = Some 3 /\ best_of p 0 64 3.
Proof.
  intros p. assert (E : (claim_irq p 0).1 = Some 3) by (vm_compute; reflexivity). split; [exact E|].
  pose proof (claim_irq_best p 0 (proj1 (run_ok _ _ (proj1 (boot_ok 64 2 [0] ltac:(lia) ltac:(lia)))
    (proj2 (boot_ok 64 2 [0] ltac:(lia) ltac:(lia))) sample_events_ok))) as H.
  destruct (claim_irq p 0) as [o p']. cbn in E. subst o. exact (proj1 (proj2 H)).
Defined.

(** ** A claimed source *)

Definition claim_reg (ctx : Z) : Z := CONTEXT_BASE + CONTEXT_STRIDE * ctx + 4.

(** A write that may complete [irq], or a reset. *)
Definition completes (irq : Z) (e : Event) : bool :=
  match e with
  | Write off _ val =>
      (CONTEXT_BASE <=? off) && ((off - CONTEXT_BASE) mod CONTEXT_STRIDE =? 4) && (u32 val =? irq)
  | ResetRuntime => true
  | _ => false
  end.

Lemma read_claim_reg p ctx :
  wf p -> 0 <= ctx ->
  read p (claim_reg ctx) 4 =
  if num_contexts p <=? ctx then (0, p)
  else let '(irq, p') := claim_irq p ctx in (default 0 irq, update_outputs p').
Proof.
  intros Hw Hc. pose proof (wf_nc _ Hw). unfold read, claim_reg, CONTEXT_BASE, CONTEXT_STRIDE, PENDING_BASE, ENABLE_BASE.
  change 3 with (Z.ones 2). rewrite Z.land_ones by lia. cbn [negb Z.eqb Pos.eqb].
  replace ((0x200000 + 0x1000 * ctx + 4) mod 2 ^ 2) with 0 by (Z.to_euclidean_division_equations; lia).
  cbn [negb Z.eqb]. do 3 (match goal with |- context [?a <? ?b] => destruct (Z.ltb_spec a b); [lia|] end).
  replace (0x200000 + 0x1000 * ctx + 4 - 0x200000) with (4 + ctx * 0x1000) by lia.
  rewrite Z.div_add, Z.mod_add by lia. change (4 / 0x1000) with 0. change (4 mod 0x1000) with 4.
  rewrite Z.add_0_l. destruct (Z.leb_spec (num_contexts p) ctx); [done|]. cbn [Z.eqb].
  rewrite wrap_small by (unfold in_range; lia). done.
Qed.

Lemma complete_claimed p ctx v irq :
  wf p -> 0 <= irq -> v <> irq -> bit_of (claimed p) irq = true ->
  bit_of (claimed (complete_irq p ctx v)) irq = true.
Proof.
  intros Hw Hi Hne Hb. unfold complete_irq. case_match; [done|]. cbn.
  assert (Ec : claimed (if vget 0 (claim p) ctx =? v
     then with_contexts (enable p) (threshold p) (vset (claim p) ctx 0) p else p) = claimed p) by by case_match.
  destruct ((v <? num_sources p) && (0 <? v)) eqn:E; cbn; rewrite !Ec; [|done].
  rewrite andb_true_iff, !Z.ltb_lt in E. rewrite bit_clear; [|lia| |lia].
  - rewrite Hb. cbn. apply negb_true_iff, Z.eqb_neq. lia.
  - rewrite (wf_claimed _ Hw). apply word_lt. lia.
Qed.

Lemma claim_claimed p ctx irq :
  wf p -> 0 <= irq -> bit_of (claimed p) irq = true -> bit_of (claimed (claim_irq p ctx).2) irq = true.
Proof.
  intros Hw Hi Hb. pose proof (claim_cases p ctx Hw) as Hc. destruct (claim_irq p ctx) as [[j|] p']; cbn.
  - destruct Hc as (_ & _ & _ & Hk & _). rewrite Hk, Hb by done. apply orb_true_r.
  - by destruct Hc as [-> _].
Qed.

Lemma handle_claimed p e irq :
  wf p -> 0 <= irq -> completes irq e = false -> bit_of (claimed p) irq = true ->
  bit_of (claimed (handle p e)) irq = true.
Proof.
  intros Hw Hi Hc Hb. destruct e as [off sz|off sz v|src l|]; cbn in *; [| | |done].
  - unfold read. repeat case_match; try done. cbn.
    match goal with E : claim_irq p ?c = _ |- _ => pose proof (claim_claimed p c irq Hw Hi Hb) as H'; by rewrite E in H' end.
  - unfold write. repeat case_match; try done. apply complete_claimed; [done..| |done]. intros Ev.
    rewrite Ev, Z.eqb_refl, andb_true_r, andb_false_iff, Z.leb_gt in Hc. rewrite ?Z.ltb_ge in *.
    destruct Hc; [lia|congruence].
  - unfold set_irq, set_pending. by repeat case_match.
Qed.

(** C25: a source that a claim register gave out is given out by no claim register, of
    whatever context, until a completion names it or the controller is reset. *)
Theorem no_double_claim p ctx irq es ctx' :
  wf p -> 0 <= ctx -> 0 <= ctx' -> (read p (claim_reg ctx) 4).1 = irq -> irq <> 0 ->
  Forall event_ok es -> Forall (fun e => completes irq e = false) es ->
  (read (run (read p (claim_reg ctx) 4).2 es) (claim_reg ctx') 4).1 <> irq.
Proof.
  intros Hw Hc Hc' Hr Hne Hes Hno.
  assert (Hb : 0 <= irq /\ bit_of (claimed (read p (claim_reg ctx) 4).2) irq = true).
  { rewrite read_claim_reg in Hr |- * by done. case_match; [naive_solver|].
    pose proof (claim_cases p ctx Hw) as Hk. destruct (claim_irq p ctx) as [[j|] p']; cbn in *; [|done]. subst j.
    destruct Hk as (_ & (Hi & _) & _ & Hk & _). rewrite Hk, Z.eqb_refl by lia. split; [lia|done]. }
  destruct Hb as [Hi Hb]. pose proof (read_wf p (claim_reg ctx) 4 Hw) as Hw1. clear Hr.
  revert Hb Hw1. generalize (read p (claim_reg ctx) 4).2. clear p Hw. unfold run.
  induction Hes as [|e es He _ IH]; intros p Hb Hw.
  - cbn [fold_left]. rewrite read_claim_reg by done. case_match; [cbn; congruence|].
    pose proof (claim_cases p ctx' Hw) as Hk. destruct (claim_irq p ctx') as [[j|] p']; cbn; [|congruence].
    destruct Hk as (_ & (_ & He & _) & _). intros ->. rewrite eligible_bits, Hb, andb_false_r in He. done.
  - apply Forall_cons in Hno as [Hn Hno]. cbn [fold_left]. apply IH; [done|by apply handle_claimed|by apply handle_wf].
Qed.

Lemma no_double_claim_witness :
  let p := run (boot 64 2 [0]) sample_events in
  (read p (claim_reg 0) 4).1 = 3 /\
  (read (run (read p (claim_reg 0) 4).2 [SetIrq 3 true; Write (claim_reg 0) 4 40]) (claim_reg 0) 4).1 <> 3.
Proof.
  intros p. assert (E : (read p (claim_reg 0) 4).1 = 3) by (vm_compute; reflexivity). split; [exact E|].
  apply (no_double_claim p 0 3 [SetIrq 3 true; Write (claim_reg 0) 4 40] 0).
  - exact (proj1 (run_ok _ _ (proj1 (boot_ok 64 2 [0] ltac:(lia) ltac:(lia)))
      (proj2 (boot_ok 64 2 [0] ltac:(lia) ltac:(lia))) sample_events_ok)).
  - lia.
  - lia.
  - exact E.
  - discriminate.
  - repeat (apply Forall_cons_2; [vm_compute; discriminate|]). apply Forall_nil_2.
  - repeat (apply Forall_cons_2; [vm_compute; reflexivity|]). apply Forall_nil_2.
Defined.
