(* ===== verification/Aclint.v ===== *)
(** * The core-local interruptor

    Models [hw/intc/src/aclint.rs]: the software-interrupt and timer registers of each
    hart, the timer that is the host clock or a virtual count, the two output lines of each
    hart, and the background worker that raises a timer line when the host clock reaches a
    deadline.

    A handler may read the host clock several times: it takes the readings, in
    nanoseconds, as a function [t] of their number.  A line is its level once connected;
    the calls that make the execution loop stop and that wake a waiting hart are recorded
    in [notices].  The worker is a step relation of its own, in which every atomic access
    is one step. *)

From Stdlib Require Import ZArith Lia Bool.
From stdpp Require Import base tactics numbers list relations.
From S2P Require Import Prelude.

Local Open Scope Z_scope.

Definition MSIP_BASE : Z := 0x0000.
Definition MTIMECMP_BASE : Z := 0x4000.
Definition MTIME_OFFSET : Z := 0xBFF8.
Definition TIMER_DISABLED : Z := u64_max.

Inductive Notice := ExitRequest (hart : nat) | Wake.

Record Aclint := mk_Aclint {
  num_harts : Z;
  epoch : Z;
  mtime_base : Z;
  mtimecmp : list Z;
  msip : list Z;
  mti_outputs : list (option bool);
  msi_outputs : list (option bool);
  (** The deadline of the waker, once one is connected. *)
  wfi_waker : option (option Z);
  timer_epoch : Z;
  deadline_ns : list Z;
  worker_active : list bool;
  virtual_clock : bool;
  exit_requests : list bool;
  notices : list Notice
}.

Definition with_regs (ep base : Z) (cmp ms : list Z) (a : Aclint) : Aclint :=
  mk_Aclint (num_harts a) ep base cmp ms (mti_outputs a) (msi_outputs a) (wfi_waker a) (timer_epoch a)
    (deadline_ns a) (worker_active a) (virtual_clock a) (exit_requests a) (notices a).
Definition with_lines (mt ms : list (option bool)) (a : Aclint) : Aclint :=
  mk_Aclint (num_harts a) (epoch a) (mtime_base a) (mtimecmp a) (msip a) mt ms (wfi_waker a) (timer_epoch a)
    (deadline_ns a) (worker_active a) (virtual_clock a) (exit_requests a) (notices a).
Definition with_wfi_waker (w : option (option Z)) (a : Aclint) : Aclint :=
  mk_Aclint (num_harts a) (epoch a) (mtime_base a) (mtimecmp a) (msip a) (mti_outputs a) (msi_outputs a) w
    (timer_epoch a) (deadline_ns a) (worker_active a) (virtual_clock a) (exit_requests a) (notices a).
Definition with_timer (dl : list Z) (wa : list bool) (a : Aclint) : Aclint :=
  mk_Aclint (num_harts a) (epoch a) (mtime_base a) (mtimecmp a) (msip a) (mti_outputs a) (msi_outputs a)
    (wfi_waker a) (timer_epoch a) dl wa (virtual_clock a) (exit_requests a) (notices a).
Definition with_virtual_clock (b : bool) (a : Aclint) : Aclint :=
  mk_Aclint (num_harts a) (epoch a) (mtime_base a) (mtimecmp a) (msip a) (mti_outputs a) (msi_outputs a)
    (wfi_waker a) (timer_epoch a) (deadline_ns a) (worker_active a) b (exit_requests a) (notices a).
Definition with_exits (ex : list bool) (ns : list Notice) (a : Aclint) : Aclint :=
  mk_Aclint (num_harts a) (epoch a) (mtime_base a) (mtimecmp a) (msip a) (mti_outputs a) (msi_outputs a)
    (wfi_waker a) (timer_epoch a) (deadline_ns a) (worker_active a) (virtual_clock a) ex ns.

Definition set_mti (h : Z) (l : bool) (a : Aclint) : Aclint :=
  with_lines (vset (mti_outputs a) h ((fun _ => l) <$> vget None (mti_outputs a) h)) (msi_outputs a) a.
Definition set_msi (h : Z) (l : bool) (a : Aclint) : Aclint :=
  with_lines (mti_outputs a) (vset (msi_outputs a) h ((fun _ => l) <$> vget None (msi_outputs a) h)) a.

Definition new (nh t0 : Z) : Aclint :=
  let n := Z.to_nat nh in
  mk_Aclint nh t0 0 (replicate n u64_max) (replicate n 0) (replicate n None) (replicate n None) None t0
    (replicate n TIMER_DISABLED) (replicate n false) false (replicate n false) [].

Definition connect_mti (a : Aclint) (h : Z) : Aclint :=
  if h <? Z.of_nat (length (mti_outputs a)) then with_lines (vset (mti_outputs a) h (Some false)) (msi_outputs a) a
  else a.
Definition connect_msi (a : Aclint) (h : Z) : Aclint :=
  if h <? Z.of_nat (length (msi_outputs a)) then with_lines (mti_outputs a) (vset (msi_outputs a) h (Some false)) a
  else a.
Definition connect_exit_request (a : Aclint) (h : Z) : Aclint :=
  if h <? Z.of_nat (length (exit_requests a)) then with_exits (vset (exit_requests a) h true) (notices a) a else a.
Definition connect_wfi_waker (a : Aclint) : Aclint := with_wfi_waker (Some None) a.

Definition cancel_timer (a : Aclint) (h : Z) : Aclint :=
  with_timer (vset (deadline_ns a) h TIMER_DISABLED) (worker_active a) a.
Definition cancel_timers (a : Aclint) : Aclint := fold_left cancel_timer (seqZ 0 (num_harts a)) a.

Definition read_mtime_with (a : Aclint) (now : Z) : Z := wrapping_add 64 (mtime_base a) (u64 ((now - epoch a) / 100)).
Definition read_mtime_live (a : Aclint) (now : Z) : Z :=
  if virtual_clock a then mtime_base a else read_mtime_with a now.

Definition timer_irq_pending (a : Aclint) (now h : Z) : bool :=
  if h <? num_harts a then vget 0 (mtimecmp a) h <=? read_mtime_live a now else false.

Definition wake (a : Aclint) : Aclint :=
  match wfi_waker a with Some _ => with_exits (exit_requests a) (notices a ++ [Wake]) a | None => a end.
Definition request_exit (a : Aclint) (h : Z) : Aclint :=
  if vget false (exit_requests a) h then with_exits (exit_requests a) (notices a ++ [ExitRequest (Z.to_nat h)]) a
  else a.

Definition update_mti (a : Aclint) (now : Z) : Aclint :=
  let harts := seqZ 0 (num_harts a) in
  let pending h := vget 0 (mtimecmp a) h <=? read_mtime_live a now in
  let a := fold_left (fun a h => set_mti h (pending h) a) harts a in
  let a := fold_left (fun a h => if pending h then request_exit a h else a) harts a in
  if existsb pending harts then wake a else a.

Definition lower_outputs (a : Aclint) : Aclint :=
  let low := fun o : option bool => (fun _ => false) <$> o in
  with_lines (low <$> mti_outputs a) (low <$> msi_outputs a) a.

Definition clear_wfi_deadline (a : Aclint) : Aclint := with_wfi_waker ((fun _ => None) <$> wfi_waker a) a.

Definition set_virtual_clock (a : Aclint) (t : nat -> Z) (enabled : bool) : Aclint :=
  update_mti (cancel_timers (with_virtual_clock enabled a)) (t 0%nat).

Definition tick (a : Aclint) (t : nat -> Z) (ticks : Z) : Aclint :=
  if (ticks =? 0) || negb (virtual_clock a) then a
  else update_mti (with_regs (epoch a) (wrapping_add 64 (mtime_base a) ticks) (mtimecmp a) (msip a) a) (t 0%nat).

Definition reset_runtime (a : Aclint) (t : nat -> Z) : Aclint :=
  let a := cancel_timers a in
  let a := with_regs (t 0%nat) 0 ((fun _ => u64_max) <$> mtimecmp a) ((fun _ => 0) <$> msip a) a in
  clear_wfi_deadline (lower_outputs a).

(** [timer_epoch_ns] and the sum and product that saturate. *)
Definition timer_epoch_ns (a : Aclint) (now : Z) : Z := Z.min (now - timer_epoch a) u64_max.
Definition saturating (x : Z) : Z := Z.min x u64_max.

(** The longest a timer sleeps: 100 s. *)
Definition delta_ns (ticks : Z) : Z := Z.min (saturating (ticks * 100)) 100000000000.

(** [now1] is the reading for the timer, [now2] that for the deadline.  A worker is started
    when none is active. *)
Definition schedule_timer (a : Aclint) (now1 now2 h : Z) : Aclint :=
  if virtual_clock a then a
  else
    let cmp := vget 0 (mtimecmp a) h in
    let now := read_mtime_live a now1 in
    if cmp =? u64_max then a
    else if cmp <=? now then a
    else
      match vget None (mti_outputs a) h with
      | None => a
      | Some _ =>
          let deadline := saturating (timer_epoch_ns a now2 + delta_ns (cmp - now)) in
          with_timer (vset (deadline_ns a) h deadline) (vset (worker_active a) h true) a
      end.

Definition update_wfi_deadline (a : Aclint) (now1 now2 : Z) : Aclint :=
  match wfi_waker a with
  | None => a
  | Some _ =>
      let nearest := foldr Z.min u64_max (mtimecmp a) in
      if nearest =? u64_max then with_wfi_waker (Some None) a
      else
        let now := read_mtime_live a now1 in
        if nearest <=? now then a
        else with_wfi_waker (Some (Some (now2 + delta_ns (nearest - now)))) a
  end.

(** The two halves of a 64-bit register. *)
Definition set_low (old v : Z) : Z := Z.lor (Z.land old 0xffffffff00000000) (Z.land v 0xffffffff).
Definition set_high (old v : Z) : Z :=
  Z.lor (Z.land old 0x00000000ffffffff) (shl 64 (Z.land v 0xffffffff) 32).
Definition get_low (v : Z) : Z := Z.land v 0xffffffff.
Definition get_high (v : Z) : Z := Z.land (shr v 32) 0xffffffff.

Definition read (a : Aclint) (now offset size : Z) : Z :=
  if offset =? MTIME_OFFSET then
    if negb (size =? 4) && negb (size =? 8) then 0
    else
      let mtime := read_mtime_live a now in
      if size =? 4 then get_low mtime else mtime
  else if (offset =? MTIME_OFFSET + 4) && (size =? 4) then get_high (read_mtime_live a now)
  else if MTIMECMP_BASE <=? offset then
    let sub := (offset - MTIMECMP_BASE) mod 8 in
    let hart := (offset - MTIMECMP_BASE) / 8 in
    if hart <? num_harts a then
      let val := vget 0 (mtimecmp a) hart in
      if (sub =? 0) && (size =? 4) then get_low val
      else if (sub =? 0) && (size =? 8) then val
      else if (sub =? 4) && (size =? 4) then get_high val
      else 0
    else 0
  else
    let hart := (offset - MSIP_BASE) / 4 in
    if (size =? 4) && (offset mod 4 =? 0) && (hart <? num_harts a) then vget 0 (msip a) hart else 0.

Definition set_mtime (a : Aclint) (ep v : Z) : Aclint := with_regs ep v (mtimecmp a) (msip a) a.

Definition write_mtimecmp (a : Aclint) (t : nat -> Z) (h v : Z) : Aclint :=
  let a := cancel_timer a h in
  let a := with_regs (epoch a) (mtime_base a) (vset (mtimecmp a) h v) (msip a) a in
  let pending := vget 0 (mtimecmp a) h <=? read_mtime_live a (t 0%nat) in
  let a := set_mti h pending a in
  let a := if pending then wake (request_exit a h) else a in
  let a := if negb pending then schedule_timer a (t 1%nat) (t 2%nat) h else a in
  update_wfi_deadline a (t 3%nat) (t 4%nat).

Definition write (a : Aclint) (t : nat -> Z) (offset size val : Z) : Aclint :=
  if offset =? MTIME_OFFSET then
    if negb (size =? 4) && negb (size =? 8) then a
    else
      let a := cancel_timers a in
      let base := if size =? 4 then set_low (read_mtime_live a (t 0%nat)) val else val in
      update_mti (set_mtime a (t 1%nat) base) (t 2%nat)
  else if offset =? MTIME_OFFSET + 4 then
    if negb (size =? 4) then a
    else
      let a := cancel_timers a in
      update_mti (set_mtime a (t 1%nat) (set_high (read_mtime_live a (t 0%nat)) val)) (t 2%nat)
  else if MTIMECMP_BASE <=? offset then
    let sub := (offset - MTIMECMP_BASE) mod 8 in
    let hart := (offset - MTIMECMP_BASE) / 8 in
    if hart <? num_harts a then
      let old := vget 0 (mtimecmp a) hart in
      if (sub =? 0) && (size =? 4) then write_mtimecmp a t hart (set_low old val)
      else if (sub =? 0) && (size =? 8) then write_mtimecmp a t hart val
      else if (sub =? 4) && (size =? 4) then write_mtimecmp a t hart (set_high old val)
      else a
    else a
  else
    let hart := (offset - MSIP_BASE) / 4 in
    if (size =? 4) && (offset mod 4 =? 0) && (hart <? num_harts a) then
      let v := Z.land (u32 val) 1 in
      set_msi hart (negb (v =? 0)) (with_regs (epoch a) (mtime_base a) (mtimecmp a) (vset (msip a) hart v) a)
    else a.

Definition set_mtimecmp (a : Aclint) (t : nat -> Z) (hart val : Z) : Aclint :=
  write a t (MTIMECMP_BASE + hart * 8) 8 val.

(** ** What the handlers change *)

Definition set_level (l : list (option bool)) (h : Z) (b : bool) : list (option bool) :=
  vset l h ((fun _ => b) <$> vget None l h).

Definition set_levels (f : Z -> bool) (hs : list Z) (l : list (option bool)) : list (option bool) :=
  fold_left (fun l h => set_level l h (f h)) hs l.

(** States that differ in the recorded notices only. *)
Definition same_but_notices (a b : Aclint) : Prop := exists ns, b = with_exits (exit_requests a) ns a.

Lemma notices_refl a : same_but_notices a a.
Proof. exists (notices a). by destruct a. Qed.

Lemma notices_trans a b c : same_but_notices a b -> same_but_notices b c -> same_but_notices a c.
Proof. intros [n1 ->] [n2 ->]. by exists n2. Qed.

Lemma wake_notices a : same_but_notices a (wake a).
Proof. unfold wake. destruct (wfi_waker a); [by eexists|apply notices_refl]. Qed.

Lemma request_exit_notices a h : same_but_notices a (request_exit a h).
Proof. unfold request_exit. case_match; [by eexists|apply notices_refl]. Qed.

Lemma fold_notices (f : Aclint -> Z -> Aclint) hs a :
  (forall a h, same_but_notices a (f a h)) -> same_but_notices a (fold_left f hs a).
Proof.
  intros Hf. revert a. induction hs as [|h hs IH]; intros a; cbn; [apply notices_refl|].
  eapply notices_trans; [apply Hf|apply IH].
Qed.

Lemma fold_set_mti f hs a :
  fold_left (fun a h => set_mti h (f h) a) hs a = with_lines (set_levels f hs (mti_outputs a)) (msi_outputs a) a.
Proof.
  revert a. induction hs as [|h hs IH]; intros a; cbn; [by destruct a|]. by rewrite IH.
Qed.

Definition pending (a : Aclint) (now h : Z) : bool := vget 0 (mtimecmp a) h <=? read_mtime_live a now.

Lemma update_mti_eq a now :
  same_but_notices (with_lines (set_levels (pending a now) (seqZ 0 (num_harts a)) (mti_outputs a)) (msi_outputs a) a)
    (update_mti a now).
Proof.
  unfold update_mti. cbv zeta. fold (pending a now). rewrite fold_set_mti.
  set (b := with_lines _ _ a).
  assert (Hb : same_but_notices b (fold_left (fun a0 h => if pending a now h then request_exit a0 h else a0)
    (seqZ 0 (num_harts a)) b)).
  { apply fold_notices. intros c h. destruct (pending a now h); [apply request_exit_notices|apply notices_refl]. }
  destruct (existsb _ _); [|exact Hb]. eapply notices_trans; [exact Hb|apply wake_notices].
Qed.

Lemma cancel_timers_eq a : exists dl, cancel_timers a = with_timer dl (worker_active a) a /\ length dl = length (deadline_ns a).
Proof.
  unfold cancel_timers. generalize (seqZ 0 (num_harts a)). intros hs. revert a.
  induction hs as [|h hs IH]; intros a; cbn; [by exists (deadline_ns a); destruct a|].
  destruct (IH (cancel_timer a h)) as (dl & -> & Hl). exists dl. split; [done|]. rewrite Hl. apply length_vset.
Qed.

Lemma with_timer_id a : a = with_timer (deadline_ns a) (worker_active a) a.
Proof. by destruct a. Qed.

Lemma schedule_timer_eq a t1 t2 h :
  exists dl wa, schedule_timer a t1 t2 h = with_timer dl wa a /\
    length dl = length (deadline_ns a) /\ length wa = length (worker_active a).
Proof.
  assert (Ha : exists dl wa, a = with_timer dl wa a /\
    length dl = length (deadline_ns a) /\ length wa = length (worker_active a)).
  { exists (deadline_ns a), (worker_active a). split; [apply with_timer_id|done]. }
  unfold schedule_timer. cbv zeta.
  destruct (virtual_clock a); [exact Ha|]. destruct (_ =? u64_max); [exact Ha|]. destruct (_ <=? _); [exact Ha|].
  destruct (vget None (mti_outputs a) h); [|exact Ha].
  eexists _, _. split; [reflexivity|]. by rewrite !length_vset.
Qed.

Lemma update_wfi_eq a t1 t2 : exists w, update_wfi_deadline a t1 t2 = with_wfi_waker w a.
Proof.
  assert (Ha : exists w, a = with_wfi_waker w a) by (exists (wfi_waker a); by destruct a).
  unfold update_wfi_deadline. destruct (wfi_waker a); [|exact Ha]. cbv zeta.
  destruct (_ =? u64_max); [by eexists|]. destruct (_ <=? _); [exact Ha|by eexists].
Qed.

Lemma set_levels_lookup f hs l (h : nat) :
  Forall (fun x => 0 <= x) hs ->
  set_levels f hs l !! h =
  (fun o => if bool_decide (Z.of_nat h ∈ hs) then (fun _ => f (Z.of_nat h)) <$> o else o) <$> l !! h.
Proof.
  intros Hp. revert l. induction Hp as [|x hs Hx _ IH]; intros l.
  { cbn. by destruct (l !! h). }
  unfold set_levels. cbn [fold_left]. fold (set_levels f hs (set_level l x (f x))). rewrite IH.
  unfold set_level, vset, vget. destruct (decide (Z.of_nat h = x)) as [<-|Hne].
  - rewrite Nat2Z.id. rewrite (bool_decide_true (_ ∈ _ :: _)) by (apply elem_of_cons; by left).
    destruct (l !! h) as [o|] eqn:E; [|rewrite list_insert_ge by (by apply lookup_ge_None_1); by rewrite E].
    rewrite list_lookup_insert_eq by (by eapply lookup_lt_Some). cbn. case_match; by destruct o.
  - rewrite list_lookup_insert_ne by lia. destruct (l !! h) as [o|]; [|done]. cbn. f_equal.
    rewrite (bool_decide_ext (Z.of_nat h ∈ x :: hs) (Z.of_nat h ∈ hs)); [done|].
    rewrite elem_of_cons. naive_solver.
Qed.

(** ** The lines *)

Inductive Event :=
| Write (t : nat -> Z) (offset size val : Z)
| Tick (t : nat -> Z) (ticks : Z)
| SetVirtualClock (t : nat -> Z) (enabled : bool)
| ResetRuntime (t : nat -> Z).

Definition handle (a : Aclint) (e : Event) : Aclint :=
  match e with
  | Write t offset size val => write a t offset size val
  | Tick t ticks => tick a t ticks
  | SetVirtualClock t enabled => set_virtual_clock a t enabled
  | ResetRuntime t => reset_runtime a t
  end.

Definition event_ok (e : Event) : Prop := match e with Write _ off _ _ => 0 <= off | _ => True end.

Definition run (a : Aclint) (es : list Event) : Aclint := fold_left handle es a.

(** A machine: a new device and the lines it connects. *)
Definition boot (nh t0 : Z) (mti msi : list Z) : Aclint :=
  fold_left connect_msi msi (fold_left connect_mti mti (new nh t0)).

Record wf (a : Aclint) : Prop := {
  wf_harts : 0 <= num_harts a < 2 ^ 32;
  wf_cmp : length (mtimecmp a) = Z.to_nat (num_harts a);
  wf_msip : length (msip a) = Z.to_nat (num_harts a);
  wf_mti : length (mti_outputs a) = Z.to_nat (num_harts a);
  wf_msi : length (msi_outputs a) = Z.to_nat (num_harts a);
  wf_deadline : length (deadline_ns a) = Z.to_nat (num_harts a);
  wf_worker : length (worker_active a) = Z.to_nat (num_harts a);
  wf_exits : length (exit_requests a) = Z.to_nat (num_harts a)
}.

Definition msi_exact (a : Aclint) : Prop :=
  forall (h : nat) l, msi_outputs a !! h = Some (Some l) -> l = negb (vget 0 (msip a) (Z.of_nat h) =? 0).

Definition mti_exact (a : Aclint) : Prop :=
  forall (h : nat) l, mti_outputs a !! h = Some (Some l) -> l = (vget 0 (mtimecmp a) (Z.of_nat h) <=? mtime_base a).

Definition ok (a : Aclint) : Prop := wf a /\ msi_exact a /\ (virtual_clock a = true -> mti_exact a).

Lemma notices_ok a b : same_but_notices a b -> ok a -> ok b.
Proof. intros [ns ->] (Hw & Hs & Ht). split; [destruct Hw; by constructor|done]. Qed.

Lemma length_set_levels f hs l : length (set_levels f hs l) = length l.
Proof.
  unfold set_levels. revert l. induction hs as [|h hs IH]; intros l; [done|]. cbn. rewrite IH. apply length_vset.
Qed.

Lemma harts_nonneg n : Forall (fun x => 0 <= x) (seqZ 0 n).
Proof. apply Forall_forall. intros x Hx%elem_of_seqZ. lia. Qed.

(** The update makes the timer lines exact, whatever they were. *)
Lemma update_mti_ok a now : wf a -> msi_exact a -> ok (update_mti a now).
Proof.
  intros Hw Hs. eapply notices_ok; [apply update_mti_eq|]. split; [|split; [done|]].
  - destruct Hw. constructor; cbn; rewrite ?length_set_levels; done.
  - cbn. intros Hv h l. cbn. rewrite set_levels_lookup by apply harts_nonneg.
    destruct (mti_outputs a !! h) as [o|] eqn:E; [|done]. pose proof (lookup_lt_Some _ _ _ E) as Hlt.
    rewrite (wf_mti _ Hw) in Hlt. pose proof (wf_harts _ Hw).
    cbn. rewrite bool_decide_true by (apply elem_of_seqZ; lia). destruct o; [|done]. cbn. intros [= <-].
    unfold pending, read_mtime_live. by rewrite Hv.
Qed.

Lemma with_timer_ok a dl wa :
  length dl = length (deadline_ns a) -> length wa = length (worker_active a) -> ok a -> ok (with_timer dl wa a).
Proof.
  intros H1 H2 (Hw & Hs & Ht). split; [|done]. destruct Hw. constructor; cbn; congruence.
Qed.

Lemma cancel_timers_ok a : ok a -> ok (cancel_timers a).
Proof. intros H. destruct (cancel_timers_eq a) as (dl & -> & Hl). by apply with_timer_ok. Qed.

Lemma with_regs_wf a ep base cmp ms :
  length cmp = length (mtimecmp a) -> length ms = length (msip a) -> wf a -> wf (with_regs ep base cmp ms a).
Proof. intros H1 H2 Hw. destruct Hw. constructor; cbn; congruence. Qed.

Lemma set_level_exact l h b (f : nat -> bool) (h' : nat) lv :
  0 <= h -> set_level l h b !! h' = Some (Some lv) ->
  (Z.of_nat h' = h -> f h' = b) -> (Z.of_nat h' <> h -> l !! h' = Some (Some lv) -> lv = f h') -> lv = f h'.
Proof.
  intros Hh E H1 H2. unfold set_level, vset, vget in E. destruct (decide (Z.of_nat h' = h)) as [<-|Hne].
  - rewrite Nat2Z.id in E. apply list_lookup_insert_Some in E as [(_ & E & Hlt)|[? _]]; [|done].
    rewrite H1 by done. destruct (l !! h') as [[x|]|]; cbn in E; congruence.
  - rewrite list_lookup_insert_ne in E by lia. by apply H2.
Qed.

Lemma write_mtimecmp_ok a t h v : ok a -> 0 <= h < num_harts a -> ok (write_mtimecmp a t h v).
Proof.
  intros (Hw & Hs & Ht) Hh. unfold write_mtimecmp. cbv zeta.
  set (a1 := with_regs _ _ _ _ _). set (p := vget 0 (mtimecmp a1) h <=? read_mtime_live a1 (t 0%nat)).
  assert (H2 : ok (set_mti h p a1)).
  { split; [|split; [done|]].
    - destruct Hw. constructor; cbn; rewrite ?length_vset; done.
    - intros Hv h' l E. apply (set_level_exact (mti_outputs a) h p
        (fun h' => vget 0 (vset (mtimecmp a) h v) (Z.of_nat h') <=? mtime_base a)) in E; [done|lia| |].
      + intros <-. unfold p, read_mtime_live. cbn in Hv |- *. by rewrite Hv.
      + intros Hne E'. rewrite (Ht Hv _ _ E'). rewrite vget_vset by (rewrite ?(wf_cmp _ Hw); lia).
        destruct (Z.eqb_spec (Z.of_nat h') h); [lia|done]. }
  assert (H3 : ok (if p then wake (request_exit (set_mti h p a1) h) else set_mti h p a1)).
  { destruct p; [|done]. eapply notices_ok; [eapply notices_trans; [apply request_exit_notices|apply wake_notices]|done]. }
  revert H3. generalize (if p then wake (request_exit (set_mti h p a1) h) else set_mti h p a1). intros a3 H3.
  assert (H4 : ok (if negb p then schedule_timer a3 (t 1%nat) (t 2%nat) h else a3)).
  { destruct (negb p); [|done]. destruct (schedule_timer_eq a3 (t 1%nat) (t 2%nat) h) as (dl & wa & -> & ? & ?).
    by apply with_timer_ok. }
  revert H4. generalize (if negb p then schedule_timer a3 (t 1%nat) (t 2%nat) h else a3). intros a4 (Hw4 & Hs4 & Ht4).
  destruct (update_wfi_eq a4 (t 3%nat) (t 4%nat)) as [w ->]. split; [destruct Hw4; by constructor|done].
Qed.

Lemma write_msip_ok a h v :
  ok a -> 0 <= h < num_harts a ->
  ok (set_msi h (negb (v =? 0)) (with_regs (epoch a) (mtime_base a) (mtimecmp a) (vset (msip a) h v) a)).
Proof.
  intros (Hw & Hs & Ht) Hh. split; [|split; [|done]].
  - destruct Hw. constructor; cbn; rewrite ?length_vset; done.
  - intros h' l E. apply (set_level_exact (msi_outputs a) h (negb (v =? 0))
      (fun h' => negb (vget 0 (vset (msip a) h v) (Z.of_nat h') =? 0))) in E; [done|lia| |].
    + intros <-. rewrite vget_vset by (rewrite ?(wf_msip _ Hw); lia). by rewrite Z.eqb_refl.
    + intros Hne E'. rewrite (Hs _ _ E'), vget_vset by (rewrite ?(wf_msip _ Hw); lia).
      destruct (Z.eqb_spec (Z.of_nat h') h); [lia|done].
Qed.

Lemma set_mtime_ok a ep base now : ok a -> ok (update_mti (set_mtime (cancel_timers a) ep base) now).
Proof.
  intros (Hw & Hs & _)%cancel_timers_ok. apply update_mti_ok; [by apply with_regs_wf|done].
Qed.

Lemma reset_ok a t : ok a -> ok (reset_runtime a t).
Proof.
  intros (Hw & _)%cancel_timers_ok. unfold reset_runtime. cbv zeta. split; [|split].
  - destruct Hw. constructor; cbn; rewrite ?length_fmap; done.
  - intros h l. cbn. rewrite list_lookup_fmap. destruct (msi_outputs _ !! h) as [[b|]|]; [|done..].
    intros [= <-]. unfold vget. rewrite list_lookup_fmap. by destruct (_ !! Z.to_nat _).
  - intros _ h l. cbn. rewrite list_lookup_fmap. destruct (mti_outputs _ !! h) as [[b|]|] eqn:E; [|done..].
    intros [= <-]. unfold vget. rewrite list_lookup_fmap, Nat2Z.id.
    apply lookup_lt_Some in E. rewrite (wf_mti _ Hw), <- (wf_cmp _ Hw) in E.
    apply lookup_lt_is_Some_2 in E as [x ->]. done.
Qed.

Lemma handle_ok a e : ok a -> event_ok e -> ok (handle a e).
Proof.
  intros Ha He. destruct e as [t off sz v|t n|t b|t]; cbn [handle].
  - cbn in He. unfold write. cbv zeta.
    assert (Hd : 0 <= (off - MSIP_BASE) / 4) by (apply Z.div_pos; unfold MSIP_BASE; lia).
    assert (Hc : MTIMECMP_BASE <= off -> 0 <= (off - MTIMECMP_BASE) / 8) by (intros; apply Z.div_pos; lia).
    repeat case_match; try done; rewrite ?andb_true_iff, ?Z.leb_le, ?Z.ltb_lt in *;
      first [by apply set_mtime_ok|apply write_mtimecmp_ok; [done|split; [by apply Hc|done]]
            |apply write_msip_ok; [done|split; [done|tauto]]].
  - unfold tick. case_match; [done|]. destruct Ha as (Hw & Hs & _). apply update_mti_ok; [by apply with_regs_wf|done].
  - unfold set_virtual_clock.
    destruct (cancel_timers_eq (with_virtual_clock b a)) as (dl & -> & Hl). destruct Ha as (Hw & Hs & _).
    apply update_mti_ok; [|done]. destruct Hw. constructor; cbn in *; congruence.
  - by apply reset_ok.
Qed.

Lemma aclint_new_ok nh t0 : 0 <= nh < 2 ^ 32 -> ok (new nh t0).
Proof.
  intros. split; [constructor; cbn; rewrite ?length_replicate; done|].
  split; [|done]. intros h l. cbn. intros [[=] _]%lookup_replicate_1.
Qed.

Lemma aclint_boot_ok nh t0 mti msi : 0 <= nh < 2 ^ 32 -> ok (boot nh t0 mti msi).
Proof.
  intros Hn. unfold boot.
  enough (forall a, ok a -> virtual_clock a = false -> Forall (fun x => x = 0) (msip a) ->
    ok (fold_left connect_msi msi (fold_left connect_mti mti a))) as Hgo.
  { apply Hgo; [by apply aclint_new_ok|done|by apply Forall_replicate]. }
  induction mti as [|h mti IH]; cbn.
  - induction msi as [|h msi IH]; intros a Ha Hv Hz; cbn; [done|]. unfold connect_msi.
    case_match; [|by apply IH]. apply IH; [|done..]. destruct Ha as (Hw & Hs & Ht). split; [|split; [|done]].
    + destruct Hw. constructor; cbn; rewrite ?length_vset; done.
    + intros h' l. cbn. unfold vset. rewrite list_lookup_insert_Some. intros [(_ & [= <-] & _)|[_ E]]; [|by apply Hs].
      unfold vget. destruct (msip a !! _) as [x|] eqn:E; [|done]. rewrite Forall_lookup in Hz. by rewrite (Hz _ _ E).
  - intros a Ha Hv Hz. unfold connect_mti. case_match; [|by apply IH]. apply IH; [|done..].
    destruct Ha as (Hw & Hs & _). split; [|split; [done|]].
    + destruct Hw. constructor; cbn; rewrite ?length_vset; done.
    + cbn. intros Hv'. congruence.
Qed.

(** C26: whatever register writes, ticks, resets and changes of the clock mode a booted
    device sees, the software-interrupt line of each connected hart is its [msip] bit, and
    while the clock is virtual the timer line is high exactly when the time has reached
    the hart's [mtimecmp]. *)
Theorem lines_exact nh t0 mti msi es (h : nat) l :
  0 <= nh < 2 ^ 32 -> Forall event_ok es ->
  let a := run (boot nh t0 mti msi) es in
  (msi_outputs a !! h = Some (Some l) -> l = negb (vget 0 (msip a) (Z.of_nat h) =? 0)) /\
  (virtual_clock a = true -> mti_outputs a !! h = Some (Some l) ->
   l = (vget 0 (mtimecmp a) (Z.of_nat h) <=? mtime_base a)).
Proof.
  intros Hn Hes a. assert (Ha : ok a).
  { unfold a, run. pose proof (aclint_boot_ok nh t0 mti msi Hn) as H0. revert H0. generalize (boot nh t0 mti msi).
    induction Hes as [|e es He _ IH]; intros b Hb; [done|]. cbn. apply IH. by apply handle_ok. }
  destruct Ha as (_ & Hs & Ht). split; [apply Hs|]. intros Hv. by apply Ht.
Qed.

Definition sample_events : list Event :=
  [SetVirtualClock (fun _ => 0) true; Write (fun _ => 0) MTIMECMP_BASE 8 10; Tick (fun _ => 0) 10;
   Write (fun _ => 0) 4 4 1].

Lemma lines_exact_witness :
  mti_outputs (run (boot 2 0 [0; 1] [1]) sample_events) !! O = Some (Some true) /\
  (vget 0 (mtimecmp (run (boot 2 0 [0; 1] [1]) sample_events)) 0 <=? mtime_base (run (boot 2 0 [0; 1] [1]) sample_events)) = true.
Proof.
  assert (E : mti_outputs (run (boot 2 0 [0; 1] [1]) sample_events) !! O = Some (Some true)) by (vm_compute; reflexivity).
  split; [exact E|]. symmetry.
  refine (proj2 (lines_exact 2 0 [0; 1] [1] sample_events 0 true ltac:(lia) _) ltac:(vm_compute; reflexivity) E).
  repeat (apply Forall_cons_2; [vm_compute; first [exact I|discriminate]|]). apply Forall_nil_2.
Defined.

(** ** The comparison register *)

Lemma mtimecmp_written a t h v :
  mtimecmp (write_mtimecmp a t h v) = vset (mtimecmp a) h v /\ num_harts (write_mtimecmp a t h v) = num_harts a.
Proof.
  unfold write_mtimecmp. cbv zeta. set (a1 := with_regs _ _ _ _ _). set (p := _ <=? _).
  set (a2 := set_mti h p a1).
  assert (H3 : exists ns, (if p then wake (request_exit a2 h) else a2) = with_exits (exit_requests a2) ns a2).
  { destruct p; [|apply notices_refl]. eapply notices_trans; [apply request_exit_notices|apply wake_notices]. }
  destruct H3 as [ns ->]. set (a3 := with_exits _ _ _).
  assert (H4 : exists dl wa, (if negb p then schedule_timer a3 (t 1%nat) (t 2%nat) h else a3) = with_timer dl wa a3).
  { destruct (negb p); [|by exists (deadline_ns a3), (worker_active a3)].
    destruct (schedule_timer_eq a3 (t 1%nat) (t 2%nat) h) as (dl & wa & -> & _). by eexists _, _. }
  destruct H4 as (dl & wa & ->). set (a4 := with_timer _ _ _).
  destruct (update_wfi_eq a4 (t 3%nat) (t 4%nat)) as [w ->]. done.
Qed.

Definition cmp_reg (h : Z) : Z := MTIMECMP_BASE + 8 * h.

Section CmpReg.
Context (a : Aclint) (h : Z).
Hypotheses (Hw : wf a) (Hh : 0 <= h < num_harts a) (Hlast : h <> 0xfff).

Lemma cmp_reg_parts sub :
  0 <= sub < 8 ->
  (cmp_reg h + sub =? MTIME_OFFSET) = false /\ (cmp_reg h + sub =? MTIME_OFFSET + 4) = false /\
  (MTIMECMP_BASE <=? cmp_reg h + sub) = true /\ (cmp_reg h + sub - MTIMECMP_BASE) mod 8 = sub /\
  (cmp_reg h + sub - MTIMECMP_BASE) / 8 = h.
Proof using Hh Hlast.
  intros Hs. unfold cmp_reg, MTIMECMP_BASE, MTIME_OFFSET.
  split_and!; [apply Z.eqb_neq; lia|apply Z.eqb_neq; lia|apply Z.leb_le; lia|..];
    Z.to_euclidean_division_equations; lia.
Qed.

Lemma read_cmp now :
  read a now (cmp_reg h) 8 = vget 0 (mtimecmp a) h /\ read a now (cmp_reg h) 4 = get_low (vget 0 (mtimecmp a) h) /\
  read a now (cmp_reg h + 4) 4 = get_high (vget 0 (mtimecmp a) h).
Proof using Hh Hlast.
  destruct (cmp_reg_parts 0 ltac:(lia)) as (E1 & E2 & E3 & E4 & E5). rewrite Z.add_0_r in *.
  destruct (cmp_reg_parts 4 ltac:(lia)) as (F1 & F2 & F3 & F4 & F5).
  assert (Hlt : (h <? num_harts a) = true) by (apply Z.ltb_lt; lia).
  unfold read. rewrite E1, E2, E3, E4, E5, F1, F2, F3, F4, F5, Hlt. done.
Qed.

Lemma write_cmp t v :
  write a t (cmp_reg h) 8 v = write_mtimecmp a t h v /\
  write a t (cmp_reg h) 4 v = write_mtimecmp a t h (set_low (vget 0 (mtimecmp a) h) v) /\
  write a t (cmp_reg h + 4) 4 v = write_mtimecmp a t h (set_high (vget 0 (mtimecmp a) h) v).
Proof using Hh Hlast.
  destruct (cmp_reg_parts 0 ltac:(lia)) as (E1 & E2 & E3 & E4 & E5). rewrite Z.add_0_r in *.
  destruct (cmp_reg_parts 4 ltac:(lia)) as (F1 & F2 & F3 & F4 & F5).
  assert (Hlt : (h <? num_harts a) = true) by (apply Z.ltb_lt; lia).
  unfold write. rewrite E1, E2, E3, E4, E5, F1, F2, F3, F4, F5, Hlt. done.
Qed.
End CmpReg.

Lemma halves x v : is_u64 x -> is_u64 v ->
  set_high (set_low x v) (get_high v) = v /\ set_low (set_high x (get_high v)) v = v.
Proof.
  intros Hx Hv. apply in_range_bits in Hv as [_ Hv]; [|lia].
  unfold set_high, set_low, get_high, shl, shr.
  change 0xffffffff00000000 with (Z.shiftl (Z.ones 32) 32). change 0xffffffff with (Z.ones 32).
  split; zbits; zbits_cases; rewrite ?andb_true_r, ?andb_false_r, ?orb_false_r; try done; try lia;
    first [by rewrite Hv by lia|cbn [orb]; rewrite Z.shiftr_spec by lia; f_equal; lia].
Qed.

(** C0: the comparison register of a hart reads back what was written to it, in one access
    or in two halves in either order, and each half reads as its half. *)
Theorem mtimecmp_roundtrip a h t t' now v :
  wf a -> 0 <= h < num_harts a -> h <> 0xfff -> is_u64 (vget 0 (mtimecmp a) h) -> is_u64 v ->
  read (write a t (cmp_reg h) 8 v) now (cmp_reg h) 8 = v /\
  read (write (write a t (cmp_reg h) 4 v) t' (cmp_reg h + 4) 4 (get_high v)) now (cmp_reg h) 8 = v /\
  read (write (write a t (cmp_reg h + 4) 4 (get_high v)) t' (cmp_reg h) 4 v) now (cmp_reg h) 8 = v /\
  read (write a t (cmp_reg h) 8 v) now (cmp_reg h) 4 = get_low v /\
  read (write a t (cmp_reg h) 8 v) now (cmp_reg h + 4) 4 = get_high v.
Proof.
  intros Hw Hh Hl Hx Hv. destruct (halves _ _ Hx Hv) as [H1 H2].
  assert (Hlen : 0 <= h < Z.of_nat (length (mtimecmp a))) by (rewrite (wf_cmp _ Hw); lia).
  assert (Hc : forall x, vget 0 (mtimecmp (write_mtimecmp a t h x)) h = x).
  { intros x. destruct (mtimecmp_written a t h x) as [-> _]. rewrite vget_vset by lia. by rewrite Z.eqb_refl. }
  assert (Hc2 : forall x y, vget 0 (mtimecmp (write_mtimecmp (write_mtimecmp a t h x) t' h y)) h = y).
  { intros x y. destruct (mtimecmp_written (write_mtimecmp a t h x) t' h y) as [-> _].
    destruct (mtimecmp_written a t h x) as [-> _]. rewrite vget_vset by (rewrite ?length_vset; lia). by rewrite Z.eqb_refl. }
  assert (Hn : forall x, 0 <= h < num_harts (write_mtimecmp a t h x))
    by (intros x; destruct (mtimecmp_written a t h x) as [_ ->]; done).
  assert (Hn2 : forall x y, 0 <= h < num_harts (write_mtimecmp (write_mtimecmp a t h x) t' h y))
    by (intros x y; destruct (mtimecmp_written (write_mtimecmp a t h x) t' h y) as [_ ->]; done).
  destruct (write_cmp a h Hh Hl t v) as (-> & -> & _). destruct (write_cmp a h Hh Hl t (get_high v)) as (_ & _ & ->).
  destruct (write_cmp _ h (Hn (set_low (vget 0 (mtimecmp a) h) v)) Hl t' (get_high v)) as (_ & _ & ->).
  destruct (write_cmp _ h (Hn (set_high (vget 0 (mtimecmp a) h) (get_high v))) Hl t' v) as (_ & -> & _).
  rewrite !Hc.
  destruct (read_cmp _ h (Hn v) Hl now) as (-> & -> & ->).
  destruct (read_cmp _ h (Hn2 (set_low (vget 0 (mtimecmp a) h) v) (set_high (set_low (vget 0 (mtimecmp a) h) v) (get_high v))) Hl now)
    as (-> & _ & _).
  destruct (read_cmp _ h (Hn2 (set_high (vget 0 (mtimecmp a) h) (get_high v)) (set_low (set_high (vget 0 (mtimecmp a) h) (get_high v)) v)) Hl now)
    as (-> & _ & _).
  rewrite !Hc, !Hc2. done.
Qed.

Lemma mtimecmp_roundtrip_witness :
  read (write (boot 2 0 [0] []) (fun _ => 50) (cmp_reg 1) 8 0x123456789) 70 (cmp_reg 1) 8 = 0x123456789.
Proof.
  refine (proj1 (mtimecmp_roundtrip (boot 2 0 [0] []) 1 (fun _ => 50) (fun _ => 60) 70 0x123456789 _ _ _ _ _)).
  - exact (proj1 (aclint_boot_ok 2 0 [0] [] ltac:(lia))).
  - vm_compute. split; [discriminate|reflexivity].
  - discriminate.
  - vm_compute. split; [discriminate|reflexivity].
  - vm_compute. split; [discriminate|reflexivity].
Defined.

