(* ===== verification/AclintWorker.v ===== *)
(** * The timer worker of the core-local interruptor

    Models [timer_worker_loop] and the hand-over to it at the end of [schedule_timer] in
    [hw/intc/src/aclint.rs], with every atomic access a step of its own and the threads
    interleaved.  The harts share nothing here, so the state is that of one hart: its
    deadline, the flag that says a worker is active, its line, the host clock, and the
    threads, each at the access it makes next. *)

From Stdlib Require Import ZArith Lia Bool.
From stdpp Require Import base tactics numbers list relations.
From S2P Require Import Prelude Aclint.

Local Open Scope Z_scope.

Inductive Pc :=
| SchedActivate            (** the [compare_exchange] on [worker_active] in [schedule_timer] *)
| WLoad                    (** the load of the deadline at the head of the loop *)
| WRelease                 (** no deadline: the store of [false] to [worker_active] *)
| WRecheck                 (** the second load of the deadline *)
| WRetake                  (** the [compare_exchange] that takes the flag back *)
| WClock (deadline : Z)    (** the reading of the clock *)
| WClaim (deadline : Z)    (** the [compare_exchange] of the deadline to [TIMER_DISABLED] *)
| WFire.                   (** the line is raised *)

Global Instance Pc_eq_dec : EqDecision Pc.
Proof. solve_decision. Defined.

Record Timer := mk_Timer {
  deadline : Z;
  active : bool;
  line : bool;
  clock : Z;
  threads : list Pc
}.

Definition with_deadline (d : Z) (s : Timer) : Timer := mk_Timer d (active s) (line s) (clock s) (threads s).
Definition with_active (b : bool) (s : Timer) : Timer := mk_Timer (deadline s) b (line s) (clock s) (threads s).
Definition with_line (b : bool) (s : Timer) : Timer := mk_Timer (deadline s) (active s) b (clock s) (threads s).
Definition with_clock (c : Z) (s : Timer) : Timer := mk_Timer (deadline s) (active s) (line s) c (threads s).
Definition with_threads (l : list Pc) (s : Timer) : Timer := mk_Timer (deadline s) (active s) (line s) (clock s) l.

(** One access of a thread: the shared state after it and where the thread goes, [None]
    when it returns.  The scheduler that sets the flag starts a worker. *)
Definition access (s : Timer) (pc : Pc) : Timer * option Pc :=
  match pc with
  | SchedActivate => if active s then (s, None) else (with_active true s, Some WLoad)
  | WLoad => if deadline s =? TIMER_DISABLED then (s, Some WRelease) else (s, Some (WClock (deadline s)))
  | WRelease => (with_active false s, Some WRecheck)
  | WRecheck => if deadline s =? TIMER_DISABLED then (s, None) else (s, Some WRetake)
  | WRetake => if active s then (s, None) else (with_active true s, Some WLoad)
  | WClock d => if d <=? clock s then (s, Some (WClaim d)) else (s, Some WLoad)
  | WClaim d => if deadline s =? d then (with_deadline TIMER_DISABLED s, Some WFire) else (s, Some WLoad)
  | WFire => (with_line true s, Some WLoad)
  end.

(** A thread makes its next access. *)
Inductive thread_step : Timer -> Timer -> Prop :=
| step_thread s l1 pc l2 s' o :
    threads s = l1 ++ pc :: l2 -> access s pc = (s', o) ->
    thread_step s (with_threads (l1 ++ option_list o ++ l2) s').

(** The registers: the clock goes on, [cancel_timer], the handlers set the line, and
    [schedule_timer] stores a deadline and goes on to the flag. *)
Inductive env_step : Timer -> Timer -> Prop :=
| env_clock s c : clock s <= c -> env_step s (with_clock c s)
| env_cancel s : env_step s (with_deadline TIMER_DISABLED s)
| env_line s b : env_step s (with_line b s)
| env_arm s d : env_step s (with_threads (SchedActivate :: threads s) (with_deadline d s)).

Definition step (s s' : Timer) : Prop := thread_step s s' \/ env_step s s'.

Definition init (c : Z) : Timer := mk_Timer TIMER_DISABLED false false c [].

Definition reachable (s : Timer) : Prop := exists c, rtc step (init c) s.

(** ** The hand-over *)

Definition owner (pc : Pc) : bool :=
  match pc with SchedActivate | WRecheck | WRetake => false | _ => true end.

Definition owners (l : list Pc) : nat := length (filter (fun pc => owner pc = true) l).

Definition armed (s : Timer) : Prop := deadline s <> TIMER_DISABLED.

(** The flag is set exactly when one worker owns the timer; a deadline that is armed has a
    thread that will see it; a worker holds no disabled deadline. *)
Record inv (s : Timer) : Prop := {
  inv_owner : owners (threads s) = if active s then 1%nat else 0%nat;
  inv_served : armed s -> threads s <> [];
  inv_held : Forall (fun pc => pc <> WClock TIMER_DISABLED /\ pc <> WClaim TIMER_DISABLED) (threads s)
}.

Lemma owners_app l1 l2 : owners (l1 ++ l2) = (owners l1 + owners l2)%nat.
Proof. unfold owners. by rewrite filter_app, length_app. Qed.

Lemma owners_cons pc l : owners (pc :: l) = ((if owner pc then 1 else 0) + owners l)%nat.
Proof. unfold owners. rewrite filter_cons. destruct (owner pc); by rewrite ?decide_True, ?decide_False by done. Qed.

Lemma owners_nonempty l : (0 < owners l)%nat -> l <> [].
Proof. intros H ->. cbv in H. lia. Qed.

Lemma access_threads s pc s' o : access s pc = (s', o) -> threads s' = threads s /\ clock s' = clock s.
Proof. destruct pc; cbn; repeat case_match; by intros [= <- <-]. Qed.

Lemma thread_inv s s' : inv s -> thread_step s s' -> inv s'.
Proof.
  intros Hi Hst. destruct Hst as [s l1 pc l2 s1 o El Ea]. destruct Hi as [Ho Hs Hh]. rewrite El in *. rewrite owners_app, owners_cons in Ho.
  apply Forall_app in Hh as [Hh1 [Hpc Hh2]%Forall_cons].
  assert (Hne : o = None -> armed s1 -> l1 ++ l2 <> []).
  { intros -> Har. apply owners_nonempty. rewrite owners_app.
    destruct pc; cbn in Ea; repeat case_match; simplify_eq; cbn in Ho; try lia.
    exfalso. by apply Har, Z.eqb_eq. }
  constructor; cbn [threads active with_threads].
  - assert (Hop : owners (option_list o) = match o with Some x => if owner x then 1 else 0 | None => 0 end%nat)
      by (destruct o as [[]|]; reflexivity).
    rewrite !owners_app, Hop.
    destruct pc; cbn in Ea; destruct (active s) eqn:Eact; repeat case_if_in Ea; injection Ea as <- <-;
      cbn in *; rewrite ?Eact; lia.
  - intros Har. destruct o as [pc'|]; [|by apply Hne]. cbn. intros [_ [=]]%app_eq_nil.
  - rewrite !Forall_app. split_and!; [done| |done]. destruct o as [pc'|]; cbn; [|constructor].
    constructor; [|constructor]. destruct pc; cbn in Ea; repeat case_if_in Ea; simplify_eq;
      split; try done; intros [= Hd]; rewrite ?Z.eqb_neq in *; first [done|subst; by destruct Hpc].
Qed.

Lemma env_inv s s' : inv s -> env_step s s' -> inv s'.
Proof.
  intros Hi Hst. destruct Hst; destruct Hi as [Ho Hs Hh]; constructor; cbn; try done.
  constructor; done.
Qed.

Lemma timer_inv s : reachable s -> inv s.
Proof.
  intros [c Hr]. revert Hr. apply (rtc_ind_r (fun s => inv s)).
  - constructor; cbn; [done|done|constructor].
  - intros s1 s2 _ [Hst|Hst] Hi; [by eapply thread_inv|by eapply env_inv].
Qed.

(** ** Delivery *)

(** The accesses a thread still makes before it returns, while the clock is past the
    deadline. *)
Definition weight (d : Z) (pc : Pc) : nat :=
  if d =? TIMER_DISABLED then
    match pc with
    | SchedActivate | WRetake | WClaim _ | WFire => 4
    | WLoad => 3
    | WRelease => 2
    | WRecheck => 1
    | WClock _ => 5
    end
  else
    match pc with
    | SchedActivate | WRetake | WFire => 4
    | WLoad => 3
    | WRelease => 6
    | WRecheck => 5
    | WClock x => if x =? d then 2 else 5
    | WClaim x => if x =? d then 1 else 4
    end.

Definition total (d : Z) (l : list Pc) : nat := sum_list_with (weight d) l.

Definition measure (s : Timer) : nat :=
  total (deadline s) (threads s)
  + if deadline s =? TIMER_DISABLED then 0 else 6 * length (threads s).

Lemma total_bound l : (total TIMER_DISABLED l <= 5 * length l)%nat.
Proof.
  induction l as [|pc l IH]; [done|]. cbn [total sum_list_with length]. fold (total TIMER_DISABLED l).
  assert (weight TIMER_DISABLED pc <= 5)%nat by (destruct pc; vm_compute; lia). lia.
Qed.

Lemma total_app d l1 l2 : total d (l1 ++ l2) = (total d l1 + total d l2)%nat.
Proof. apply sum_list_with_app. Qed.

(** What holds of a state whose deadline has passed until its line is high. *)
Record due (s : Timer) : Prop := {
  due_inv : inv s;
  due_clock : armed s -> deadline s <= clock s;
  due_line : line s = true \/ WFire ∈ threads s \/ armed s
}.

(** An access brings its thread closer to the end, or takes the deadline. *)
Lemma access_weight s pc s' o :
  access s pc = (s', o) -> (armed s -> deadline s <= clock s) ->
  pc <> WClock TIMER_DISABLED -> pc <> WClaim TIMER_DISABLED ->
  (deadline s' = deadline s /\
   (match o with Some x => weight (deadline s) x | None => 0 end < weight (deadline s) pc)%nat)
  \/ (armed s /\ deadline s' = TIMER_DISABLED /\ o = Some WFire).
Proof.
  intros Ea Hc Hp1 Hp2. unfold armed in *.
  destruct (Z.eqb_spec (deadline s) TIMER_DISABLED) as [Hd|Hd];
  destruct pc as [| | | | |d|d|]; cbn in Ea; repeat case_if_in Ea; injection Ea as <- <-; rewrite ?Z.eqb_eq, ?Z.eqb_neq in *;
    try (right; split_and!; [congruence|done|done]); left; (split; [done|]); unfold weight; cbn [deadline with_active with_line];
    rewrite ?(proj2 (Z.eqb_eq _ _) Hd), ?(proj2 (Z.eqb_neq _ _) Hd), ?Z.eqb_refl; repeat case_if; try lia;
    rewrite ?Z.eqb_eq, ?Z.eqb_neq, ?Z.leb_gt in *; try lia; try congruence.
Qed.

Lemma total_option d o : total d (option_list o) = match o with Some x => weight d x | None => 0%nat end.
Proof. destruct o; cbn; lia. Qed.

Lemma measure_step s s' : due s -> thread_step s s' -> (measure s' < measure s)%nat.
Proof.
  intros Hd Hst. destruct Hst as [s l1 pc l2 s1 o El Ea]. destruct Hd as [[_ _ Hh] Hc _].
  rewrite El in Hh. apply Forall_app in Hh as [_ [[Hp1 Hp2] _]%Forall_cons].
  assert (Hlen : (length (option_list o) <= 1)%nat) by (destruct o; cbn; lia).
  unfold measure. cbn [deadline threads with_threads]. rewrite El.
  destruct (access_weight s pc s1 o Ea Hc Hp1 Hp2) as [[-> Hw]|(Har & -> & ->)].
  - change (pc :: l2) with ([pc] ++ l2). rewrite !total_app, total_option, !length_app.
    change (total (deadline s) [pc]) with (weight (deadline s) pc + 0)%nat. cbn [length].
    destruct (deadline s =? TIMER_DISABLED); lia.
  - pose proof (total_bound (l1 ++ option_list (Some WFire) ++ l2)) as Hb. rewrite Z.eqb_refl.
    rewrite (proj2 (Z.eqb_neq _ _) Har). revert Hb. cbn [option_list option_rect]. rewrite !length_app. cbn [length app].
    lia.
Qed.

Lemma due_step s s' : due s -> thread_step s s' -> due s'.
Proof.
  intros [Hi Hc Hl] Hst. constructor; [by eapply thread_inv|..]; destruct Hst as [s l1 pc l2 s1 o El Ea].
  - unfold armed in *. cbn. destruct (access_threads _ _ _ _ Ea) as [_ ->].
    destruct pc; cbn in Ea; repeat case_if_in Ea; injection Ea as <- <-; cbn; done.
  - cbn. unfold armed in *. rewrite El in Hl. rewrite !elem_of_app, elem_of_cons in Hl.
    rewrite !elem_of_app. destruct pc; cbn in Ea; repeat case_if_in Ea; injection Ea as <- <-; cbn; set_solver.
Qed.

Lemma due_sn s : due s -> sn thread_step s.
Proof.
  remember (measure s) as n eqn:En. revert s En. induction n as [n IH] using lt_wf_ind. intros s -> Hd.
  constructor. intros s' Hst. eapply IH; [by apply measure_step|done|by eapply due_step].
Qed.

Lemma thread_can_step s : threads s <> [] -> red thread_step s.
Proof.
  destruct (threads s) as [|pc l] eqn:E; [done|]. intros _. destruct (access s pc) as [s' o] eqn:Ea.
  eexists. by apply (step_thread s [] pc l s' o).
Qed.


(** A timer armed for 10 and not yet handed over, at 20. *)
Definition sample_timer : Timer := mk_Timer 10 false false 20 [SchedActivate].

Lemma sample_reachable : reachable sample_timer.
Proof.
  exists 20. apply (rtc_l _ _ sample_timer); [|apply rtc_refl]. right. exact (env_arm (init 20) 10).
Qed.


(** C36: a worker that has taken a deadline raises the line whatever happens in between:
    the register can be rewritten, the line lowered and a deadline far ahead armed, and
    the line goes high for the old value. *)
Theorem stale_raise :
  exists s1 s2 s3,
    reachable s1 /\ WFire ∈ threads s1 /\
    rtc env_step s1 s2 /\ line s2 = false /\ clock s2 < deadline s2 /\
    thread_step s2 s3 /\ line s3 = true /\ clock s3 < deadline s3.
Proof.
  exists (mk_Timer TIMER_DISABLED true false 20 [WFire]).
  exists (mk_Timer 1000 true false 20 [SchedActivate; WFire]).
  exists (mk_Timer 1000 true true 20 [SchedActivate; WLoad]).
  split_and!; try (vm_compute; reflexivity).
  - exists 20. eapply rtc_l; [right; exact (env_arm (init 20) 10)|].
    eapply rtc_l; [left; eapply (step_thread _ [] SchedActivate [] _ (Some WLoad)); reflexivity|].
    eapply rtc_l; [left; eapply (step_thread _ [] WLoad [] _ (Some (WClock 10))); reflexivity|].
    eapply rtc_l; [left; eapply (step_thread _ [] (WClock 10) [] _ (Some (WClaim 10))); reflexivity|].
    eapply rtc_l; [left; eapply (step_thread _ [] (WClaim 10) [] _ (Some WFire)); reflexivity|].
    apply rtc_refl.
  - by left.
  - eapply rtc_l; [apply env_cancel|]. eapply rtc_l; [exact (env_line _ false)|].
    eapply rtc_l; [exact (env_arm _ 1000)|]. apply rtc_refl.
  - exact (step_thread (mk_Timer 1000 true false 20 [SchedActivate; WFire]) [SchedActivate] WFire [] _ (Some WLoad)
      eq_refl eq_refl).
Qed.
